(* ===== verification/_CoqProject ===== *)
-Q . S2P
Prelude.v
GoFloat.v
GoText.v
GoRand.v
Config.v
Pool.v
Weights.v
Ring.v
GoTime.v
GoFmt.v
Stats.v
Quantile.v
Collector.v
Accounting.v
Series.v
CollectorRun.v
Summary.v
Totals.v
Interleave.v
DbApi.v
Result.v
Json.v
ResultFile.v
Registry.v
Metrics.v
Executor.v
Worker.v
MetricsTypes.v
Actors.v
Payload.v
PayloadText.v
PayloadField.v
PayloadBuild.v
PayloadTemplates.v
PayloadPools.v
Database.v
OpsSQL.v
Ops.v
OpsSpec.v
Migrate.v
Oltp.v
Schedule.v
Main.v
MainSpec.v
Agreement.v
