(* ===== verification/Prelude.v ===== *)
(** * pgstorm: a verification development

    pgstorm loads a PostgreSQL database with a mix of operations, summarises
    what it measured on the console and in Prometheus, and can write the run
    as a JSON document.  This library models its Go code (everything but the
    tests, the vendored modules and the deployment files) as Rocq definitions
    and proves what makes it correct.

    ** The parts and how they interact

    [main] loads the configuration, picks a profile, resolves its operation
    mix, opens the pool, migrates the schema, initialises the profile, and then
    runs workers until a duration or a signal stops them.  A worker draws an
    operation, executes it through its profile's executor, and accounts for the
    outcome twice: in its own statistics window and in the Prometheus metrics.
    The collector drains the windows at every summary and once more at the end,
    into a run total and an interval series, from which the result document is
    built and written.

    ** Files and code

    - Prelude, GoFloat, GoText, GoTime, GoFmt, GoRand: the Go that the program
      uses.  Wrapping 64-bit integers and a congruence for them; float64 on the
      standard library's [SpecFloat]; errors with their chain, decimal text, the
      environment; time and durations; the widths, [%.1f] and durations of fmt;
      random sources as a class [Rand] with the law [RandOk] of math/rand; the
      lengths [make] accepts.
    - Config: config/config.go.  Pool: db/pool.go.  Migrate: db/schema.go.
      Weights: workload/weights.go and the [OpDef] of workload/profile.go.
      Ring: workload/ring.go.  Actors: workload/actors.go.
    - Stats, Quantile: one operation's statistics in workload/stats.go
      ([opStats], [record_stats], [mergeInto], [quantileFrom], [latencyStats]).
      The abstraction of a value is the list of observations it stands for.
    - Collector, Accounting, Series, CollectorRun, Totals: the collector of
      workload/stats.go ([Record], [snapshot], [drain], [recordIntervalLocked],
      [Finalize]).  [CollectorRun.act] is one critical section; [run] is any
      sequence of them; [spec_run] is the same on lists of events, and [rep]
      relates the two.
    - Interleave: the same code under concurrency, as a step relation whose
      steps are the regions between lock and unlock of the two mutexes.
    - Summary: [print], [RunSummaryLoop] and the text helpers of
      workload/stats.go.
    - Result, Json, ResultFile: workload/result.go, from the snapshot queries
      and [BuildRunResult] over the JSON tree to the states a file system goes
      through in [WriteRunResult].
    - Registry, Metrics, MetricsTypes: metrics/*.go, the metric variables and
      their registration, the pollers, and the calls made on the client library.
    - Executor, Worker: workload/worker.go against the interface [Executor] of
      workload/profile.go, a class whose law [ExecutorOk] the oltp profile
      discharges.
    - Database, OpsSQL, Ops, OpsSpec: workload/ops.go.  An operation is a tree
      of calls (database, ring, uuid) interpreted by an arbitrary [handler]; the
      trace of calls is what the properties speak about.
    - Payload, PayloadText, PayloadField, PayloadBuild, PayloadTemplates,
      PayloadPools: workload/payload.go, the write path, encoding/json for the
      values the builders marshal, the builders, and the pools at start-up.
    - Oltp: workload/profile.go and workload/oltp.go.
    - Schedule: the workers of a run.  Each is a run of [RunWorker] over the
      oltp executor; the actions on the collector are computed from what these
      runs record and from the turns a scheduler gives them.
    - Main, MainSpec: main.go, as a program that emits its effects in order
      over the answers of its environment.  It waits for the runs of its
      workers, and a goroutine that panics may take it down at any later point.
    - Agreement: the metric calls of the workers next to the document.

    State is a record with the source's fields and is passed explicitly; a Go
    map is a [gmap], ranged over in an order no result depends on; a panic is
    [None] (or [Crashed], [Panicked], [Panic] where the caller must tell it
    from other ends); an error is a value of [GoText.error], returned in
    [result] or next to the effects made before it.  Each mutex region is one
    step.  What the program calls but does not contain (pgx, uuid, the
    Prometheus client, the file system, the clock, the scheduler) is an
    argument: its answers are universally quantified.

    ** What the theorems show

    - Nothing measured is lost or counted twice: under every interleaving
      (Interleave), over every run (Totals), in the console summaries (Summary),
      in the document (Result) and for the program as a whole (MainSpec); the
      series partitions the run and sums to the totals; a worker's statistics
      and its Prometheus metrics describe the same operations (Worker), and so
      do the document and the metrics of all workers (Agreement).
    - The figures are right: the percentiles are nearest-rank order statistics
      of the recorded latencies, and min, mean and max those of the successes
      (Quantile); operations are selected with exactly their weights (Weights).
    - The operations keep the transaction discipline on every path, their
      errors mean what the worker takes them for, and only committed sessions
      are published (OpsSpec); payloads are well-formed documents of bounded
      size, fresh on every write (PayloadPools).
    - The result file is never partial (ResultFile) and its tree determines the
      document (Json).
    - The metrics are well-typed and no counter is ever decreased
      (MetricsTypes, Metrics).
    - Start-up: exactly the valid settings are accepted (Config, Weights); the
      migration of the leader and the wait of the followers (Migrate); from any
      accepted configuration whose pools can be allocated the profile
      initialises and its workers run until the run ends without a crash (Oltp,
      Worker); the effects of [main] come in order, readiness implies started
      workers, a healthy run cancels its context, gets all its workers back and
      terminates, and what it writes is the document of what they recorded
      (MainSpec).
    - Where settings are too large for the machine integers they are converted
      to, or for what can be allocated (Pool, MainSpec, PayloadPools, Weights,
      Ring): the exact bounds, and what
      happens beyond them.

    ** Hypotheses and bounds

    Recursion is structural; loops that run until a context is done are over
    the list of what their passes observe, and the theorems quantify over that
    list.  The only fuel is the length of the string in [Summary.comma_loop],
    which the theorem about it shows to be enough.  Theorems about counters
    assume that the number of recorded operations fits [int64]; percentiles are
    exact below 2^40 samples.  [RandOk] is the documented range of math/rand;
    [float_text_ok] says that a float is encoded in at most 32 bytes of plain
    JSON text; [ok_handler] says that no driver error wraps the program's own
    [errSkipped] and that the shared ring is well-formed; [fresh_temp] that
    [os.CreateTemp] returns a name that did not exist.  [allocatable]
    bounds the settings that decide how much is allocated at start-up: the ring
    and the populations by the 2^44 ids [make] can hold, payloads by 2^36 KB, so
    that every buffer on their way stays below the limit of 2^48 bytes.  Running
    out of memory below that is not modelled.

    ** Not modelled

    Log lines (other than the ones workers and pollers log for an error, and
    the fatal ones of [main]) have no effect on the program.  The text of a JSON
    number or string in the result document, and the format of the wall clock,
    are parameters.  The SQL statements are texts: what the database does with
    them is not modelled, only that the right ones are sent in the right order.
    The HTTP server and the Prometheus client are third-party code; the handlers
    and the calls made on the client are modelled.  [godotenv.Load] is part of
    the environment.  The goroutines' interleaving is modelled for the collector
    (Interleave), by the turns of a scheduler for the workers of a run
    (Schedule), and by arbitrary actions of others in Summary.
    Dashboards, manifests, scripts and tests are not
    part of the program. *)

From Stdlib Require Export ZArith Lia Morphisms.
From stdpp Require Export base gmap strings list fin_maps sorting pretty.

#[export] Set Default Goal Selector "!".
Open Scope Z_scope.

(** ** Machine integers

    Go's [int] and [int64] are 64 bit two's complement integers and [int32]
    is 32 bit; arithmetic wraps silently.  A value is a [Z]; [wrap w] brings
    a mathematical result back into the signed range of width [w]. *)

Declare Scope go_scope.
Delimit Scope go_scope with go.

Definition wrap (w z : Z) : Z := (z + 2 ^ (w - 1)) mod 2 ^ w - 2 ^ (w - 1).

Definition in_int (w z : Z) : Prop := - 2 ^ (w - 1) ≤ z < 2 ^ (w - 1).

#[export] Instance in_int_dec w z : Decision (in_int w z).
Proof. unfold in_int. apply _. Defined.

Notation int64_min := (-9223372036854775808).
Notation int64_max := 9223372036854775807.

Notation "a +! b" := (wrap 64 (a + b)) (at level 50, left associativity) : go_scope.
Notation "a -! b" := (wrap 64 (a - b)) (at level 50, left associativity) : go_scope.
Notation "a *! b" := (wrap 64 (a * b)) (at level 40, left associativity) : go_scope.
Open Scope go_scope.

Lemma wrap_small w z : 0 < w → in_int w z → wrap w z = z.
Proof.
  intros Hw [Hl Hu]. unfold wrap.
  assert (2 ^ w = 2 * 2 ^ (w - 1)) as Hp.
  { rewrite <- Z.pow_succ_r by lia. f_equal; lia. }
  rewrite Z.mod_small; lia.
Qed.

Lemma wrap_range w z : 0 < w → in_int w (wrap w z).
Proof.
  intros Hw. unfold wrap, in_int.
  assert (2 ^ w = 2 * 2 ^ (w - 1)) as Hp.
  { rewrite <- Z.pow_succ_r by lia. f_equal; lia. }
  assert (0 < 2 ^ (w - 1)) by (apply Z.pow_pos_nonneg; lia).
  pose proof (Z.mod_pos_bound (z + 2 ^ (w - 1)) (2 ^ w) ltac:(lia)). lia.
Qed.

Lemma wrap64_small z : int64_min ≤ z ≤ int64_max → wrap 64 z = z.
Proof. intros H. apply wrap_small; [lia|]. unfold in_int. simpl. lia. Qed.

Lemma wrap64_range z : int64_min ≤ wrap 64 z ≤ int64_max.
Proof. pose proof (wrap_range 64 z ltac:(lia)) as H. unfold in_int in H. simpl in H. lia. Qed.

(** Two integers that agree modulo [2^64] are the same [int64].  The relation
    is a congruence for the ring operations, and wrapping is invisible to it,
    so sums of wrapped counters rewrite like sums of integers. *)

Definition eq64 (a b : Z) : Prop := wrap 64 a = wrap 64 b.
Infix "≡₆₄" := eq64 (at level 70, no associativity) : go_scope.

Lemma eq64_divide a b : a ≡₆₄ b ↔ (2 ^ 64 | a - b).
Proof.
  unfold eq64, wrap. split.
  - intros H. apply Z.mod_divide; [lia|].
    replace (a - b) with ((a + 2 ^ (64 - 1)) - (b + 2 ^ (64 - 1))) by lia.
    rewrite Zminus_mod.
    assert ((a + 2 ^ (64 - 1)) mod 2 ^ 64 = (b + 2 ^ (64 - 1)) mod 2 ^ 64) as -> by lia.
    rewrite Z.sub_diag. reflexivity.
  - intros [k Hk]. f_equal.
    replace (a + 2 ^ (64 - 1)) with (b + 2 ^ (64 - 1) + k * 2 ^ 64) by lia.
    apply Z_mod_plus_full.
Qed.

#[export] Instance eq64_equiv : Equivalence eq64.
Proof. split; unfold eq64; [intros ? | intros ?? | intros ???]; congruence. Qed.

#[export] Instance eq64_add : Proper (eq64 ==> eq64 ==> eq64) Z.add.
Proof.
  intros a a' [k Hk]%eq64_divide b b' [l Hl]%eq64_divide.
  apply eq64_divide. exists (k + l). lia.
Qed.

#[export] Instance eq64_sub : Proper (eq64 ==> eq64 ==> eq64) Z.sub.
Proof.
  intros a a' [k Hk]%eq64_divide b b' [l Hl]%eq64_divide.
  apply eq64_divide. exists (k - l). lia.
Qed.

#[export] Instance eq64_wrap_proper : Proper (eq64 ==> eq) (wrap 64).
Proof. intros a b H. exact H. Qed.

Lemma wrap64_eq64 z : wrap 64 z ≡₆₄ z.
Proof.
  apply eq64_divide. unfold wrap.
  exists (- ((z + 2 ^ (64 - 1)) / 2 ^ 64)).
  pose proof (Z.div_mod (z + 2 ^ (64 - 1)) (2 ^ 64) ltac:(lia)). lia.
Qed.

Lemma eq64_inj a b :
  int64_min ≤ a ≤ int64_max → int64_min ≤ b ≤ int64_max → a ≡₆₄ b → a = b.
Proof. unfold eq64. intros Ha Hb. rewrite !wrap64_small by done. done. Qed.

Lemma wrap64_congr a b : a ≡₆₄ b → wrap 64 a = wrap 64 b.
Proof. done. Qed.

Lemma eq64_of_eq a b : a = b → a ≡₆₄ b.
Proof. by intros ->. Qed.

Create HintDb go discriminated.

(** [mod64] proves that two wrapped (or congruent) expressions agree: inner
    wraps are dropped and what remains is linear arithmetic. *)
Ltac mod64 :=
  try apply wrap64_congr; rewrite ?wrap64_eq64; apply eq64_of_eq; lia.

(** Ceiling division, the exact counterpart of [math.Ceil(x / y)]. *)
Definition cdiv (a b : Z) : Z := - ((- a) / b).

Lemma cdiv_bounds a b : 0 < b → (cdiv a b - 1) * b < a ≤ cdiv a b * b.
Proof.
  intros Hb. unfold cdiv.
  pose proof (Z.div_mod (- a) b ltac:(lia)).
  pose proof (Z.mod_pos_bound (- a) b Hb). nia.
Qed.

Lemma cdiv_le_mono a a' b : 0 < b → a ≤ a' → cdiv a b ≤ cdiv a' b.
Proof. intros Hb Ha. unfold cdiv. pose proof (Z.div_le_mono (- a') (- a) b Hb). lia. Qed.

(** ** Making slices

    [make([]T, n)] with elements of [elem] bytes panics ([None]) when the length
    is negative or the slice is larger than the address space of the heap, 48
    bits on the 64-bit platforms; running out of memory below that is outside
    the language. *)

Definition max_alloc : Z := 281474976710656.

Definition make_len (elem n : Z) : option nat :=
  if (n <? 0) || (max_alloc <? elem * n) then None else Some (Z.to_nat n).

Lemma make_len_some elem n : 0 ≤ n → elem * n ≤ max_alloc → make_len elem n = Some (Z.to_nat n).
Proof.
  intros Hn He. unfold make_len. rewrite (proj2 (Z.ltb_ge n 0)), (proj2 (Z.ltb_ge max_alloc _)) by lia. done.
Qed.

Lemma make_len_none elem n : n < 0 ∨ max_alloc < elem * n → make_len elem n = None.
Proof.
  intros [Hn|He]; unfold make_len; [by rewrite (proj2 (Z.ltb_lt n 0)) by lia|].
  by rewrite (proj2 (Z.ltb_lt max_alloc _)), orb_true_r by lia.
Qed.

(** ** Sums over lists *)

Definition sum_list_Z (l : list Z) : Z := foldr Z.add 0 l.

Lemma sum_list_Z_cons x l : sum_list_Z (x :: l) = x + sum_list_Z l.
Proof. done. Qed.

Lemma sum_list_Z_app l k : sum_list_Z (l ++ k) = sum_list_Z l + sum_list_Z k.
Proof. induction l as [|x l IH]; simpl; lia. Qed.

Lemma sum_list_Z_nonneg l : Forall (λ z, 0 ≤ z) l → 0 ≤ sum_list_Z l.
Proof. induction 1; simpl; lia. Qed.

#[export] Instance sum_list_Z_perm : Proper ((≡ₚ) ==> eq) sum_list_Z.
Proof. induction 1; simpl; lia. Qed.

(** A sum computed with wrapping additions is the wrapped sum. *)
Lemma foldl_wrap_add {A} (f : A → Z) (l : list A) (acc : Z) :
  foldl (λ t x, t +! f x) (wrap 64 acc) l = wrap 64 (acc + sum_list_Z (f <$> l)).
Proof.
  revert acc. induction l as [|x l IH]; intros acc; simpl; [by rewrite Z.add_0_r|].
  rewrite Z.add_assoc, <- IH. f_equal. mod64.
Qed.

(** ** Filtering *)

Lemma filter_all {A} (P : A → Prop) `{∀ x, Decision (P x)} (l : list A) :
  Forall P l → filter P l = l.
Proof. induction 1; [done|]. rewrite filter_cons_True by done. by f_equal. Qed.

Lemma filter_none {A} (P : A → Prop) `{∀ x, Decision (P x)} (l : list A) :
  Forall (λ x, ¬ P x) l → filter P l = [].
Proof. induction 1; [done|]. by rewrite filter_cons_False. Qed.

(** The integers of [0, n) that lie in a subinterval number its length. *)
Lemma count_interval (P : Z → Prop) `{∀ x, Decision (P x)} (n s w : Z) :
  0 ≤ s → 0 ≤ w → s + w ≤ n → (∀ r, 0 ≤ r < n → P r ↔ s ≤ r < s + w) →
  length (filter P (seqZ 0 n)) = Z.to_nat w.
Proof.
  intros Hs Hw Hn HP.
  replace n with (s + (w + (n - s - w))) by lia.
  rewrite !seqZ_app by lia. rewrite !filter_app.
  rewrite (filter_none P (seqZ 0 s)), (filter_all P (seqZ (0 + s) w)),
    (filter_none P (seqZ (0 + s + w) _)).
  - simpl. rewrite app_nil_r. apply length_seqZ.
  - apply Forall_seqZ. intros r ? ?%HP; lia.
  - apply Forall_seqZ. intros r ?. apply HP; lia.
  - apply Forall_seqZ. intros r ? ?%HP; lia.
Qed.
