(* ===== verification/GoFloat.v ===== *)
(** * Go's float64

    IEEE 754 binary64 as [spec_float] of the Standard Library with 53 bits of
    precision; every operation is round to nearest even and executable.  The
    conversions follow Go: [float64(i)] rounds, [int64(f)] truncates toward
    zero and yields the least [int64] when the value is out of range (the
    amd64 behaviour; the language leaves that case to the implementation). *)

From Stdlib Require Export Floats.SpecFloat.
From S2P Require Export Prelude.

Notation f64 := spec_float (only parsing).

Definition fadd : f64 → f64 → f64 := SFadd 53 1024.
Definition fsub : f64 → f64 → f64 := SFsub 53 1024.
Definition fmul : f64 → f64 → f64 := SFmul 53 1024.
Definition fdiv : f64 → f64 → f64 := SFdiv 53 1024.

Definition fltb : f64 → f64 → bool := SFltb.
Definition fleb : f64 → f64 → bool := SFleb.

Definition f_zero : f64 := S754_zero false.

(** [float64(z)] for an integer [z]. *)
Definition of_int (z : Z) : f64 := binary_normalize 53 1024 z 0 false.

(** A decimal literal [n/d]: the float nearest to the quotient. *)
Definition f_lit (n d : Z) : f64 := fdiv (of_int n) (of_int d).

(** The integer part and the ceiling of a finite magnitude [m * 2^e]. *)
Definition trunc_pos (m : positive) (e : Z) : Z :=
  if 0 <=? e then Zpos m * 2 ^ e else Zpos m / 2 ^ (- e).

Definition ceil_pos (m : positive) (e : Z) : Z :=
  if 0 <=? e then Zpos m * 2 ^ e else - ((- Zpos m) / 2 ^ (- e)).

(** [int64(f)]. *)
Definition to_int64 (f : f64) : Z :=
  match f with
  | S754_zero _ => 0
  | S754_finite s m e =>
      let z := if s then - trunc_pos m e else trunc_pos m e in
      if (int64_min <=? z) && (z <=? int64_max) then z else int64_min
  | S754_infinity _ | S754_nan => int64_min
  end.

(** [math.Ceil]. *)
Definition fceil (f : f64) : f64 :=
  match f with
  | S754_finite s m e =>
      if 0 <=? e then f
      else
        let c := if s then - trunc_pos m e else ceil_pos m e in
        if c =? 0 then S754_zero s else of_int c
  | _ => f
  end.

(** ** The rounding of an exact product or integer *)

Lemma digits2_pos_spec (p : positive) :
  2 ^ (Zpos (digits2_pos p) - 1) ≤ Zpos p < 2 ^ Zpos (digits2_pos p).
Proof.
  induction p as [p IH|p IH|]; simpl digits2_pos; [| |simpl; lia].
  all: rewrite Pos2Z.inj_succ, Z.pow_succ_r by lia;
    replace (Z.succ (Zpos (digits2_pos p)) - 1) with (Z.succ (Zpos (digits2_pos p) - 1)) by lia;
    rewrite Z.pow_succ_r by lia; lia.
Qed.

Lemma digits2_pos_unique (p : positive) (d : Z) :
  1 ≤ d → 2 ^ (d - 1) ≤ Zpos p < 2 ^ d → Zpos (digits2_pos p) = d.
Proof.
  intros Hd [Hl Hu]. pose proof (digits2_pos_spec p) as [Hl' Hu'].
  assert (d - 1 < Zpos (digits2_pos p)) by (apply (Z.pow_lt_mono_r_iff 2); lia).
  assert (Zpos (digits2_pos p) - 1 < d) by (apply (Z.pow_lt_mono_r_iff 2); lia).
  lia.
Qed.

Lemma iter_pos_nat {A} (f : A → A) (n : positive) (x : A) :
  SpecFloat.iter_pos f n x = Nat.iter (Pos.to_nat n) f x.
Proof.
  revert x. induction n as [n IH|n IH|]; intros x; cbn [SpecFloat.iter_pos]; [| |done].
  - rewrite !IH, Pos2Nat.inj_xI, <- Nat.iter_succ_r, <- Nat.iter_add.
    f_equal. lia.
  - rewrite !IH, Pos2Nat.inj_xO, <- Nat.iter_add. f_equal. lia.
Qed.

(** Shifting [M] right by [k] bits keeps the quotient, the last bit shifted
    out and whether any bit below that one was set. *)
Definition shifted (M : Z) (k : nat) : shr_record :=
  {| shr_m := M / 2 ^ Z.of_nat k;
     shr_r := (0 <? Z.of_nat k) && Z.odd (M / 2 ^ (Z.of_nat k - 1));
     shr_s := (0 <? Z.of_nat k) && negb (M mod 2 ^ (Z.of_nat k - 1) =? 0) |}.

Lemma shr_1_spec (m : Z) (r s : bool) :
  0 ≤ m →
  shr_1 {| shr_m := m; shr_r := r; shr_s := s |} =
  {| shr_m := m / 2; shr_r := Z.odd m; shr_s := r || s |}.
Proof.
  intros Hm. destruct m as [|[p|p|]|p]; simpl; try done; try lia.
  - rewrite (Z.div_unique_pos (Zpos p~1) 2 (Zpos p) 1) by lia. done.
  - rewrite (Z.div_unique_pos (Zpos p~0) 2 (Zpos p) 0) by lia. done.
Qed.

Lemma shr_iter (M : Z) (k : nat) :
  0 ≤ M →
  Nat.iter k shr_1 {| shr_m := M; shr_r := false; shr_s := false |} = shifted M k.
Proof.
  intros HM. induction k as [|k IH].
  - unfold shifted; simpl. rewrite Z.div_1_r. done.
  - rewrite Nat.iter_succ, IH. unfold shifted at 1.
    assert (0 < 2 ^ Z.of_nat k) by (apply Z.pow_pos_nonneg; lia).
    rewrite shr_1_spec by (apply Z.div_pos; lia). unfold shifted.
    rewrite Nat2Z.inj_succ, Z.pow_succ_r, Z.mul_comm, <- Zdiv_Zdiv by lia.
    replace (Z.succ (Z.of_nat k) - 1) with (Z.of_nat k) by lia.
    rewrite (proj2 (Z.ltb_lt 0 (Z.succ (Z.of_nat k)))) by lia. simpl. f_equal.
    destruct (decide (k = 0%nat)) as [->|Hk]; [simpl; rewrite Z.mod_1_r; done|].
    rewrite (proj2 (Z.ltb_lt 0 (Z.of_nat k))) by lia. simpl.
    set (j := Z.of_nat k - 1). replace (Z.of_nat k) with (Z.succ j) by lia.
    assert (0 < 2 ^ j) by (apply Z.pow_pos_nonneg; lia).
    rewrite Z.pow_succ_r by lia. rewrite (Z.mul_comm 2), Z.rem_mul_r by lia.
    rewrite (Zmod_odd (M / 2 ^ j)).
    pose proof (Z.mod_pos_bound M (2 ^ j) ltac:(lia)).
    destruct (Z.odd (M / 2 ^ j)) eqn:?; simpl.
    + symmetry. apply negb_true_iff, Z.eqb_neq. lia.
    + rewrite Z.mul_0_r, Z.add_0_r. done.
Qed.

Lemma shr_fexp_exact (p : positive) (e k : Z) :
  k = fexp 53 1024 (Zpos (digits2_pos p) + e) - e → 0 ≤ k →
  shr_fexp 53 1024 (Zpos p) e loc_Exact = (shifted (Zpos p) (Z.to_nat k), e + k).
Proof.
  intros Hk Hk0. unfold shr_fexp. simpl Zdigits2. rewrite <- Hk.
  change (shr_record_of_loc (Zpos p) loc_Exact)
    with {| shr_m := Zpos p; shr_r := false; shr_s := false |}.
  unfold shr. destruct k as [|k|k]; [| |lia].
  - unfold shifted; simpl. rewrite Z.div_1_r. f_equal. lia.
  - rewrite iter_pos_nat, shr_iter by lia. done.
Qed.

(** Rounding a shifted mantissa to nearest even errs by at most half of the
    last place. *)
Lemma round_shifted (M : Z) (k : nat) :
  0 ≤ M →
  let m1 := round_nearest_even (shr_m (shifted M k)) (loc_of_shr_record (shifted M k)) in
  2 * Z.abs (m1 * 2 ^ Z.of_nat k - M) ≤ 2 ^ Z.of_nat k.
Proof.
  intros HM m1. subst m1.
  destruct k as [|k']; [unfold shifted; simpl; rewrite Z.div_1_r; lia|].
  unfold shifted. rewrite Nat2Z.inj_succ. set (j := Z.of_nat k').
  replace (Z.succ j - 1) with j by lia.
  rewrite (proj2 (Z.ltb_lt 0 (Z.succ j))) by lia. simpl shr_m. simpl andb.
  assert (0 < 2 ^ j) by (apply Z.pow_pos_nonneg; lia).
  assert (2 ^ Z.succ j = 2 ^ j * 2) as -> by (rewrite Z.pow_succ_r by lia; lia).
  rewrite <- Zdiv_Zdiv by lia.
  pose proof (Z.mod_pos_bound M (2 ^ j) ltac:(lia)) as Ht.
  pose proof (Z.div_mod M (2 ^ j) ltac:(lia)) as HMd.
  pose proof (Z.div_mod (M / 2 ^ j) 2 ltac:(lia)) as Hq.
  rewrite Zmod_odd in Hq.
  set (q := M / 2 ^ j) in *. set (t := M mod 2 ^ j) in *. set (m0 := q / 2) in *.
  assert (HX : ∀ i, (m0 + i) * (2 ^ j * 2) - M =
                    i * 2 ^ j * 2 - (if Z.odd q then 2 ^ j else 0) - t).
  { intros i. clearbody t m0. destruct (Z.odd q); rewrite Hq in HMd; rewrite HMd; ring. }
  pose proof (HX 0) as HX0. pose proof (HX 1) as HX1. rewrite Z.add_0_r in HX0.
  destruct (Z.odd q); destruct (Z.eqb_spec t 0) as [Ht0|Ht0];
    simpl; try (destruct (Z.even m0)); rewrite ?HX0, ?HX1; lia.
Qed.

(** A positive mantissa of at least 53 bits, in the normal range, rounds to a
    finite float within half of the last of its 53 bits. *)
Lemma binary_round_aux_normal (s : bool) (p : positive) (e : Z) :
  let d := Zpos (digits2_pos p) in
  53 ≤ d → -1074 ≤ e + d - 53 → d + e ≤ 1023 →
  ∃ m' e',
    binary_round_aux 53 1024 s (Zpos p) e loc_Exact = S754_finite s m' e' ∧
    e + (d - 53) ≤ e' ≤ 971 ∧
    2 * Z.abs (Zpos m' * 2 ^ (e' - e) - Zpos p) ≤ 2 ^ (d - 53).
Proof.
  intros d Hd Hlo Hhi. pose proof (digits2_pos_spec p) as [Hpl Hpu]. fold d in Hpl, Hpu.
  unfold binary_round_aux.
  rewrite (shr_fexp_exact p e (d - 53)); [|unfold fexp, emin; fold d; lia|lia].
  set (k := Z.to_nat (d - 53)).
  pose proof (round_shifted (Zpos p) k ltac:(lia)) as Hr.
  replace (Z.of_nat k) with (d - 53) in Hr by lia. simpl in Hr.
  set (m1 := round_nearest_even _ _) in *.
  assert (H53 : 2 ^ (d - 1) = 2 ^ 52 * 2 ^ (d - 53)) by (rewrite <- Z.pow_add_r by lia; f_equal; lia).
  assert (H54 : 2 ^ d = 2 ^ 53 * 2 ^ (d - 53)) by (rewrite <- Z.pow_add_r by lia; f_equal; lia).
  assert (0 < 2 ^ (d - 53)) by (apply Z.pow_pos_nonneg; lia).
  assert (Hm1 : 2 ^ 52 ≤ m1 ≤ 2 ^ 53) by nia.
  destruct m1 as [|q|q]; [lia| |lia].
  destruct (Z.eq_dec (Zpos q) (2 ^ 53)) as [Hq|Hq].
  - assert (q = 9007199254740992%positive) as -> by lia.
    rewrite (shr_fexp_exact _ (e + (d - 53)) 1);
      [|unfold fexp, emin; simpl; lia|lia].
    simpl. rewrite (proj2 (Z.leb_le _ _)) by lia.
    exists 4503599627370496%positive, (e + (d - 53) + 1). split; [done|]. split; [lia|].
    replace (e + (d - 53) + 1 - e) with (1 + (d - 53)) by lia.
    rewrite Z.pow_add_r by lia. lia.
  - assert (Zpos (digits2_pos q) = 53) as Hdq by (apply digits2_pos_unique; lia).
    rewrite (shr_fexp_exact q (e + (d - 53)) 0);
      [|unfold fexp, emin; rewrite Hdq; lia|lia].
    unfold shifted; simpl. rewrite Z.div_1_r.
    rewrite (proj2 (Z.leb_le _ _)) by lia.
    exists q, (e + (d - 53) + 0). split; [done|]. split; [lia|].
    replace (e + (d - 53) + 0 - e) with (d - 53) by lia. lia.
Qed.

(** ** Exactness of the integer conversions *)

Lemma pos_iter_xO (p n : positive) : Zpos (Pos.iter xO p n) = Zpos p * 2 ^ Zpos n.
Proof.
  induction n as [|n IH] using Pos.peano_ind.
  - simpl. lia.
  - rewrite Pos.iter_succ, Pos2Z.inj_succ, Z.pow_succ_r by lia. lia.
Qed.

(** An integer below [2^53] is the float with its own value, and its mantissa
    has all 53 bits. *)
Lemma of_int_pos (z : Z) :
  0 < z < 2 ^ 53 →
  ∃ m d, of_int z = S754_finite false m (d - 53) ∧ Zpos m = z * 2 ^ (53 - d) ∧
    1 ≤ d ≤ 53 ∧ 2 ^ (d - 1) ≤ z < 2 ^ d ∧ Zpos (digits2_pos m) = 53.
Proof.
  intros Hz. destruct z as [|p|p]; [lia| |lia].
  pose proof (digits2_pos_spec p) as [Hl Hu]. set (d := Zpos (digits2_pos p)) in *.
  assert (d - 1 < 53) by (apply (Z.pow_lt_mono_r_iff 2); lia).
  assert (1 ≤ d) by lia.
  unfold of_int, binary_normalize, binary_round, shl_align. fold d.
  assert (fexp 53 1024 (d + 0) = d - 53) as -> by (unfold fexp, emin; lia).
  assert (∃ m, (match d - 53 - 0 with
    | Zneg d0 => (Pos.iter xO p d0, d - 53) | _ => (p, 0) end) = (m, d - 53)
    ∧ Zpos m = Zpos p * 2 ^ (53 - d)) as (m & -> & Hm).
  { destruct (d - 53 - 0) as [|k|k] eqn:Hk; [|lia|].
    - exists p. split; [f_equal; lia|]. replace (53 - d) with 0 by lia. lia.
    - exists (Pos.iter xO p k). split; [done|]. rewrite pos_iter_xO. do 2 f_equal. lia. }
  assert (2 ^ 53 = 2 ^ d * 2 ^ (53 - d)) by (rewrite <- Z.pow_add_r by lia; f_equal; lia).
  assert (2 ^ 52 = 2 ^ (d - 1) * 2 ^ (53 - d)) by (rewrite <- Z.pow_add_r by lia; f_equal; lia).
  assert (0 < 2 ^ (53 - d)) by (apply Z.pow_pos_nonneg; lia).
  assert (Hdm : Zpos (digits2_pos m) = 53) by (apply digits2_pos_unique; nia).
  exists m, d. split; [|repeat split; first [done | lia]].
  unfold binary_round_aux.
  rewrite (shr_fexp_exact m (d - 53) 0); [|unfold fexp, emin; lia|lia].
  unfold shifted; simpl. rewrite Z.div_1_r.
  rewrite (shr_fexp_exact m (d - 53 + 0) 0); [|unfold fexp, emin; lia|lia].
  unfold shifted; simpl. rewrite Z.div_1_r.
  rewrite (proj2 (Z.leb_le _ _)) by lia. f_equal; lia.
Qed.

Lemma trunc_pos_scaled (m : positive) (z k : Z) :
  0 ≤ k → Zpos m = z * 2 ^ k → trunc_pos m (- k) = z.
Proof.
  intros Hk Hm. unfold trunc_pos. destruct (Z.leb_spec 0 (- k)).
  - assert (k = 0) as -> by lia. simpl in *. lia.
  - rewrite Hm, Z.opp_involutive. apply Z.div_mul.
    assert (0 < 2 ^ k) by (apply Z.pow_pos_nonneg; lia). lia.
Qed.

(** [int64(float64(z)) = z] as long as [z] fits the mantissa. *)
Lemma to_int64_of_int (z : Z) : 0 ≤ z < 2 ^ 53 → to_int64 (of_int z) = z.
Proof.
  intros Hz. destruct (Z.eq_dec z 0) as [->|]; [done|].
  destruct (of_int_pos z) as (m & d & -> & Hm & Hd & _); [lia|].
  unfold to_int64. replace (d - 53) with (- (53 - d)) by lia.
  rewrite (trunc_pos_scaled m z (53 - d)) by lia.
  rewrite (proj2 (Z.leb_le _ _)), (proj2 (Z.leb_le _ _)) by lia. done.
Qed.

(** A positive float that lies in [(K-1, K]] has ceiling [K]. *)
Lemma fceil_finite (m : positive) (e u K : Z) :
  0 < K < 2 ^ 53 → 0 ≤ u → - u ≤ e →
  (K - 1) * 2 ^ u < Zpos m * 2 ^ (e + u) ≤ K * 2 ^ u →
  to_int64 (fceil (S754_finite false m e)) = K.
Proof.
  intros HK Hu He Hb. assert (0 < 2 ^ u) by (apply Z.pow_pos_nonneg; lia).
  unfold fceil. destruct (Z.leb_spec 0 e) as [He0|He0].
  - assert (Zpos m * 2 ^ e = K) as HmK.
    { rewrite Z.pow_add_r, Z.mul_assoc in Hb by lia. nia. }
    unfold to_int64, trunc_pos. rewrite (proj2 (Z.leb_le 0 e)) by lia.
    rewrite HmK, (proj2 (Z.leb_le _ _)), (proj2 (Z.leb_le _ _)) by lia. done.
  - assert (ceil_pos m e = K) as ->.
    { unfold ceil_pos. rewrite (proj2 (Z.leb_gt 0 e)) by lia.
      assert (2 ^ u = 2 ^ (- e) * 2 ^ (e + u)) as Hp
        by (rewrite <- Z.pow_add_r by lia; f_equal; lia).
      assert (0 < 2 ^ (e + u)) by (apply Z.pow_pos_nonneg; lia).
      assert (0 < 2 ^ (- e)) by (apply Z.pow_pos_nonneg; lia).
      assert ((K - 1) * 2 ^ (- e) < Zpos m ≤ K * 2 ^ (- e)) by nia.
      rewrite <- (Z.div_unique_pos (- Zpos m) (2 ^ (- e)) (- K) (K * 2 ^ (- e) - Zpos m)); lia. }
    rewrite (proj2 (Z.eqb_neq K 0)) by lia. apply to_int64_of_int. lia.
Qed.

(** A rounded product [V], scaled by [2^53 * S], stays above the integer below
    the quotient: the fraction lost is smaller than a [1/b] step. *)
Lemma product_above (a b q z K S S' V U : Z) :
  0 < b ≤ 1000 → 0 < z < 2 ^ 40 → a * 2 ^ 53 < (q + 1) * b → (K - 1) * b < a * z →
  S = 2 ^ 13 * S' → 0 < S' → U ≤ 2 ^ 53 → 2 * (q * (z * S)) - U ≤ 2 * V →
  (K - 1) * (2 ^ 53 * S) < V.
Proof.
  intros Hb Hz Hq HK HS HS' HU HV.
  assert (HzS : 0 < z * S) by (clear - Hz HS HS'; nia).
  assert (Hlow : a * 2 ^ 53 * (z * S) - b * (z * S) < q * b * (z * S)) by (clear - Hq HzS; nia).
  assert (Hstep : (K - 1) * b * (2 ^ 53 * S) + 2 ^ 53 * S ≤ a * z * (2 ^ 53 * S))
    by (assert (0 < 2 ^ 53 * S) by (clear - HS HS'; lia); clear - HK H; nia).
  assert (Hgap : b * (z * S) + 2 ^ 52 * b < 2 ^ 53 * S)
    by (assert (Hbz : b * z ≤ 1000 * 2 ^ 40) by (clear - Hz Hb; nia); clear - Hbz HS HS' Hb; nia).
  assert (HVb : 2 * (q * (z * S)) * b - U * b ≤ 2 * V * b)
    by (rewrite <- Z.mul_sub_distr_r; apply Z.mul_le_mono_nonneg_r; lia).
  assert (HUb : U * b ≤ 2 ^ 53 * b) by (apply Z.mul_le_mono_nonneg_r; lia).
  apply (Z.mul_lt_mono_pos_r b); [lia|]. clear - Hlow Hstep Hgap HVb HUb. lia.
Qed.

(** It stays at or below the integer above the quotient: both are multiples of
    the unit [U] of the rounding. *)
Lemma product_below (a b q z K S U w v : Z) :
  0 < b → 0 < z → 0 < S → 0 < U → q * b ≤ a * 2 ^ 53 → a * z ≤ K * b → 2 ^ 53 * S = w * U →
  2 * (v * U) ≤ 2 * (q * (z * S)) + U → v * U ≤ K * (2 ^ 53 * S).
Proof.
  intros Hb Hz HS HU Hq HK Hw Hv.
  assert (Hup1 : q * b * (z * S) ≤ a * 2 ^ 53 * (z * S))
    by (apply Z.mul_le_mono_nonneg_r; [clear - Hz HS; nia|done]).
  assert (Hup2 : a * z * (2 ^ 53 * S) ≤ K * b * (2 ^ 53 * S))
    by (apply Z.mul_le_mono_nonneg_r; [clear - HS; lia|done]).
  assert (Hle : q * (z * S) ≤ K * w * U).
  { rewrite <- Z.mul_assoc, <- Hw. apply (Z.mul_le_mono_pos_r _ _ b); [lia|]. clear - Hup1 Hup2. lia. }
  rewrite Hw, Z.mul_assoc. apply Z.mul_le_mono_nonneg_r; [lia|].
  apply Z.lt_succ_r, (Z.mul_lt_mono_pos_r U); [done|]. clear - Hle Hv HU. lia.
Qed.

(** The product of a 53 bit fraction just below [a/b] and an integer [z] has
    the ceiling of the exact quotient [a*z/b]: the rounding of the literal and
    of the product never push the value across an integer. *)
Lemma fmul_ceil (mq : positive) (a b z : Z) :
  0 < a ≤ b → b ≤ 1000 → Zpos (digits2_pos mq) = 53 →
  Zpos mq * b ≤ a * 2 ^ 53 < (Zpos mq + 1) * b → 0 < z < 2 ^ 40 →
  to_int64 (fceil (fmul (S754_finite false mq (-53)) (of_int z))) = cdiv (a * z) b.
Proof.
  intros Hab Hb Hdq Hq Hz.
  destruct (of_int_pos z) as (mz & d & Hof & Hmz & Hd & Hzd & Hdz); [lia|].
  assert (d - 1 < 40) by (apply (Z.pow_lt_mono_r_iff 2); lia).
  rewrite Hof. unfold fmul, SFmul. simpl xorb.
  pose proof (digits2_pos_spec mq) as Hmq1. rewrite Hdq in Hmq1.
  pose proof (digits2_pos_spec mz) as Hmz1. rewrite Hdz in Hmz1.
  pose proof (digits2_pos_spec (mq * mz)) as Hp. rewrite Pos2Z.inj_mul in Hp.
  set (D := Zpos (digits2_pos (mq * mz))) in *.
  assert (HD : 105 ≤ D ≤ 106).
  { split.
    - cut (104 < D); [lia|]. apply (Z.pow_lt_mono_r_iff 2); [lia|lia|].
      simpl in *. nia.
    - cut (D - 1 < 106); [lia|]. apply (Z.pow_lt_mono_r_iff 2); [lia|lia|].
      simpl in *. nia. }
  destruct (binary_round_aux_normal false (mq * mz) (-53 + (d - 53)))
    as (m' & e' & -> & He' & Hr); fold D; [lia..|]. fold D in He', Hr.
  rewrite Pos2Z.inj_mul in Hr.
  (* everything is scaled by 2^u, the weight of the exact product *)
  set (s := 53 - d) in *. set (u := 106 - d).
  replace (e' - (-53 + (d - 53))) with (e' + u) in Hr by lia.
  pose proof (cdiv_bounds (a * z) b ltac:(lia)) as HK. set (K := cdiv (a * z) b) in *.
  assert (Hus : 2 ^ u = 2 ^ 53 * 2 ^ s) by (rewrite <- Z.pow_add_r by lia; f_equal; lia).
  assert (Hs : 2 ^ s = 2 ^ 13 * 2 ^ (s - 13)) by (rewrite <- Z.pow_add_r by lia; f_equal; lia).
  assert (Hs13 : 0 < 2 ^ (s - 13)) by (apply Z.pow_pos_nonneg; lia).
  assert (HU : 2 ^ (e' + u) = 2 ^ (e' + u - (D - 53)) * 2 ^ (D - 53))
    by (rewrite <- Z.pow_add_r by lia; f_equal; lia).
  assert (HW : 2 ^ u = 2 ^ (u - (D - 53)) * 2 ^ (D - 53))
    by (rewrite <- Z.pow_add_r by lia; f_equal; lia).
  assert (HU0 : 0 < 2 ^ (D - 53)) by (apply Z.pow_pos_nonneg; lia).
  assert (HU53 : 2 ^ (D - 53) ≤ 2 ^ 53) by (apply Z.pow_le_mono_r; lia).
  assert (Haz : 0 < a * z ≤ b * z) by (split; [apply Z.mul_pos_pos|apply Z.mul_le_mono_nonneg_r]; lia).
  assert (HKz : 0 < K ≤ z).
  { clear - Haz HK Hab. split; [apply (Z.mul_lt_mono_pos_r b)|apply Z.lt_succ_r, (Z.mul_lt_mono_pos_r b)]; lia. }
  assert (HK0 : 0 < K < 2 ^ 53) by (clear - HKz Hz; lia).
  apply (fceil_finite m' e' u K); [done|lia|lia|].
  set (U := 2 ^ (D - 53)) in *. set (S := 2 ^ s) in *.
  set (V := Zpos m' * 2 ^ (e' + u)) in *.
  assert (HV : V = Zpos m' * 2 ^ (e' + u - (D - 53)) * U) by (unfold V; rewrite HU; ring).
  set (v := Zpos m' * 2 ^ (e' + u - (D - 53))) in *. set (w := 2 ^ (u - (D - 53))) in *.
  rewrite Hmz in Hr. rewrite Hus in *. split.
  - apply (product_above a b (Zpos mq) z K S (2 ^ (s - 13)) V U); [lia..|apply HK|done|done|done|].
    clear - Hr. lia.
  - rewrite HV. apply (product_below a b (Zpos mq) z K S U w v); [lia|lia|lia|done|apply Hq|apply HK|done|].
    clear - Hr HV. lia.
Qed.

(** ** Signs

    Rounding keeps the sign of the exact result: [f_sign s f] says that [f]
    is a number (possibly zero or infinite) that does not have the opposite
    sign. *)

Definition f_sign (s : bool) (f : f64) : Prop :=
  match f with
  | S754_zero _ => True
  | S754_finite s' _ _ | S754_infinity s' => s' = s
  | S754_nan => False
  end.

Lemma shr_1_nonneg r : 0 ≤ shr_m r → 0 ≤ shr_m (shr_1 r).
Proof. destruct r as [[|[p|p|]|p] rr rs]; simpl; lia. Qed.

Lemma iter_pos_nonneg p r : 0 ≤ shr_m r → 0 ≤ shr_m (SpecFloat.iter_pos shr_1 p r).
Proof. revert r. induction p; intros r Hr; simpl; auto using shr_1_nonneg. Qed.

Lemma shr_fexp_nonneg m e l : 0 ≤ m → 0 ≤ shr_m (shr_fexp 53 1024 m e l).1.
Proof.
  intros Hm. unfold shr_fexp, shr. set (n := fexp 53 1024 (Zdigits2 m + e) - e).
  assert (0 ≤ shr_m (shr_record_of_loc m l)) as H by (by destruct l as [|[]]).
  destruct n; simpl; auto using iter_pos_nonneg.
Qed.

Lemma binary_round_aux_sign s m e l : 0 ≤ m → f_sign s (binary_round_aux 53 1024 s m e l).
Proof.
  intros Hm. unfold binary_round_aux.
  pose proof (shr_fexp_nonneg m e l Hm) as H1.
  destruct (shr_fexp 53 1024 m e l) as [r1 e1]. cbn [fst] in H1.
  assert (0 ≤ round_nearest_even (shr_m r1) (loc_of_shr_record r1)) as H2.
  { destruct (loc_of_shr_record r1) as [|[]]; simpl; try case_match; lia. }
  pose proof (shr_fexp_nonneg _ e1 loc_Exact H2) as H3.
  destruct (shr_fexp 53 1024 _ e1 loc_Exact) as [r2 e2]. cbn [fst] in H3.
  destruct (shr_m r2); simpl; [done| |lia]. by case_match.
Qed.

Lemma binary_normalize_sign (s : bool) m e z :
  (if s then m ≤ 0 else 0 ≤ m) → f_sign s (binary_normalize 53 1024 m e z).
Proof.
  intros Hm. destruct m as [|p|p]; [done| |]; simpl; unfold binary_round;
    destruct (shl_align _ _ _); destruct s; try lia; by apply binary_round_aux_sign.
Qed.

Lemma of_int_sign (s : bool) z : (if s then z ≤ 0 else 0 ≤ z) → f_sign s (of_int z).
Proof. apply binary_normalize_sign. Qed.

Lemma fadd_sign s a b : f_sign s a → f_sign s b → f_sign s (fadd a b).
Proof.
  destruct a as [sa|sa| |sa ma ea], b as [sb|sb| |sb mb eb]; simpl; try done; intros; subst;
    try (by destruct s); try (by destruct sa, sb).
  cbn [fadd SFadd]. apply binary_normalize_sign.
  destruct s; simpl; lia.
Qed.

Lemma fdiv_sign s a m e : f_sign s a → f_sign s (fdiv a (S754_finite false m e)).
Proof.
  destruct a as [sa|sa| |sa ma ea]; intros Ha; [done|by destruct sa|done|].
  simpl in Ha. subst sa. unfold fdiv, SFdiv, SFdiv_core_binary.
  replace (xorb s false) with s by (by destruct s).
  match goal with |- context [Z.div_eucl ?x _] => set (m' := x) end.
  assert (0 ≤ m') as Hm'.
  { unfold m'. case_match; [done|by apply Z.shiftl_nonneg|done]. }
  pose proof (Z.div_pos m' (Zpos m) Hm' ltac:(lia)) as Hq. unfold Z.div in Hq.
  destruct (Z.div_eucl m' (Zpos m)) as [q r]. by apply binary_round_aux_sign.
Qed.

Lemma fleb_nonpos f : f_sign true f → fleb f f_zero = true.
Proof. destruct f as [[]|[]| |[] m e]; simpl; intros; try done. Qed.

Lemma fltb_nonneg f : f_sign false f → fltb f f_zero = false.
Proof. destruct f as [[]|[]| |[] m e]; simpl; intros; try done. Qed.

(** ** Differences

    A difference of two numbers in order is not negative.  [f_valid] is the
    canonical form every float of a program has. *)

Definition f_valid (f : f64) : Prop := valid_binary 53 1024 f = true.

(** Not negative, or not a number. *)
Definition f_nonneg (f : f64) : Prop := f = S754_nan ∨ f_sign false f.

Lemma f_nonneg_ltb f : f_nonneg f → fltb f f_zero = false.
Proof. intros [->|H]; [done|by apply fltb_nonneg]. Qed.

Lemma canonical_bounds m e :
  canonical_mantissa 53 1024 m e = true →
  Zpos m < 2 ^ 53 ∧ -1074 ≤ e ∧ (-1074 < e → 2 ^ 52 ≤ Zpos m).
Proof.
  unfold canonical_mantissa. intros He%Z.eqb_eq. unfold fexp, emin in He.
  destruct (digits2_pos_spec m) as [Hl Hu].
  assert (Zpos (digits2_pos m) ≤ 53) as Hd by lia.
  pose proof (Z.pow_le_mono_r 2 (Zpos (digits2_pos m)) 53 ltac:(lia) Hd).
  split; [lia|]. split; [lia|]. intros Hlt.
  assert (Zpos (digits2_pos m) = 53) as Hd' by lia. rewrite Hd' in Hl. exact Hl.
Qed.

Lemma canonical_lt m1 e1 m2 e2 :
  canonical_mantissa 53 1024 m1 e1 = true → canonical_mantissa 53 1024 m2 e2 = true →
  e2 < e1 → Zpos m2 < Zpos m1 * 2 ^ (e1 - e2).
Proof.
  intros (_ & _ & H1)%canonical_bounds (H2 & He2 & _)%canonical_bounds Hlt.
  specialize (H1 ltac:(lia)).
  pose proof (Z.pow_le_mono_r 2 1 (e1 - e2) ltac:(lia) ltac:(lia)). nia.
Qed.

Lemma shl_align_value m e e' : e' ≤ e → Zpos (shl_align m e e').1 = Zpos m * 2 ^ (e - e').
Proof.
  intros He. unfold shl_align. destruct (e' - e) as [|p|p] eqn:Hd; [|lia|].
  - replace (e - e') with 0 by lia. cbn. lia.
  - cbn [fst]. rewrite pos_iter_xO. do 2 f_equal. lia.
Qed.

Lemma fsub_nonneg a b : f_valid a → f_valid b → fltb a b = false → f_nonneg (fsub a b).
Proof.
  unfold f_nonneg, f_valid, valid_binary, bounded.
  destruct a as [sa|sa| |sa ma ea], b as [sb|sb| |sb mb eb]; intros Ha Hb Hc;
    try (by left); try (destruct sa; try destruct sb; by (left + right)); try (destruct sb; by (left + right)).
  apply andb_prop in Ha as [Ha _]. apply andb_prop in Hb as [Hb _].
  right. cbn [fsub SFsub]. apply binary_normalize_sign.
  set (ez := Z.min ea eb).
  rewrite !shl_align_value by lia. unfold fltb, SFltb in Hc. cbn [SFcompare] in Hc.
  pose proof (canonical_lt ma ea mb eb Ha Hb) as Hgt. pose proof (canonical_lt mb eb ma ea Hb Ha) as Hlt.
  pose proof (Z.pow_pos_nonneg 2 (ea - ez) ltac:(lia) ltac:(lia)).
  pose proof (Z.pow_pos_nonneg 2 (eb - ez) ltac:(lia) ltac:(lia)).
  change (Pos.compare_cont Eq ma mb) with (Pos.compare ma mb) in Hc.
  destruct sa, sb; cbn [cond_Zopp]; try done; [|lia|];
    destruct (Z.compare_spec ea eb) as [He|He|He]; try done.
  - subst eb. destruct (Pos.compare_spec ma mb); try done; subst; unfold ez; nia.
  - specialize (Hlt He). replace (ea - ez) with 0 by lia. replace (eb - ez) with (eb - ea) by lia. lia.
  - subst eb. destruct (Pos.compare_spec ma mb); try done; subst; unfold ez; nia.
  - specialize (Hgt He). replace (eb - ez) with 0 by lia. replace (ea - ez) with (ea - eb) by lia. lia.
Qed.

Lemma fdiv_nonneg a m e : f_nonneg a → f_nonneg (fdiv a (S754_finite false m e)).
Proof. intros [->|Ha]; [by left|right; by apply fdiv_sign]. Qed.

Lemma of_int_nonneg z : 0 ≤ z → f_nonneg (of_int z).
Proof. intros Hz. right. by apply of_int_sign. Qed.

(** ** Products that cannot overflow *)

Definition f_finite (f : f64) : Prop :=
  match f with S754_zero _ | S754_finite _ _ _ => True | _ => False end.

Lemma shr_fexp_exponent m e l :
  (shr_fexp 53 1024 m e l).2 = Z.max e (fexp 53 1024 (Zdigits2 m + e)).
Proof.
  unfold shr_fexp, shr. destruct (fexp 53 1024 (Zdigits2 m + e) - e) as [|n|n] eqn:Hn; simpl; lia.
Qed.

Lemma shr_1_le r : 0 ≤ shr_m r → shr_m (shr_1 r) ≤ shr_m r.
Proof. destruct r as [[|[p|p|]|p] rr rs]; simpl; lia. Qed.

Lemma iter_pos_le p r : 0 ≤ shr_m r → shr_m (SpecFloat.iter_pos shr_1 p r) ≤ shr_m r.
Proof.
  intros Hr. rewrite iter_pos_nat. induction (Pos.to_nat p) as [|n IH]; [simpl; lia|].
  rewrite Nat.iter_succ. etrans; [|exact IH]. apply shr_1_le. clear IH.
  induction n as [|n IH]; [done|]. rewrite Nat.iter_succ. by apply shr_1_nonneg.
Qed.

Lemma shr_fexp_le m e l : 0 ≤ m → shr_m (shr_fexp 53 1024 m e l).1 ≤ m.
Proof.
  intros Hm. unfold shr_fexp, shr.
  assert (shr_m (shr_record_of_loc m l) = m) as H by (by destruct l as [|[]]).
  destruct (fexp 53 1024 (Zdigits2 m + e) - e); simpl; rewrite ?H; try lia.
  etrans; [apply iter_pos_le; lia|lia].
Qed.

Lemma Zdigits2_le m d : 0 ≤ m < 2 ^ d → 0 ≤ d → Zdigits2 m ≤ d.
Proof.
  intros Hm Hd. destruct m as [|p|p]; [done| |lia]. unfold Zdigits2.
  destruct (digits2_pos_spec p) as [Hl _].
  assert (Zpos (digits2_pos p) - 1 < d); [|lia]. apply (Z.pow_lt_mono_r_iff 2); lia.
Qed.

Lemma binary_round_aux_finite s m e l :
  0 ≤ m < 2 ^ 200 → e ≤ 300 → f_finite (binary_round_aux 53 1024 s m e l).
Proof.
  intros Hm He. unfold binary_round_aux.
  pose proof (shr_fexp_nonneg m e l ltac:(lia)) as Hn1.
  pose proof (shr_fexp_le m e l ltac:(lia)) as Hl1.
  pose proof (shr_fexp_exponent m e l) as He1.
  pose proof (Zdigits2_le m 200 Hm ltac:(lia)) as Hd.
  destruct (shr_fexp 53 1024 m e l) as [r1 e1]. cbn [fst snd] in *.
  assert (0 ≤ round_nearest_even (shr_m r1) (loc_of_shr_record r1) < 2 ^ 201) as H2.
  { destruct (loc_of_shr_record r1) as [|[]]; simpl; try case_match; lia. }
  set (m1 := round_nearest_even _ _) in *.
  pose proof (Zdigits2_le m1 201 H2 ltac:(lia)) as Hd1.
  pose proof (shr_fexp_nonneg m1 e1 loc_Exact ltac:(lia)) as Hn2.
  pose proof (shr_fexp_exponent m1 e1 loc_Exact) as He2.
  destruct (shr_fexp 53 1024 m1 e1 loc_Exact) as [r2 e2]. cbn [fst snd] in *.
  unfold fexp, emin in *. destruct (shr_m r2); simpl; [done| |lia].
  rewrite (proj2 (Z.leb_le _ _)) by lia. done.
Qed.

(** A number of [0, 1) times a finite float that is not large. *)
Lemma fmul_unit_finite f m e :
  f_valid f → fleb f_zero f = true → fltb f (of_int 1) = true → Zpos m < 2 ^ 53 → e ≤ 0 →
  f_finite (fmul f (S754_finite false m e)).
Proof.
  unfold f_valid, valid_binary, bounded. destruct f as [sf|sf| |sf mf ef]; intros Hv H0 H1 Hm He;
    try done; try (by destruct sf).
  apply andb_prop in Hv as [Hv _]. apply canonical_bounds in Hv as (Hmf & _ & _).
  apply binary_round_aux_finite; [nia|].
  assert (ef ≤ 0); [|lia]. destruct sf; [done|].
  change (of_int 1) with (S754_finite false 4503599627370496 (-52)) in H1.
  unfold fltb, SFltb in H1. cbn [SFcompare] in H1.
  destruct (Z.compare_spec ef (-52)); [lia|lia|done].
Qed.
