(* ===== verification/GoText.v ===== *)
(** * Errors, text and environment of Go's standard library

    What the program uses of [errors], [fmt], [strconv] and [os.Getenv]:
    error values with their unwrapping chain, decimal parsing and printing,
    boolean parsing, and the environment as a function from names to values
    (the empty string for an unset variable, as [os.Getenv] returns it). *)

From Stdlib Require Export Ascii.
From S2P Require Export Prelude.

(** ** Errors

    [ErrNew] is a sentinel of [errors.New] (each sentinel of the program has
    its own text), [Errorf] a formatted error without [%w], [ErrWrap] one that
    wraps its cause. *)
Inductive error :=
  | ErrNew (text : string)
  | Errorf (text : string)
  | ErrWrap (text : string) (cause : error).

#[export] Instance error_eq_dec : EqDecision error.
Proof. solve_decision. Defined.

(** [err.Error()]. *)
Definition Error (e : error) : string :=
  match e with ErrNew t | Errorf t | ErrWrap t _ => t end.

(** [errors.Is(err, target)]: [target] occurs on the chain of causes. *)
Fixpoint errors_Is (err target : error) : bool :=
  bool_decide (err = target) ||
  match err with ErrWrap _ cause => errors_Is cause target | _ => false end.

(** [fmt.Errorf("prefix: %w", err)]. *)
Definition wrapf (prefix : string) (e : error) : error :=
  ErrWrap (prefix +:+ ": " +:+ Error e) e.

Lemma errors_Is_refl e : errors_Is e e = true.
Proof. destruct e; simpl; rewrite bool_decide_true; done. Qed.

(** The result of a Go function that returns a value and an error. *)
Inductive result (A : Type) :=
  | Ok (a : A)
  | Err (e : error).
Arguments Ok {A}.
Arguments Err {A}.

#[export] Instance result_eq_dec `{EqDecision A} : EqDecision (result A).
Proof. solve_decision. Defined.

(** A line feed. *)
Definition newline : string := String (ascii_of_nat 10) "".

(** ** Concatenation *)

Lemma str_app_nil_r (s : string) : s +:+ "" = s.
Proof. induction s as [|c s IH]; [done|]. exact (f_equal (String c) IH). Qed.

Lemma str_app_assoc (s t u : string) : (s +:+ t) +:+ u = s +:+ t +:+ u.
Proof. induction s as [|c s IH]; [done|]. exact (f_equal (String c) IH). Qed.

Lemma str_length_app (s t : string) :
  String.length (s +:+ t) = (String.length s + String.length t)%nat.
Proof. induction s as [|c s IH]; [done|]. exact (f_equal S IH). Qed.

(** Concatenating without a separator is a fold. *)
Lemma str_concat_cons (s : string) l : String.concat "" (s :: l) = s +:+ String.concat "" l.
Proof. destruct l; [|done]. symmetry. apply str_app_nil_r. Qed.

(** ** Integers in decimal *)

(** [%d] and [%v] of an integer. *)
Definition fmt_d (z : Z) : string := pretty z.

Definition digit_of (c : ascii) : option Z :=
  let n := Z.of_N (N_of_ascii c) in
  if (48 <=? n) && (n <=? 57) then Some (n - 48) else None.

Fixpoint digits_from (acc : Z) (s : string) : option Z :=
  match s with
  | EmptyString => Some acc
  | String c s' =>
      match digit_of c with
      | Some d => digits_from (acc * 10 + d) s'
      | None => None
      end
  end.

Definition parse_digits (s : string) : option Z :=
  match s with EmptyString => None | _ => digits_from 0 s end.

Definition in_range64 (z : Z) : option Z :=
  if (int64_min <=? z) && (z <=? int64_max) then Some z else None.

(** [strconv.Atoi]: an optional sign, at least one decimal digit and nothing
    else, in the range of [int]; [None] is a non-nil error. *)
Definition Atoi (s : string) : option Z :=
  match s with
  | String "-" s' => match parse_digits s' with Some n => in_range64 (- n) | None => None end
  | String "+" s' => match parse_digits s' with Some n => in_range64 n | None => None end
  | _ => match parse_digits s with Some n => in_range64 n | None => None end
  end.

(** [strconv.ParseBool]. *)
Definition ParseBool (s : string) : option bool :=
  if decide (s ∈ ["1"; "t"; "T"; "TRUE"; "true"; "True"]) then Some true
  else if decide (s ∈ ["0"; "f"; "F"; "FALSE"; "false"; "False"]) then Some false
  else None.

(** ** Parsing what was printed *)

Lemma digit_of_pretty x : (x < 10)%N → digit_of (pretty_N_char x) = Some (Z.of_N x).
Proof.
  intros Hx.
  assert (x = 0 ∨ x = 1 ∨ x = 2 ∨ x = 3 ∨ x = 4 ∨ x = 5 ∨ x = 6 ∨ x = 7 ∨ x = 8 ∨ x = 9)%N
    as Hc by lia.
  clear Hx. repeat (destruct Hc as [->|Hc]; [done|]). subst x. done.
Qed.

(** Printing [x] in front of [s] and reading it back from [acc] is the same as
    reading [s] from the accumulator shifted by the digits of [x]. *)
Lemma digits_from_pretty (x : N) (s : string) :
  digits_from 0 (pretty_N_go x s) = digits_from (Z.of_N x) s.
Proof.
  revert s. induction (N.lt_wf_0 x) as [x _ IH]; intros s.
  assert (x = 0 ∨ 0 < x)%N as [->|Hx] by lia; [by rewrite pretty_N_go_0|].
  rewrite pretty_N_go_step by done.
  rewrite IH by (apply N.div_lt; lia). simpl.
  rewrite digit_of_pretty by (apply N.mod_lt; lia). f_equal.
  pose proof (N.div_mod x 10 ltac:(lia)). lia.
Qed.

Lemma pretty_N_go_nonempty (x : N) s : (0 < x)%N → pretty_N_go x s ≠ "".
Proof.
  revert s. induction (N.lt_wf_0 x) as [x _ IH]; intros s Hx.
  rewrite pretty_N_go_step by done.
  destruct (N.eq_0_gt_0_cases (x / 10)%N) as [->|Hd].
  - rewrite pretty_N_go_0. done.
  - apply IH; [apply N.div_lt; lia|done].
Qed.

Lemma parse_digits_pretty (p : positive) : parse_digits (pretty p) = Some (Zpos p).
Proof.
  unfold pretty, pretty_positive, pretty, pretty_N. case_decide; [done|].
  pose proof (pretty_N_go_nonempty (Npos p) "" eq_refl) as Hne.
  unfold parse_digits. destruct (pretty_N_go (N.pos p) "") eqn:He; [done|].
  rewrite <- He, digits_from_pretty. done.
Qed.

(** A decimal digit is neither of the two signs. *)
Lemma pretty_pos_head (p : positive) :
  ∃ c s, pretty p = String c s ∧ c ≠ "-"%char ∧ c ≠ "+"%char.
Proof.
  pose proof (parse_digits_pretty p) as Hp. unfold parse_digits in Hp.
  destruct (pretty p) as [|c s] eqn:He; [done|]. exists c, s.
  split_and!; [done|intros ->; done|intros ->; done].
Qed.

Lemma Atoi_head c s :
  c ≠ "-"%char → c ≠ "+"%char →
  Atoi (String c s) = parse_digits (String c s) ≫= in_range64.
Proof.
  intros Hm Hp. unfold Atoi.
  destruct c as [[] [] [] [] [] [] [] []]; done.
Qed.

(** [strconv.Atoi] reads back every [int] printed with [%d]. *)
Lemma Atoi_fmt_d (z : Z) : int64_min ≤ z ≤ int64_max → Atoi (fmt_d z) = Some z.
Proof.
  intros Hz. unfold fmt_d. destruct z as [|p|p]; [done| |].
  - change (pretty (Zpos p)) with (pretty p).
    destruct (pretty_pos_head p) as (c & s & He & Hm & Hp).
    rewrite He, Atoi_head by done. rewrite <- He, parse_digits_pretty. simpl.
    unfold in_range64. rewrite !(proj2 (Z.leb_le _ _)) by lia. done.
  - change (pretty (Zneg p)) with (String "-" (pretty p)). unfold Atoi.
    rewrite parse_digits_pretty. simpl.
    unfold in_range64. rewrite !(proj2 (Z.leb_le _ _)) by lia. done.
Qed.

Lemma fmt_d_nonempty (z : Z) : fmt_d z ≠ "".
Proof.
  unfold fmt_d. destruct z as [|p|p]; [done| |done].
  change (pretty (Zpos p)) with (pretty p).
  by destruct (pretty_pos_head p) as (c & s & -> & _).
Qed.

Lemma Atoi_range s n : Atoi s = Some n → int64_min ≤ n ≤ int64_max.
Proof.
  assert (∀ z n, in_range64 z = Some n → int64_min ≤ n ≤ int64_max) as Hr.
  { unfold in_range64. intros z m. destruct (Z.leb_spec int64_min z), (Z.leb_spec z int64_max);
      simpl; intros [= <-]; lia. }
  destruct s as [|c s]; [done|]. unfold Atoi.
  repeat case_match; eauto; done.
Qed.

#[export] Hint Resolve Atoi_range errors_Is_refl : go.
