(* ===== verification/GoRand.v ===== *)
(** * The random source of a worker

    [math/rand.Rand] as an interface: a state and the draws the program makes,
    with the ranges its documentation promises.  [rnd] is the type of
    computations over a source that may panic.  Clients are proved for every
    source that keeps the promise; [script] is a concrete one that replays a
    list of draws, used by the witnesses. *)

From S2P Require Export Prelude.
From S2P Require Export GoFloat.

Class Rand (R : Type) := {
  rand_Intn : Z → R → Z * R;
  rand_Int63 : R → Z * R;
  rand_Float64 : R → f64 * R;
}.

Class RandOk (R : Type) `{Rand R} := {
  rand_Intn_range : ∀ n r, 0 < n → 0 ≤ (rand_Intn n r).1 < n;
  rand_Int63_range : ∀ r, 0 ≤ (rand_Int63 r).1 < 2 ^ 63;
  rand_Float64_range : ∀ r, let f := (rand_Float64 r).1 in
    f_valid f ∧ fleb f_zero f = true ∧ fltb f (of_int 1) = true;
}.

(** [rng.Intn(n)]: panics ([None]) for [n <= 0]. *)
Definition Intn {R} `{Rand R} (n : Z) (rng : R) : option (Z * R) :=
  if n <=? 0 then None else Some (rand_Intn n rng).

Lemma Intn_pos {R} `{RandOk R} (n : Z) (rng : R) :
  0 < n → ∃ i rng', Intn n rng = Some (i, rng') ∧ 0 ≤ i < n.
Proof.
  intros Hn. unfold Intn. rewrite (proj2 (Z.leb_gt _ _)) by lia.
  pose proof (rand_Intn_range n rng Hn).
  destruct (rand_Intn n rng) as [i rng']. eauto.
Qed.

Lemma Intn_range {R} `{RandOk R} (n : Z) (rng : R) i rng' :
  Intn n rng = Some (i, rng') → 0 < n ∧ 0 ≤ i < n.
Proof.
  unfold Intn. destruct (Z.leb_spec n 0); [done|].
  pose proof (rand_Intn_range n rng ltac:(lia)) as Hr.
  intros [= He]. by rewrite He in Hr.
Qed.

(** A source that replays a list of draws, then zeros. *)
Definition script : Type := list Z.

Definition script_draw (n : Z) (s : script) : Z * script :=
  match s with [] => (0, []) | d :: s' => (d mod n, s') end.

#[export] Instance script_rand : Rand script := {
  rand_Intn := script_draw;
  rand_Int63 := script_draw (2 ^ 63);
  rand_Float64 := λ s,
    let '(d, s') := script_draw 2 s in (if d =? 0 then f_zero else f_lit 1 2, s');
}.

#[export] Instance script_rand_ok : RandOk script.
Proof.
  split.
  - intros n [|d r] Hn; simpl; [lia|]. apply Z.mod_pos_bound. lia.
  - intros [|d r]; simpl; [lia|]. apply Z.mod_pos_bound. lia.
  - intros [|d r]; [by vm_compute|]. cbn [rand_Float64 script_rand script_draw].
    destruct (d mod 2 =? 0); by vm_compute.
Qed.

#[export] Hint Resolve rand_Intn_range rand_Int63_range : go.

(** ** Computations over a source

    A function from the source to its result and the source after it; [None]
    is a panic. *)

Definition rnd (R A : Type) : Type := R → option (A * R).

#[export] Instance rnd_ret {R} : MRet (rnd R) := λ A a r, Some (a, r).

#[export] Instance rnd_bind {R} : MBind (rnd R) := λ A B f m r,
  match m r with Some (a, r') => f a r' | None => None end.

Definition draw {R} `{Rand R} (n : Z) : rnd R Z := Intn n.
Definition draw63 {R} `{Rand R} : rnd R Z := λ r, Some (rand_Int63 r).
Definition draw_float {R} `{Rand R} : rnd R f64 := λ r, Some (rand_Float64 r).

(** A panic unless the value is there. *)
Definition must {R A} (o : option A) : rnd R A := λ r, match o with Some a => Some (a, r) | None => None end.

(** An element of a list at a uniform index. *)
Definition draw_from {R A} `{Rand R} (l : list A) : rnd R A :=
  i ← draw (Z.of_nat (length l)); must (l !! Z.to_nat i).

(** [rnd_ok m Q]: from any state of the source [m] does not panic and its
    result satisfies [Q]. *)
Definition rnd_ok {R A} (m : rnd R A) (Q : A → Prop) : Prop :=
  ∀ r, ∃ a r', m r = Some (a, r') ∧ Q a.

Section rules.
Context {R : Type} `{RandOk R}.

Lemma rnd_ok_ret {A} (a : A) (Q : A → Prop) : Q a → rnd_ok (R := R) (mret a) Q.
Proof. intros HQ r. by exists a, r. Qed.

Lemma rnd_ok_bind {A B} (m : rnd R A) (f : A → rnd R B) P Q :
  rnd_ok m P → (∀ a, P a → rnd_ok (f a) Q) → rnd_ok (m ≫= f) Q.
Proof.
  intros Hm Hf r. destruct (Hm r) as (a & r' & Hr & HP).
  destruct (Hf a HP r') as (b & r'' & Hr' & HQ). exists b, r''.
  split; [|done]. unfold mbind, rnd_bind. by rewrite Hr.
Qed.

Lemma rnd_ok_mono {A} (m : rnd R A) (P Q : A → Prop) :
  rnd_ok m P → (∀ a, P a → Q a) → rnd_ok m Q.
Proof. intros Hm HPQ r. destruct (Hm r) as (a & r' & Hr & HP). exists a, r'. auto. Qed.

Lemma rnd_ok_draw n : 0 < n → rnd_ok (R := R) (draw n) (λ i, 0 ≤ i < n).
Proof. intros Hn r. by destruct (Intn_pos n r Hn) as (i & r' & Hi & Hr); exists i, r'. Qed.

Lemma rnd_ok_draw63 : rnd_ok (R := R) draw63 (λ i, 0 ≤ i < 2 ^ 63).
Proof.
  intros r. pose proof (rand_Int63_range r). unfold draw63.
  destruct (rand_Int63 r) as [i r']. by exists i, r'.
Qed.

Lemma rnd_ok_draw_float :
  rnd_ok (R := R) draw_float (λ f, f_valid f ∧ fleb f_zero f = true ∧ fltb f (of_int 1) = true).
Proof.
  intros r. pose proof (rand_Float64_range r) as Hr. unfold draw_float.
  destruct (rand_Float64 r) as [f r']. by exists f, r'.
Qed.

Lemma rnd_ok_must {A} (o : option A) a (Q : A → Prop) :
  o = Some a → Q a → rnd_ok (R := R) (must o) Q.
Proof. intros -> HQ r. by exists a, r. Qed.

Lemma rnd_ok_draw_from {A} (l : list A) : l ≠ [] → rnd_ok (R := R) (draw_from l) (λ a, a ∈ l).
Proof.
  intros Hl. apply (rnd_ok_bind _ _ (λ i, 0 ≤ i < Z.of_nat (length l))).
  - apply rnd_ok_draw. destruct l; [done|]. simpl. lia.
  - intros i Hi. destruct (lookup_lt_is_Some_2 l (Z.to_nat i)) as [a Ha]; [lia|].
    eapply rnd_ok_must; [done|]. by eapply list_elem_of_lookup_2.
Qed.

(** A loop that draws one element per index. *)
Lemma rnd_ok_mapM {A B} (f : A → rnd R B) (l : list A) (P : A → B → Prop) :
  (∀ a, a ∈ l → rnd_ok (f a) (P a)) → rnd_ok (mapM f l) (Forall2 P l).
Proof.
  induction l as [|a l IH]; intros Hf; [by apply rnd_ok_ret|]. cbn [mapM].
  eapply rnd_ok_bind; [apply Hf; set_solver|]. intros b Hb.
  eapply rnd_ok_bind; [apply IH; intros; apply Hf; set_solver|]. intros k Hk.
  apply rnd_ok_ret. by constructor.
Qed.
End rules.

(** [rnd_step] takes a computation one draw further. *)
Ltac rnd_step :=
  lazymatch goal with
  | |- rnd_ok (mret _) _ => apply rnd_ok_ret
  | |- rnd_ok (draw _ ≫= _) _ => eapply rnd_ok_bind; [apply rnd_ok_draw|intros ? ?]
  | |- rnd_ok (draw63 ≫= _) _ => eapply rnd_ok_bind; [apply rnd_ok_draw63|intros ? ?]
  | |- rnd_ok (draw_float ≫= _) _ => eapply rnd_ok_bind; [apply rnd_ok_draw_float|intros ? ?]
  | |- rnd_ok (draw_from _ ≫= _) _ => eapply rnd_ok_bind; [apply rnd_ok_draw_from; done|intros ? ?]
  end.
