(* ===== verification/Pool.v ===== *)
(** * db/pool.go: opening the connection pool

    [NewPool] parses the DSN, sizes the pool after the number of workers,
    creates it and pings the server.  pgxpool's answers are arguments; the
    model records the calls made on it, in order, and the error returned. *)

From S2P Require Export GoText.
From S2P Require Export Config.

(** [int32(x)]: the conversion keeps the low 32 bits. *)
Definition int32 (x : Z) : Z := wrap 32 x.

Inductive pool_action :=
  | PParseConfig (dsn : string)
  | PNewWithConfig (maxConns minConns : Z)
  | PPing
  | PClose.

(** What pgxpool answers; the creation may depend on the sizes. *)
Record pool_answers := mkPoolAnswers {
  pa_ParseConfig : option error;
  pa_NewWithConfig : Z → Z → option error;
  pa_Ping : option error;
}.

Definition pool_MaxConns (cfg : Config) : Z := int32 (cfg.(Workers) +! 5).
Definition pool_MinConns (cfg : Config) : Z := int32 (Z.quot cfg.(Workers) 2).

Definition NewPool (a : pool_answers) (cfg : Config) : list pool_action * option error :=
  let create := PNewWithConfig (pool_MaxConns cfg) (pool_MinConns cfg) in
  match a.(pa_ParseConfig) with
  | Some e => ([PParseConfig cfg.(PGDSN)], Some (wrapf "parse DSN" e))
  | None =>
      match a.(pa_NewWithConfig) (pool_MaxConns cfg) (pool_MinConns cfg) with
      | Some e => ([PParseConfig cfg.(PGDSN); create], Some (wrapf "create pool" e))
      | None =>
          match a.(pa_Ping) with
          | Some e => ([PParseConfig cfg.(PGDSN); create; PPing; PClose],
                       Some (wrapf "ping postgres" e))
          | None => ([PParseConfig cfg.(PGDSN); create; PPing], None)
          end
      end
  end.

(** ** Properties *)

Lemma int32_small x : -2147483648 ≤ x < 2147483648 → int32 x = x.
Proof. intros H. apply wrap_small; [lia|]. unfold in_int. simpl. lia. Qed.

Lemma int32_range x : -2147483648 ≤ int32 x < 2147483648.
Proof. unfold int32. pose proof (wrap_range 32 x ltac:(lia)) as H. unfold in_int in H. simpl in H. lia. Qed.

(** [NewPool] hands out a pool exactly when the DSN parsed, the pool was
    created and the server answered a ping; otherwise the error wraps the
    cause of the first step that failed, no later step is taken, and a pool
    that was created is closed again before returning. *)
Theorem NewPool_outcome (a : pool_answers) (cfg : Config) :
  let '(acts, err) := NewPool a cfg in
  let created := PNewWithConfig (pool_MaxConns cfg) (pool_MinConns cfg) ∈ acts
                 ∧ a.(pa_NewWithConfig) (pool_MaxConns cfg) (pool_MinConns cfg) = None in
  (err = None ↔ a.(pa_ParseConfig) = None
     ∧ a.(pa_NewWithConfig) (pool_MaxConns cfg) (pool_MinConns cfg) = None ∧ a.(pa_Ping) = None)
  ∧ (PClose ∈ acts ↔ created ∧ err ≠ None)
  ∧ (∀ e, err = Some e → ∃ msg cause, e = wrapf msg cause
       ∧ (a.(pa_ParseConfig) = Some cause
          ∨ a.(pa_ParseConfig) = None
            ∧ (a.(pa_NewWithConfig) (pool_MaxConns cfg) (pool_MinConns cfg) = Some cause
               ∨ a.(pa_NewWithConfig) (pool_MaxConns cfg) (pool_MinConns cfg) = None
                 ∧ a.(pa_Ping) = Some cause))).
Proof.
  unfold NewPool. destruct (pa_ParseConfig a) as [e|] eqn:H1;
    [|destruct (pa_NewWithConfig a _ _) as [e|] eqn:H2; [|destruct (pa_Ping a) as [e|] eqn:H3]];
    cbv zeta; rewrite ?elem_of_cons, ?elem_of_nil; (split; [naive_solver|split; [naive_solver|]]).
  - intros ? [= <-]. eexists _, e. eauto.
  - intros ? [= <-]. eexists _, e. eauto.
  - intros ? [= <-]. eexists _, e. eauto 8.
  - done.
Qed.

(** C37: the size of the pool.  For a configuration [Load] accepts, the pool
    may hold every worker's connection and five more exactly up to 2147483642
    workers, and then keeps between none and that many idle; beyond, the
    conversion to [int32] gives another number. *)
Theorem pool_size (env : Env) (cfg : Config) :
  Load env = Ok cfg →
  (pool_MaxConns cfg = cfg.(Workers) + 5 ↔ cfg.(Workers) ≤ 2147483642)
  ∧ (cfg.(Workers) ≤ 2147483642 → 0 ≤ pool_MinConns cfg < pool_MaxConns cfg).
Proof.
  intros [Hv _]%Load_valid. pose proof (valid_workers _ Hv) as Hw.
  unfold pool_MaxConns, pool_MinConns.
  pose proof (int32_range (cfg.(Workers) +! 5)) as Hr. simpl in Hr.
  assert (cfg.(Workers) ≤ 2147483642 → int32 (cfg.(Workers) +! 5) = cfg.(Workers) + 5) as Hmax.
  { intros Hle. rewrite wrap64_small, int32_small by (simpl; lia). done. }
  split; [split; [lia|done]|]. intros Hle. rewrite Hmax by done.
  pose proof (Z.quot_pos cfg.(Workers) 2). pose proof (Z.quot_lt cfg.(Workers) 2).
  rewrite int32_small by (simpl; lia). lia.
Qed.

(** With 2147483643 workers, which [Load] accepts, the maximum is negative. *)
Lemma pool_size_wraps :
  match Load (λ key, if decide (key = "WORKERS") then "2147483643" else "")%string with
  | Ok cfg => pool_MaxConns cfg = -2147483648
  | Err _ => False
  end.
Proof. vm_compute. reflexivity. Qed.

Lemma pool_size_witness :
  (pool_MaxConns default_config = 25 ↔ 20 ≤ 2147483642)
  ∧ 0 ≤ pool_MinConns default_config < pool_MaxConns default_config.
Proof.
  destruct (pool_size (λ _, ""%string) default_config) as [Hmax Hmin]; [reflexivity|].
  split; [exact Hmax|]. apply Hmin. vm_compute. discriminate.
Defined.
