(* ===== verification/Weights.v ===== *)
(** * workload/weights.go: the operation mix

    [ResolveWeights] turns a profile's operations into percentages read from
    the environment; [SelectOp] maps a roll in [0,100) to an operation. *)

From S2P Require Export Prelude.
From S2P Require Export GoText.
From S2P Require Import Config.

(** [OpDef] of profile.go: name, environment variable, default weight. *)
Record OpDef := mkOpDef {
  od_Name : string;
  od_EnvVar : string;
  od_DefaultWeight : Z;
}.

Record WeightedOp := mkWeightedOp {
  wo_Name : string;
  wo_Weight : Z;
}.

#[export] Instance WeightedOp_eq_dec : EqDecision WeightedOp.
Proof. solve_decision. Defined.

(** The warning logged for a value that is not an integer. *)
Record weight_warning := mkWarning {
  ww_EnvVar : string;
  ww_Value : string;
  ww_Default : Z;
}.

(** The weight of one operation and the warnings it logs. *)
Definition resolve_weight (env : Env) (od : OpDef) : list weight_warning * Z :=
  let v := env od.(od_EnvVar) in
  if decide (v ≠ "") then
    match Atoi v with
    | Some n => ([], n)
    | None => ([mkWarning od.(od_EnvVar) v od.(od_DefaultWeight)], od.(od_DefaultWeight))
    end
  else ([], od.(od_DefaultWeight)).

(** The loop of [ResolveWeights]; [out] holds the resolved operations so far. *)
Fixpoint resolve_loop (env : Env) (ops : list OpDef) (total : Z)
    (out : list WeightedOp) (warns : list weight_warning)
    : list weight_warning * result (list WeightedOp) :=
  match ops with
  | [] =>
      (warns,
       if negb (total =? 100) then
         Err (Errorf ("operation weights must sum to 100, got " +:+ fmt_d total))
       else Ok out)
  | od :: rest =>
      let '(ws, w) := resolve_weight env od in
      if w <? 0 then
        (warns ++ ws,
         Err (Errorf (od.(od_EnvVar) +:+ " must be >= 0, got " +:+ fmt_d w)))
      else
        resolve_loop env rest (total +! w)
          (out ++ [mkWeightedOp od.(od_Name) w]) (warns ++ ws)
  end.

Definition ResolveWeights (env : Env) (ops : list OpDef)
    : list weight_warning * result (list WeightedOp) :=
  resolve_loop env ops 0 [] [].

Definition OpNames (ops : list WeightedOp) : list string := wo_Name <$> ops.

(** The loop of [SelectOp]: the first operation whose cumulative weight
    exceeds the roll. *)
Fixpoint select_loop (roll cumulative : Z) (ops : list WeightedOp) : option string :=
  match ops with
  | [] => None
  | o :: rest =>
      let cumulative := cumulative +! o.(wo_Weight) in
      if roll <? cumulative then Some o.(wo_Name) else select_loop roll cumulative rest
  end.

Definition SelectOp (roll : Z) (ops : list WeightedOp) : string :=
  match select_loop roll 0 ops with
  | Some name => name
  | None => match last ops with Some o => o.(wo_Name) | None => "" end
  end.

(** ** The resolved list *)

Definition resolved (env : Env) (od : OpDef) : WeightedOp :=
  mkWeightedOp od.(od_Name) (resolve_weight env od).2.

Definition weight_sum (ops : list WeightedOp) : Z := sum_list_Z (wo_Weight <$> ops).

(** The operation mixes [SelectOp] is meant for. *)
Record good_mix (ops : list WeightedOp) : Prop := {
  mix_nonneg : Forall (λ o, 0 ≤ o.(wo_Weight)) ops;
  mix_total : weight_sum ops = 100;
}.

Lemma weight_sum_app l k : weight_sum (l ++ k) = weight_sum l + weight_sum k.
Proof. unfold weight_sum. by rewrite fmap_app, sum_list_Z_app. Qed.

Lemma weight_sum_nil : weight_sum [] = 0.
Proof. done. Qed.

Lemma weight_sum_cons o l : weight_sum (o :: l) = o.(wo_Weight) + weight_sum l.
Proof. done. Qed.

Lemma weight_sum_nonneg l : Forall (λ o, 0 ≤ o.(wo_Weight)) l → 0 ≤ weight_sum l.
Proof. intros H. apply sum_list_Z_nonneg, Forall_fmap, H. Qed.

(** The loop accepts exactly when no weight is negative and the wrapped total
    is 100. *)
Lemma resolve_loop_ok env ops total out warns r :
  (resolve_loop env ops (wrap 64 total) out warns).2 = Ok r ↔
  Forall (λ o, 0 ≤ o.(wo_Weight)) (resolved env <$> ops) ∧
  wrap 64 (total + weight_sum (resolved env <$> ops)) = 100 ∧
  r = out ++ (resolved env <$> ops).
Proof.
  revert total out warns. induction ops as [|od ops IH]; intros total out warns; simpl.
  - rewrite Z.add_0_r, app_nil_r. destruct (Z.eqb_spec (wrap 64 total) 100); simpl.
    + split; [intros [= <-]; auto|by intros (_ & _ & ->)].
    + split; [done|]. intros (_ & ? & _); done.
  - destruct (resolve_weight env od) as [ws w] eqn:Hw.
    assert (resolved env od = mkWeightedOp od.(od_Name) w) as Hr
      by (unfold resolved; by rewrite Hw).
    rewrite Hr, Forall_cons. simpl.
    destruct (Z.ltb_spec w 0) as [Hlt|Hge]; simpl.
    + split; [done|]. intros [[? _] _]. lia.
    + assert (wrap 64 total +! w = wrap 64 (total + w)) as -> by mod64.
      rewrite IH, <- app_assoc. unfold weight_sum. simpl.
      rewrite Z.add_assoc. tauto.
Qed.

(** ** Selection *)

(** With non-negative weights and no wrap-around, an operation is selected by
    exactly the rolls of its interval. *)
Lemma select_loop_interval roll c l1 o l2 :
  Forall (λ o, 0 ≤ o.(wo_Weight)) (l1 ++ o :: l2) →
  0 ≤ c → c + weight_sum (l1 ++ o :: l2) ≤ int64_max →
  c + weight_sum l1 ≤ roll < c + weight_sum l1 + o.(wo_Weight) →
  select_loop roll c (l1 ++ o :: l2) = Some o.(wo_Name).
Proof.
  revert c. induction l1 as [|o1 l1 IH]; intros c Hnn Hc Hmax Hroll;
    rewrite ?app_nil_l, <- ?app_comm_cons in *; apply Forall_cons_1 in Hnn as [Hw Hnn]; pose proof (weight_sum_nonneg _ Hnn);
    rewrite ?weight_sum_nil, ?weight_sum_cons in *; cbn [select_loop].
  - rewrite wrap64_small by lia. by rewrite (proj2 (Z.ltb_lt _ _)) by lia.
  - assert (0 ≤ weight_sum l1).
    { apply weight_sum_nonneg. by apply Forall_app in Hnn as [? _]. }
    rewrite wrap64_small by lia. rewrite (proj2 (Z.ltb_ge _ _)) by lia.
    apply IH; [done|lia..].
Qed.

(** Every roll in [0,100) falls into the interval of some operation. *)
Lemma roll_in_interval roll c ops :
  c ≤ roll < c + weight_sum ops →
  Forall (λ o, 0 ≤ o.(wo_Weight)) ops →
  ∃ l1 o l2, ops = l1 ++ o :: l2 ∧
    c + weight_sum l1 ≤ roll < c + weight_sum l1 + o.(wo_Weight).
Proof.
  revert c. induction ops as [|o ops IH]; intros c Hroll Hnn;
    rewrite ?weight_sum_nil, ?weight_sum_cons in Hroll; [lia|].
  apply Forall_cons_1 in Hnn as [Hw Hnn].
  destruct (decide (roll < c + o.(wo_Weight))).
  - exists [], o, ops. rewrite weight_sum_nil. split; [done|lia].
  - destruct (IH (c + o.(wo_Weight))) as (l1 & o' & l2 & -> & ?); [lia|done|].
    exists (o :: l1), o', l2. rewrite weight_sum_cons. split; [done|lia].
Qed.

(** Whatever the roll, the selected operation is one of the list. *)
Lemma SelectOp_in roll ops : ops ≠ [] → SelectOp roll ops ∈ OpNames ops.
Proof.
  intros Hne. unfold SelectOp, OpNames.
  assert (∀ c name, select_loop roll c ops = Some name → name ∈ wo_Name <$> ops) as Hsel.
  { clear Hne. induction ops as [|o ops IH]; intros c name Hs; cbn [select_loop] in Hs; [done|].
    rewrite fmap_cons. case_match; [injection Hs as <-; left|right; by eapply IH]. }
  destruct (select_loop roll 0 ops) as [name|] eqn:Hs; [by eapply Hsel|].
  destruct (last ops) as [o|] eqn:Hl; [|by apply last_None in Hl].
  apply last_Some in Hl as [l ->]. rewrite fmap_app. set_solver.
Qed.

Lemma SelectOp_interval roll l1 o l2 :
  good_mix (l1 ++ o :: l2) →
  weight_sum l1 ≤ roll < weight_sum l1 + o.(wo_Weight) →
  SelectOp roll (l1 ++ o :: l2) = o.(wo_Name).
Proof.
  intros [Hnn Htot] Hroll. unfold SelectOp.
  rewrite (select_loop_interval roll 0 l1 o l2); [done|done|lia|lia|lia].
Qed.

Lemma SelectOp_iff roll l1 o l2 :
  good_mix (l1 ++ o :: l2) → NoDup (OpNames (l1 ++ o :: l2)) → 0 ≤ roll < 100 →
  SelectOp roll (l1 ++ o :: l2) = o.(wo_Name) ↔
  weight_sum l1 ≤ roll < weight_sum l1 + o.(wo_Weight).
Proof.
  intros Hmix Hnd Hroll. split; [|by apply SelectOp_interval].
  intros Hsel. destruct (roll_in_interval roll 0 (l1 ++ o :: l2)) as (k1 & o' & k2 & He & Hk).
  { destruct Hmix as [_ ->]. lia. }
  { apply Hmix. }
  rewrite He in Hsel, Hmix. rewrite SelectOp_interval in Hsel by (try done; lia).
  assert (length k1 = length l1) as Hlen.
  { apply (NoDup_lookup (OpNames (l1 ++ o :: l2)) _ _ o.(wo_Name)); [done| |].
    - unfold OpNames. rewrite He, list_lookup_fmap, list_lookup_middle by done. simpl. congruence.
    - unfold OpNames. by rewrite list_lookup_fmap, list_lookup_middle. }
  apply app_inj_1 in He as [-> [= -> ->]]; [|lia]. lia.
Qed.

(** ** Properties *)

(** C36: [ResolveWeights] accepts exactly when no resolved weight is negative
    and their sum, in Go's wrapping [int], is 100; it then returns every
    operation of the profile in order with its resolved weight. *)
Theorem ResolveWeights_ok_iff (env : Env) (ops : list OpDef) (r : list WeightedOp) :
  (ResolveWeights env ops).2 = Ok r ↔
  Forall (λ o, 0 ≤ o.(wo_Weight)) r ∧ wrap 64 (weight_sum r) = 100 ∧
  r = resolved env <$> ops.
Proof.
  unfold ResolveWeights. rewrite (resolve_loop_ok env ops 0 [] [] r). naive_solver.
Qed.

(** C29: over a mix of non-negative weights that really sum to 100, of the 100
    rolls a worker can draw exactly [w] select an operation of weight [w]: the
    configured percentages are the selection frequencies, and an operation of
    weight 0 is never selected. *)
Theorem SelectOp_distribution (ops : list WeightedOp) (o : WeightedOp) :
  good_mix ops → NoDup (OpNames ops) → o ∈ ops →
  length (filter (λ roll, SelectOp roll ops = o.(wo_Name)) (seqZ 0 100)) =
  Z.to_nat o.(wo_Weight).
Proof.
  intros Hmix Hnd (l1 & l2 & ->)%list_elem_of_split.
  pose proof (mix_nonneg _ Hmix) as Hnn. pose proof (mix_total _ Hmix) as Htot.
  apply Forall_app in Hnn as [H1 [Ho H2]%Forall_cons].
  pose proof (weight_sum_nonneg _ H1). pose proof (weight_sum_nonneg _ H2).
  rewrite weight_sum_app, weight_sum_cons in Htot.
  apply (count_interval _ 100 (weight_sum l1)); [lia..|].
  intros r Hr. by apply SelectOp_iff.
Qed.

Definition witness_mix : list WeightedOp :=
  [mkWeightedOp "insert" 60; mkWeightedOp "delete" 0; mkWeightedOp "update" 40].

Lemma SelectOp_distribution_witness :
  length (filter (λ roll, SelectOp roll witness_mix = "update") (seqZ 0 100)) = 40%nat.
Proof.
  apply (SelectOp_distribution witness_mix (mkWeightedOp "update" 40)).
  - split; [repeat constructor; simpl; lia|reflexivity].
  - apply (bool_decide_unpack _). vm_compute. exact I.
  - apply (bool_decide_unpack _). vm_compute. exact I.
Defined.

(** The sum is computed with wrapping addition, so three huge weights pass
    the "must sum to 100" check: the accepted mix has a real sum of
    [2^64 + 100] and gives every roll to the first operation. *)
Theorem ResolveWeights_accepts_overflow :
  ∃ (env : Env) (ops : list OpDef) (r : list WeightedOp),
    (ResolveWeights env ops).2 = Ok r ∧ weight_sum r = 2 ^ 64 + 100 ∧
    ∀ roll, 0 ≤ roll < 100 → SelectOp roll r = "a".
Proof.
  set (env := λ key : string, if decide (key = "A") then "9223372036854775807"
                     else if decide (key = "B") then "9223372036854775807" else "102").
  exists env, [mkOpDef "a" "A" 50; mkOpDef "b" "B" 25; mkOpDef "c" "C" 25].
  eexists. split; [vm_compute; reflexivity|]. split; [reflexivity|].
  intros roll Hr. unfold SelectOp. simpl select_loop.
  rewrite (wrap64_small (0 + _)) by lia. by rewrite (proj2 (Z.ltb_lt _ _)) by lia.
Qed.
