(* ===== verification/Ring.v ===== *)
(** * workload/ring.go: the ring of recent session ids

    A bounded buffer shared by the workers; each operation runs under the
    ring's mutex, so it is one atomic step here.  The abstraction [contents]
    lists the stored ids from oldest to newest; [Push] refines "append and
    keep the last [size]", [Sample] returns one of them. *)

From S2P Require Export Prelude.
From S2P Require Export GoRand.

(** A UUID is a 128 bit number; [uuid.Nil] is zero. *)
Definition UUID : Type := Z.
Definition uuid_Nil : UUID := 0.

Record SessionRing := mkRing {
  buf : list UUID;
  size : Z;
  head : Z;
  fill : Z;
}.

(** The bytes of a UUID. *)
Definition uuid_size : Z := 16.

(** [None] is the panic of [make]. *)
Definition NewSessionRing (size : Z) : option SessionRing :=
  n ← make_len uuid_size size;
  Some (mkRing (replicate n uuid_Nil) size 0 0).

(** [None] is the index-out-of-range panic. *)
Definition Push (r : SessionRing) (id : UUID) : option SessionRing :=
  if (0 <=? r.(head)) && (r.(head) <? Z.of_nat (length r.(buf))) then
    let buf := <[Z.to_nat r.(head) := id]> r.(buf) in
    let head := Z.rem (r.(head) +! 1) r.(size) in
    let fill := if r.(fill) <? r.(size) then r.(fill) +! 1 else r.(fill) in
    Some (mkRing buf r.(size) head fill)
  else None.

(** The sampled id with [true], or [uuid.Nil] with [false] when empty; [None]
    is a panic (an index out of range). *)
Definition Sample {R} `{Rand R} (r : SessionRing) (rng : R) : option (UUID * bool * R) :=
  if r.(fill) =? 0 then Some (uuid_Nil, false, rng)
  else
    '(idx, rng) ← Intn r.(fill) rng;
    id ← r.(buf) !! Z.to_nat idx;
    Some (id, true, rng).

(** ** Invariant and abstraction *)

Record ring_wf (r : SessionRing) : Prop := {
  wf_size : 0 < r.(size) ≤ int64_max;
  wf_buf : Z.of_nat (length r.(buf)) = r.(size);
  wf_head : 0 ≤ r.(head) < r.(size);
  wf_fill : 0 ≤ r.(fill) ≤ r.(size);
  wf_partial : r.(fill) < r.(size) → r.(head) = r.(fill);
}.

(** The stored ids, oldest first. *)
Definition contents (r : SessionRing) : list UUID :=
  if r.(fill) <? r.(size) then take (Z.to_nat r.(fill)) r.(buf)
  else drop (Z.to_nat r.(head)) r.(buf) ++ take (Z.to_nat r.(head)) r.(buf).

(** The last [n] elements of a list: the abstract bounded history. *)
Definition lastn {A} (n : nat) (l : list A) : list A := drop (length l - n) l.

Fixpoint PushAll (r : SessionRing) (ids : list UUID) : option SessionRing :=
  match ids with
  | [] => Some r
  | id :: rest => r' ← Push r id; PushAll r' rest
  end.

Lemma NewSessionRing_wf n :
  0 < n ≤ 2 ^ 44 →
  ∃ r, NewSessionRing n = Some r ∧ ring_wf r ∧ contents r = [] ∧ r.(size) = n.
Proof.
  intros Hn. unfold NewSessionRing. rewrite make_len_some by (unfold uuid_size, max_alloc; lia).
  eexists. split; [done|]. split; [|split; [|done]].
  - split; simpl; rewrite ?length_replicate; lia.
  - unfold contents. cbn [fill size head buf].
    by rewrite (proj2 (Z.ltb_lt _ _)) by lia.
Qed.

Lemma length_contents r : ring_wf r → Z.of_nat (length (contents r)) = r.(fill).
Proof.
  intros []. unfold contents. destruct (Z.ltb_spec r.(fill) r.(size)).
  - rewrite length_take. lia.
  - rewrite length_app, length_drop, length_take. lia.
Qed.

(** The slots a draw can hit hold exactly the stored ids. *)
Lemma slots_contents r : ring_wf r → take (Z.to_nat r.(fill)) r.(buf) ≡ₚ contents r.
Proof.
  intros []. unfold contents. destruct (Z.ltb_spec r.(fill) r.(size)); [done|].
  rewrite take_ge by lia.
  rewrite <- (take_drop (Z.to_nat r.(head)) r.(buf)) at 1. apply Permutation_app_comm.
Qed.

Lemma lastn_all {A} n (l : list A) : (length l ≤ n)%nat → lastn n l = l.
Proof. intros H. unfold lastn. by replace (length l - n)%nat with 0%nat by lia. Qed.

Lemma length_lastn {A} n (l : list A) : length (lastn n l) = min n (length l).
Proof. unfold lastn. rewrite length_drop. lia. Qed.

(** Keeping the last [n] at every step keeps the last [n] overall. *)
Lemma lastn_app {A} n (l k : list A) : lastn n (lastn n l ++ k) = lastn n (l ++ k).
Proof.
  unfold lastn. rewrite !length_app, length_drop.
  destruct (decide (length l ≤ n)%nat).
  - replace (length l - n)%nat with 0%nat by lia. rewrite drop_0. f_equal. lia.
  - replace (drop (length l - n) l ++ k) with (drop (length l - n) (l ++ k)).
    + rewrite drop_drop. f_equal. lia.
    + rewrite drop_app_le by lia. done.
Qed.

(** [Push] on a ring that is not yet full appends. *)
Lemma Push_partial r id :
  ring_wf r → r.(fill) < r.(size) →
  ∃ r', Push r id = Some r' ∧ ring_wf r' ∧ contents r' = contents r ++ [id] ∧
    r'.(size) = r.(size).
Proof.
  intros [Hs Hb Hh Hf Hp] Hlt. specialize (Hp Hlt). unfold Push.
  rewrite (proj2 (Z.leb_le _ _)), (proj2 (Z.ltb_lt _ _)) by lia. simpl andb.
  eexists. split; [done|]. cbn [fill size head buf].
  rewrite (proj2 (Z.ltb_lt r.(fill) _)), !wrap64_small, Hp by lia.
  destruct (decide (r.(fill) + 1 < r.(size))) as [Hn|Hn].
  - rewrite Z.rem_small by lia. split; [|split; [|done]].
    + split; cbn [fill size head buf]; rewrite ?length_insert; lia.
    + unfold contents. cbn [fill size head buf].
      rewrite !(proj2 (Z.ltb_lt _ _)) by lia.
      replace (Z.to_nat (r.(fill) + 1)) with (S (Z.to_nat r.(fill))) by lia.
      rewrite (take_S_r _ _ id) by (apply list_lookup_insert_eq; lia).
      by rewrite take_insert_ge by lia.
  - assert (r.(fill) + 1 = r.(size)) as -> by lia. rewrite Z.rem_same by lia.
    split; [|split; [|done]].
    + split; cbn [fill size head buf]; rewrite ?length_insert; lia.
    + unfold contents. cbn [fill size head buf].
      rewrite Z.ltb_irrefl, (proj2 (Z.ltb_lt r.(fill) _)) by lia. simpl. rewrite app_nil_r.
      by rewrite insert_take_drop, (drop_ge r.(buf)) by lia.
Qed.

(** [Push] on a full ring drops the oldest id and appends. *)
Lemma Push_full r id :
  ring_wf r → r.(fill) = r.(size) →
  ∃ r', Push r id = Some r' ∧ ring_wf r' ∧ contents r' = tail (contents r) ++ [id] ∧
    r'.(size) = r.(size).
Proof.
  intros [Hs Hb Hh Hf Hp] Hfull. unfold Push.
  rewrite (proj2 (Z.leb_le _ _)), (proj2 (Z.ltb_lt _ _)) by lia. simpl andb.
  eexists. split; [done|]. cbn [fill size head buf].
  rewrite Hfull, Z.ltb_irrefl, wrap64_small by lia.
  set (h := Z.to_nat r.(head)) in *.
  destruct (drop h r.(buf)) as [|x l] eqn:Hdrop.
  { apply (f_equal length) in Hdrop. rewrite length_drop in Hdrop. simpl in Hdrop. lia. }
  assert (Hbuf : r.(buf) = take h r.(buf) ++ x :: l) by (by rewrite <- Hdrop, take_drop).
  assert (Htl : length (take h r.(buf)) = h) by (rewrite length_take; lia).
  assert (Hins : <[h:=id]> r.(buf) = take h r.(buf) ++ id :: l).
  { rewrite Hbuf at 1. rewrite insert_app_r_alt by lia. by rewrite Htl, Nat.sub_diag. }
  assert (Hc : contents r = x :: l ++ take h r.(buf)).
  { unfold contents. rewrite Hfull, Z.ltb_irrefl. fold h. by rewrite Hdrop. }
  rewrite Hins, Hc. simpl tail.
  assert (Hlen : Z.of_nat (h + S (length l)) = r.(size)).
  { rewrite <- Hb, Hbuf at 1. rewrite length_app. simpl. lia. }
  split; [|split; [|done]].
  - split; cbn [fill size head buf]; rewrite ?length_app; simpl; try lia.
    apply Z.rem_bound_pos; lia.
  - unfold contents. cbn [fill size head buf]. rewrite Z.ltb_irrefl.
    destruct (decide (r.(head) + 1 < r.(size))) as [Hn|Hn].
    + rewrite Z.rem_small by lia.
      replace (Z.to_nat (r.(head) + 1)) with (length (take h r.(buf)) + 1)%nat by lia.
      rewrite drop_app_add, take_app_add. simpl. by rewrite app_assoc.
    + assert (r.(head) + 1 = r.(size)) as -> by lia. rewrite Z.rem_same by lia. simpl.
      rewrite app_nil_r. destruct l; [done|]. simpl in Hlen. lia.
Qed.

Lemma Push_lastn r id :
  ring_wf r →
  ∃ r', Push r id = Some r' ∧ ring_wf r' ∧ r'.(size) = r.(size) ∧
    contents r' = lastn (Z.to_nat r.(size)) (contents r ++ [id]).
Proof.
  intros Hwf. pose proof (length_contents r Hwf) as Hlen.
  pose proof (wf_fill r Hwf). pose proof (wf_size r Hwf).
  destruct (decide (r.(fill) < r.(size))) as [Hlt|Hge].
  - destruct (Push_partial r id Hwf Hlt) as (r' & HP & Hwf' & Hc & Hsz).
    exists r'. rewrite Hc, lastn_all by (rewrite length_app; simpl; lia). done.
  - destruct (Push_full r id Hwf) as (r' & HP & Hwf' & Hc & Hsz); [lia|].
    exists r'. split_and!; [done..|]. rewrite Hc. unfold lastn.
    rewrite length_app. destruct (contents r) as [|x l]; simpl in *; [lia|].
    by replace (S (length l + 1) - Z.to_nat r.(size))%nat with 1%nat by lia.
Qed.

Lemma PushAll_lastn r ids :
  ring_wf r →
  ∃ r', PushAll r ids = Some r' ∧ ring_wf r' ∧ r'.(size) = r.(size) ∧
    contents r' = lastn (Z.to_nat r.(size)) (contents r ++ ids).
Proof.
  revert r. induction ids as [|id ids IH]; intros r Hwf; simpl.
  - exists r. rewrite app_nil_r. split_and!; [done..|].
    rewrite lastn_all; [done|]. pose proof (length_contents r Hwf).
    pose proof (wf_fill r Hwf). lia.
  - destruct (Push_lastn r id Hwf) as (r1 & -> & Hwf1 & Hsz1 & Hc1). simpl.
    destruct (IH r1 Hwf1) as (r2 & -> & Hwf2 & Hsz2 & Hc2).
    exists r2. split_and!; [done|done|congruence|].
    rewrite Hc2, Hsz1, Hc1, lastn_app, <- app_assoc. done.
Qed.

Lemma Sample_nonempty {R} `{RandOk R} r (rng : R) :
  ring_wf r → r.(fill) ≠ 0 →
  ∃ idx id rng', Intn r.(fill) rng = Some (idx, rng') ∧
    r.(buf) !! Z.to_nat idx = Some id ∧ Sample r rng = Some (id, true, rng').
Proof.
  intros Hwf Hne. unfold Sample. rewrite (proj2 (Z.eqb_neq _ _)) by done.
  pose proof (wf_fill r Hwf). pose proof (wf_buf r Hwf).
  destruct (Intn_pos r.(fill) rng) as (idx & rng' & Hi & Hb); [lia|].
  rewrite Hi. simpl.
  destruct (lookup_lt_is_Some_2 r.(buf) (Z.to_nat idx)) as [id Hid]; [lia|].
  exists idx, id, rng'. by rewrite Hid.
Qed.

(** ** Properties *)

(** C28: whatever ids are pushed on a new ring of a positive capacity [n] that
    can be allocated, up to 2^44 ids, no push panics and the ring holds exactly
    the last [n] of them, in order; a larger or a negative capacity makes its
    construction panic. *)
Theorem ring_holds_last (n : Z) (ids : list UUID) :
  (0 < n ≤ 2 ^ 44 →
   ∃ r0 r, NewSessionRing n = Some r0 ∧ PushAll r0 ids = Some r ∧ ring_wf r ∧
     contents r = lastn (Z.to_nat n) ids)
  ∧ (n < 0 ∨ 2 ^ 44 < n → NewSessionRing n = None).
Proof.
  split; [|intros Hn; unfold NewSessionRing; rewrite make_len_none;
    [done|unfold uuid_size, max_alloc; lia]].
  intros Hn. destruct (NewSessionRing_wf n Hn) as (r0 & H0 & Hwf0 & Hc0 & Hs0).
  destruct (PushAll_lastn r0 ids Hwf0) as (r & Hr & Hwf & _ & Hc).
  exists r0, r. split_and!; [done..|]. by rewrite Hc, Hc0, Hs0.
Qed.

Lemma ring_holds_last_witness :
  (∃ r0 r, NewSessionRing 3 = Some r0 ∧ PushAll r0 [11; 12; 13; 14; 15] = Some r ∧
    ring_wf r ∧ contents r = [13; 14; 15])
  ∧ NewSessionRing (2 ^ 62) = None.
Proof.
  split; [apply (ring_holds_last 3 [11; 12; 13; 14; 15]); lia|].
  apply (ring_holds_last (2 ^ 62) []). lia.
Defined.

(** Sampling a well-formed ring never panics: it reports [false] with
    [uuid.Nil] exactly when nothing is stored, and otherwise returns a stored
    id, for every random source that keeps its contract. *)
Theorem Sample_sound {R} `{RandOk R} (r : SessionRing) (rng : R) :
  ring_wf r →
  (contents r = [] ∧ Sample r rng = Some (uuid_Nil, false, rng)) ∨
  (∃ id rng', Sample r rng = Some (id, true, rng') ∧ id ∈ contents r).
Proof.
  intros Hwf. pose proof (length_contents r Hwf) as Hlen.
  destruct (decide (r.(fill) = 0)) as [Hz|Hne].
  - left. split; [apply length_zero_iff_nil; lia|].
    unfold Sample. by rewrite Hz.
  - right. destruct (Sample_nonempty r rng Hwf Hne) as (idx & id & rng' & Hi & Hid & HS).
    exists id, rng'. split; [done|]. rewrite <- (slots_contents r Hwf).
    apply Intn_range in Hi as [_ Hi].
    apply list_elem_of_lookup. exists (Z.to_nat idx).
    rewrite lookup_take_lt by lia. done.
Qed.

Lemma Sample_sound_witness :
  let r := mkRing [14; 15; 13] 3 2 3 in
  (contents r = [] ∧ Sample r [7] = Some (uuid_Nil, false, [7])) ∨
  (∃ id rng', Sample r [7] = Some (id, true, rng') ∧ id ∈ contents r).
Proof. apply (Sample_sound (mkRing [14; 15; 13] 3 2 3) [7]). split; simpl; lia. Defined.

(** Sampling is fair: the ids selected by the draws [0 .. fill-1] are the
    stored ids, each as often as it is stored, so a uniform draw picks a
    uniformly random recent session. *)
Theorem Sample_uniform (r : SessionRing) :
  ring_wf r →
  omap (λ i, '(id, ok, _) ← Sample r [i]; if (ok : bool) then Some id else None)
    (seqZ 0 r.(fill)) ≡ₚ contents r.
Proof.
  intros Hwf. rewrite <- (slots_contents r Hwf).
  pose proof (wf_fill r Hwf) as Hf. pose proof (wf_buf r Hwf) as Hb.
  assert (Hgen : ∀ k : nat, (k ≤ Z.to_nat r.(fill))%nat →
    omap (λ i, '(id, ok, _) ← Sample r [i]; if (ok : bool) then Some id else None)
      (seqZ 0 (Z.of_nat k)) = take k r.(buf)).
  { induction k as [|k IH]; intros Hk; [done|].
    rewrite seqZ_S, omap_app, IH by lia. simpl omap.
    unfold Sample. rewrite (proj2 (Z.eqb_neq _ _)) by lia.
    unfold Intn. rewrite (proj2 (Z.leb_gt _ _)) by lia. simpl.
    rewrite Z.mod_small, Z.add_0_l, Nat2Z.id by lia.
    destruct (lookup_lt_is_Some_2 r.(buf) k) as [id Hid]; [lia|].
    rewrite Hid. simpl. by rewrite (take_S_r _ _ _ Hid). }
  rewrite <- (Hgen (Z.to_nat r.(fill))) by lia. by rewrite Z2Nat.id by lia.
Qed.

Lemma Sample_uniform_witness :
  let r := mkRing [14; 15; 13] 3 2 3 in
  omap (λ i, '(id, ok, _) ← Sample r [i]; if (ok : bool) then Some id else None)
    (seqZ 0 3) ≡ₚ contents r.
Proof. apply (Sample_uniform (mkRing [14; 15; 13] 3 2 3)). split; simpl; lia. Defined.
