(* ===== verification/GoTime.v ===== *)
(** * Go's time

    A [time.Time] is its monotonic reading in nanoseconds, a [time.Duration]
    an [int64] of nanoseconds. *)

From S2P Require Export Prelude.
From S2P Require Export GoFloat.

Definition Time : Type := Z.
Definition Duration : Type := Z.

Definition Millisecond : Duration := 1000000.
Definition Second : Duration := 1000000000.

(** [t.Sub(u)]: the difference, saturated to the range of [Duration]. *)
Definition Sub (t u : Time) : Duration := Z.max int64_min (Z.min int64_max (t - u)).

(** [time.NewTicker] panics when the interval is not positive. *)
Definition ticker_panics (interval : Duration) : bool := interval <=? 0.

(** [d.Seconds()]: whole seconds and the fraction are converted apart. *)
Definition Seconds (d : Duration) : f64 :=
  fadd (of_int (Z.quot d Second)) (fdiv (of_int (Z.rem d Second)) (of_int Second)).

Lemma Second_float : ∃ m e, of_int Second = S754_finite false m e.
Proof. eexists _, _. vm_compute. reflexivity. Qed.

(** Seconds have the sign of the duration. *)
Lemma Seconds_sign (s : bool) d : (if s then d ≤ 0 else 0 ≤ d) → f_sign s (Seconds d).
Proof.
  intros Hd. unfold Seconds. destruct Second_float as (m & e & ->).
  assert (0 < Second) by (unfold Second; lia).
  apply fadd_sign; [|apply fdiv_sign]; apply of_int_sign; destruct s.
  - rewrite <- (Z.opp_involutive d), Z.quot_opp_l by lia.
    pose proof (Z.quot_pos (- d) Second). lia.
  - by apply Z.quot_pos.
  - rewrite <- (Z.opp_involutive d), Z.rem_opp_l by lia.
    pose proof (Z.rem_nonneg (- d) Second). lia.
  - apply Z.rem_nonneg; lia.
Qed.
