(* ===== verification/GoFmt.v ===== *)
(** * Go's fmt: widths, one-decimal floats and durations

    The verbs the console summary prints with: [%6s] and [%-12s] pad by runes,
    [%.1f] rounds the exact value of the float to one decimal, half to even,
    and a [time.Duration] is printed by its [String] method. *)

From S2P Require Export GoText.
From S2P Require Export GoTime.

(** ** Runes

    [utf8.RuneCountInString]: a well-formed sequence is one rune, any other
    byte is one rune of its own. *)

Definition code (c : ascii) : Z := Z.of_N (N_of_ascii c).
Definition between (lo hi : Z) (c : ascii) : bool := (lo <=? code c) && (code c <=? hi).
Definition tail_byte (c : ascii) : bool := between 128 191 c.

(** The byte after a given first byte, where it is narrower than a tail. *)
Definition second_of_three (a b : ascii) : bool :=
  if code a =? 224 then between 160 191 b
  else if code a =? 237 then between 128 159 b else tail_byte b.

Definition second_of_four (a b : ascii) : bool :=
  if code a =? 240 then between 144 191 b
  else if code a =? 244 then between 128 143 b else tail_byte b.

Definition rune2 (a b : ascii) : bool := between 194 223 a && tail_byte b.
Definition rune3 (a b c : ascii) : bool := between 224 239 a && second_of_three a b && tail_byte c.
Definition rune4 (a b c d : ascii) : bool :=
  between 240 244 a && second_of_four a b && tail_byte c && tail_byte d.

Fixpoint RuneCount (s : string) : nat :=
  match s with
  | EmptyString => O
  | String a s1 =>
      S match s1 with
        | EmptyString => O
        | String b s2 =>
            if rune2 a b then RuneCount s2
            else match s2 with
                 | EmptyString => RuneCount s1
                 | String c s3 =>
                     if rune3 a b c then RuneCount s3
                     else match s3 with
                          | EmptyString => RuneCount s1
                          | String d s4 => if rune4 a b c d then RuneCount s4 else RuneCount s1
                          end
                 end
        end
  end.

Fixpoint spaces (n : nat) : string :=
  match n with O => "" | S n => String " " (spaces n) end.

(** [%ws] and [%-ws]. *)
Definition pad_left (w : nat) (s : string) : string := spaces (w - RuneCount s) +:+ s.
Definition pad_right (w : nat) (s : string) : string := s +:+ spaces (w - RuneCount s).

(** ** [%.1f] *)

(** [n / d] to the nearest integer, ties to even. *)
Definition round_half_even (n d : Z) : Z :=
  let q := n / d in
  let r := n mod d in
  if 2 * r <? d then q else if d <? 2 * r then q + 1 else if Z.even q then q else q + 1.

(** Tenths in [m * 2^e]. *)
Definition tenths (m : positive) (e : Z) : Z :=
  if 0 <=? e then Zpos m * 2 ^ e * 10 else round_half_even (Zpos m * 10) (2 ^ (- e)).

Definition fmt_sign (s : bool) : string := if s then "-" else "".

Definition fmt_f1 (f : f64) : string :=
  match f with
  | S754_nan => "NaN"
  | S754_infinity s => if s then "-Inf" else "+Inf"
  | S754_zero s => fmt_sign s +:+ "0.0"
  | S754_finite s m e =>
      let t := tenths m e in
      fmt_sign s +:+ fmt_d (t / 10) +:+ "." +:+ fmt_d (t mod 10)
  end.

(** ** [time.Duration] *)

Definition lessThanHalf (x y : Z) : bool := x + x <? y.

(** [d.Round(m)]: to the nearest multiple, half away from zero, saturating. *)
Definition Round (d m : Duration) : Duration :=
  if m <=? 0 then d
  else
    let r := Z.rem d m in
    if d <? 0 then
      let r := - r in
      if lessThanHalf r m then d + r
      else let d1 := d -! m +! r in if d1 <? d then d1 else int64_min
    else if lessThanHalf r m then d - r
    else let d1 := d +! m -! r in if d <? d1 then d1 else int64_max.

(** [fmtFrac]: the last [prec] decimals of [v] in front of [acc], trailing
    zeros left out, and what remains of [v]. *)
Fixpoint fmtFrac (prec : nat) (v : Z) (print : bool) (acc : string) : string * Z :=
  match prec with
  | O => (if print then "." +:+ acc else acc, v)
  | S prec =>
      let digit := v mod 10 in
      let print := print || negb (digit =? 0) in
      fmtFrac prec (v / 10) print (if print then fmt_d digit +:+ acc else acc)
  end.

(** [d.String()]. *)
Definition Duration_String (d : Duration) : string :=
  let u := Z.abs d in
  let text :=
    if u =? 0 then "0s"
    else if u <? 1000 then fmt_d u +:+ "ns"
    else if u <? 1000000 then
      let '(frac, v) := fmtFrac 3 u false "" in fmt_d v +:+ frac +:+ "µs"
    else if u <? Second then
      let '(frac, v) := fmtFrac 6 u false "" in fmt_d v +:+ frac +:+ "ms"
    else
      let '(frac, v) := fmtFrac 9 u false "" in
      let secs := fmt_d (v mod 60) +:+ frac +:+ "s" in
      let v := v / 60 in
      if v =? 0 then secs
      else
        let mins := fmt_d (v mod 60) +:+ "m" +:+ secs in
        let v := v / 60 in
        if v =? 0 then mins else fmt_d v +:+ "h" +:+ mins
  in
  fmt_sign ((d <? 0) : bool) +:+ text.

(** What Go prints. *)
Example rune_counts : (RuneCount "p95 ms", RuneCount "—", RuneCount "━━") = (6, 1, 2)%nat.
Proof. reflexivity. Qed.

Example padded : (pad_left 6 "12", pad_left 3 "—", pad_right 4 "op") = ("    12", "  —", "op  ")%string.
Proof. reflexivity. Qed.

Example one_decimal :
  (fmt_f1 (f_lit 25 100), fmt_f1 (f_lit 75 100), fmt_f1 (f_lit 1234 100), fmt_f1 (of_int (-7)))
  = ("0.2", "0.8", "12.3", "-7.0")%string.
Proof. vm_compute. reflexivity. Qed.

Example durations :
  (Duration_String (90 * Second), Duration_String (Round 1499999999 Second),
   Duration_String (3600 * Second), Duration_String 1500000, Duration_String int64_max)
  = ("1m30s", "1s", "1h0m0s", "1.5ms", "2562047h47m16.854775807s")%string.
Proof. vm_compute. reflexivity. Qed.

(** A duration rounded to seconds is a whole number of them, and less than a
    second away. *)
Lemma Round_near d :
  0 ≤ d ≤ int64_max - Second →
  ∃ k, Round d Second = k * Second ∧ 2 * Z.abs (Round d Second - d) ≤ Second.
Proof.
  intros Hd. unfold Round, lessThanHalf, Second in *. cbn [Z.leb].
  pose proof (Z.quot_rem d 1000000000 ltac:(lia)) as Hq.
  pose proof (Z.rem_bound_pos d 1000000000 ltac:(lia) ltac:(lia)) as Hr.
  destruct (Z.leb_spec 1000000000 0); [lia|]. destruct (Z.ltb_spec d 0); [lia|].
  set (r := Z.rem d 1000000000) in *. destruct (Z.ltb_spec (r + r) 1000000000).
  - exists (Z.quot d 1000000000). lia.
  - rewrite (wrap64_small (d + _)), wrap64_small by lia.
    destruct (Z.ltb_spec d (d + 1000000000 - r)); [|lia].
    exists (Z.quot d 1000000000 + 1). lia.
Qed.

(** Printing tenths is within half a tenth of the value [m * 2^e]. *)
Lemma tenths_near m e :
  e < 0 → 2 * Z.abs (tenths m e * 2 ^ (- e) - Zpos m * 10) ≤ 2 ^ (- e).
Proof.
  intros He. unfold tenths, round_half_even. destruct (Z.leb_spec 0 e); [lia|].
  set (d := 2 ^ (- e)). assert (0 < d) by (apply Z.pow_pos_nonneg; lia).
  pose proof (Z.div_mod (Zpos m * 10) d ltac:(lia)).
  pose proof (Z.mod_pos_bound (Zpos m * 10) d ltac:(lia)).
  destruct (Z.ltb_spec (2 * (Zpos m * 10 mod d)) d); [lia|].
  destruct (Z.ltb_spec d (2 * (Zpos m * 10 mod d))); [lia|].
  destruct (Z.even _); lia.
Qed.
