(* ===== verification/Stats.v ===== *)
(** * workload/stats.go: one operation's statistics

    [opStats] counts attempts and failures and keeps the exact frequency of
    every successful latency.  Its abstraction is the list of observations
    recorded so far: [summarize] is the statistics of a list, recording
    appends to it, merging concatenates, and the quantiles are the nearest
    rank elements of the sorted successes. *)

From S2P Require Export Prelude.
From S2P Require Export GoText.
From S2P Require Export GoTime.

(** A nil latency map is [None]. *)
Record opStats := mkOpStats {
  count : Z;
  errors : Z;
  latencies : option (gmap Z Z);
}.

#[export] Instance opStats_eq_dec : EqDecision opStats.
Proof. solve_decision. Defined.

(** The zero value [opStats{}]. *)
Definition opStats_zero : opStats := mkOpStats 0 0 None.

(** A nil map reads as empty. *)
Definition lat (s : opStats) : gmap Z Z := default ∅ s.(latencies).

(** [m[k] += n] on a map of counters. *)
Definition map_incr (k n : Z) (m : gmap Z Z) : gmap Z Z :=
  <[k := default 0 (m !! k) +! n]> m.

(** [range] over a map visits the entries in an unspecified order; the order
    of [map_to_list] stands for any of them, since no result depends on it. *)
Definition samples (s : opStats) : Z :=
  foldl (λ n kc, n +! kc.2) 0 (map_to_list (lat s)).

(** The body of [WorkerStats.Record] after the entry has been found: the
    latency in whole microseconds, pinned to zero from below. *)
Definition micros (durationSec : f64) : Z :=
  let us := to_int64 (fmul durationSec (of_int 1000000)) in
  if us <? 0 then 0 else us.

Definition record_stats (s : opStats) (durationSec : f64) (err : option error) : opStats :=
  match err with
  | Some _ => mkOpStats (s.(count) +! 1) (s.(errors) +! 1) s.(latencies)
  | None => mkOpStats (s.(count) +! 1) s.(errors)
              (Some (map_incr (micros durationSec) 1 (lat s)))
  end.

(** [mergeInto]: the destination map is allocated on the first entry. *)
Definition merge_entry (dst : option (gmap Z Z)) (kn : Z * Z) : option (gmap Z Z) :=
  Some (map_incr kn.1 kn.2 (default ∅ dst)).

Definition mergeInto (dst src : opStats) : opStats :=
  mkOpStats (dst.(count) +! src.(count)) (dst.(errors) +! src.(errors))
    (foldl merge_entry dst.(latencies) (map_to_list (lat src))).

(** ** Quantiles *)

(** [sortedKeys]: the distinct latencies in ascending order and the number of
    observations. *)
Definition sortedKeys (s : opStats) : list Z * Z :=
  (merge_sort (≤) (map_to_list (lat s)).*1,
   foldl (λ n kc, n +! kc.2) 0 (map_to_list (lat s))).

(** The rank computed by [quantileFrom], clamped to [1, total]. *)
Definition quantile_rank (total : Z) (q : f64) : Z :=
  let rank := to_int64 (fceil (fmul q (of_int total))) in
  if rank <? 1 then 1 else if rank >? total then total else rank.

(** The walk over every key but the last. *)
Fixpoint quantile_walk (lats : gmap Z Z) (keys : list Z) (cum rank : Z) : Z :=
  match keys with
  | [] => 0
  | [us] => us
  | us :: rest =>
      let cum := cum +! default 0 (lats !! us) in
      if cum >=? rank then us else quantile_walk lats rest cum rank
  end.

(** Microseconds to milliseconds. *)
Definition to_ms (us : Z) : f64 := fdiv (of_int us) (of_int 1000).

(** [keys] is empty only together with [total = 0] (see [sortedKeys_nil]), so
    the slice expressions of the source never go out of range. *)
Definition quantileFrom (lats : gmap Z Z) (keys : list Z) (total : Z) (q : f64) : f64 :=
  if total =? 0 then f_zero
  else to_ms (quantile_walk lats keys 0 (quantile_rank total q)).

Definition percentile (s : opStats) (q : f64) : f64 :=
  let '(keys, total) := sortedKeys s in quantileFrom (lat s) keys total q.

Definition q50 : f64 := f_lit 50 100.
Definition q95 : f64 := f_lit 95 100.
Definition q99 : f64 := f_lit 99 100.
Definition q999 : f64 := f_lit 999 1000.

(** [LatencyStats] of result.go. *)
Record LatencyStats := mkLatencyStats {
  MinMS : f64; MeanMS : f64; P50MS : f64; P95MS : f64;
  P99MS : f64; P999MS : f64; MaxMS : f64;
}.

Definition LatencyStats_zero : LatencyStats :=
  mkLatencyStats f_zero f_zero f_zero f_zero f_zero f_zero f_zero.

Definition weighted_sum (lats : gmap Z Z) (keys : list Z) : Z :=
  foldl (λ acc us, acc +! (us *! default 0 (lats !! us))) 0 keys.

Definition latencyStats (s : opStats) : LatencyStats :=
  let '(keys, total) := sortedKeys s in
  if total =? 0 then LatencyStats_zero
  else {|
    MinMS := to_ms (default 0 (head keys));
    MeanMS := fdiv (fdiv (of_int (weighted_sum (lat s) keys)) (of_int total)) (of_int 1000);
    P50MS := quantileFrom (lat s) keys total q50;
    P95MS := quantileFrom (lat s) keys total q95;
    P99MS := quantileFrom (lat s) keys total q99;
    P999MS := quantileFrom (lat s) keys total q999;
    MaxMS := to_ms (default 0 (last keys));
  |}.

(** ** The abstraction: a list of observations *)

Inductive obs :=
  | Success (us : Z)
  | Failure.

#[export] Instance obs_eq_dec : EqDecision obs.
Proof. solve_decision. Defined.

(** What one executed operation contributes. *)
Definition obs_of (durationSec : f64) (err : option error) : obs :=
  match err with Some _ => Failure | None => Success (micros durationSec) end.

Definition successes (l : list obs) : list Z :=
  omap (λ o, match o with Success us => Some us | Failure => None end) l.

Definition failures (l : list obs) : list obs := filter (Failure =.) l.

(** The frequency map of a list of latencies. *)
Definition hist (l : list Z) : gmap Z Z :=
  foldr (λ us m, <[us := default 0 (m !! us) + 1]> m) ∅ l.

Definition hist_opt (l : list Z) : option (gmap Z Z) :=
  match l with [] => None | _ => Some (hist l) end.

(** The statistics of a list of observations. *)
Definition summarize (l : list obs) : opStats :=
  mkOpStats (Z.of_nat (length l)) (Z.of_nat (length (failures l))) (hist_opt (successes l)).

(** Adding [n] to the counter of [k]. *)
Definition bump (k n : Z) (m : gmap Z Z) : gmap Z Z := <[k := default 0 (m !! k) + n]> m.

Lemma bump_lookup k n m j :
  bump k n m !! j = if decide (k = j) then Some (default 0 (m !! j) + n) else m !! j.
Proof.
  unfold bump. rewrite lookup_insert. case_decide; [by subst|done].
Qed.

Lemma bump_comm k n j i m : bump k n (bump j i m) = bump j i (bump k n m).
Proof.
  apply map_eq; intros x. rewrite !bump_lookup.
  repeat case_decide; subst; simpl; try done.
  f_equal. lia.
Qed.

Lemma hist_cons us l : hist (us :: l) = bump us 1 (hist l).
Proof. done. Qed.

Lemma hist_app l k : hist (l ++ k) = foldr (λ us m, bump us 1 m) (hist k) l.
Proof. unfold hist. by rewrite foldr_app. Qed.

#[export] Instance hist_perm : Proper ((≡ₚ) ==> eq) hist.
Proof.
  induction 1; [done|..].
  - by rewrite !hist_cons, IHPermutation.
  - rewrite !hist_cons. apply bump_comm.
  - congruence.
Qed.

(** Every counter of a histogram is positive and at most the list's length. *)
Lemma hist_bound l us c : hist l !! us = Some c → 1 ≤ c ≤ Z.of_nat (length l).
Proof.
  revert us c. induction l as [|x l IH]; intros us c; [done|].
  rewrite hist_cons, bump_lookup. simpl length. case_decide as Hx.
  - intros [= <-]. destruct (hist l !! us) eqn:He; simpl; [|lia].
    pose proof (IH _ _ He). lia.
  - intros He. pose proof (IH _ _ He). lia.
Qed.

Lemma hist_default_bound l us : 0 ≤ default 0 (hist l !! us) ≤ Z.of_nat (length l).
Proof.
  destruct (hist l !! us) eqn:He; simpl; [|lia]. pose proof (hist_bound _ _ _ He). lia.
Qed.

(** The sum of the values of a counter map. *)
Definition map_sum (m : gmap Z Z) : Z := sum_list_Z (map_to_list m).*2.

Lemma map_sum_empty : map_sum ∅ = 0.
Proof. unfold map_sum. by rewrite map_to_list_empty. Qed.

Lemma map_sum_insert_new k v m : m !! k = None → map_sum (<[k:=v]> m) = v + map_sum m.
Proof. intros Hk. unfold map_sum. by rewrite map_to_list_insert. Qed.

Lemma map_sum_delete k c m : m !! k = Some c → map_sum m = c + map_sum (delete k m).
Proof.
  intros Hk. rewrite <- (insert_delete_id m k c Hk) at 1.
  apply map_sum_insert_new, lookup_delete_eq.
Qed.

Lemma map_sum_bump k n m : map_sum (bump k n m) = map_sum m + n.
Proof.
  unfold bump. destruct (m !! k) as [c|] eqn:Hk; simpl.
  - rewrite (map_sum_delete k c m Hk), (map_sum_delete k (c + n)) by apply lookup_insert_eq.
    rewrite delete_insert_eq. lia.
  - rewrite map_sum_insert_new by done. lia.
Qed.

Lemma map_sum_hist l : map_sum (hist l) = Z.of_nat (length l).
Proof.
  induction l as [|us l IH]; [apply map_sum_empty|].
  rewrite hist_cons, map_sum_bump, IH. simpl length. lia.
Qed.

(** ** Successes and failures of a list *)

Lemma successes_app l k : successes (l ++ k) = successes l ++ successes k.
Proof. apply omap_app. Qed.

Lemma failures_app l k : failures (l ++ k) = failures l ++ failures k.
Proof. apply filter_app. Qed.

#[export] Instance successes_perm : Proper ((≡ₚ) ==> (≡ₚ)) successes.
Proof. intros l k H. unfold successes. by rewrite H. Qed.

#[export] Instance failures_perm : Proper ((≡ₚ) ==> (≡ₚ)) failures.
Proof. intros l k H. unfold failures. by rewrite H. Qed.

Lemma failures_cons o l :
  failures (o :: l) = match o with Failure => Failure :: failures l | Success _ => failures l end.
Proof.
  unfold failures. destruct o; [by rewrite filter_cons_False|by rewrite filter_cons_True].
Qed.

Lemma successes_cons o l :
  successes (o :: l) = match o with Success us => us :: successes l | Failure => successes l end.
Proof. by destruct o. Qed.

Lemma length_successes_failures l :
  (length (successes l) + length (failures l) = length l)%nat.
Proof.
  induction l as [|o l IH]; [done|].
  rewrite successes_cons, failures_cons. destruct o; simpl; lia.
Qed.

Lemma lat_summarize l : lat (summarize l) = hist (successes l).
Proof. unfold lat, summarize; simpl. by destruct (successes l). Qed.

(** ** Recording and merging commute with the abstraction *)

Lemma hist_opt_app l k :
  hist_opt (l ++ k) = match l ++ k with [] => None | _ => Some (hist (l ++ k)) end.
Proof. by destruct (l ++ k). Qed.

#[export] Instance hist_opt_perm : Proper ((≡ₚ) ==> eq) hist_opt.
Proof.
  intros l k Hp. destruct l as [|x l], k as [|y k]; try done.
  - by apply Permutation_nil_cons in Hp.
  - symmetry in Hp. by apply Permutation_nil_cons in Hp.
  - unfold hist_opt. by rewrite Hp.
Qed.

#[export] Instance summarize_perm : Proper ((≡ₚ) ==> eq) summarize.
Proof. intros l k Hp. unfold summarize. by rewrite Hp. Qed.

Lemma map_incr_bump k n m :
  int64_min ≤ default 0 (m !! k) + n ≤ int64_max → map_incr k n m = bump k n m.
Proof. intros H. unfold map_incr, bump. by rewrite wrap64_small. Qed.

Lemma hist_snoc l us : hist (l ++ [us]) = bump us 1 (hist l).
Proof. rewrite <- Permutation_cons_append. apply hist_cons. Qed.

(** Recording one outcome appends it to the observations. *)
Lemma record_summarize l durationSec err :
  Z.of_nat (length l) < int64_max →
  record_stats (summarize l) durationSec err = summarize (l ++ [obs_of durationSec err]).
Proof.
  intros Hb. pose proof (length_successes_failures l) as Hlen.
  unfold record_stats, summarize, obs_of.
  rewrite length_app, successes_app, failures_app, length_app.
  destruct err as [e|]; simpl count; simpl errors; rewrite !wrap64_small by (simpl; lia).
  - rewrite app_nil_r. simpl. f_equal; lia.
  - f_equal; [simpl; lia|simpl; lia|].
    change (successes [Success (micros durationSec)]) with [micros durationSec].
    rewrite hist_opt_app, hist_snoc.
    pose proof (hist_default_bound (successes l) (micros durationSec)) as Hd.
    change (lat _) with (lat (summarize l)). rewrite lat_summarize, map_incr_bump by lia.
    by destruct (successes l).
Qed.

Lemma hist_app_lookup l k us :
  hist (l ++ k) !! us =
  match hist l !! us with
  | Some c => Some (c + default 0 (hist k !! us))
  | None => hist k !! us
  end.
Proof.
  induction l as [|x l IH]; [done|].
  rewrite <- app_comm_cons, !hist_cons, !bump_lookup. case_decide; [|done].
  rewrite IH. destruct (hist l !! us); simpl; f_equal; lia.
Qed.

Lemma merge_entries_lookup (kvs : list (Z * Z)) m j :
  NoDup kvs.*1 →
  foldl (λ m kn, map_incr kn.1 kn.2 m) m kvs !! j =
  match (list_to_map kvs : gmap Z Z) !! j with
  | Some n => Some (default 0 (m !! j) +! n)
  | None => m !! j
  end.
Proof.
  revert m. induction kvs as [|[k n] kvs IH]; intros m Hnd; [done|].
  apply NoDup_cons in Hnd as [Hk Hnd]. simpl. rewrite IH by done. unfold map_incr; simpl.
  destruct (decide (j = k)) as [->|Hne].
  - rewrite not_elem_of_list_to_map_1 by done. by rewrite !lookup_insert_eq.
  - by rewrite !lookup_insert_ne by done.
Qed.

Lemma merge_entries_some kvs m :
  foldl merge_entry (Some m) kvs = Some (foldl (λ m kn, map_incr kn.1 kn.2 m) m kvs).
Proof. revert m. induction kvs as [|kn kvs IH]; intros m; [done|]. apply IH. Qed.

Lemma merge_entries dst kvs :
  foldl merge_entry dst kvs =
  match kvs with
  | [] => dst
  | _ => Some (foldl (λ m kn, map_incr kn.1 kn.2 m) (default ∅ dst) kvs)
  end.
Proof.
  destruct kvs as [|kn kvs]; [done|].
  exact (merge_entries_some kvs (map_incr kn.1 kn.2 (default ∅ dst))).
Qed.

Lemma merge_hist l k :
  Z.of_nat (length l + length k) ≤ int64_max →
  foldl (λ m kn, map_incr kn.1 kn.2 m) (hist l) (map_to_list (hist k)) = hist (l ++ k).
Proof.
  intros Hb. apply map_eq; intros us.
  rewrite merge_entries_lookup by apply NoDup_fst_map_to_list.
  rewrite list_to_map_to_list, hist_app_lookup.
  pose proof (hist_default_bound l us). pose proof (hist_default_bound k us).
  destruct (hist k !! us) eqn:?, (hist l !! us) eqn:?; simpl in *;
    rewrite ?wrap64_small by lia; f_equal; lia.
Qed.

Lemma hist_nonempty x l : hist (x :: l) ≠ ∅.
Proof. rewrite hist_cons. apply insert_non_empty. Qed.

(** Merging two windows concatenates their observations. *)
Lemma mergeInto_summarize l k :
  Z.of_nat (length l + length k) ≤ int64_max →
  mergeInto (summarize l) (summarize k) = summarize (l ++ k).
Proof.
  intros Hb. pose proof (length_successes_failures l) as Hl.
  pose proof (length_successes_failures k) as Hk.
  unfold mergeInto. rewrite lat_summarize. unfold summarize. simpl.
  rewrite length_app, failures_app, length_app, successes_app, !wrap64_small by lia.
  f_equal; [lia|lia|]. rewrite merge_entries, hist_opt_app.
  destruct (successes k) as [|x k'] eqn:Hsk.
  - change (hist []) with (∅ : gmap Z Z).
    rewrite map_to_list_empty, app_nil_r. by destruct (successes l).
  - rewrite <- Hsk in *. destruct (map_to_list (hist (successes k))) eqn:He.
    { apply map_to_list_empty_iff in He. rewrite Hsk in He. by apply hist_nonempty in He. }
    rewrite <- He.
    replace (default ∅ (hist_opt (successes l))) with (hist (successes l))
      by (by destruct (successes l)).
    rewrite merge_hist by lia. rewrite Hsk. by destruct (successes l).
Qed.

Lemma summarize_nil : summarize [] = opStats_zero.
Proof. done. Qed.

Lemma samples_map_sum s : samples s = wrap 64 (map_sum (lat s)).
Proof.
  etrans; [exact (foldl_wrap_add (λ kc : Z * Z, kc.2) (map_to_list (lat s)) 0)|].
  by rewrite Z.add_0_l.
Qed.

Lemma samples_summarize l :
  Z.of_nat (length l) ≤ int64_max →
  samples (summarize l) = Z.of_nat (length (successes l)).
Proof.
  intros Hb. pose proof (length_successes_failures l).
  rewrite samples_map_sum, lat_summarize, map_sum_hist. apply wrap64_small. lia.
Qed.
