(* ===== verification/Quantile.v ===== *)
(** * workload/stats.go: the quantiles are nearest rank

    The walk over the frequency map is proved equal to looking up the sorted
    observations, and the rank computed in floating point equal to the exact
    ceiling, which gives the definition stated in the source: the smallest
    observed value [v] such that at least [ceil(q*N)] observations are [<= v]. *)

From S2P Require Export Stats.

(** The observations in ascending order. *)
Definition sorted (l : list Z) : list Z := merge_sort (≤) l.

(** How many elements of [l] are at most [v]. *)
Definition count_le (v : Z) (l : list Z) : Z := Z.of_nat (length (filter (λ x, x ≤ v) l)).

(** The smallest element of [l] with at least [r] elements at or below it. *)
Definition nearest_rank (l : list Z) (r us : Z) : Prop :=
  us ∈ l ∧ r ≤ count_le us l ∧ ∀ v, v ∈ l → r ≤ count_le v l → us ≤ v.

(** The observations a frequency map stands for, key by key. *)
Definition expand (m : gmap Z Z) (keys : list Z) : list Z :=
  keys ≫= λ k, replicate (Z.to_nat (default 0 (m !! k))) k.

Definition spread (m : gmap Z Z) : list Z :=
  map_to_list m ≫= λ kn, replicate (Z.to_nat kn.2) kn.1.

(** ** A histogram spreads back to its list *)

Lemma spread_insert_new k v m :
  m !! k = None → spread (<[k:=v]> m) ≡ₚ replicate (Z.to_nat v) k ++ spread m.
Proof. intros Hk. unfold spread. by rewrite map_to_list_insert. Qed.

Lemma spread_delete k c m :
  m !! k = Some c → spread m ≡ₚ replicate (Z.to_nat c) k ++ spread (delete k m).
Proof.
  intros Hk. rewrite <- (insert_delete_id m k c Hk) at 1.
  apply spread_insert_new, lookup_delete_eq.
Qed.

Lemma spread_bump k m :
  0 ≤ default 0 (m !! k) → spread (bump k 1 m) ≡ₚ k :: spread m.
Proof.
  unfold bump. destruct (m !! k) as [c|] eqn:Hk; simpl; intros Hc.
  - rewrite (spread_delete k (c + 1)) by apply lookup_insert_eq.
    rewrite (spread_delete k c m Hk), delete_insert_eq.
    by replace (Z.to_nat (c + 1)) with (S (Z.to_nat c)) by lia.
  - by rewrite spread_insert_new.
Qed.

Lemma spread_hist l : spread (hist l) ≡ₚ l.
Proof.
  induction l as [|us l IH]; [done|].
  rewrite hist_cons, spread_bump, IH; [done|]. apply hist_default_bound.
Qed.

Lemma expand_cons m k keys :
  expand m (k :: keys) = replicate (Z.to_nat (default 0 (m !! k))) k ++ expand m keys.
Proof. done. Qed.

Lemma expand_spread_list m (kvs : list (Z * Z)) :
  Forall (λ kn, m !! kn.1 = Some kn.2) kvs →
  expand m kvs.*1 = kvs ≫= λ kn, replicate (Z.to_nat kn.2) kn.1.
Proof.
  induction 1 as [|[k n] kvs Hk _ IH]; [done|].
  cbn [fmap list_fmap fst]. rewrite expand_cons, IH. simpl in Hk. by rewrite Hk.
Qed.

Lemma expand_hist l keys :
  keys ≡ₚ (map_to_list (hist l)).*1 → expand (hist l) keys ≡ₚ l.
Proof.
  intros Hp. unfold expand. rewrite Hp. fold (expand (hist l) (map_to_list (hist l)).*1).
  rewrite expand_spread_list; [apply spread_hist|].
  apply Forall_forall. intros [k n] Hin. by apply elem_of_map_to_list in Hin.
Qed.

(** ** Sortedness *)

#[export] Instance Zle_total : Total (≤).
Proof. intros x y. lia. Qed.

Lemma sorted_perm l : sorted l ≡ₚ l.
Proof. apply merge_sort_Permutation. Qed.

Lemma sorted_sorted l : StronglySorted (≤) (sorted l).
Proof. apply StronglySorted_merge_sort; apply _. Qed.

Lemma StronglySorted_replicate n (k : Z) : StronglySorted (≤) (replicate n k).
Proof.
  induction n as [|n IH]; simpl; constructor; [done|].
  apply Forall_forall. intros x Hx. apply elem_of_replicate in Hx. lia.
Qed.

Lemma elem_of_expand m keys x : x ∈ expand m keys → x ∈ keys.
Proof.
  unfold expand. intros (k & Hx & Hk)%list_elem_of_bind.
  apply elem_of_replicate in Hx as [-> _]. done.
Qed.

Lemma expand_sorted m keys : StronglySorted (≤) keys → StronglySorted (≤) (expand m keys).
Proof.
  induction 1 as [|k keys Hs IH Hk]; [constructor|].
  rewrite expand_cons. apply StronglySorted_app_2; [|apply StronglySorted_replicate|done].
  intros x y Hx Hy%elem_of_expand. apply elem_of_replicate in Hx as [-> _].
  rewrite Forall_forall in Hk. auto.
Qed.

(** The keys of the map, sorted and expanded, are the sorted observations. *)
Lemma expand_sortedKeys l :
  expand (hist l) (merge_sort (≤) (map_to_list (hist l)).*1) = sorted l.
Proof.
  apply (StronglySorted_unique (≤)).
  - apply expand_sorted, StronglySorted_merge_sort; apply _.
  - apply sorted_sorted.
  - rewrite sorted_perm. apply expand_hist, merge_sort_Permutation.
Qed.

(** ** The walk *)

Lemma sortedKeys_nil s : (sortedKeys s).1 = [] → (sortedKeys s).2 = 0.
Proof.
  unfold sortedKeys. simpl. intros Hn.
  pose proof (merge_sort_Permutation (≤) (map_to_list (lat s)).*1) as Hp.
  rewrite Hn in Hp. apply Permutation_nil_l in Hp. symmetry in Hp.
  apply fmap_nil_inv in Hp. by rewrite Hp.
Qed.

Lemma sortedKeys_summarize l :
  Z.of_nat (length l) ≤ int64_max →
  sortedKeys (summarize l) =
  (merge_sort (≤) (map_to_list (hist (successes l))).*1,
   Z.of_nat (length (successes l))).
Proof.
  intros Hb. unfold sortedKeys.
  change (foldl _ 0 _) with (samples (summarize l)).
  by rewrite samples_summarize, lat_summarize.
Qed.

Lemma quantile_walk_cons m us us' keys cum rank :
  quantile_walk m (us :: us' :: keys) cum rank =
  let cum := cum +! default 0 (m !! us) in
  if cum >=? rank then us else quantile_walk m (us' :: keys) cum rank.
Proof. done. Qed.

(** Walking the keys with the counters is indexing the expanded list. *)
Lemma quantile_walk_expand m keys cum rank :
  (∀ k, 0 ≤ default 0 (m !! k)) →
  0 ≤ cum → cum + Z.of_nat (length (expand m keys)) ≤ int64_max →
  cum < rank ≤ cum + Z.of_nat (length (expand m keys)) →
  expand m keys !! Z.to_nat (rank - cum - 1) = Some (quantile_walk m keys cum rank).
Proof.
  intros Hm. revert cum. induction keys as [|us keys IH]; intros cum Hc Hmax Hr.
  { simpl in Hr. lia. }
  rewrite expand_cons, length_app, length_replicate in *.
  pose proof (Hm us) as Hus. set (c := default 0 (m !! us)) in *.
  destruct keys as [|us' keys].
  - simpl expand in *. simpl length in *. rewrite app_nil_r. simpl quantile_walk.
    apply lookup_replicate. split; [done|lia].
  - rewrite quantile_walk_cons. fold c. cbv zeta. rewrite wrap64_small by lia.
    destruct (Z.geb_spec (cum + c) rank).
    + rewrite lookup_app_l by (rewrite length_replicate; lia).
      apply lookup_replicate. split; [done|lia].
    + rewrite lookup_app_r by (rewrite length_replicate; lia).
      rewrite length_replicate, <- (IH (cum + c)) by lia. f_equal. lia.
Qed.

(** ** The rank *)

Lemma quantile_rank_exact (mq : positive) (a b n : Z) :
  0 < a ≤ b → b ≤ 1000 → Zpos (digits2_pos mq) = 53 →
  Zpos mq * b ≤ a * 2 ^ 53 < (Zpos mq + 1) * b → 0 < n < 2 ^ 40 →
  quantile_rank n (S754_finite false mq (-53)) = cdiv (a * n) b.
Proof.
  intros Hab Hb Hd Hq Hn. unfold quantile_rank. rewrite (fmul_ceil mq a b n) by done.
  pose proof (cdiv_bounds (a * n) b ltac:(lia)) as [Hl Hu].
  assert (1 ≤ cdiv (a * n) b ≤ n) by nia.
  rewrite (proj2 (Z.ltb_ge _ _)), Z.gtb_ltb, (proj2 (Z.ltb_ge _ _)) by lia. done.
Qed.

(** The quantiles the program asks for, with the fractions they stand for. *)
Definition quantiles : list (f64 * Z * Z) :=
  [(q50, 50, 100); (q95, 95, 100); (q99, 99, 100); (q999, 999, 1000)].

Lemma quantiles_rank q a b n :
  (q, a, b) ∈ quantiles → 0 < n < 2 ^ 40 →
  0 < a ≤ b ∧ quantile_rank n q = cdiv (a * n) b.
Proof.
  intros Hq Hn. unfold quantiles in Hq. rewrite !elem_of_cons in Hq.
  destruct Hq as [[= -> -> ->]|[[= -> -> ->]|[[= -> -> ->]|[[= -> -> ->]|[]%not_elem_of_nil]]]];
    (split; [lia|]).
  - by apply (quantile_rank_exact 4503599627370496).
  - by apply (quantile_rank_exact 8556839292003942).
  - by apply (quantile_rank_exact 8917127262193582).
  - by apply (quantile_rank_exact 8998192055486251).
Qed.

(** ** Nearest rank *)

Lemma count_le_perm v l k : l ≡ₚ k → count_le v l = count_le v k.
Proof. intros H. unfold count_le. by rewrite H. Qed.

Lemma nearest_rank_perm l k r us : l ≡ₚ k → nearest_rank l r us → nearest_rank k r us.
Proof.
  intros Hp (Hin & Hr & Hmin). unfold nearest_rank. rewrite <- (count_le_perm us l k Hp).
  split_and!; [by rewrite <- Hp|done|].
  intros v Hv Hc. apply Hmin; [by rewrite Hp|by rewrite (count_le_perm v l k Hp)].
Qed.

Lemma nearest_rank_sorted s (i : nat) us :
  StronglySorted (≤) s → s !! i = Some us → nearest_rank s (Z.of_nat i + 1) us.
Proof.
  intros Hs Hi. pose proof (lookup_lt_Some _ _ _ Hi) as Hlt.
  pose proof (take_drop_middle s i us Hi) as Hsplit. rewrite <- Hsplit in Hs.
  apply StronglySorted_app in Hs as (Hcross & Hs1 & Hs2).
  apply StronglySorted_inv in Hs2 as [_ Hge]. rewrite Forall_forall in Hge.
  split_and!; [by eapply list_elem_of_lookup_2| |].
  - unfold count_le. rewrite <- Hsplit, filter_app, filter_cons_True by lia.
    rewrite (filter_all (λ x, x ≤ us) (take i s)).
    + rewrite length_app, length_take. simpl. lia.
    + apply Forall_forall. intros x Hx. apply Hcross; [done|]. by left.
  - intros v _ Hv. destruct (decide (us ≤ v)) as [|Hlt']; [done|exfalso].
    unfold count_le in Hv. rewrite <- Hsplit, filter_app in Hv.
    rewrite filter_cons_False, (filter_none (λ x, x ≤ v) (drop (S i) s)), app_nil_r in Hv.
    + pose proof (length_filter (λ x, x ≤ v) (take i s)) as Hf.
      rewrite length_take in Hf. lia.
    + apply Forall_forall. intros x Hx%Hge. lia.
    + lia.
Qed.

(** The element of a given rank exists and is what the walk returns. *)
Lemma quantile_walk_nearest l rank :
  Z.of_nat (length l) ≤ int64_max → 1 ≤ rank ≤ Z.of_nat (length l) →
  let us := quantile_walk (hist l) (merge_sort (≤) (map_to_list (hist l)).*1) 0 rank in
  sorted l !! Z.to_nat (rank - 1) = Some us ∧ nearest_rank l rank us.
Proof.
  intros Hb Hr us.
  assert (Hs : sorted l !! Z.to_nat (rank - 1) = Some us).
  { pose proof (expand_sortedKeys l) as He. unfold us.
    rewrite <- (quantile_walk_expand (hist l) _ 0 rank).
    - rewrite He. f_equal. lia.
    - intros k. apply hist_default_bound.
    - lia.
    - rewrite He, sorted_perm. lia.
    - rewrite He, sorted_perm. lia. }
  split; [done|]. apply (nearest_rank_perm (sorted l)); [apply sorted_perm|].
  replace rank with (Z.of_nat (Z.to_nat (rank - 1)) + 1) by lia.
  apply nearest_rank_sorted; [apply sorted_sorted|done].
Qed.

Lemma nearest_rank_mono l r r' us us' :
  nearest_rank l r us → nearest_rank l r' us' → r ≤ r' → us ≤ us'.
Proof. intros (_ & _ & Hmin) (Hin & Hc & _) Hr. apply Hmin; [done|lia]. Qed.

(** [quantileFrom] on the keys of a window returns the exact nearest rank. *)
Lemma quantileFrom_nearest l q a b :
  (q, a, b) ∈ quantiles → 0 < Z.of_nat (length l) < 2 ^ 40 →
  ∃ us, nearest_rank l (cdiv (a * Z.of_nat (length l)) b) us ∧
    quantileFrom (hist l) (merge_sort (≤) (map_to_list (hist l)).*1)
      (Z.of_nat (length l)) q = to_ms us.
Proof.
  intros Hq Hn. destruct (quantiles_rank q a b _ Hq Hn) as [Hab Hrank].
  set (n := Z.of_nat (length l)) in *.
  pose proof (cdiv_bounds (a * n) b ltac:(lia)) as [Hl Hu].
  destruct (quantile_walk_nearest l (cdiv (a * n) b)) as [_ Hus]; [lia|nia|].
  eexists. split; [exact Hus|].
  unfold quantileFrom. rewrite (proj2 (Z.eqb_neq _ _)), Hrank by lia. done.
Qed.

(** The smallest and the largest key are the extreme observations. *)
Lemma sorted_keys_elem l us :
  us ∈ merge_sort (≤) (map_to_list (hist l)).*1 ↔ us ∈ l.
Proof.
  rewrite merge_sort_Permutation, list_elem_of_fmap. split.
  - intros ([k c] & -> & Hin%elem_of_map_to_list). simpl.
    rewrite <- (spread_hist l). unfold spread. apply list_elem_of_bind.
    exists (k, c). split; [|by apply elem_of_map_to_list].
    apply elem_of_replicate. pose proof (hist_bound _ _ _ Hin). simpl. split; [done|lia].
  - rewrite <- (spread_hist l) at 1. unfold spread.
    intros ([k c] & Hx & Hin)%list_elem_of_bind.
    apply elem_of_replicate in Hx as [-> _]. by exists (k, c).
Qed.

Lemma sorted_head_min (s : list Z) x :
  StronglySorted (≤) s → head s = Some x → x ∈ s ∧ ∀ y, y ∈ s → x ≤ y.
Proof.
  destruct s as [|z s]; [done|]. intros [_ Hle]%StronglySorted_inv [= ->].
  rewrite Forall_forall in Hle. split; [by left|].
  intros y [->|Hy]%elem_of_cons; [lia|auto].
Qed.

Lemma sorted_last_max (s : list Z) x :
  StronglySorted (≤) s → last s = Some x → x ∈ s ∧ ∀ y, y ∈ s → y ≤ x.
Proof.
  intros Hs (s' & ->)%last_Some. apply StronglySorted_app in Hs as (Hc & _ & _).
  split; [set_solver|]. intros y [Hy|Hy]%elem_of_app; [apply Hc; set_solver|].
  apply list_elem_of_singleton in Hy as ->. lia.
Qed.

Lemma weighted_sum_wrap m keys :
  weighted_sum m keys = wrap 64 (sum_list_Z ((λ us, us * default 0 (m !! us)) <$> keys)).
Proof.
  unfold weighted_sum. assert (∀ acc,
    foldl (λ acc us, acc +! (us *! default 0 (m !! us))) (wrap 64 acc) keys =
    wrap 64 (acc + sum_list_Z ((λ us, us * default 0 (m !! us)) <$> keys))) as H.
  { induction keys as [|us keys IH]; intros acc; simpl; [by rewrite Z.add_0_r|].
    rewrite Z.add_assoc, <- IH. f_equal. mod64. }
  exact (H 0).
Qed.

Lemma sum_list_Z_replicate n k : sum_list_Z (replicate n k) = k * Z.of_nat n.
Proof.
  induction n as [|n IH]; [simpl; lia|]. rewrite Nat2Z.inj_succ. simpl. rewrite IH. lia.
Qed.

(** Keys weighted by their counters sum to the sum of the observations. *)
Lemma sum_weighted_expand m keys :
  (∀ k, 0 ≤ default 0 (m !! k)) →
  sum_list_Z ((λ us, us * default 0 (m !! us)) <$> keys) = sum_list_Z (expand m keys).
Proof.
  intros Hm. induction keys as [|us keys IH]; [done|].
  rewrite expand_cons, sum_list_Z_app, sum_list_Z_replicate, <- IH.
  by rewrite Z2Nat.id by apply Hm.
Qed.

Lemma weighted_sum_hist l :
  int64_min ≤ sum_list_Z l ≤ int64_max →
  weighted_sum (hist l) (merge_sort (≤) (map_to_list (hist l)).*1) = sum_list_Z l.
Proof.
  intros Hb. rewrite weighted_sum_wrap, sum_weighted_expand, expand_sortedKeys, sorted_perm.
  - by apply wrap64_small.
  - intros k. apply hist_default_bound.
Qed.

Lemma keys_nonempty l :
  l ≠ [] → merge_sort (≤) (map_to_list (hist l)).*1 ≠ [].
Proof.
  intros Hl Hk. destruct l as [|x l]; [done|].
  assert (x ∈ (merge_sort (≤) (map_to_list (hist (x :: l))).*1)) as Hx
    by (apply sorted_keys_elem; by left).
  rewrite Hk in Hx. by apply not_elem_of_nil in Hx.
Qed.

(** The extreme keys are the least and the greatest observation. *)
Lemma keys_extremes l :
  l ≠ [] →
  let keys := merge_sort (≤) (map_to_list (hist l)).*1 in
  ∃ mn mx, head keys = Some mn ∧ last keys = Some mx ∧ mn ∈ l ∧ mx ∈ l ∧
    ∀ us, us ∈ l → mn ≤ us ≤ mx.
Proof.
  intros Hl keys. pose proof (keys_nonempty l Hl) as Hne. fold keys in Hne.
  assert (Hs : StronglySorted (≤) keys) by (apply StronglySorted_merge_sort; apply _).
  destruct (head keys) as [mn|] eqn:Hhead; [|by apply head_None in Hhead].
  destruct (last keys) as [mx|] eqn:Hlast; [|by apply last_None in Hlast].
  destruct (sorted_head_min _ _ Hs Hhead) as [Hmn Hmin].
  destruct (sorted_last_max _ _ Hs Hlast) as [Hmx Hmax].
  exists mn, mx. split_and!; [done|done|by apply sorted_keys_elem..|].
  intros us Hus%sorted_keys_elem. fold keys in Hus. auto.
Qed.

(** ** Properties *)

(** C9: for every window of fewer than [2^40] successful observations, the
    reported p50, p95, p99 and p99.9 are, in milliseconds, the smallest
    observed latency [v] such that at least [ceil(q*N)] observations are
    [<= v]: the floating point rank and the walk over the frequency map
    introduce no error. *)
Theorem percentile_nearest_rank (l : list obs) (q : f64) (a b : Z) :
  (q, a, b) ∈ quantiles → Z.of_nat (length l) ≤ int64_max →
  0 < Z.of_nat (length (successes l)) < 2 ^ 40 →
  ∃ us, nearest_rank (successes l) (cdiv (a * Z.of_nat (length (successes l))) b) us ∧
    percentile (summarize l) q = to_ms us.
Proof.
  intros Hq Hb Hn. unfold percentile.
  rewrite sortedKeys_summarize, lat_summarize by done. by apply quantileFrom_nearest.
Qed.

Definition witness_window : list obs :=
  [Success 3000; Failure; Success 1000; Success 2000; Failure; Success 4000].

Lemma percentile_nearest_rank_witness :
  ∃ us, nearest_rank (successes witness_window) (cdiv (95 * 4) 100) us ∧
    percentile (summarize witness_window) q95 = to_ms us.
Proof.
  apply (percentile_nearest_rank witness_window q95 95 100).
  - right. left.
  - vm_compute. discriminate.
  - vm_compute. split; reflexivity.
Defined.

(** C27: the whole-run latency block is a faithful summary of the successful
    observations: its minimum and maximum are the extreme observations, its
    mean the correctly rounded quotient of their exact sum, its percentiles
    nearest ranks, and min <= p50 <= p95 <= p99 <= p99.9 <= max. *)
Theorem latencyStats_summary (l : list obs) :
  let s := successes l in
  let n := Z.of_nat (length s) in
  Z.of_nat (length l) ≤ int64_max → 0 < n < 2 ^ 40 →
  int64_min ≤ sum_list_Z s ≤ int64_max →
  ∃ mn p50 p95 p99 p999 mx,
    latencyStats (summarize l) =
      mkLatencyStats (to_ms mn) (fdiv (fdiv (of_int (sum_list_Z s)) (of_int n)) (of_int 1000))
        (to_ms p50) (to_ms p95) (to_ms p99) (to_ms p999) (to_ms mx) ∧
    mn ∈ s ∧ mx ∈ s ∧ (∀ us, us ∈ s → mn ≤ us ≤ mx) ∧
    nearest_rank s (cdiv (50 * n) 100) p50 ∧ nearest_rank s (cdiv (95 * n) 100) p95 ∧
    nearest_rank s (cdiv (99 * n) 100) p99 ∧ nearest_rank s (cdiv (999 * n) 1000) p999 ∧
    mn ≤ p50 ≤ p95 ∧ p95 ≤ p99 ≤ p999 ∧ p999 ≤ mx.
Proof.
  intros s n Hb Hn Hsum.
  assert (Hne : s ≠ []) by (intros He; unfold n in Hn; rewrite He in Hn; simpl in Hn; lia).
  destruct (keys_extremes s Hne) as (mn & mx & Hhd & Hlst & Hmn & Hmx & Hext).
  destruct (quantileFrom_nearest s q50 50 100) as (p50 & Hr50 & H50); [left|done|].
  destruct (quantileFrom_nearest s q95 95 100) as (p95 & Hr95 & H95); [right; left|done|].
  destruct (quantileFrom_nearest s q99 99 100) as (p99 & Hr99 & H99); [do 2 right; left|done|].
  destruct (quantileFrom_nearest s q999 999 1000) as (p999 & Hr999 & H999);
    [do 3 right; left|done|].
  exists mn, p50, p95, p99, p999, mx. split.
  - unfold latencyStats. rewrite sortedKeys_summarize, lat_summarize by done.
    fold s. fold n in H50, H95, H99, H999 |- *.
    rewrite (proj2 (Z.eqb_neq _ _)), weighted_sum_hist, Hhd, Hlst by (done || lia).
    rewrite H50, H95, H99, H999. done.
  - assert (Hin : ∀ r us, nearest_rank s r us → mn ≤ us ≤ mx) by (intros r us [? _]; auto).
    pose proof (Hin _ _ Hr50). pose proof (Hin _ _ Hr999).
    assert (cdiv (50 * n) 100 ≤ cdiv (95 * n) 100) by (apply cdiv_le_mono; lia).
    assert (cdiv (95 * n) 100 ≤ cdiv (99 * n) 100) by (apply cdiv_le_mono; lia).
    assert (cdiv (99 * n) 100 ≤ cdiv (999 * n) 1000)
      by (pose proof (cdiv_bounds (99 * n) 100); pose proof (cdiv_bounds (999 * n) 1000); lia).
    split_and!; try done; try lia; by eapply nearest_rank_mono.
Qed.

Lemma latencyStats_summary_witness :
  ∃ mn p50 p95 p99 p999 mx,
    latencyStats (summarize witness_window) =
      mkLatencyStats (to_ms mn) (fdiv (fdiv (of_int 10000) (of_int 4)) (of_int 1000))
        (to_ms p50) (to_ms p95) (to_ms p99) (to_ms p999) (to_ms mx) ∧
    mn ≤ p50 ≤ p95 ∧ p95 ≤ p99 ≤ p999 ∧ p999 ≤ mx.
Proof.
  destruct (latencyStats_summary witness_window) as (mn & p50 & p95 & p99 & p999 & mx & H);
    [vm_compute; discriminate|vm_compute; split; reflexivity|vm_compute; split; discriminate|].
  exists mn, p50, p95, p99, p999, mx. destruct H as (H & _ & _ & _ & _ & _ & _ & _ & H').
  split; [exact H|exact H'].
Defined.

(** Failed operations never move a latency figure: two windows with the
    same successful observations report the same latency block and the same
    percentiles, however many failures either of them contains. *)
Theorem failures_do_not_move_latency (l k : list obs) (q : f64) :
  successes l ≡ₚ successes k →
  latencyStats (summarize l) = latencyStats (summarize k) ∧
  percentile (summarize l) q = percentile (summarize k) q.
Proof.
  intros Hs.
  assert (Hlat : lat (summarize l) = lat (summarize k)) by (rewrite !lat_summarize; by rewrite Hs).
  unfold latencyStats, percentile, sortedKeys. by rewrite Hlat.
Qed.

Lemma failures_do_not_move_latency_witness :
  latencyStats (summarize (witness_window ++ replicate 1000 Failure)) =
    latencyStats (summarize witness_window) ∧
  percentile (summarize (witness_window ++ replicate 1000 Failure)) q99 =
    percentile (summarize witness_window) q99.
Proof.
  apply (failures_do_not_move_latency (witness_window ++ replicate 1000 Failure)
           witness_window q99).
  vm_compute. apply Permutation_refl.
Defined.

(** Recording truncates a duration that is an exact number of
    microseconds to one microsecond less when the floating point product
    falls short: an operation of 249 microseconds is counted under 248. *)
Theorem record_truncates_exact_microseconds :
  micros (Seconds 249000) = 248 ∧
  record_stats opStats_zero (Seconds 249000) None = summarize [Success 248].
Proof. split; vm_compute; reflexivity. Qed.
