(* ===== verification/Collector.v ===== *)
(** * workload/stats.go: worker windows, the collector and its time series

    Each worker owns a window of statistics per operation; the collector
    drains all windows into a run total that is never reset and appends one
    interval to the series (or folds a sliver into the last one).  [Record],
    [snapshot] and [drain] are the critical sections of the source; their
    interleavings are the subject of Interleave.v. *)

From S2P Require Export Stats.

(** [WorkerStats]: the window of one worker. *)
Record WorkerStats := mkWorkerStats { data : gmap string opStats }.

Definition zero_stats (ops : list string) : gmap string opStats :=
  foldl (λ m op, <[op := opStats_zero]> m) ∅ ops.

Definition newWorkerStats (ops : list string) : WorkerStats := mkWorkerStats (zero_stats ops).

(** [WorkerStats.Record]; [None] is the nil dereference on an unknown op. *)
Definition WorkerStats_Record (ws : WorkerStats) (op : string) (durationSec : f64)
    (err : option error) : option WorkerStats :=
  s ← ws.(data) !! op;
  Some (mkWorkerStats (<[op := record_stats s durationSec err]> ws.(data))).

(** [WorkerStats.snapshot]: a copy of the window, and the reset window. *)
Definition snapshot (ws : WorkerStats) : gmap string opStats * WorkerStats :=
  (ws.(data), mkWorkerStats ((λ _, opStats_zero) <$> ws.(data))).

(** [IntervalOp] and [IntervalStats] of result.go. *)
Record IntervalOp := mkIntervalOp {
  io_Op : string; io_Count : Z; io_Errors : Z; io_OpsPerSec : f64;
  io_P50MS : f64; io_P95MS : f64; io_P99MS : f64;
}.

Record IntervalStats := mkIntervalStats {
  is_StartSeconds : f64; is_EndSeconds : f64; is_Ops : Z; is_Errors : Z;
  is_OpsPerSec : f64; is_Operations : list IntervalOp;
}.

Record StatsCollector := mkCollector {
  workers : list WorkerStats;
  start : Time;
  ops : list string;
  total : gmap string opStats;
  intervals : list IntervalStats;
  lastBoundary : Time;
}.

Definition NewStatsCollector (ops : list string) (now : Time) : StatsCollector :=
  mkCollector [] now ops (zero_stats ops) [] now.

(** [NewWorkerStats] appends a window; the new worker is the last one. *)
Definition NewWorkerStats (c : StatsCollector) : StatsCollector :=
  mkCollector (c.(workers) ++ [newWorkerStats c.(ops)]) c.(start) c.(ops) c.(total)
    c.(intervals) c.(lastBoundary).

(** Merging one window into a map, entry by entry; operations the map does
    not track are dropped. *)
Definition merge_window_entry (dst : gmap string opStats) (os : string * opStats)
    : gmap string opStats :=
  match dst !! os.1 with
  | Some m => <[os.1 := mergeInto m os.2]> dst
  | None => dst
  end.

Definition merge_window (dst src : gmap string opStats) : gmap string opStats :=
  foldl merge_window_entry dst (map_to_list src).

(** ** The interval series *)

Definition minIntervalSeconds : f64 := of_int 1.

(** [rate]: operations per second over [span], zero over an empty span. *)
Definition rate (span : f64) (n : Z) : f64 :=
  if fleb span f_zero then f_zero else fdiv (of_int n) span.

(** The entry of one operation in a new interval; idle operations have none. *)
Definition fresh_op (merged : gmap string opStats) (span : f64) (op : string)
    : option IntervalOp :=
  s ← merged !! op;
  if s.(count) =? 0 then None
  else
    let '(keys, total) := sortedKeys s in
    Some (mkIntervalOp op s.(count) s.(errors) (rate span s.(count))
            (quantileFrom (lat s) keys total q50)
            (quantileFrom (lat s) keys total q95)
            (quantileFrom (lat s) keys total q99)).

(** The operation's merged statistics when it was active in the sliver. *)
Definition active_stats (merged : gmap string opStats) (op : string) : option opStats :=
  s ← merged !! op; if s.(count) >? 0 then Some s else None.

(** The entry of one operation in an interval that absorbs a sliver. *)
Definition fold_op (existing : gmap string IntervalOp) (merged : gmap string opStats)
    (prevSpan : f64) (op : string) : option IntervalOp :=
  let had := existing !! op in
  let active := active_stats merged op in
  let base :=
    match had, active with
    | Some o, _ => Some o
    | None, Some s =>
        let '(keys, total) := sortedKeys s in
        Some (mkIntervalOp op 0 0 f_zero
                (quantileFrom (lat s) keys total q50)
                (quantileFrom (lat s) keys total q95)
                (quantileFrom (lat s) keys total q99))
    | None, None => None
    end in
  o ← base;
  let o :=
    match active with
    | Some s => mkIntervalOp o.(io_Op) (o.(io_Count) +! s.(count))
                  (o.(io_Errors) +! s.(errors)) o.(io_OpsPerSec)
                  o.(io_P50MS) o.(io_P95MS) o.(io_P99MS)
    | None => o
    end in
  Some (if fltb f_zero prevSpan then
          mkIntervalOp o.(io_Op) o.(io_Count) o.(io_Errors)
            (fdiv (of_int o.(io_Count)) prevSpan) o.(io_P50MS) o.(io_P95MS) o.(io_P99MS)
        else o).

Definition existing_ops (operations : list IntervalOp) : gmap string IntervalOp :=
  foldl (λ m o, <[o.(io_Op) := o]> m) ∅ operations.

(** The last interval with a sliver folded into it. *)
Definition fold_interval (ops : list string) (merged : gmap string opStats)
    (prev : IntervalStats) (endSecs : f64) (n errs : Z) : IntervalStats :=
  let prevOps := prev.(is_Ops) +! n in
  let prevSpan := fsub endSecs prev.(is_StartSeconds) in
  let rebuilt := omap (fold_op (existing_ops prev.(is_Operations)) merged prevSpan) ops in
  mkIntervalStats prev.(is_StartSeconds) endSecs prevOps (prev.(is_Errors) +! errs)
    (if fltb f_zero prevSpan then fdiv (of_int prevOps) prevSpan else prev.(is_OpsPerSec))
    rebuilt.

Definition fresh_interval (ops : list string) (merged : gmap string opStats)
    (startSecs endSecs : f64) (n errs : Z) : IntervalStats :=
  let span := fsub endSecs startSecs in
  mkIntervalStats startSecs endSecs n errs (rate span n) (omap (fresh_op merged span) ops).

Definition sum_counts (merged : gmap string opStats) : Z :=
  foldl (λ t os, t +! os.2.(count)) 0 (map_to_list merged).

Definition sum_errors (merged : gmap string opStats) : Z :=
  foldl (λ t os, t +! os.2.(errors)) 0 (map_to_list merged).

Definition recordIntervalLocked (c : StatsCollector) (now : Time)
    (merged : gmap string opStats) : StatsCollector :=
  let n := sum_counts merged in
  let errs := sum_errors merged in
  if n =? 0 then c
  else
    let startSecs := Seconds (Sub c.(lastBoundary) c.(start)) in
    let endSecs := Seconds (Sub now c.(start)) in
    let span := fsub endSecs startSecs in
    let intervals :=
      match last c.(intervals) with
      | Some prev =>
          if fltb span minIntervalSeconds then
            removelast c.(intervals) ++ [fold_interval c.(ops) merged prev endSecs n errs]
          else c.(intervals) ++ [fresh_interval c.(ops) merged startSecs endSecs n errs]
      | None => [fresh_interval c.(ops) merged startSecs endSecs n errs]
      end in
    mkCollector c.(workers) c.(start) c.(ops) c.(total) intervals now.

(** ** Draining *)

(** Snapshot the workers one after the other into [merged]. *)
Fixpoint drain_workers (merged : gmap string opStats) (ws : list WorkerStats)
    : gmap string opStats * list WorkerStats :=
  match ws with
  | [] => (merged, [])
  | w :: rest =>
      let '(snap, w') := snapshot w in
      let '(merged', rest') := drain_workers (merge_window merged snap) rest in
      (merged', w' :: rest')
  end.

(** Fold the merged windows into the run total and the series. *)
Definition drain_commit (c : StatsCollector) (now : Time) (merged : gmap string opStats)
    : StatsCollector :=
  recordIntervalLocked
    (mkCollector c.(workers) c.(start) c.(ops) (merge_window c.(total) merged)
       c.(intervals) c.(lastBoundary)) now merged.

Definition drain (c : StatsCollector) (now : Time) : gmap string opStats * StatsCollector :=
  let '(merged, ws) := drain_workers (zero_stats c.(ops)) c.(workers) in
  let c := mkCollector ws c.(start) c.(ops) c.(total) c.(intervals) c.(lastBoundary) in
  (merged, drain_commit c now merged).

(** [Finalize]: drain once more, then copy the totals and the series.  The
    second reading of the clock is the end of the run. *)
Definition Finalize (c : StatsCollector) (now ended : Time)
    : gmap string opStats * list IntervalStats * Time * Time * StatsCollector :=
  let '(_, c) := drain c now in
  (c.(total), c.(intervals), c.(start), ended, c).
