(* ===== verification/Accounting.v ===== *)
(** * The accounting of the collector

    An event is an operation's name and its observation.  Every map the
    collector keeps is [by_op ops h]: for each tracked operation the summary
    of its events in some history [h].  Recording appends to a worker's
    history, merging concatenates, draining moves all worker histories into
    the total; the interval series partitions the drained history. *)

From S2P Require Export Collector.

Definition event : Type := string * obs.

Definition obs_for (op : string) (h : list event) : list obs :=
  omap (λ e, if decide (e.1 = op) then Some e.2 else None) h.

(** The statistics per tracked operation of a history. *)
Definition by_op (ops : list string) (h : list event) : gmap string opStats :=
  foldr (λ op m, <[op := summarize (obs_for op h)]> m) ∅ ops.

Definition tracked (ops : list string) (h : list event) : Prop := Forall (λ e, e.1 ∈ ops) h.

Lemma obs_for_app op h k : obs_for op (h ++ k) = obs_for op h ++ obs_for op k.
Proof. apply omap_app. Qed.

Lemma obs_for_cons op e h :
  obs_for op (e :: h) = if decide (e.1 = op) then e.2 :: obs_for op h else obs_for op h.
Proof. unfold obs_for. simpl. by case_decide. Qed.

#[export] Instance obs_for_perm op : Proper ((≡ₚ) ==> (≡ₚ)) (obs_for op).
Proof. intros h k Hp. unfold obs_for. by rewrite Hp. Qed.

Lemma length_obs_for op h : (length (obs_for op h) ≤ length h)%nat.
Proof.
  induction h as [|e h IH]; [done|]. rewrite obs_for_cons.
  case_decide; simpl; lia.
Qed.

Lemma by_op_lookup ops h op :
  by_op ops h !! op = if decide (op ∈ ops) then Some (summarize (obs_for op h)) else None.
Proof.
  induction ops as [|o ops IH]; simpl; [done|].
  destruct (decide (o = op)) as [->|Hne].
  - rewrite lookup_insert_eq, decide_True by set_solver. done.
  - rewrite lookup_insert_ne, IH by done.
    destruct (decide (op ∈ ops)), (decide (op ∈ o :: ops)) as [Hi|Hi]; try done; exfalso;
      rewrite elem_of_cons in Hi; intuition congruence.
Qed.

#[export] Instance by_op_perm ops : Proper ((≡ₚ) ==> eq) (by_op ops).
Proof.
  intros h k Hp. apply map_eq; intros op. rewrite !by_op_lookup.
  case_decide; [|done]. by rewrite (obs_for_perm op _ _ Hp).
Qed.

Lemma zero_stats_foldl (ops : list string) (m : gmap string opStats) op :
  foldl (λ m op, <[op := opStats_zero]> m) m ops !! op
  = if decide (op ∈ ops) then Some opStats_zero else m !! op.
Proof.
  revert m. induction ops as [|o ops IH]; intros m; simpl; [done|]. rewrite IH.
  destruct (decide (op ∈ ops)), (decide (op ∈ o :: ops)); try set_solver.
  - assert (op = o) as -> by set_solver. by rewrite lookup_insert_eq.
  - by rewrite lookup_insert_ne by set_solver.
Qed.

Lemma zero_stats_by_op ops : zero_stats ops = by_op ops [].
Proof.
  apply map_eq; intros op. unfold zero_stats. rewrite zero_stats_foldl, by_op_lookup.
  by rewrite lookup_empty.
Qed.

(** ** Recording *)

Lemma Record_by_op ops h op d err :
  op ∈ ops → Z.of_nat (length h) < int64_max →
  WorkerStats_Record (mkWorkerStats (by_op ops h)) op d err
  = Some (mkWorkerStats (by_op ops (h ++ [(op, obs_of d err)]))).
Proof.
  intros Hop Hb. unfold WorkerStats_Record. cbn [data].
  rewrite by_op_lookup, decide_True by done. cbn [mbind option_bind]. do 2 f_equal.
  pose proof (length_obs_for op h).
  rewrite record_summarize by lia. apply map_eq; intros o.
  rewrite by_op_lookup, obs_for_app, obs_for_cons. cbn [fst snd].
  destruct (decide (op = o)) as [<-|Hne].
  - by rewrite lookup_insert_eq, decide_True.
  - rewrite lookup_insert_ne, by_op_lookup by done.
    change (obs_for o []) with (@nil obs). by rewrite app_nil_r.
Qed.

(** An operation the worker does not track is a nil dereference. *)
Lemma Record_untracked ops h op d err :
  op ∉ ops → WorkerStats_Record (mkWorkerStats (by_op ops h)) op d err = None.
Proof.
  intros Hop. unfold WorkerStats_Record. cbn [data].
  by rewrite by_op_lookup, decide_False.
Qed.

Lemma snapshot_by_op ops h :
  snapshot (mkWorkerStats (by_op ops h)) = (by_op ops h, mkWorkerStats (by_op ops [])).
Proof.
  unfold snapshot. cbn [data]. do 2 f_equal. apply map_eq; intros op.
  rewrite lookup_fmap, !by_op_lookup. by case_decide.
Qed.

(** ** Merging *)

Lemma merge_entries_window_lookup (kvs : list (string * opStats)) dst op :
  NoDup kvs.*1 →
  foldl merge_window_entry dst kvs !! op =
  match dst !! op, (list_to_map kvs : gmap string opStats) !! op with
  | Some m, Some s => Some (mergeInto m s)
  | r, _ => r
  end.
Proof.
  revert dst. induction kvs as [|[k s] kvs IH]; intros dst Hnd.
  { simpl. by destruct (dst !! op). }
  apply NoDup_cons in Hnd as [Hk Hnd]. simpl. rewrite IH by done.
  unfold merge_window_entry; cbn [fst snd].
  destruct (decide (op = k)) as [->|Hne].
  - rewrite not_elem_of_list_to_map_1, lookup_insert_eq by done.
    destruct (dst !! k) eqn:He; [by rewrite lookup_insert_eq|by rewrite He].
  - rewrite (lookup_insert_ne _ k) by done.
    destruct (dst !! k); [by rewrite lookup_insert_ne by done|done].
Qed.

Lemma merge_window_lookup dst src op :
  merge_window dst src !! op =
  match dst !! op, src !! op with Some m, Some s => Some (mergeInto m s) | r, _ => r end.
Proof.
  unfold merge_window. rewrite merge_entries_window_lookup by apply NoDup_fst_map_to_list.
  by rewrite list_to_map_to_list.
Qed.

Lemma merge_window_by_op ops h k :
  Z.of_nat (length h + length k) ≤ int64_max →
  merge_window (by_op ops h) (by_op ops k) = by_op ops (h ++ k).
Proof.
  intros Hb. apply map_eq; intros op. rewrite merge_window_lookup, !by_op_lookup.
  case_decide; [|done]. rewrite obs_for_app.
  pose proof (length_obs_for op h). pose proof (length_obs_for op k).
  by rewrite mergeInto_summarize by lia.
Qed.

(** ** Sums over a map of statistics *)

Definition stat_sum (f : opStats → Z) (m : gmap string opStats) : Z :=
  sum_list_Z ((λ os, f os.2) <$> map_to_list m).

Lemma stat_sum_insert_new f k s m :
  m !! k = None → stat_sum f (<[k:=s]> m) = f s + stat_sum f m.
Proof. intros Hk. unfold stat_sum. by rewrite map_to_list_insert. Qed.

Lemma stat_sum_update f k s s' m :
  m !! k = Some s → stat_sum f (<[k:=s']> m) = stat_sum f m - f s + f s'.
Proof.
  intros Hk.
  assert (stat_sum f m = f s + stat_sum f (delete k m)) as ->.
  { rewrite <- (insert_delete_id m k s Hk) at 1.
    apply stat_sum_insert_new, lookup_delete_eq. }
  rewrite <- insert_delete_eq, stat_sum_insert_new by apply lookup_delete_eq. lia.
Qed.

Lemma by_op_cons ops op o h :
  op ∈ ops → by_op ops ((op, o) :: h) = <[op := summarize (o :: obs_for op h)]> (by_op ops h).
Proof.
  intros Hop. apply map_eq; intros x. rewrite by_op_lookup, obs_for_cons. cbn [fst snd].
  destruct (decide (op = x)) as [<-|Hne].
  - by rewrite lookup_insert_eq, decide_True.
  - by rewrite lookup_insert_ne, by_op_lookup by done.
Qed.

Lemma stat_sum_zero f ops : f opStats_zero = 0 → stat_sum f (by_op ops []) = 0.
Proof.
  intros Hf. unfold stat_sum.
  assert (Forall (λ z, z = 0) ((λ os : string * opStats, f os.2) <$> map_to_list (by_op ops []))) as HF.
  { apply Forall_fmap, Forall_forall. intros [op s] Hin%elem_of_map_to_list. simpl.
    rewrite by_op_lookup in Hin. case_decide; [|done].
    injection Hin as <-. by rewrite summarize_nil. }
  revert HF. generalize ((λ os : string * opStats, f os.2) <$> map_to_list (by_op ops [])).
  induction 1; simpl; lia.
Qed.

Lemma stat_sum_by_op (f : opStats → Z) (g : obs → Z) ops h :
  f opStats_zero = 0 → (∀ o l, f (summarize (o :: l)) = g o + f (summarize l)) →
  tracked ops h → stat_sum f (by_op ops h) = sum_list_Z ((λ e, g e.2) <$> h).
Proof.
  intros H0 Hs. induction 1 as [|[op o] h Hop _ IH]; [by apply stat_sum_zero|].
  rewrite by_op_cons by done.
  rewrite (stat_sum_update f op (summarize (obs_for op h))), Hs, IH.
  - generalize (f (summarize (obs_for op h))). intros z. rewrite fmap_cons, sum_list_Z_cons. cbn [snd]. lia.
  - by rewrite by_op_lookup, decide_True.
Qed.

Definition failed (o : obs) : Z := match o with Failure => 1 | Success _ => 0 end.

Definition errors_in (h : list event) : Z := sum_list_Z ((λ e, failed e.2) <$> h).

Lemma errors_in_bound h : 0 ≤ errors_in h ≤ Z.of_nat (length h).
Proof.
  unfold errors_in. induction h as [|[op o] h IH]; [done|].
  rewrite fmap_cons, sum_list_Z_cons. cbn [snd length].
  destruct o; cbn [failed]; lia.
Qed.

Lemma errors_in_app h k : errors_in (h ++ k) = errors_in h + errors_in k.
Proof. unfold errors_in. by rewrite fmap_app, sum_list_Z_app. Qed.

#[export] Instance errors_in_perm : Proper ((≡ₚ) ==> eq) errors_in.
Proof. intros h k Hp. unfold errors_in. by rewrite Hp. Qed.

Lemma count_sum_by_op ops h :
  tracked ops h → Z.of_nat (length h) ≤ int64_max →
  wrap 64 (stat_sum count (by_op ops h)) = Z.of_nat (length h).
Proof.
  intros Ht Hb. rewrite (stat_sum_by_op count (λ _, 1) ops h eq_refl) by (try done; intros; simpl; lia).
  replace (sum_list_Z _) with (Z.of_nat (length h)); [apply wrap64_small; lia|].
  clear. induction h as [|e h IH]; [done|]. rewrite fmap_cons, sum_list_Z_cons, <- IH. simpl. lia.
Qed.

Lemma error_sum_by_op ops h :
  tracked ops h → Z.of_nat (length h) ≤ int64_max →
  wrap 64 (stat_sum errors (by_op ops h)) = errors_in h.
Proof.
  intros Ht Hb. rewrite (stat_sum_by_op errors failed ops h eq_refl);
    [|intros o l; unfold summarize; simpl; rewrite failures_cons; destruct o; simpl; lia|done].
  fold (errors_in h). pose proof (errors_in_bound h). apply wrap64_small. lia.
Qed.

Lemma sum_counts_by_op ops h :
  tracked ops h → Z.of_nat (length h) ≤ int64_max →
  sum_counts (by_op ops h) = Z.of_nat (length h).
Proof.
  intros Ht Hb. rewrite <- (count_sum_by_op ops h) by done. unfold sum_counts.
  exact (foldl_wrap_add (λ os : string * opStats, os.2.(count)) _ 0).
Qed.

Lemma sum_errors_by_op ops h :
  tracked ops h → Z.of_nat (length h) ≤ int64_max →
  sum_errors (by_op ops h) = errors_in h.
Proof.
  intros Ht Hb. rewrite <- (error_sum_by_op ops h) by done. unfold sum_errors.
  exact (foldl_wrap_add (λ os : string * opStats, os.2.(errors)) _ 0).
Qed.
