(* ===== verification/Series.v ===== *)
(** * The interval series and the run totals

    The collector driven by a sequence of registrations, recordings and
    drains, ended by [Finalize]: the totals are exactly the statistics of the
    recorded events, and the series partitions the events into consecutive
    intervals whose counts add up to those totals. *)

From S2P Require Export Accounting.

(** The observations of the first of several drained chunks in which the
    operation was active: the ones an interval's percentiles come from. *)
Fixpoint first_chunk (op : string) (cs : list (list event)) : list obs :=
  match cs with
  | [] => []
  | c :: cs => match obs_for op c with [] => first_chunk op cs | l => l end
  end.

(** What the entry of [op] says about the chunks [cs] of its interval. *)
Record entry_ok (cs : list (list event)) (span : f64) (op : string) (o : IntervalOp) : Prop := {
  eo_name : o.(io_Op) = op;
  eo_count : o.(io_Count) = Z.of_nat (length (obs_for op (mjoin cs)));
  eo_errors : o.(io_Errors) = Z.of_nat (length (failures (obs_for op (mjoin cs))));
  eo_rate : fltb f_zero span = true → o.(io_OpsPerSec) = fdiv (of_int o.(io_Count)) span;
  eo_p50 : o.(io_P50MS) = percentile (summarize (first_chunk op cs)) q50;
  eo_p95 : o.(io_P95MS) = percentile (summarize (first_chunk op cs)) q95;
  eo_p99 : o.(io_P99MS) = percentile (summarize (first_chunk op cs)) q99;
}.

Definition seen (h : list event) (op : string) : Prop := obs_for op h ≠ [].

#[export] Instance seen_dec h op : Decision (seen h op).
Proof. unfold seen. apply _. Defined.

Definition span_of (iv : IntervalStats) : f64 := fsub iv.(is_EndSeconds) iv.(is_StartSeconds).

(** What an interval says about its chunks: one entry per active operation,
    in the order of [ops]. *)
Record interval_ok (ops : list string) (cs : list (list event)) (iv : IntervalStats) : Prop := {
  iv_ops : iv.(is_Ops) = Z.of_nat (length (mjoin cs));
  iv_errors : iv.(is_Errors) = errors_in (mjoin cs);
  iv_rate : fltb f_zero (span_of iv) = true →
            iv.(is_OpsPerSec) = fdiv (of_int iv.(is_Ops)) (span_of iv);
  iv_entries : Forall2 (entry_ok cs (span_of iv)) (filter (seen (mjoin cs)) ops) iv.(is_Operations);
}.

(** The intervals cover a stretch of time without gap or overlap. *)
Fixpoint timeline (from : f64) (l : list IntervalStats) (to : f64) : Prop :=
  match l with
  | [] => from = to
  | iv :: l => iv.(is_StartSeconds) = from ∧ timeline iv.(is_EndSeconds) l to
  end.

Lemma timeline_app from l k to :
  timeline from (l ++ k) to ↔ ∃ mid, timeline from l mid ∧ timeline mid k to.
Proof.
  revert from. induction l as [|iv l IH]; intros from; simpl.
  - split; [by exists from|]. by intros (mid & -> & H).
  - rewrite IH. split.
    + intros (Hs & mid & Hl & Hk). by exists mid.
    + intros (mid & [Hs Hl] & Hk). split; [done|]. by exists mid.
Qed.

Lemma omap_Forall2_filter {A B} (P : A → Prop) `{∀ x, Decision (P x)} (R : A → B → Prop)
    (f : A → option B) (l : list A) :
  (∀ x, x ∈ l → match f x with Some y => P x ∧ R x y | None => ¬ P x end) →
  Forall2 R (filter P l) (omap f l).
Proof.
  induction l as [|x l IH]; intros Hf; simpl; [done|].
  pose proof (Hf x ltac:(set_solver)) as Hx.
  assert (Forall2 R (filter P l) (omap f l)) as Hl.
  { apply IH. intros y Hy. apply Hf. set_solver. }
  destruct (f x) as [y|].
  - destruct Hx. rewrite filter_cons_True by done. by constructor.
  - by rewrite filter_cons_False.
Qed.

Lemma rate_pos span n : fltb f_zero span = true → rate span n = fdiv (of_int n) span.
Proof. unfold rate. by destruct span as [[]|[]| |[] m e]. Qed.

Lemma count_summarize l : count (summarize l) = Z.of_nat (length l).
Proof. done. Qed.

Lemma errors_summarize l : errors (summarize l) = Z.of_nat (length (failures l)).
Proof. done. Qed.

Lemma percentile_eq s q keys total :
  sortedKeys s = (keys, total) → percentile s q = quantileFrom (lat s) keys total q.
Proof. unfold percentile. by intros ->. Qed.

(** ** A fresh interval *)

Lemma fresh_op_ok ops h span op :
  op ∈ ops →
  match fresh_op (by_op ops h) span op with
  | Some o => seen (mjoin [h]) op ∧ entry_ok [h] span op o
  | None => ¬ seen (mjoin [h]) op
  end.
Proof.
  intros Hop. unfold fresh_op, seen. rewrite by_op_lookup, decide_True by done.
  cbn [mbind option_bind]. rewrite count_summarize. cbn [mjoin list_join]. rewrite app_nil_r.
  destruct (obs_for op h) as [|x l] eqn:He; [by intros ?|].
  destruct (Z.eqb_spec (Z.of_nat (length (x :: l))) 0) as [Hz|_]; [simpl in Hz; lia|].
  destruct (sortedKeys (summarize (x :: l))) as [keys total] eqn:Hk.
  split; [done|].
  split; cbn [io_Op io_Count io_Errors io_OpsPerSec io_P50MS io_P95MS io_P99MS first_chunk];
    rewrite ?He; cbn [mjoin list_join]; rewrite ?app_nil_r, ?He; try done;
    try (symmetry; by apply percentile_eq).
  apply rate_pos.
Qed.

Lemma fresh_interval_ok ops h s e :
  interval_ok ops [h]
    (fresh_interval ops (by_op ops h) s e (Z.of_nat (length h)) (errors_in h)).
Proof.
  unfold fresh_interval.
  split; cbn [is_Ops is_Errors is_OpsPerSec is_Operations].
  - by rewrite (app_nil_r h : mjoin [h] = h).
  - by rewrite (app_nil_r h : mjoin [h] = h).
  - apply rate_pos.
  - apply omap_Forall2_filter. intros op Hop. by apply fresh_op_ok.
Qed.

(** ** Folding a sliver into the last interval *)

Lemma first_chunk_snoc op cs h :
  first_chunk op (cs ++ [h]) =
  match obs_for op (mjoin cs) with [] => obs_for op h | _ => first_chunk op cs end.
Proof.
  induction cs as [|c cs IH].
  { cbn. by destruct (obs_for op h). }
  cbn [first_chunk app mjoin list_join]. rewrite obs_for_app, IH.
  by destruct (obs_for op c), (obs_for op (mjoin cs)).
Qed.

Lemma existing_ops_lookup (l : list IntervalOp) (m : gmap string IntervalOp) op :
  match foldl (λ m o, <[o.(io_Op) := o]> m) m l !! op with
  | Some o => (o ∈ l ∧ o.(io_Op) = op) ∨ m !! op = Some o
  | None => m !! op = None ∧ Forall (λ o, o.(io_Op) ≠ op) l
  end.
Proof.
  revert m. induction l as [|x l IH]; intros m; simpl.
  { destruct (m !! op); [by right|by split]. }
  specialize (IH (<[x.(io_Op) := x]> m)).
  destruct (foldl _ _ l !! op) as [o|].
  - destruct IH as [[Hin Ho]|Hm]; [left; set_solver|].
    destruct (decide (x.(io_Op) = op)) as [<-|Hne].
    + rewrite lookup_insert_eq in Hm. injection Hm as ->. left; set_solver.
    + rewrite lookup_insert_ne in Hm by done. by right.
  - destruct IH as [Hm Hl].
    destruct (decide (x.(io_Op) = op)) as [<-|Hne]; [by rewrite lookup_insert_eq in Hm|].
    rewrite lookup_insert_ne in Hm by done. split; [done|by constructor].
Qed.

(** The entry found for [op] is the entry of the interval, if it has one. *)
Lemma existing_entry ops cs iv op :
  interval_ok ops cs iv → op ∈ ops →
  match existing_ops iv.(is_Operations) !! op with
  | Some o => seen (mjoin cs) op ∧ entry_ok cs (span_of iv) op o
  | None => ¬ seen (mjoin cs) op
  end.
Proof.
  intros [_ _ _ Hent] Hop. unfold existing_ops.
  pose proof (existing_ops_lookup iv.(is_Operations) ∅ op) as He.
  destruct (foldl _ _ _ !! op) as [o|].
  - destruct He as [[Hin Ho]|He]; [|by rewrite lookup_empty in He].
    apply list_elem_of_lookup in Hin as [i Hi].
    destruct (Forall2_lookup_r _ _ _ _ _ Hent Hi) as (op' & Hop' & Hok).
    assert (op' = op) as -> by (rewrite <- Ho; symmetry; apply Hok).
    split; [|done]. apply list_elem_of_lookup_2, list_elem_of_filter in Hop'. apply Hop'.
  - destruct He as [_ Hnone]. intros Hseen.
    assert (op ∈ filter (seen (mjoin cs)) ops) as Hin by (by apply list_elem_of_filter).
    apply list_elem_of_lookup in Hin as [i Hi].
    destruct (Forall2_lookup_l _ _ _ _ _ Hent Hi) as (o & Ho & Hok).
    rewrite Forall_lookup in Hnone. apply (Hnone _ _ Ho), Hok.
Qed.

Lemma active_stats_by_op ops h op :
  op ∈ ops →
  active_stats (by_op ops h) op =
  match obs_for op h with [] => None | l => Some (summarize l) end.
Proof.
  intros Hop. unfold active_stats. rewrite by_op_lookup, decide_True by done.
  by destruct (obs_for op h).
Qed.

Lemma mjoin_snoc {A} (cs : list (list A)) h : mjoin (cs ++ [h]) = mjoin cs ++ h.
Proof. rewrite join_app. cbn. by rewrite app_nil_r. Qed.

Lemma length_failures l : (length (failures l) ≤ length l)%nat.
Proof. pose proof (length_successes_failures l). lia. Qed.

(** The entry before the rate is brought up to date. *)
Record counts_ok (cs : list (list event)) (op : string) (o : IntervalOp) : Prop := {
  co_name : o.(io_Op) = op;
  co_count : o.(io_Count) = Z.of_nat (length (obs_for op (mjoin cs)));
  co_errors : o.(io_Errors) = Z.of_nat (length (failures (obs_for op (mjoin cs))));
  co_p50 : o.(io_P50MS) = percentile (summarize (first_chunk op cs)) q50;
  co_p95 : o.(io_P95MS) = percentile (summarize (first_chunk op cs)) q95;
  co_p99 : o.(io_P99MS) = percentile (summarize (first_chunk op cs)) q99;
}.

Lemma set_rate_ok cs span op o :
  counts_ok cs op o →
  entry_ok cs span op
    (if fltb f_zero span then
       mkIntervalOp o.(io_Op) o.(io_Count) o.(io_Errors) (fdiv (of_int o.(io_Count)) span)
         o.(io_P50MS) o.(io_P95MS) o.(io_P99MS)
     else o).
Proof. intros []. destruct (fltb f_zero span) eqn:Hs; by split; rewrite ?Hs. Qed.

(** Adding the sliver's counts to an entry of the interval. *)
Lemma add_counts_ok cs span h op o :
  Z.of_nat (length (mjoin cs) + length h) ≤ int64_max →
  seen (mjoin cs) op → entry_ok cs span op o →
  counts_ok (cs ++ [h]) op
    (match (match obs_for op h with [] => None | l => Some (summarize l) end) with
     | Some s => mkIntervalOp o.(io_Op) (o.(io_Count) +! s.(count)) (o.(io_Errors) +! s.(errors))
                   o.(io_OpsPerSec) o.(io_P50MS) o.(io_P95MS) o.(io_P99MS)
     | None => o
     end).
Proof.
  intros Hb Hseen [Hn Hc He _ H50 H95 H99].
  assert (first_chunk op (cs ++ [h]) = first_chunk op cs) as Hf.
  { rewrite first_chunk_snoc. unfold seen in Hseen. by destruct (obs_for op (mjoin cs)). }
  pose proof (length_obs_for op (mjoin cs)). pose proof (length_obs_for op h).
  pose proof (length_failures (obs_for op (mjoin cs))). pose proof (length_failures (obs_for op h)).
  destruct (obs_for op h) as [|x l] eqn:Hl;
    split; rewrite ?Hf, ?mjoin_snoc, ?obs_for_app, ?Hl, ?failures_app, ?app_nil_r; try done;
    cbn [io_Count io_Errors]; rewrite ?Hc, ?He, ?count_summarize, ?errors_summarize,
      ?wrap64_small, ?length_app by lia; lia.
Qed.

(** An entry made for an operation first seen in the sliver. *)
Lemma new_counts_ok (ops : list string) cs h op x l keys n :
  op ∈ ops → obs_for op h = x :: l → Z.of_nat (length h) ≤ int64_max → ¬ seen (mjoin cs) op →
  sortedKeys (summarize (x :: l)) = (keys, n) →
  counts_ok (cs ++ [h]) op
    (mkIntervalOp op (0 +! count (summarize (x :: l))) (0 +! errors (summarize (x :: l))) f_zero
       (quantileFrom (lat (summarize (x :: l))) keys n q50)
       (quantileFrom (lat (summarize (x :: l))) keys n q95)
       (quantileFrom (lat (summarize (x :: l))) keys n q99)).
Proof.
  intros Hop Hl Hb Hns Hk. unfold seen in Hns. apply dec_stable in Hns.
  assert (first_chunk op (cs ++ [h]) = x :: l) as Hf by (by rewrite first_chunk_snoc, Hns, Hl).
  pose proof (length_obs_for op h) as Hlen. rewrite Hl in Hlen.
  pose proof (length_failures (x :: l)).
  split; rewrite ?Hf, ?mjoin_snoc, ?obs_for_app, ?Hns, ?Hl; try done;
    try (symmetry; by apply percentile_eq);
    cbn [io_Count io_Errors app]; rewrite ?count_summarize, ?errors_summarize, wrap64_small; lia.
Qed.

Lemma fold_op_ok ops cs iv h span op :
  interval_ok ops cs iv → op ∈ ops →
  Z.of_nat (length (mjoin cs) + length h) ≤ int64_max →
  match fold_op (existing_ops iv.(is_Operations)) (by_op ops h) span op with
  | Some o => seen (mjoin (cs ++ [h])) op ∧ entry_ok (cs ++ [h]) span op o
  | None => ¬ seen (mjoin (cs ++ [h])) op
  end.
Proof.
  intros Hiv Hop Hb. pose proof (existing_entry _ _ _ _ Hiv Hop) as He.
  unfold fold_op. rewrite active_stats_by_op, mjoin_snoc by done.
  assert (∀ h', seen h' op → seen (h' ++ h) op) as Happ.
  { unfold seen. intros h'. rewrite obs_for_app. by destruct (obs_for op h'). }
  destruct (existing_ops _ !! op) as [o|].
  - destruct He as [Hs Ho]. cbn [mbind option_bind]. split; [by apply Happ|].
    apply set_rate_ok. by eapply add_counts_ok.
  - destruct (obs_for op h) as [|x l] eqn:Hl.
    + cbn [mbind option_bind]. unfold seen in *. by rewrite obs_for_app, Hl, app_nil_r.
    + destruct (sortedKeys (summarize (x :: l))) as [keys n] eqn:Hk.
      cbn [mbind option_bind io_Op io_Count io_Errors io_OpsPerSec io_P50MS io_P95MS io_P99MS].
      split.
      { unfold seen. rewrite obs_for_app, Hl. by destruct (obs_for op (mjoin cs)). }
      refine (set_rate_ok _ span op (mkIntervalOp op _ _ f_zero _ _ _) _).
      eapply new_counts_ok; eauto; lia.
Qed.

Lemma fold_interval_ok ops cs iv h e :
  interval_ok ops cs iv → Z.of_nat (length (mjoin cs) + length h) ≤ int64_max →
  interval_ok ops (cs ++ [h])
    (fold_interval ops (by_op ops h) iv e (Z.of_nat (length h)) (errors_in h)).
Proof.
  intros Hiv Hb. pose proof Hiv as [Ho He _ _].
  pose proof (errors_in_bound (mjoin cs)). pose proof (errors_in_bound h).
  unfold fold_interval.
  split; unfold span_of;
    cbn [is_Ops is_Errors is_OpsPerSec is_Operations is_StartSeconds is_EndSeconds].
  - rewrite Ho, mjoin_snoc, length_app, wrap64_small; lia.
  - rewrite He, mjoin_snoc, errors_in_app, wrap64_small; lia.
  - by intros ->.
  - apply omap_Forall2_filter. intros op Hop. by apply fold_op_ok.
Qed.
