(* ===== verification/CollectorRun.v ===== *)
(** * A run of the collector

    Registrations, recordings and drains in any order, then [Finalize].  The
    representation invariant [rep] ties a collector to the history drained
    so far (as a list of chunks per interval) and to the history pending in
    each worker's window. *)

From S2P Require Export Series.

Inductive action :=
  | Register
  | Observe (i : nat) (op : string) (durationSec : f64) (err : option error)
  | Drain (now : Time).

Definition set_workers (ws : list WorkerStats) (c : StatsCollector) : StatsCollector :=
  mkCollector ws c.(start) c.(ops) c.(total) c.(intervals) c.(lastBoundary).

(** One action; [None] is a crash (a missing worker, an untracked op). *)
Definition act (c : StatsCollector) (a : action) : option StatsCollector :=
  match a with
  | Register => Some (NewWorkerStats c)
  | Observe i op d err =>
      w ← c.(workers) !! i;
      w' ← WorkerStats_Record w op d err;
      Some (set_workers (<[i := w']> c.(workers)) c)
  | Drain now => Some (drain c now).2
  end.

Fixpoint run (c : StatsCollector) (acts : list action) : option StatsCollector :=
  match acts with
  | [] => Some c
  | a :: acts => c' ← act c a; run c' acts
  end.

Definition events (acts : list action) : list event :=
  omap (λ a, match a with Observe _ op d err => Some (op, obs_of d err) | _ => None end) acts.

Lemma run_app c a b : run c (a ++ b) = c' ← run c a; run c' b.
Proof.
  revert c. induction a as [|x a IH]; intros c; [done|].
  rewrite <- app_comm_cons. cbn [run]. destruct (act c x) as [c'|]; [apply IH|done].
Qed.

Lemma events_app a b : events (a ++ b) = events a ++ events b.
Proof. apply omap_app. Qed.

(** Recordings name a registered worker and a tracked operation. *)
Fixpoint acts_ok (ops : list string) (n : nat) (acts : list action) : bool :=
  match acts with
  | [] => true
  | Register :: acts => acts_ok ops (S n) acts
  | Observe i op _ _ :: acts => (i <? n)%nat && bool_decide (op ∈ ops) && acts_ok ops n acts
  | Drain _ :: acts => acts_ok ops n acts
  end.

(** ** The specification

    Abstractly the collector keeps the events themselves: those recorded since
    the last drain, and for each interval the chunks that were drained into
    it.  A drained chunk extends the last interval when less than the minimum
    span has passed since the boundary, and opens an interval otherwise; an
    empty chunk leaves the boundary where it was. *)

Record spec_state := mkSpec {
  groups : list (list (list event));
  boundary : Time;
  current : list event;
}.

Definition extend_last {A} (css : list (list A)) (h : A) : list (list A) :=
  match last css with
  | Some cs => removelast css ++ [cs ++ [h]]
  | None => [[h]]
  end.

Definition short_span (t0 b now : Time) : bool :=
  fltb (fsub (Seconds (Sub now t0)) (Seconds (Sub b t0))) minIntervalSeconds.

Definition spec_drain (t0 now : Time) (s : spec_state) : spec_state :=
  match s.(current) with
  | [] => s
  | h => mkSpec (if short_span t0 s.(boundary) now then extend_last s.(groups) h
                 else s.(groups) ++ [[h]]) now []
  end.

Definition spec_act (t0 : Time) (s : spec_state) (a : action) : spec_state :=
  match a with
  | Register => s
  | Observe _ op d err => mkSpec s.(groups) s.(boundary) (s.(current) ++ [(op, obs_of d err)])
  | Drain now => spec_drain t0 now s
  end.

Definition spec_run (t0 : Time) (acts : list action) : spec_state :=
  foldl (spec_act t0) (mkSpec [] t0 []) acts.

Definition drained (s : spec_state) : list event := mjoin (mjoin s.(groups)).

Lemma extend_last_app {A} (css : list (list A)) h : mjoin (extend_last css h) = mjoin css ++ [h].
Proof.
  unfold extend_last. destruct (last css) as [cs|] eqn:Hl.
  - apply last_Some in Hl as [l ->]. rewrite removelast_last, !join_app. cbn.
    by rewrite !app_nil_r, app_assoc.
  - apply last_None in Hl as ->. done.
Qed.

Lemma drained_spec_drain t0 now s :
  drained (spec_drain t0 now s) = drained s ++ s.(current).
Proof.
  unfold spec_drain, drained. destruct s.(current) as [|e h] eqn:Hc.
  { by rewrite app_nil_r. }
  cbn [groups]. case_match; [by rewrite extend_last_app, mjoin_snoc|].
  by rewrite !mjoin_snoc.
Qed.

Lemma current_spec_drain t0 now s : (spec_drain t0 now s).(current) = [].
Proof. unfold spec_drain. by destruct s.(current) eqn:?. Qed.

Lemma spec_events_from t0 acts s :
  drained (foldl (spec_act t0) s acts) ++ (foldl (spec_act t0) s acts).(current)
  = (drained s ++ s.(current)) ++ events acts.
Proof.
  revert s. induction acts as [|a acts IH]; intros s; cbn [foldl].
  { by rewrite app_nil_r. }
  rewrite IH. destruct a as [|i op d err|now]; cbn [spec_act]; try done.
  - unfold drained. cbn [groups current]. by rewrite <- !app_assoc.
  - by rewrite drained_spec_drain, current_spec_drain, app_nil_r.
Qed.

(** No event is lost or duplicated by the specification, and their order is
    that of the recordings. *)
Lemma spec_events t0 acts :
  drained (spec_run t0 acts) ++ (spec_run t0 acts).(current) = events acts.
Proof. apply spec_events_from. Qed.

(** [ps]: the pending events of each worker. *)
Record rep (c : StatsCollector) (s : spec_state) (ps : list (list event)) : Prop := {
  rep_workers : c.(workers) = (λ p, mkWorkerStats (by_op c.(ops) p)) <$> ps;
  rep_total : c.(total) = by_op c.(ops) (drained s);
  rep_intervals : Forall2 (interval_ok c.(ops)) s.(groups) c.(intervals);
  rep_boundary : c.(lastBoundary) = s.(boundary);
  rep_timeline : timeline (Seconds 0) c.(intervals) (Seconds (Sub c.(lastBoundary) c.(start)));
  rep_pending : mjoin ps ≡ₚ s.(current);
  rep_tracked : tracked c.(ops) s.(current);
}.

Lemma rep_new names now : rep (NewStatsCollector names now) (mkSpec [] now []) [].
Proof.
  split; try by constructor.
  - apply zero_stats_by_op.
  - cbn [NewStatsCollector lastBoundary start intervals timeline].
    unfold Sub. by rewrite Z.sub_diag.
Qed.

Lemma rep_register c s ps : rep c s ps → rep (NewWorkerStats c) s (ps ++ [[]]).
Proof.
  intros [Hw Ht Hi Hb Htl Hp Htr].
  split; cbn [NewWorkerStats workers ops total intervals lastBoundary start]; try done.
  - rewrite fmap_app, Hw. cbn. unfold newWorkerStats. by rewrite zero_stats_by_op.
  - by rewrite mjoin_snoc, app_nil_r.
Qed.

Lemma insert_pending (ps : list (list event)) i p e :
  ps !! i = Some p → mjoin (<[i := p ++ [e]]> ps) ≡ₚ e :: mjoin ps.
Proof.
  intros Hi. rewrite <- (take_drop_middle ps i p Hi) at 2.
  rewrite insert_take_drop by (by apply lookup_lt_Some in Hi).
  rewrite !join_app. cbn. rewrite <- !app_assoc. cbn.
  rewrite !Permutation_middle. do 2 apply Permutation_app_head. done.
Qed.

Lemma length_pending (ps : list (list event)) i p :
  ps !! i = Some p → (length p ≤ length (mjoin ps))%nat.
Proof.
  intros Hi. rewrite <- (take_drop_middle ps i p Hi). rewrite join_app. cbn.
  rewrite !length_app. lia.
Qed.

Lemma rep_observe c s ps i op d err :
  rep c s ps → (i < length ps)%nat → op ∈ c.(ops) →
  Z.of_nat (length s.(current)) < int64_max →
  ∃ c' ps', act c (Observe i op d err) = Some c'
    ∧ rep c' (spec_act c.(start) s (Observe i op d err)) ps'
    ∧ c'.(ops) = c.(ops) ∧ c'.(start) = c.(start) ∧ length ps' = length ps.
Proof.
  intros [Hw Ht Hi Hbd Htl Hpd Htr] Hlt Hop Hb.
  destruct (lookup_lt_is_Some_2 ps i Hlt) as [p Hp].
  pose proof (insert_pending ps i p (op, obs_of d err) Hp) as Hperm.
  pose proof (length_pending _ _ _ Hp) as Hlen. rewrite Hpd in Hlen.
  cbn [act]. rewrite Hw, list_lookup_fmap, Hp.
  cbn [fmap option_fmap option_map mbind option_bind].
  rewrite Record_by_op by (done || lia). cbn [mbind option_bind].
  exists (set_workers (<[i:=mkWorkerStats (by_op c.(ops) (p ++ [(op, obs_of d err)]))]>
      ((λ p, mkWorkerStats (by_op c.(ops) p)) <$> ps)) c).
  exists (<[i:=p ++ [(op, obs_of d err)]]> ps).
  split; [done|]. split; [|split; [done|split; [done|apply length_insert]]].
  split; cbn [set_workers workers ops total intervals lastBoundary start spec_act groups boundary current];
    try done.
  - by rewrite list_fmap_insert.
  - rewrite Hperm, Hpd. apply Permutation_cons_append.
  - apply Forall_app. split; [done|]. by constructor.
Qed.

(** ** Draining *)

Lemma mjoin_cons {A} (p : list A) ps : mjoin (p :: ps) = p ++ mjoin ps.
Proof. done. Qed.

Lemma drain_workers_by_op ops h ps :
  Z.of_nat (length h + length (mjoin ps)) ≤ int64_max →
  drain_workers (by_op ops h) ((λ p, mkWorkerStats (by_op ops p)) <$> ps)
  = (by_op ops (h ++ mjoin ps), (λ p, mkWorkerStats (by_op ops p)) <$> ((λ _, []) <$> ps)).
Proof.
  revert h. induction ps as [|p ps IH]; intros h Hb; cbn [fmap list_fmap drain_workers].
  { cbn. by rewrite app_nil_r. }
  rewrite mjoin_cons in *. rewrite length_app in Hb.
  rewrite snapshot_by_op, merge_window_by_op by lia.
  rewrite IH by (rewrite length_app; lia). by rewrite app_assoc.
Qed.

Lemma mjoin_nils {A B} (ps : list A) : mjoin ((λ _, []) <$> ps) = ([] : list B).
Proof. induction ps; [done|]. by cbn. Qed.

(** Recording the drained window extends the series by the chunk [h]. *)
Lemma timeline_last from l iv to :
  timeline from (l ++ [iv]) to → timeline from l iv.(is_StartSeconds) ∧ is_EndSeconds iv = to.
Proof. rewrite timeline_app. intros (mid & Hl & Hs & He). cbn in *. by subst. Qed.

Lemma timeline_snoc from l iv :
  timeline from l iv.(is_StartSeconds) → timeline from (l ++ [iv]) iv.(is_EndSeconds).
Proof. intros Hl. apply timeline_app. eexists. by split. Qed.

Lemma fold_last_ok ops css ivs prev h e :
  Forall2 (interval_ok ops) css ivs → last ivs = Some prev →
  Z.of_nat (length (mjoin (mjoin css)) + length h) ≤ int64_max →
  Forall2 (interval_ok ops) (extend_last css h)
    (removelast ivs
     ++ [fold_interval ops (by_op ops h) prev e (Z.of_nat (length h)) (errors_in h)]).
Proof.
  intros Hi [l ->]%last_Some Hb. rewrite removelast_last.
  apply Forall2_app_inv_r in Hi as (css1 & cs2 & H1 & H2 & ->).
  inversion H2 as [|cs prev' cs2' l' Hprev Hnil]; subst. inversion Hnil; subst.
  rewrite mjoin_snoc, join_app, length_app in Hb.
  unfold extend_last. rewrite last_snoc, removelast_last.
  apply Forall2_app; [done|]. constructor; [|constructor].
  apply fold_interval_ok; [done|lia].
Qed.

Lemma recordInterval_ok c s now :
  Forall2 (interval_ok c.(ops)) s.(groups) c.(intervals) →
  c.(lastBoundary) = s.(boundary) →
  timeline (Seconds 0) c.(intervals) (Seconds (Sub c.(lastBoundary) c.(start))) →
  tracked c.(ops) s.(current) →
  Z.of_nat (length (drained s) + length s.(current)) ≤ int64_max →
  let c' := recordIntervalLocked c now (by_op c.(ops) s.(current)) in
  let s' := spec_drain c.(start) now s in
  Forall2 (interval_ok c.(ops)) s'.(groups) c'.(intervals)
    ∧ c'.(lastBoundary) = s'.(boundary)
    ∧ timeline (Seconds 0) c'.(intervals) (Seconds (Sub c'.(lastBoundary) c'.(start))).
Proof.
  intros Hi Hbd Htl Htr Hb. unfold recordIntervalLocked, spec_drain, drained in *.
  rewrite sum_counts_by_op, sum_errors_by_op by (done || lia).
  destruct s.(current) as [|ev h'] eqn:Hcur.
  { cbn [length Z.of_nat Z.eqb]. done. }
  rewrite <- Hcur in *. set (h := s.(current)) in *.
  destruct (Z.eqb_spec (Z.of_nat (length h)) 0) as [Hz|_]; [rewrite Hcur in Hz; simpl in Hz; lia|].
  unfold short_span. rewrite <- Hbd.
  set (b := Seconds (Sub c.(lastBoundary) c.(start))) in *.
  set (e := Seconds (Sub now c.(start))).
  set (new := fresh_interval c.(ops) (by_op c.(ops) h) b e (Z.of_nat (length h)) (errors_in h)).
  cbn [groups boundary lastBoundary intervals start]. split; [|split; [done|]].
  - destruct (last c.(intervals)) as [prev|] eqn:Hlast.
    + destruct (fltb (fsub e b) minIntervalSeconds).
      * by apply fold_last_ok.
      * apply Forall2_app; [done|]. constructor; [apply fresh_interval_ok|constructor].
    + apply last_None in Hlast. rewrite Hlast in Hi. inversion Hi as [Hg|].
      assert (Forall2 (interval_ok c.(ops)) [[h]] [new]) as Hnew.
      { constructor; [apply fresh_interval_ok|constructor]. }
      by destruct (fltb _ _).
  - destruct (last c.(intervals)) as [prev|] eqn:Hlast.
    + destruct (fltb (fsub e b) minIntervalSeconds); [|by apply (timeline_snoc _ _ new)].
      apply last_Some in Hlast as [l Hl]. rewrite Hl in *. rewrite removelast_last.
      apply timeline_last in Htl as [Htl _]. apply (timeline_snoc _ l). exact Htl.
    + apply last_None in Hlast. rewrite Hlast in Htl.
      apply (timeline_snoc _ [] new). exact Htl.
Qed.

Lemma record_ops c now merged : (recordIntervalLocked c now merged).(ops) = c.(ops).
Proof. unfold recordIntervalLocked. by destruct (_ =? _). Qed.

Lemma record_total c now merged : (recordIntervalLocked c now merged).(total) = c.(total).
Proof. unfold recordIntervalLocked. by destruct (_ =? _). Qed.

Lemma record_workers c now merged : (recordIntervalLocked c now merged).(workers) = c.(workers).
Proof. unfold recordIntervalLocked. by destruct (_ =? _). Qed.

Lemma record_start c now merged : (recordIntervalLocked c now merged).(start) = c.(start).
Proof. unfold recordIntervalLocked. by destruct (_ =? _). Qed.

Lemma rep_drain c s ps now :
  rep c s ps → Z.of_nat (length (drained s) + length s.(current)) ≤ int64_max →
  rep (drain c now).2 (spec_drain c.(start) now s) ((λ _, []) <$> ps)
    ∧ (drain c now).1 = by_op c.(ops) s.(current)
    ∧ (drain c now).2.(ops) = c.(ops) ∧ (drain c now).2.(start) = c.(start).
Proof.
  intros [Hw Ht Hi Hbd Htl Hpd Htr] Hb. unfold drain.
  rewrite Hw, zero_stats_by_op, drain_workers_by_op by (rewrite Hpd; cbn; lia).
  rewrite app_nil_l, Hpd. cbn [fst snd].
  unfold drain_commit. cbn [workers start ops total intervals lastBoundary].
  rewrite Ht, merge_window_by_op by lia.
  set (c1 := mkCollector _ _ _ _ _ _).
  destruct (recordInterval_ok c1 s now) as (Hi' & Hbd' & Htl'); try done.
  split; [|split; [done|split; [by rewrite record_ops|by rewrite record_start]]].
  split; rewrite ?record_ops, ?record_total, ?record_workers; try done.
  - cbn [total c1]. by rewrite drained_spec_drain.
  - by rewrite mjoin_nils, current_spec_drain.
  - rewrite current_spec_drain. constructor.
Qed.

(** ** Runs *)

Lemma run_rep c s ps acts :
  rep c s ps → acts_ok c.(ops) (length ps) acts = true →
  Z.of_nat (length (drained s) + length s.(current) + length (events acts)) ≤ int64_max →
  ∃ c' ps', run c acts = Some c' ∧ rep c' (foldl (spec_act c.(start)) s acts) ps'
    ∧ c'.(ops) = c.(ops) ∧ c'.(start) = c.(start).
Proof.
  revert c s ps. induction acts as [|a acts IH]; intros c s ps Hrep Hok Hb.
  { by exists c, ps. }
  destruct a as [|i op d err|now]; cbn [run acts_ok foldl] in *.
  - cbn [act mbind option_bind]. apply rep_register in Hrep.
    apply (IH _ _ _ Hrep); [|done].
    replace (length (ps ++ [[]])) with (S (length ps)) by (rewrite length_app; simpl; lia). done.
  - apply andb_prop in Hok as [[Hlt%Nat.ltb_lt Hop%bool_decide_eq_true]%andb_prop Hok].
    change (events (_ :: acts)) with ((op, obs_of d err) :: events acts) in Hb.
    cbn [length] in Hb.
    destruct (rep_observe c s ps i op d err) as (c1 & ps1 & Hact & Hrep1 & Ho & Hst & Hlen);
      [done|done|done|lia|].
    rewrite Hact. cbn [mbind option_bind].
    specialize (IH _ _ _ Hrep1). rewrite Ho, Hst, Hlen in IH. apply IH; [done|].
    cbn [spec_act current]. unfold drained. cbn [groups]. fold (drained s).
    rewrite length_app. cbn [length]. lia.
  - cbn [act mbind option_bind].
    destruct (rep_drain c s ps now Hrep) as (Hrep1 & _ & Ho & Hst).
    { change (events (Drain now :: acts)) with (events acts) in Hb. lia. }
    specialize (IH _ _ _ Hrep1). rewrite Ho, Hst, length_fmap in IH. apply IH; [done|].
    cbn [spec_act].
    rewrite drained_spec_drain, current_spec_drain, length_app.
    change (events (Drain now :: acts)) with (events acts) in Hb. cbn [length]. lia.
Qed.

(** The state in which [Finalize] leaves a run. *)
Lemma run_Finalize names t0 acts now ended :
  acts_ok names 0 acts = true → Z.of_nat (length (events acts)) ≤ int64_max →
  ∃ c c' ps, run (NewStatsCollector names t0) acts = Some c
    ∧ Finalize c now ended = (c'.(total), c'.(intervals), t0, ended, c')
    ∧ rep c' (spec_drain t0 now (spec_run t0 acts)) ps
    ∧ c'.(ops) = names ∧ c'.(start) = t0.
Proof.
  intros Hok Hb.
  destruct (run_rep _ _ _ acts (rep_new names t0) Hok) as (c & ps & Hrun & Hrep & Ho & Hst); [done|].
  cbn [NewStatsCollector ops start] in Ho, Hst, Hrep.
  destruct (rep_drain c _ ps now Hrep) as (Hrep' & _ & Ho' & Hst').
  { pose proof (f_equal length (spec_events t0 acts)) as Hl. rewrite length_app in Hl.
    unfold spec_run in Hl. lia. }
  rewrite Hst in Hrep', Hst'. unfold Finalize. destruct (drain c now) as [m c'] eqn:Hd. cbn [snd] in *.
  exists c, c', ((λ _, []) <$> ps). split; [done|]. split; [by rewrite Hd, Hst'|].
  split; [done|]. split; [congruence|done].
Qed.

Lemma drained_all t0 acts now :
  drained (spec_drain t0 now (spec_run t0 acts)) = events acts.
Proof. rewrite drained_spec_drain. apply spec_events. Qed.

(** ** Sums over the operations of a history *)

Lemma sum_obs_for names h :
  NoDup names → tracked names h →
  sum_list_Z ((λ op, Z.of_nat (length (obs_for op h))) <$> names) = Z.of_nat (length h).
Proof.
  intros Hnd. induction 1 as [|[o x] h Ho _ IH].
  { clear. induction names as [|op names IH]; [done|]. rewrite fmap_cons, sum_list_Z_cons, IH. done. }
  cbn [length]. rewrite Nat2Z.inj_succ, <- IH. clear IH. cbn [fst] in Ho.
  induction Hnd as [|op names Hn Hnd IH]; [set_solver|].
  rewrite !fmap_cons, !sum_list_Z_cons, obs_for_cons. cbn [fst snd].
  destruct (decide (o = op)) as [->|Hne].
  - replace (sum_list_Z ((λ op0, Z.of_nat (length (obs_for op0 ((op, x) :: h)))) <$> names))
      with (sum_list_Z ((λ op0, Z.of_nat (length (obs_for op0 h))) <$> names)).
    { cbn [length]. lia. }
    f_equal. apply list_fmap_ext. intros i y Hy%list_elem_of_lookup_2. rewrite obs_for_cons.
    cbn [fst]. by rewrite decide_False by set_solver.
  - rewrite IH by set_solver. lia.
Qed.

Lemma sum_filter_seen names h :
  sum_list_Z ((λ op, Z.of_nat (length (obs_for op h))) <$> filter (seen h) names)
  = sum_list_Z ((λ op, Z.of_nat (length (obs_for op h))) <$> names).
Proof.
  induction names as [|op names IH]; [done|].
  rewrite (fmap_cons _ op names), sum_list_Z_cons, <- IH.
  destruct (decide (seen h op)) as [Hs|Hs].
  - by rewrite filter_cons_True, fmap_cons, sum_list_Z_cons.
  - rewrite filter_cons_False by done. unfold seen in Hs. apply dec_stable in Hs.
    rewrite Hs. done.
Qed.

(** The counts of an interval's entries add up to the interval's. *)
Lemma interval_sums names cs iv :
  NoDup names → tracked names (mjoin cs) → interval_ok names cs iv →
  sum_list_Z (io_Count <$> iv.(is_Operations)) = iv.(is_Ops).
Proof.
  intros Hnd Htr [Ho _ _ Hent].
  rewrite Ho, <- (sum_obs_for names) by done. rewrite <- sum_filter_seen. f_equal.
  induction Hent as [|op o l k Hok _ IH]; [done|].
  rewrite !fmap_cons. f_equal; [apply Hok|done].
Qed.

(** What one operation contributed to a series. *)
Definition op_series (op : string) (ivs : list IntervalStats) : Z :=
  sum_list_Z (io_Count <$> filter (λ o, o.(io_Op) = op) (mjoin (is_Operations <$> ivs))).

Lemma interval_op_count names cs iv op :
  NoDup names → op ∈ names → interval_ok names cs iv →
  sum_list_Z (io_Count <$> filter (λ o, o.(io_Op) = op) iv.(is_Operations))
  = Z.of_nat (length (obs_for op (mjoin cs))).
Proof.
  intros Hnd Hop [_ _ _ Hent]. set (h := mjoin cs) in *.
  assert (sum_list_Z (io_Count <$> filter (λ o, o.(io_Op) = op) iv.(is_Operations))
    = sum_list_Z ((λ op', Z.of_nat (length (obs_for op' h))) <$> filter (λ op', op' = op) (filter (seen h) names)))
    as ->.
  { induction Hent as [|op' o l k Hok _ IH]; [done|].
    pose proof (eo_name _ _ _ _ Hok) as Hn. pose proof (eo_count _ _ _ _ Hok) as Hc.
    destruct (decide (op' = op)) as [->|Hne].
    - rewrite !filter_cons_True by congruence. rewrite !fmap_cons, !sum_list_Z_cons.
      unfold h. rewrite Hc, IH. done.
    - by rewrite !filter_cons_False by congruence. }
  clear Hent. induction Hnd as [|op' names Hn Hnd IH]; [set_solver|].
  assert (∀ l, op ∉ l → filter (λ op', op' = op) (filter (seen h) l) = []) as Hnil.
  { intros l Hl. apply filter_none, Forall_forall. intros y [_ Hy]%list_elem_of_filter ->. done. }
  destruct (decide (op' = op)) as [->|Hne].
  - destruct (decide (seen h op)) as [Hs|Hs].
    + rewrite (filter_cons_True (seen h)), filter_cons_True by done. rewrite Hnil by done.
      rewrite fmap_cons, sum_list_Z_cons. simpl. lia.
    + rewrite filter_cons_False, Hnil by done. unfold seen in Hs. apply dec_stable in Hs.
      by rewrite Hs.
  - destruct (decide (seen h op')) as [Hs|Hs].
    + rewrite filter_cons_True, filter_cons_False by done. apply IH. set_solver.
    + rewrite filter_cons_False by done. apply IH. set_solver.
Qed.

(** ** Properties of a run *)

Section run.
Context (names : list string) (t0 : Time) (acts : list action).
Context (Hok : acts_ok names 0 acts = true).
Context (Hbound : Z.of_nat (length (events acts)) ≤ int64_max).

Lemma tracked_events : tracked names (events acts).
Proof.
  clear Hbound. revert Hok. generalize 0%nat. unfold tracked.
  induction acts as [|a acts' IH]; intros n Hn; [constructor|].
  destruct a as [|i op d err|now]; cbn [acts_ok] in Hn.
  - exact (IH _ Hn).
  - apply andb_prop in Hn as [[_ Hop%bool_decide_eq_true]%andb_prop Hn].
    constructor; [exact Hop|exact (IH _ Hn)].
  - exact (IH _ Hn).
Qed.

(** Every observation lands in the totals exactly once. *)
Lemma Finalize_totals now ended :
  ∃ c, run (NewStatsCollector names t0) acts = Some c ∧
    let '(totals, _, started, finished, _) := Finalize c now ended in
    totals = by_op names (events acts) ∧ started = t0 ∧ finished = ended.
Proof.
  destruct (run_Finalize names t0 acts now ended Hok Hbound)
    as (c & c' & ps & Hrun & HF & Hrep & Ho & _).
  exists c. split; [done|]. rewrite HF. split; [|done].
  by rewrite (rep_total _ _ _ Hrep), drained_all, Ho.
Qed.

Lemma Finalize_series now ended :
  ∃ c, run (NewStatsCollector names t0) acts = Some c ∧
    let '(_, series, _, _, _) := Finalize c now ended in
    let s := spec_drain t0 now (spec_run t0 acts) in
    Forall2 (interval_ok names) s.(groups) series
    ∧ timeline (Seconds 0) series (Seconds (Sub s.(boundary) t0))
    ∧ mjoin (mjoin s.(groups)) = events acts.
Proof.
  destruct (run_Finalize names t0 acts now ended Hok Hbound)
    as (c & c' & ps & Hrun & HF & Hrep & Ho & Hst).
  exists c. split; [done|]. rewrite HF. split; [|split].
  - pose proof (rep_intervals _ _ _ Hrep) as Hi. by rewrite Ho in Hi.
  - pose proof (rep_timeline _ _ _ Hrep) as Htl.
    by rewrite (rep_boundary _ _ _ Hrep), Hst in Htl.
  - apply (drained_all t0 acts now).
Qed.

Lemma series_sums now ended :
  NoDup names →
  ∃ c, run (NewStatsCollector names t0) acts = Some c ∧
    let '(totals, series, _, _, _) := Finalize c now ended in
    sum_list_Z (is_Ops <$> series) = Z.of_nat (length (events acts))
    ∧ sum_list_Z (is_Errors <$> series) = errors_in (events acts)
    ∧ Forall (λ iv, sum_list_Z (io_Count <$> iv.(is_Operations)) = iv.(is_Ops)) series
    ∧ ∀ op s, totals !! op = Some s → op_series op series = s.(count).
Proof.
  intros Hnd. destruct (Finalize_totals now ended) as (c & Hrun & Htot).
  destruct (Finalize_series now ended) as (c1 & Hrun1 & Hser).
  rewrite Hrun in Hrun1. injection Hrun1 as <-. exists c. split; [done|].
  destruct (Finalize c now ended) as [[[[totals series] started] finished] c'].
  destruct Htot as [-> _]. destruct Hser as (Hiv & _ & Hall).
  pose proof tracked_events as Htr. rewrite <- Hall in Htr |- *.
  revert Hiv Htr. generalize (groups (spec_drain t0 now (spec_run t0 acts))) as css.
  clear -Hnd. intros css Hiv Htr.
  split; [|split; [|split]].
  - induction Hiv as [|cs iv css ivs Hok _ IH]; [done|].
    rewrite mjoin_cons, join_app in *. apply Forall_app in Htr as [_ Htr].
    rewrite fmap_cons, sum_list_Z_cons, IH, (iv_ops _ _ _ Hok), length_app by done. lia.
  - induction Hiv as [|cs iv css ivs Hok _ IH]; [done|].
    rewrite mjoin_cons, join_app in *. apply Forall_app in Htr as [_ Htr].
    by rewrite fmap_cons, sum_list_Z_cons, IH, (iv_errors _ _ _ Hok), errors_in_app.
  - induction Hiv as [|cs iv css ivs Hok _ IH]; [done|].
    rewrite mjoin_cons, join_app in *. apply Forall_app in Htr as [Htr1 Htr].
    constructor; [exact (interval_sums _ _ _ Hnd Htr1 Hok)|exact (IH Htr)].
  - intros op s. rewrite by_op_lookup. case_decide as Hop; [|done]. intros [= <-].
    rewrite count_summarize. unfold op_series.
    induction Hiv as [|cs iv css ivs Hok _ IH]; [done|].
    rewrite mjoin_cons, join_app in *. apply Forall_app in Htr as [_ Htr].
    rewrite fmap_cons, mjoin_cons, filter_app, fmap_app, sum_list_Z_app, IH by done.
    rewrite (interval_op_count names cs iv op) by done. rewrite obs_for_app, length_app. lia.
Qed.
End run.
