(* ===== verification/Summary.v ===== *)
(** * workload/stats.go: the console summary

    [print] drains the collector and prints one table; [RunSummaryLoop] does
    so at every tick until the context is done.  Other goroutines act on the
    collector between the passes of the loop and between the two critical
    sections of [print]; their actions are arguments.  The texts printed are
    results. *)

From S2P Require Export GoFmt.
From S2P Require Export CollectorRun.

(** ** Thousands separators *)

(** The loop of [commaf] over the groups of three; the slice expression never
    leaves the string because [i] and the length agree modulo three. *)
Fixpoint comma_loop (fuel i : nat) (s b : string) : string :=
  match fuel with
  | O => b
  | S fuel =>
      if (i <? String.length s)%nat then
        let b := if (0 <? i)%nat then b +:+ "," else b in
        comma_loop fuel (i + 3) s (b +:+ String.substring i 3 s)
      else b
  end.

Definition commaf (n : Z) : string :=
  let s := fmt_d n in
  if (String.length s <=? 3)%nat then s
  else
    let rem := (String.length s mod 3)%nat in
    let b := if (0 <? rem)%nat then String.substring 0 rem s else "" in
    comma_loop (String.length s) rem s b.

(** ** One summary *)

Definition latencyCell (s : opStats) (q : f64) : string :=
  if samples s =? 0 then "—" else fmt_f1 (percentile s q).

(** [pgxpool.Stat]: the four counters the summary prints. *)
Record pool_stat := mkPoolStat {
  AcquiredConns : Z; IdleConns : Z; TotalConns : Z; MaxConns : Z;
}.

(** [strings.Repeat] *)
Fixpoint Repeat (s : string) (n : nat) : string :=
  match n with O => "" | S n => s +:+ Repeat s n end.

Definition sep : string := Repeat "━" 68.

(** One row of the table, from the figures it shows. *)
Definition row_text (op : string) (n errs : Z) (ops_s : f64) (c50 c95 c99 : string) : string :=
  "  │ " +:+ pad_right 12 op +:+ " │ " +:+ pad_left 6 (fmt_d n) +:+ " │ "
    +:+ pad_left 6 (fmt_d errs) +:+ " │ " +:+ pad_left 7 (fmt_f1 ops_s) +:+ " │ "
    +:+ pad_left 6 c50 +:+ " │ " +:+ pad_left 6 c95 +:+ " │ " +:+ pad_left 6 c99
    +:+ " │" +:+ newline.

Definition summary_row (windowSecs : f64) (op : string) (s : opStats) : string :=
  row_text op s.(count) s.(errors) (fdiv (of_int s.(count)) windowSecs)
    (latencyCell s q50) (latencyCell s q95) (latencyCell s q99).

(** The loop over [c.ops]; [None] is the nil dereference on an operation the
    merged window does not hold. *)
Fixpoint summary_rows (windowSecs : f64) (merged : gmap string opStats) (ops : list string)
    : option string :=
  match ops with
  | [] => Some ""
  | op :: rest =>
      s ← merged !! op;
      rows ← summary_rows windowSecs merged rest;
      Some (summary_row windowSecs op s +:+ rows)
  end.

(** Everything above the table. *)
Definition summary_head (clock : string) (elapsed : Duration) (windowSecs : f64)
    (totalOps totalErrors : Z) : string :=
  newline +:+ sep +:+ newline
    +:+ "  30s summary [" +:+ clock +:+ " | +" +:+ Duration_String elapsed +:+ " elapsed]" +:+ newline
    +:+ "  total  " +:+ pad_left 6 (commaf totalOps) +:+ " ops   "
    +:+ fmt_f1 (fdiv (of_int totalOps) windowSecs) +:+ " ops/s   errors: " +:+ fmt_d totalErrors
    +:+ newline
    +:+ "  ┌──────────────┬────────┬────────┬─────────┬────────┬────────┬────────┐" +:+ newline
    +:+ "  │ " +:+ pad_right 12 "op" +:+ " │ " +:+ pad_left 6 "count" +:+ " │ " +:+ pad_left 6 "err"
    +:+ " │ " +:+ pad_left 7 "ops/s" +:+ " │ " +:+ pad_left 6 "p50 ms" +:+ " │ "
    +:+ pad_left 6 "p95 ms" +:+ " │ " +:+ pad_left 6 "p99 ms" +:+ " │" +:+ newline
    +:+ "  ├──────────────┼────────┼────────┼─────────┼────────┼────────┼────────┤" +:+ newline.

(** Everything below it. *)
Definition summary_foot (pool : option pool_stat) (workerCount : Z) : string :=
  "  └──────────────┴────────┴────────┴─────────┴────────┴────────┴────────┘" +:+ newline
    +:+ match pool with
        | None => ""
        | Some st =>
            "  pool  acquired=" +:+ fmt_d st.(AcquiredConns) +:+ "  idle=" +:+ fmt_d st.(IdleConns)
              +:+ "  total=" +:+ fmt_d st.(TotalConns) +:+ "  max=" +:+ fmt_d st.(MaxConns)
              +:+ "  │  workers=" +:+ fmt_d workerCount +:+ newline
        end
    +:+ sep +:+ newline +:+ newline.

Section summary.
(** [now.Format("15:04:05")]: the wall clock in the local time zone. *)
Context (Format : Time → string).

(** [print]: [meanwhile] happens between the drain and the reading of the
    number of workers.  [None] is a panic. *)
Definition print (c : StatsCollector) (now : Time) (window : Duration) (meanwhile : list action)
    (pool : option pool_stat) : option (string * StatsCollector) :=
  let '(merged, c) := drain c now in
  c ← run c meanwhile;
  let workerCount := Z.of_nat (length c.(workers)) in
  let windowSecs := Seconds window in
  let elapsed := Round (Sub now c.(start)) Second in
  rows ← summary_rows windowSecs merged c.(ops);
  Some (summary_head (Format now) elapsed windowSecs (sum_counts merged) (sum_errors merged)
          +:+ rows +:+ summary_foot pool workerCount, c).

(** What wakes a pass of the loop up. *)
Inductive wake :=
  | CtxDone
  | Tick (t : Time) (meanwhile : list action) (pool : option pool_stat).

Record pass := mkPass { p_before : list action; p_wake : wake }.

Inductive loop_result :=
  | Stopped (printed : list string) (c : StatsCollector)
  | Selecting (printed : list string) (c : StatsCollector)
  | LoopPanic.

(** The [for]/[select] of [RunSummaryLoop]; [Selecting] when the passes end
    before the context is done. *)
Fixpoint summary_loop (interval : Duration) (passes : list pass) (printed : list string)
    (c : StatsCollector) : loop_result :=
  match passes with
  | [] => Selecting printed c
  | p :: rest =>
      match run c p.(p_before) with
      | None => LoopPanic
      | Some c =>
          match p.(p_wake) with
          | CtxDone => Stopped printed c
          | Tick t meanwhile pool =>
              match print c t interval meanwhile pool with
              | None => LoopPanic
              | Some (text, c) => summary_loop interval rest (printed ++ [text]) c
              end
          end
      end
  end.

(** Creating the ticker panics when the interval is not positive. *)
Definition RunSummaryLoop (interval : Duration) (passes : list pass) (c : StatsCollector)
    : loop_result :=
  if ticker_panics interval then LoopPanic else summary_loop interval passes [] c.

(** ** The specification: a window of events and its text *)

Definition window_cell (l : list obs) (q : f64) : string :=
  match successes l with [] => "—" | _ => fmt_f1 (percentile (summarize l) q) end.

Definition window_row (windowSecs : f64) (h : list event) (op : string) : string :=
  let l := obs_for op h in
  let n := Z.of_nat (length l) in
  row_text op n (Z.of_nat (length (failures l))) (fdiv (of_int n) windowSecs)
    (window_cell l q50) (window_cell l q95) (window_cell l q99).

(** The summary of the events [h] of one window. *)
Definition window_text (names : list string) (t0 now : Time) (window : Duration)
    (workers : nat) (pool : option pool_stat) (h : list event) : string :=
  summary_head (Format now) (Round (Sub now t0) Second) (Seconds window)
    (Z.of_nat (length h)) (errors_in h)
  +:+ String.concat "" (window_row (Seconds window) h <$> names)
  +:+ summary_foot pool (Z.of_nat workers).

(** ** Groups of three *)

Lemma substring_all (s : string) : String.substring 0 (String.length s) s = s.
Proof. induction s as [|c s IH]; [done|]. cbn. by rewrite IH. Qed.

Lemma substring_app (p q : string) n :
  String.substring (String.length p) n (p +:+ q) = String.substring 0 n q.
Proof. induction p as [|c p IH]; [done|]. exact IH. Qed.

Lemma substring_prefix (p q : string) : String.substring 0 (String.length p) (p +:+ q) = p.
Proof.
  induction p as [|c p IH]; [by destruct q|]. exact (f_equal (String c) IH).
Qed.

Lemma prefix_of_length n (p q : string) :
  String.length p = n → String.substring 0 n (p +:+ q) = p.
Proof. intros <-. apply substring_prefix. Qed.

Lemma string_split (n : nat) (s : string) :
  (n ≤ String.length s)%nat → ∃ p q, s = p +:+ q ∧ String.length p = n.
Proof.
  revert s. induction n as [|n IH]; intros s Hn; [by exists "", s|].
  destruct s as [|c s]; cbn in Hn; [lia|].
  destruct (IH s) as (p & q & -> & Hp); [lia|].
  exists (String c p), q. split; [done|]. exact (f_equal S Hp).
Qed.

(** The decimal digits in groups of three, the first of one to three. *)
Definition grouped (s t : string) : Prop :=
  ∃ g gs, s = g +:+ String.concat "" gs ∧ t = String.concat "," (g :: gs)
    ∧ (1 ≤ String.length g ≤ 3)%nat ∧ Forall (λ x, String.length x = 3%nat) gs.

Lemma concat_comma_cons g gs :
  String.concat "," (g :: gs) = g +:+ String.concat "" (String.append "," <$> gs).
Proof.
  revert g. induction gs as [|h gs IH]; intros g; [cbn; by rewrite str_app_nil_r|].
  change (String.concat "," (g :: h :: gs)) with (g +:+ "," +:+ String.concat "," (h :: gs)).
  by rewrite IH, fmap_cons, str_concat_cons, str_app_assoc.
Qed.

(** A whole number of groups of three. *)
Lemma groups_of_three k (s : string) :
  String.length s = (3 * k)%nat →
  ∃ gs, s = String.concat "" gs ∧ length gs = k ∧ Forall (λ x, String.length x = 3%nat) gs.
Proof.
  revert s. induction k as [|k IH]; intros s Hs; [exists []; by destruct s|].
  destruct (string_split 3 s) as (p & q & -> & Hp); [lia|].
  rewrite str_length_app in Hs. destruct (IH q) as (gs & -> & Hk & Hgs); [lia|].
  exists (p :: gs). rewrite str_concat_cons. cbn. by rewrite Hk, Forall_cons.
Qed.

Lemma comma_loop_step fuel i (s b : string) :
  (i < String.length s)%nat →
  comma_loop (S fuel) i s b
  = comma_loop fuel (i + 3) s ((if (0 <? i)%nat then b +:+ "," else b) +:+ String.substring i 3 s).
Proof. intros Hi. cbn [comma_loop]. by rewrite (proj2 (Nat.ltb_lt _ _) Hi). Qed.

(** From a position past the start the loop puts a comma before each group. *)
Lemma comma_loop_groups gs : ∀ fuel p b,
  (length gs ≤ fuel)%nat → p ≠ "" → Forall (λ x, String.length x = 3%nat) gs →
  comma_loop fuel (String.length p) (p +:+ String.concat "" gs) b
  = b +:+ String.concat "" (String.append "," <$> gs).
Proof.
  induction gs as [|g gs IH]; intros fuel p b Hf Hp Hgs.
  { rewrite fmap_nil. change (String.concat "" []) with ""%string. rewrite !str_app_nil_r.
    destruct fuel as [|fuel]; [done|]. cbn [comma_loop]. by rewrite Nat.ltb_irrefl. }
  apply Forall_cons in Hgs as [Hg Hgs]. destruct fuel as [|fuel]; cbn in Hf; [lia|].
  rewrite str_concat_cons, comma_loop_step by (rewrite !str_length_app, Hg; lia).
  destruct (Nat.ltb_spec 0 (String.length p)) as [_|Hz]; [|destruct p; cbn in Hz; done || lia].
  rewrite substring_app, (prefix_of_length 3 g) by done.
  replace (String.length p + 3)%nat with (String.length (p +:+ g)) by (rewrite str_length_app; lia).
  rewrite <- str_app_assoc, IH; [|lia|by destruct p|done].
  rewrite fmap_cons, str_concat_cons. by rewrite !str_app_assoc.
Qed.

Lemma length_groups gs :
  Forall (λ x, String.length x = 3%nat) gs → String.length (String.concat "" gs) = (3 * length gs)%nat.
Proof.
  induction 1 as [|g gs Hg _ IH]; [done|]. rewrite str_concat_cons, str_length_app, Hg, IH. cbn [length]. lia.
Qed.

Lemma commaf_loop g gs :
  (1 ≤ String.length g ≤ 3)%nat → gs ≠ [] → Forall (λ x, String.length x = 3%nat) gs →
  let s := g +:+ String.concat "" gs in
  let rem := (String.length s mod 3)%nat in
  comma_loop (String.length s) rem s (if (0 <? rem)%nat then String.substring 0 rem s else "")
  = String.concat "," (g :: gs).
Proof.
  intros Hg Hne Hgs. cbv zeta. rewrite concat_comma_cons.
  assert (String.length (g +:+ String.concat "" gs) = (String.length g + length gs * 3)%nat) as Hlen
    by (rewrite str_length_app, length_groups by done; lia).
  rewrite Hlen, Nat.Div0.mod_add.
  assert (g ≠ ""%string) as Hg0 by (intros ->; cbn in Hg; lia).
  destruct (decide (String.length g = 3%nat)) as [H3|H3].
  - rewrite H3. change (3 + length gs * 3)%nat with (S (2 + length gs * 3)).
    change (3 mod 3)%nat with 0%nat. rewrite comma_loop_step by (rewrite Hlen; lia).
    cbn [Nat.ltb Nat.leb]. rewrite (prefix_of_length 3 g) by done.
    change (0 + 3)%nat with 3%nat. rewrite <- H3. apply comma_loop_groups; [lia|done|done].
  - rewrite Nat.mod_small by lia. destruct (Nat.ltb_spec 0 (String.length g)); [|lia].
    rewrite substring_prefix. apply comma_loop_groups; [lia|done|done].
Qed.

(** The thousands separators are only inserted: the text is the decimal
    number cut into groups of three digits, the first of one to three, with a
    comma between two groups and nowhere else. *)
Theorem commaf_groups (n : Z) : grouped (fmt_d n) (commaf n).
Proof.
  unfold commaf. set (s := fmt_d n).
  assert (1 ≤ String.length s)%nat as Hs.
  { pose proof (fmt_d_nonempty n) as Hne. fold s in Hne. destruct s; [done|cbn; lia]. }
  destruct (Nat.leb_spec (String.length s) 3) as [Hle|Hgt].
  { exists s, []. cbn. rewrite str_app_nil_r. split; [done|]. split; [done|]. split; [lia|done]. }
  pose proof (Nat.div_mod (String.length s - 1) 3 ltac:(lia)) as Hdm.
  pose proof (Nat.mod_upper_bound (String.length s - 1) 3 ltac:(lia)) as Hm.
  destruct (string_split (1 + (String.length s - 1) mod 3) s) as (g & q & Heq & Hg); [lia|].
  pose proof (f_equal String.length Heq) as Hlen. rewrite str_length_app in Hlen.
  destruct (groups_of_three ((String.length s - 1) / 3) q) as (gs & -> & Hk & Hgs); [lia|].
  exists g, gs. split; [done|]. split; [|split; [lia|done]].
  rewrite Heq. apply commaf_loop; [lia| |done]. intros ->. cbn [length] in Hk. lia.
Qed.

(** ** A summary shows the window it drained *)

Lemma latencyCell_summarize l q :
  Z.of_nat (length l) ≤ int64_max → latencyCell (summarize l) q = window_cell l q.
Proof.
  intros Hb. unfold latencyCell, window_cell. rewrite samples_summarize by done.
  by destruct (successes l).
Qed.

Lemma summary_rows_by_op w names h l :
  Z.of_nat (length h) ≤ int64_max → Forall (λ op, op ∈ names) l →
  summary_rows w (by_op names h) l = Some (String.concat "" (window_row w h <$> l)).
Proof.
  intros Hb. induction 1 as [|op l Hop _ IH]; [done|].
  cbn [summary_rows]. rewrite by_op_lookup, decide_True, IH by done. cbn [mbind option_bind].
  rewrite fmap_cons, str_concat_cons. do 2 f_equal.
  pose proof (length_obs_for op h). unfold summary_row, window_row.
  rewrite !latencyCell_summarize by lia. done.
Qed.

(** The workers registered by some actions. *)
Fixpoint registrations (acts : list action) : nat :=
  match acts with
  | [] => 0
  | Register :: acts => S (registrations acts)
  | _ :: acts => registrations acts
  end.

Lemma acts_ok_app names n a b :
  acts_ok names n (a ++ b) = acts_ok names n a && acts_ok names (n + registrations a) b.
Proof.
  revert n. induction a as [|x a IH]; intros n.
  { cbn [registrations]. by rewrite app_nil_l, Nat.add_0_r. }
  rewrite <- app_comm_cons. destruct x; cbn [acts_ok registrations]; rewrite IH.
  - by replace (n + S (registrations a))%nat with (S n + registrations a)%nat by lia.
  - by rewrite andb_assoc.
  - done.
Qed.

Lemma drain_workers_length m ws : length (drain_workers m ws).2 = length ws.
Proof.
  revert m. induction ws as [|w ws IH]; intros m; [done|]. cbn [drain_workers].
  destruct (snapshot w) as [snap w']. specialize (IH (merge_window m snap)).
  destruct (drain_workers (merge_window m snap) ws). cbn [snd length] in *. by rewrite IH.
Qed.

Lemma drain_length c now : length (drain c now).2.(workers) = length c.(workers).
Proof.
  unfold drain. pose proof (drain_workers_length (zero_stats c.(ops)) c.(workers)) as Hl.
  destruct (drain_workers _ _) as [m ws]. unfold drain_commit. cbn [snd] in *.
  by rewrite record_workers.
Qed.

Lemma run_workers c acts c' :
  run c acts = Some c' → length c'.(workers) = (length c.(workers) + registrations acts)%nat.
Proof.
  revert c. induction acts as [|a acts IH]; intros c; cbn [run registrations].
  { intros [= <-]. lia. }
  intros (c1 & Ha & Hr)%bind_Some. rewrite (IH c1 Hr). clear IH Hr.
  destruct a as [|i op d err|now]; cbn [act] in Ha.
  - injection Ha as <-. cbn [NewWorkerStats workers]. rewrite length_app. cbn [length]. lia.
  - apply bind_Some in Ha as (w & Hw & (w' & Hw' & [= <-])%bind_Some).
    cbn [set_workers workers]. by rewrite length_insert.
  - injection Ha as <-. by rewrite drain_length.
Qed.

Lemma rep_length c s ps : rep c s ps → length c.(workers) = length ps.
Proof. intros Hrep. by rewrite (rep_workers _ _ _ Hrep), length_fmap. Qed.

(** A prefix of a run, from the representation. *)
Lemma run_rep_workers c s ps acts :
  rep c s ps → acts_ok c.(ops) (length ps) acts = true →
  Z.of_nat (length (drained s) + length s.(current) + length (events acts)) ≤ int64_max →
  ∃ c' ps', run c acts = Some c' ∧ rep c' (foldl (spec_act c.(start)) s acts) ps'
    ∧ length ps' = (length ps + registrations acts)%nat ∧ c'.(ops) = c.(ops) ∧ c'.(start) = c.(start).
Proof.
  intros Hrep Hok Hb. destruct (run_rep c s ps acts Hrep Hok Hb) as (c' & ps' & Hrun & Hrep' & Ho & Hs).
  exists c', ps'. split; [done|]. split; [done|]. split; [|done].
  rewrite <- (rep_length _ _ _ Hrep), <- (rep_length _ _ _ Hrep'). by apply run_workers.
Qed.

Lemma print_window c s ps now window meanwhile pool :
  rep c s ps → acts_ok c.(ops) (length ps) meanwhile = true →
  Z.of_nat (length (drained s) + length s.(current) + length (events meanwhile)) ≤ int64_max →
  ∃ c' ps', print c now window meanwhile pool
      = Some (window_text c.(ops) c.(start) now window (length ps + registrations meanwhile) pool s.(current), c')
    ∧ run c (Drain now :: meanwhile) = Some c'
    ∧ rep c' (foldl (spec_act c.(start)) s (Drain now :: meanwhile)) ps'
    ∧ length ps' = (length ps + registrations meanwhile)%nat ∧ c'.(ops) = c.(ops) ∧ c'.(start) = c.(start).
Proof.
  intros Hrep Hok Hb. destruct (rep_drain c s ps now Hrep) as (Hrep1 & Hm & Ho & Hst); [lia|].
  destruct (run_rep_workers (drain c now).2 _ _ meanwhile Hrep1) as (c' & ps' & Hrun & Hrep' & Hlen & Ho' & Hst').
  { by rewrite Ho, length_fmap. }
  { rewrite drained_spec_drain, current_spec_drain, length_app. cbn [length]. lia. }
  rewrite length_fmap in Hlen. rewrite Hst in Hrep', Hst'.
  exists c', ps'. unfold print. cbn [run act mbind option_bind]. 
  destruct (drain c now) as [m c1]. cbn [fst snd] in *. rewrite Hrun. cbn [mbind option_bind].
  rewrite Hm, Ho', Ho, summary_rows_by_op by (lia || by apply Forall_forall).
  cbn [mbind option_bind]. rewrite (rep_length _ _ _ Hrep'), Hlen, Hst'.
  pose proof (rep_tracked _ _ _ Hrep) as Htr.
  rewrite sum_counts_by_op, sum_errors_by_op by (done || lia).
  rewrite Ho in Ho'. done.
Qed.

(** ** The loop *)

Definition no_drain (acts : list action) : Prop :=
  Forall (λ a, match a with Drain _ => False | _ => True end) acts.

(** Nobody but the loop drains the collector. *)
Definition sole_drainer (p : pass) : Prop :=
  no_drain p.(p_before) ∧ match p.(p_wake) with CtxDone => True | Tick _ m _ => no_drain m end.

(** What happens to the collector until the loop returns. *)
Fixpoint loop_acts (passes : list pass) : list action :=
  match passes with
  | [] => []
  | p :: rest =>
      p.(p_before) ++ match p.(p_wake) with
                      | CtxDone => []
                      | Tick t m _ => (Drain t :: m) ++ loop_acts rest
                      end
  end.

(** A printed summary: when, with how many workers, and of which events. *)
Record summary := mkSummary {
  sm_time : Time; sm_workers : nat; sm_pool : option pool_stat; sm_events : list event;
}.

(** The summaries of the passes, from [n] workers and pending events [h], and
    the events left pending. *)
Fixpoint summaries (n : nat) (h : list event) (passes : list pass) : list summary * list event :=
  match passes with
  | [] => ([], h)
  | p :: rest =>
      let h := h ++ events p.(p_before) in
      let n := (n + registrations p.(p_before))%nat in
      match p.(p_wake) with
      | CtxDone => ([], h)
      | Tick t m pool =>
          let n := (n + registrations m)%nat in
          let '(l, rest_ev) := summaries n (events m) rest in
          (mkSummary t n pool h :: l, rest_ev)
      end
  end.

Definition text_of (names : list string) (t0 : Time) (window : Duration) (x : summary) : string :=
  window_text names t0 x.(sm_time) window x.(sm_workers) x.(sm_pool) x.(sm_events).

Lemma current_no_drain t0 acts s :
  no_drain acts → (foldl (spec_act t0) s acts).(current) = s.(current) ++ events acts.
Proof.
  intros Hnd. revert s. induction Hnd as [|a acts Ha _ IH]; intros s; cbn [foldl].
  { by rewrite app_nil_r. }
  rewrite IH. destruct a as [|i op d err|now]; [done| |done].
  cbn [spec_act current]. by rewrite <- app_assoc.
Qed.

(** No event is lost between the summaries and what is left pending. *)
Lemma summaries_events passes : ∀ n h,
  let '(l, rest_ev) := summaries n h passes in
  mjoin (sm_events <$> l) ++ rest_ev = h ++ events (loop_acts passes).
Proof.
  induction passes as [|p rest IH]; intros n h; cbn [summaries loop_acts].
  { by rewrite app_nil_r. }
  rewrite events_app. destruct (p_wake p) as [|t m pool].
  { rewrite app_nil_r. by cbn. }
  specialize (IH (n + registrations (p_before p) + registrations m)%nat (events m)).
  destruct (summaries _ _ rest) as [l rest_ev]. rewrite fmap_cons, mjoin_cons. cbn [sm_events].
  change (events ((Drain t :: m) ++ loop_acts rest)) with (events (m ++ loop_acts rest)).
  by rewrite events_app, <- !app_assoc, IH.
Qed.

Lemma foldl_spec_bound t0 acts s :
  (length (drained (foldl (spec_act t0) s acts)) + length (foldl (spec_act t0) s acts).(current)
   = length (drained s) + length s.(current) + length (events acts))%nat.
Proof.
  pose proof (f_equal length (spec_events_from t0 acts s)) as Hl. rewrite !length_app in Hl. lia.
Qed.

Definition loop_done (p : pass) : Prop := p.(p_wake) = CtxDone.

Lemma summary_loop_run interval passes : ∀ c s ps printed,
  rep c s ps → Exists loop_done passes → Forall sole_drainer passes →
  acts_ok c.(ops) (length ps) (loop_acts passes) = true →
  Z.of_nat (length (drained s) + length s.(current) + length (events (loop_acts passes))) ≤ int64_max →
  ∃ c', summary_loop interval passes printed c
      = Stopped (printed ++ (text_of c.(ops) c.(start) interval
                               <$> (summaries (length ps) s.(current) passes).1)) c'
    ∧ run c (loop_acts passes) = Some c'.
Proof.
  induction passes as [|p rest IH]; intros c s ps printed Hrep Hd Hnd Hok Hb; [by inversion Hd|].
  cbn [summary_loop loop_acts summaries] in *. apply Forall_cons in Hnd as [[Hnb Hnm] Hnd].
  rewrite acts_ok_app in Hok. apply andb_prop in Hok as [Hok1 Hok2].
  rewrite events_app, length_app in Hb.
  destruct (run_rep_workers c s ps p.(p_before) Hrep Hok1) as (c1 & ps1 & Hrun1 & Hrep1 & Hl1 & Ho1 & Hst1);
    [lia|]. rewrite run_app, Hrun1. cbn [mbind option_bind].
  pose proof (foldl_spec_bound c.(start) p.(p_before) s) as Hb1.
  rewrite <- (current_no_drain c.(start) _ s Hnb), <- Hl1.
  set (s1 := foldl (spec_act c.(start)) s p.(p_before)) in *.
  destruct (p_wake p) as [|t m pool] eqn:Hw.
  { exists c1. cbn [fst]. rewrite fmap_nil, app_nil_r. done. }
  assert (Exists loop_done rest) as Hd'.
  { apply Exists_cons in Hd as [Hd|Hd]; [|done]. unfold loop_done in Hd. congruence. }
  rewrite acts_ok_app in Hok2. cbn [acts_ok registrations] in Hok2. apply andb_prop in Hok2 as [Hok2 Hok3].
  rewrite events_app in Hb. change (events (Drain t :: m)) with (events m) in Hb. rewrite length_app in Hb.
  rewrite <- Ho1, <- Hl1 in Hok2.
  destruct (print_window c1 s1 ps1 t interval m pool Hrep1 Hok2) as (c2 & ps2 & Hp & Hrun2 & Hrep2 & Hl2 & Ho2 & Hst2);
    [lia|]. rewrite Hp, run_app, Hrun2. cbn [mbind option_bind].
  rewrite Hst1 in Hrep2. set (s2 := foldl (spec_act c.(start)) s1 (Drain t :: m)) in *.
  assert (s2.(current) = events m) as Hc2.
  { unfold s2. cbn [foldl spec_act]. by rewrite current_no_drain, current_spec_drain. }
  pose proof (foldl_spec_bound c.(start) (Drain t :: m) s1) as Hb2. fold s2 in Hb2.
  change (events (Drain t :: m)) with (events m) in Hb2.
  destruct (IH c2 s2 ps2 (printed ++ [window_text c1.(ops) c1.(start) t interval
    (length ps1 + registrations m) pool s1.(current)]) Hrep2 Hd' Hnd) as (c3 & Hloop & Hrun3).
  { rewrite Ho2, Ho1, Hl2, Hl1. done. }
  { lia. }
  exists c3. split; [|done]. rewrite Hloop, Hc2, Hl2, Ho2, Hst2, Ho1, Hst1.
  destruct (summaries (length ps1 + registrations m) (events m) rest). cbn [fst].
  by rewrite fmap_cons, <- app_assoc.
Qed.

(** C17: the console summaries partition the run.  As long as only the loop
    drains the collector, whatever the workers record and register between its
    passes and in the middle of a summary, [RunSummaryLoop] never panics and
    returns at the first pass that finds the context done, leaving the
    collector as the recordings and its own drains make it; at each tick it
    prints the summary of exactly the operations recorded since the previous
    one (per operation in profile order: attempts, failures, rate, and the
    percentiles of the successes or a dash when there are none), and the
    windows printed, with what is left for [Finalize], are all the recorded
    operations in their order. *)
Theorem RunSummaryLoop_windows (names : list string) (t0 : Time) (interval : Duration)
    (passes : list pass) :
  0 < interval → Exists loop_done passes → Forall sole_drainer passes →
  acts_ok names 0 (loop_acts passes) = true →
  Z.of_nat (length (events (loop_acts passes))) ≤ int64_max →
  let '(printed, pending) := summaries 0 [] passes in
  ∃ c, RunSummaryLoop interval passes (NewStatsCollector names t0)
         = Stopped (text_of names t0 interval <$> printed) c
    ∧ run (NewStatsCollector names t0) (loop_acts passes) = Some c
    ∧ mjoin (sm_events <$> printed) ++ pending = events (loop_acts passes).
Proof.
  intros Hi Hd Hnd Hok Hb.
  destruct (summary_loop_run interval passes _ _ [] [] (rep_new names t0) Hd Hnd Hok) as (c & Hloop & Hrun);
    [done|].
  pose proof (summaries_events passes 0 []) as Hev.
  cbn [length current NewStatsCollector ops start] in Hloop.
  destruct (summaries 0 [] passes) as [printed pending]. exists c.
  split; [|done]. unfold RunSummaryLoop, ticker_panics. by destruct (Z.leb_spec interval 0); [lia|].
Qed.

End summary.

(** Two workers, a summary, a late failure and the end of the run. *)
Definition sample_passes : list pass :=
  [mkPass [Register; Register; Observe 0 "insert" (f_lit 3 1000) None]
     (Tick (30 * Second) [Observe 1 "insert" (f_lit 5 1000) None] (Some (mkPoolStat 2 5 7 25)));
   mkPass [Observe 1 "read" (f_lit 1 1000) (Some (ErrNew "timeout"))] (Tick (60 * Second) [] None);
   mkPass [Observe 0 "insert" (f_lit 4 1000) None] CtxDone].

Lemma RunSummaryLoop_windows_witness :
  let '(printed, pending) := summaries 0 [] sample_passes in
  length printed = 2%nat ∧ length pending = 1%nat ∧
  ∃ c, RunSummaryLoop (λ _, "12:00:30"%string) (30 * Second) sample_passes
         (NewStatsCollector ["insert"; "read"]%string 0)
         = Stopped (text_of (λ _, "12:00:30"%string) ["insert"; "read"]%string 0 (30 * Second) <$> printed) c
    ∧ run (NewStatsCollector ["insert"; "read"]%string 0) (loop_acts sample_passes) = Some c
    ∧ mjoin (sm_events <$> printed) ++ pending = events (loop_acts sample_passes).
Proof.
  split; [reflexivity|]. split; [reflexivity|].
  apply (RunSummaryLoop_windows (λ _, "12:00:30"%string) ["insert"; "read"]%string 0 (30 * Second) sample_passes).
  - reflexivity.
  - do 2 apply Exists_cons_tl. by apply Exists_cons_hd.
  - repeat constructor.
  - reflexivity.
  - vm_compute. discriminate.
Defined.

(** What the first of them looks like. *)
Example sample_row :
  window_row (Seconds (30 * Second)) [("read"%string, Failure)] "read"
  = ("  │ read         │      1 │      1 │     0.0 │      — │      — │      — │" +:+ newline)%string.
Proof. vm_compute. reflexivity. Qed.
