(* ===== verification/Totals.v ===== *)
(** * What a run reports: totals and time series

    The properties of the collector over whole runs, for any number of
    workers, any distribution of the operations over them and any schedule of
    summaries. *)

From S2P Require Export CollectorRun.

(** A run used by the witnesses: two workers, three operations recorded, a
    summary, a late recording and the final drain half a second later. *)
Definition sample_acts : list action :=
  [Register; Register;
   Observe 0 "insert" (f_lit 3 1000) None;
   Observe 1 "insert" (f_lit 5 1000) None;
   Observe 1 "read" (f_lit 1 1000) (Some (ErrNew "timeout"));
   Drain (30 * Second);
   Observe 0 "read" (f_lit 2 1000) None].

Definition sample_names : list string := ["insert"; "read"]%string.

Lemma sample_ok : acts_ok sample_names 0 sample_acts = true.
Proof. reflexivity. Qed.

Lemma sample_bound : Z.of_nat (length (events sample_acts)) ≤ int64_max.
Proof. vm_compute. discriminate. Qed.

Lemma sample_nodup : NoDup sample_names.
Proof. by apply (bool_decide_unpack (NoDup sample_names)). Qed.

(** C3: a run in which workers record known operations never crashes, and the
    totals returned by [Finalize] account for every recorded operation exactly
    once: for each tracked operation, the number of attempts, of failures and
    of latency samples, and the whole statistics, are those of the operation's
    observations, whichever worker recorded them and whenever the windows were
    drained. *)
Theorem run_totals_exact (names : list string) (t0 : Time) (acts : list action) (now ended : Time)
    (Hok : acts_ok names 0 acts = true)
    (Hbound : Z.of_nat (length (events acts)) ≤ int64_max) :
  ∃ c, run (NewStatsCollector names t0) acts = Some c ∧
    let '(totals, _, started, finished, _) := Finalize c now ended in
    started = t0 ∧ finished = ended ∧ dom totals = list_to_set names ∧
    ∀ op, op ∈ names → ∃ s, totals !! op = Some s
      ∧ s = summarize (obs_for op (events acts))
      ∧ s.(count) = Z.of_nat (length (obs_for op (events acts)))
      ∧ s.(errors) = Z.of_nat (length (failures (obs_for op (events acts))))
      ∧ samples s = s.(count) - s.(errors).
Proof.
  destruct (Finalize_totals names t0 acts Hok Hbound now ended) as (c & Hrun & HF).
  exists c. split; [done|].
  destruct (Finalize c now ended) as [[[[totals series] started] finished] c'].
  destruct HF as (-> & -> & ->). split; [done|]. split; [done|]. split.
  - apply set_eq. intros op. rewrite elem_of_dom, by_op_lookup, elem_of_list_to_set.
    case_decide; [|by split; [intros [? [=]]|]]. split; [done|by eexists].
  - intros op Hop. eexists. rewrite by_op_lookup, decide_True by done. split; [done|].
    split; [done|]. split; [done|]. split; [done|].
    pose proof (length_obs_for op (events acts)).
    pose proof (length_successes_failures (obs_for op (events acts))).
    rewrite samples_summarize, count_summarize, errors_summarize by lia. lia.
Qed.

Lemma run_totals_exact_witness :
  ∃ c, run (NewStatsCollector sample_names 0) sample_acts = Some c ∧
    let '(totals, _, started, finished, _) := Finalize c (30500000000) (30600000000) in
    started = 0 ∧ finished = 30600000000 ∧ dom totals = list_to_set sample_names ∧
    ∀ op, op ∈ sample_names → ∃ s, totals !! op = Some s
      ∧ s = summarize (obs_for op (events sample_acts))
      ∧ s.(count) = Z.of_nat (length (obs_for op (events sample_acts)))
      ∧ s.(errors) = Z.of_nat (length (failures (obs_for op (events sample_acts))))
      ∧ samples s = s.(count) - s.(errors).
Proof. exact (run_totals_exact _ 0 _ _ _ sample_ok sample_bound). Defined.

(** C18: the interval series returned by [Finalize] partitions the recorded
    operations, in the order they were recorded, into intervals that tile the
    run from its start without gap or overlap.  A drained window opens a new
    interval, or joins the last one when less than the minimum span has
    passed; every interval reports the counts, errors, rates and per-operation
    entries of exactly the operations in it, in profile order, with the
    percentiles of the first window in which the operation ran. *)
Theorem run_series_partition (names : list string) (t0 : Time) (acts : list action) (now ended : Time)
    (Hok : acts_ok names 0 acts = true)
    (Hbound : Z.of_nat (length (events acts)) ≤ int64_max) :
  ∃ c, run (NewStatsCollector names t0) acts = Some c ∧
    let '(_, series, _, _, _) := Finalize c now ended in
    let s := spec_drain t0 now (spec_run t0 acts) in
    Forall2 (interval_ok names) s.(groups) series
    ∧ timeline (Seconds 0) series (Seconds (Sub s.(boundary) t0))
    ∧ mjoin (mjoin s.(groups)) = events acts.
Proof. exact (Finalize_series names t0 acts Hok Hbound now ended). Qed.

Lemma run_series_partition_witness :
  length (groups (spec_drain 0 30500000000 (spec_run 0 sample_acts))) = 1%nat ∧
  ∃ c, run (NewStatsCollector sample_names 0) sample_acts = Some c ∧
    let '(_, series, _, _, _) := Finalize c (30500000000) (30600000000) in
    let s := spec_drain 0 (30500000000) (spec_run 0 sample_acts) in
    Forall2 (interval_ok sample_names) s.(groups) series
    ∧ timeline (Seconds 0) series (Seconds (Sub s.(boundary) 0))
    ∧ mjoin (mjoin s.(groups)) = events sample_acts.
Proof.
  split; [reflexivity|].
  exact (run_series_partition _ 0 _ _ _ sample_ok sample_bound).
Defined.

(** C19: the series sums to the totals.  Over the whole run the intervals'
    operation and error counts add up to the operations and failures recorded,
    the entries of each interval add up to the interval, and the entries of
    one operation add up to its total. *)
Theorem run_series_sums (names : list string) (t0 : Time) (acts : list action) (now ended : Time)
    (Hnd : NoDup names) (Hok : acts_ok names 0 acts = true)
    (Hbound : Z.of_nat (length (events acts)) ≤ int64_max) :
  ∃ c, run (NewStatsCollector names t0) acts = Some c ∧
    let '(totals, series, _, _, _) := Finalize c now ended in
    sum_list_Z (is_Ops <$> series) = Z.of_nat (length (events acts))
    ∧ sum_list_Z (is_Errors <$> series) = errors_in (events acts)
    ∧ Forall (λ iv, sum_list_Z (io_Count <$> iv.(is_Operations)) = iv.(is_Ops)) series
    ∧ ∀ op s, totals !! op = Some s → op_series op series = s.(count).
Proof. exact (series_sums names t0 acts Hok Hbound now ended Hnd). Qed.

Lemma run_series_sums_witness :
  ∃ c, run (NewStatsCollector sample_names 0) sample_acts = Some c ∧
    let '(totals, series, _, _, _) := Finalize c (32000000000) (32000000000) in
    sum_list_Z (is_Ops <$> series) = Z.of_nat (length (events sample_acts))
    ∧ sum_list_Z (is_Errors <$> series) = errors_in (events sample_acts)
    ∧ Forall (λ iv, sum_list_Z (io_Count <$> iv.(is_Operations)) = iv.(is_Ops)) series
    ∧ ∀ op s, totals !! op = Some s → op_series op series = s.(count).
Proof. exact (run_series_sums _ 0 _ _ _ sample_nodup sample_ok sample_bound). Defined.

(** A drain with nothing pending changes nothing that is reported. *)
Lemma drain_nothing c s ps now :
  rep c s ps → s.(current) = [] → Z.of_nat (length (drained s)) ≤ int64_max →
  (drain c now).2.(total) = c.(total) ∧ (drain c now).2.(intervals) = c.(intervals).
Proof.
  intros Hrep Hc Hb. pose proof Hrep as [Hw Ht Hi Hbd Htl Hpd Htr]. rewrite Hc in Hpd.
  unfold drain. rewrite Hw, zero_stats_by_op, drain_workers_by_op by (rewrite Hpd; cbn; lia).
  rewrite app_nil_l, Hpd. cbn [fst snd]. unfold drain_commit.
  rewrite record_total. cbn [total]. split.
  - cbn [ops total]. rewrite Ht, merge_window_by_op by (cbn; lia). by rewrite app_nil_r.
  - unfold recordIntervalLocked. cbn [ops]. rewrite sum_counts_by_op by (done || constructor).
    done.
Qed.

(** Calling [Finalize] a second time is safe and adds nothing: it returns
    the same totals and the same series. *)
Theorem Finalize_twice (names : list string) (t0 : Time) (acts : list action)
    (now ended now' ended' : Time) (Hok : acts_ok names 0 acts = true)
    (Hbound : Z.of_nat (length (events acts)) ≤ int64_max) :
  ∃ c, run (NewStatsCollector names t0) acts = Some c ∧
    let '(totals, series, _, _, c1) := Finalize c now ended in
    let '(totals', series', _, _, _) := Finalize c1 now' ended' in
    totals' = totals ∧ series' = series.
Proof.
  destruct (run_Finalize names t0 acts now ended Hok Hbound)
    as (c & c' & ps & Hrun & HF & Hrep & Ho & Hst).
  exists c. split; [done|]. rewrite HF.
  pose proof (drained_all t0 acts now) as Hall.
  destruct (drain_nothing c' _ ps now' Hrep) as [Ht Hi].
  - apply current_spec_drain.
  - by rewrite Hall.
  - unfold Finalize. by destruct (drain c' now').
Qed.

Lemma Finalize_twice_witness :
  ∃ c, run (NewStatsCollector sample_names 0) sample_acts = Some c ∧
    let '(totals, series, _, _, c1) := Finalize c 30500000000 30600000000 in
    let '(totals', series', _, _, _) := Finalize c1 40000000000 40000000000 in
    totals' = totals ∧ series' = series.
Proof. exact (Finalize_twice _ 0 _ _ _ _ _ sample_ok sample_bound). Defined.
