(* ===== verification/Interleave.v ===== *)
(** * Concurrent recording and draining

    Workers record while the summary goroutine and the finalizing main
    goroutine drain.  [Record] and [snapshot] run under the worker's mutex and
    are single steps.  A drain holds the collector's mutex from its first to
    its last step, but takes the worker windows one by one, so recordings fall
    between its snapshots.  Registration takes the collector's mutex. *)

From S2P Require Export CollectorRun.

(** The drain holding [c.mu]: its goroutine, the windows merged so far and
    the index of the next worker to snapshot. *)
Record draining := mkDraining {
  drainer : nat;
  merged : gmap string opStats;
  next : nat;
}.

Record conc := mkConc { coll : StatsCollector; holder : option draining }.

Definition conc_init (names : list string) (t0 : Time) : conc :=
  mkConc (NewStatsCollector names t0) None.

(** One step of some goroutine, with the event it records. *)
Inductive step : conc → list event → conc → Prop :=
  | step_register c :
      step (mkConc c None) [] (mkConc (NewWorkerStats c) None)
  | step_record c c' hd i op d err :
      act c (Observe i op d err) = Some c' →
      step (mkConc c hd) [(op, obs_of d err)] (mkConc c' hd)
  | step_lock c t :
      step (mkConc c None) [] (mkConc c (Some (mkDraining t (zero_stats c.(ops)) 0)))
  | step_snapshot c t m i w :
      c.(workers) !! i = Some w →
      step (mkConc c (Some (mkDraining t m i))) []
        (mkConc (set_workers (<[i := (snapshot w).2]> c.(workers)) c)
           (Some (mkDraining t (merge_window m (snapshot w).1) (S i))))
  | step_commit c t m now :
      step (mkConc c (Some (mkDraining t m (length c.(workers))))) []
        (mkConc (drain_commit c now m) None).

(** [exec names t0 s h]: [s] is reached by an interleaving that recorded [h]. *)
Inductive exec (names : list string) (t0 : Time) : conc → list event → Prop :=
  | exec_init : exec names t0 (conc_init names t0) []
  | exec_step s h s' l : exec names t0 s h → step s l s' → exec names t0 s' (h ++ l).

(** The invariant: every recorded event is in exactly one place, the drained
    intervals, the windows taken by the drain in progress, or the window of a
    worker. *)
Record inv (names : list string) (t0 : Time) (s : conc) (h : list event)
    (css : list (list (list event))) (taken : list event) (ps : list (list event)) : Prop := {
  inv_ops : s.(coll).(ops) = names;
  inv_start : s.(coll).(start) = t0;
  inv_workers : s.(coll).(workers) = (λ p, mkWorkerStats (by_op names p)) <$> ps;
  inv_total : s.(coll).(total) = by_op names (mjoin (mjoin css));
  inv_intervals : Forall2 (interval_ok names) css s.(coll).(intervals);
  inv_timeline : timeline (Seconds 0) s.(coll).(intervals) (Seconds (Sub s.(coll).(lastBoundary) t0));
  inv_merged : match s.(holder) with
               | Some d => d.(merged) = by_op names taken ∧ (d.(next) ≤ length ps)%nat
               | None => taken = []
               end;
  inv_history : mjoin (mjoin css) ++ taken ++ mjoin ps ≡ₚ h;
  inv_tracked : tracked names h;
}.

Lemma take_pending (ps : list (list event)) i p :
  ps !! i = Some p → mjoin ps ≡ₚ p ++ mjoin (<[i := []]> ps).
Proof.
  intros Hp. rewrite <- (take_drop_middle ps i p Hp) at 1.
  rewrite insert_take_drop by (by eapply lookup_lt_Some).
  rewrite !join_app. cbn. apply Permutation_app_swap_app.
Qed.

Lemma inv_init names t0 : inv names t0 (conc_init names t0) [] [] [] [].
Proof.
  split; try by constructor.
  - apply zero_stats_by_op.
  - cbn [conc_init coll NewStatsCollector lastBoundary start intervals timeline].
    unfold Sub. by rewrite Z.sub_diag.
Qed.

Section steps.
Context (names : list string) (t0 : Time).

Lemma inv_register c h css taken ps :
  inv names t0 (mkConc c None) h css taken ps →
  inv names t0 (mkConc (NewWorkerStats c) None) h css taken (ps ++ [[]]).
Proof.
  intros [Ho Hs Hw Ht Hi Htl Hm Hh Htr].
  split; cbn [coll holder NewWorkerStats workers ops total intervals lastBoundary start] in *;
    try done.
  - rewrite fmap_app, Hw, Ho. cbn. unfold newWorkerStats. by rewrite zero_stats_by_op.
  - by rewrite mjoin_snoc, app_nil_r.
Qed.

Lemma inv_record c c' hd i op d err h css taken ps :
  inv names t0 (mkConc c hd) h css taken ps → Z.of_nat (length h) < int64_max →
  act c (Observe i op d err) = Some c' →
  ∃ ps', inv names t0 (mkConc c' hd) (h ++ [(op, obs_of d err)]) css taken ps'.
Proof.
  intros [Ho Hs Hw Ht Hi Htl Hm Hh Htr] Hb Hact. cbn [act coll holder] in *.
  rewrite Hw, list_lookup_fmap in Hact.
  destruct (ps !! i) as [p|] eqn:Hp; [|done].
  cbn [fmap option_fmap option_map mbind option_bind] in Hact.
  destruct (decide (op ∈ names)) as [Hop|Hop]; [|by rewrite Record_untracked in Hact].
  pose proof (insert_pending ps i p (op, obs_of d err) Hp) as Hperm.
  pose proof (length_pending _ _ _ Hp) as Hlen.
  pose proof (Permutation_length Hh) as Hlh. rewrite !length_app in Hlh.
  rewrite Record_by_op in Hact by (done || lia). cbn [mbind option_bind] in Hact.
  injection Hact as <-. exists (<[i:=p ++ [(op, obs_of d err)]]> ps).
  split; cbn [coll holder set_workers workers ops total intervals lastBoundary start]; try done.
  - by rewrite list_fmap_insert.
  - by rewrite length_insert.
  - rewrite Hperm, <- Hh, <- Permutation_cons_append, <- !Permutation_middle. done.
  - apply Forall_app. split; [done|]. by constructor.
Qed.

Lemma inv_lock c t h css taken ps :
  inv names t0 (mkConc c None) h css taken ps →
  inv names t0 (mkConc c (Some (mkDraining t (zero_stats c.(ops)) 0))) h css [] ps.
Proof.
  intros [Ho Hs Hw Ht Hi Htl Hm Hh Htr]. cbn [coll holder] in *. subst taken.
  split; cbn [coll holder merged next]; try done.
  rewrite Ho, zero_stats_by_op. split; [done|lia].
Qed.

Lemma inv_snapshot c t m i w h css taken ps :
  inv names t0 (mkConc c (Some (mkDraining t m i))) h css taken ps →
  Z.of_nat (length h) ≤ int64_max → c.(workers) !! i = Some w →
  ∃ p, ps !! i = Some p ∧
    inv names t0
      (mkConc (set_workers (<[i := (snapshot w).2]> c.(workers)) c)
         (Some (mkDraining t (merge_window m (snapshot w).1) (S i))))
      h css (taken ++ p) (<[i := []]> ps).
Proof.
  intros [Ho Hs Hw Ht Hi Htl Hm Hh Htr] Hb Hwi. cbn [coll holder merged next] in *.
  rewrite Hw, list_lookup_fmap in Hwi.
  destruct (ps !! i) as [p|] eqn:Hp; [|done]. injection Hwi as <-.
  exists p. split; [done|]. destruct Hm as [-> Hle].
  pose proof (Permutation_length Hh) as Hlh. rewrite !length_app in Hlh.
  pose proof (length_pending _ _ _ Hp). pose proof (lookup_lt_Some _ _ _ Hp).
  rewrite snapshot_by_op. cbn [fst snd]. rewrite merge_window_by_op by lia.
  split; cbn [coll holder set_workers workers ops total intervals lastBoundary start merged next];
    try done.
  - by rewrite Hw, list_fmap_insert.
  - split; [done|]. rewrite length_insert. lia.
  - rewrite <- Hh. apply Permutation_app_head. rewrite <- app_assoc. apply Permutation_app_head.
    by rewrite <- take_pending.
Qed.

Lemma inv_commit c t m now h css taken ps :
  inv names t0 (mkConc c (Some (mkDraining t m (length c.(workers))))) h css taken ps →
  Z.of_nat (length h) ≤ int64_max →
  ∃ css', inv names t0 (mkConc (drain_commit c now m) None) h css' [] ps.
Proof.
  intros [Ho Hs Hw Ht Hi Htl Hm Hh Htr] Hb. cbn [coll holder merged next] in *.
  destruct Hm as [-> _]. pose proof (Permutation_length Hh) as Hlh. rewrite !length_app in Hlh.
  assert (tracked names taken) as Htk.
  { unfold tracked in *. rewrite <- Hh, !Forall_app in Htr. apply Htr. }
  unfold drain_commit. rewrite Ho, Ht, merge_window_by_op by lia.
  set (c1 := mkCollector _ _ _ _ _ _).
  set (s := mkSpec css c.(lastBoundary) taken).
  assert (drained s = mjoin (mjoin css)) as Hd by done.
  destruct (recordInterval_ok c1 s now) as (Hi' & Hbd' & Htl');
    cbn [c1 s ops start lastBoundary intervals groups boundary current]; try done.
  { by rewrite Hs. }
  { rewrite Hd. lia. }
  cbn [c1 s ops start lastBoundary intervals groups boundary current] in Hi', Htl'.
  exists (spec_drain t0 now s).(groups).
  split; cbn [coll holder]; rewrite ?record_ops, ?record_total, ?record_workers, ?record_start;
    cbn [c1 ops total workers start]; try done.
  - by rewrite <- Hd, <- drained_spec_drain with (t0 := t0) (now := now).
  - by rewrite Hs in Hi'.
  - rewrite record_start in Htl'. cbn [start c1] in Htl'. by rewrite Hs in Htl'.
  - change (mjoin (mjoin (groups (spec_drain t0 now s)))) with (drained (spec_drain t0 now s)).
    rewrite drained_spec_drain, Hd. cbn [current s app]. by rewrite <- app_assoc.
Qed.

Lemma exec_inv s h :
  exec names t0 s h → Z.of_nat (length h) ≤ int64_max → ∃ css taken ps, inv names t0 s h css taken ps.
Proof.
  induction 1 as [|s h s' l Hex IH Hst]; intros Hb.
  { exists [], [], []. apply inv_init. }
  rewrite length_app in Hb. destruct IH as (css & taken & ps & Hinv); [lia|].
  inversion Hst as [c|c c' hd i op d err Hact|c t|c t m i w Hw|c t m now]; subst;
    rewrite ?app_nil_r.
  - exists css, taken. eexists. by apply inv_register.
  - cbn [length] in Hb. destruct (inv_record _ _ _ _ _ _ _ _ _ _ _ Hinv ltac:(lia) Hact) as [ps' Hi].
    by exists css, taken, ps'.
  - exists css, [], ps. by eapply inv_lock.
  - destruct (inv_snapshot _ _ _ _ _ _ _ _ _ Hinv ltac:(lia) Hw) as (p & _ & Hi). eauto.
  - destruct (inv_commit _ _ _ now _ _ _ _ Hinv ltac:(lia)) as [css' Hi]. eauto.
Qed.
End steps.

(** ** What is accounted for *)

(** The run total, the windows taken by a drain in progress and the windows
    of the workers, merged. *)
Definition accounted (s : conc) : gmap string opStats :=
  let inflight := match s.(holder) with Some d => d.(merged) | None => ∅ end in
  foldl merge_window (merge_window s.(coll).(total) inflight) (data <$> s.(coll).(workers)).

Lemma merge_window_empty m : merge_window m ∅ = m.
Proof. unfold merge_window. by rewrite map_to_list_empty. Qed.

Lemma merge_windows_by_op names h ps :
  Z.of_nat (length h + length (mjoin ps)) ≤ int64_max →
  foldl merge_window (by_op names h) (data <$> ((λ p, mkWorkerStats (by_op names p)) <$> ps))
  = by_op names (h ++ mjoin ps).
Proof.
  revert h. induction ps as [|p ps IH]; intros h Hb.
  { by rewrite app_nil_r. }
  rewrite mjoin_cons, length_app in Hb. rewrite !fmap_cons. cbn [foldl data].
  rewrite merge_window_by_op, IH by (rewrite ?length_app; lia).
  by rewrite mjoin_cons, app_assoc.
Qed.

(** The steps that record nothing: registrations and drains. *)
Definition quiet (s s' : conc) : Prop := step s [] s'.

(** During quiet steps the windows already snapshot by the drain in progress
    stay empty; after a complete drain all of them are. *)
Definition swept (s : conc) (ps : list (list event)) : Prop :=
  match s.(holder) with
  | Some d => Forall (λ p, p = []) (take d.(next) ps)
  | None => Forall (λ p, p = []) ps
  end.

Lemma swept_snapshot (ps : list (list event)) i p :
  ps !! i = Some p → Forall (λ p, p = []) (take i ps) →
  Forall (λ p, p = []) (take (S i) (<[i := []]> ps)).
Proof.
  intros Hp Hs. rewrite (take_S_r _ _ []) by (apply list_lookup_insert_eq; by eapply lookup_lt_Some).
  rewrite take_insert_ge by done. apply Forall_app. split; [done|]. by constructor.
Qed.

Lemma quiet_swept names t0 s s' h css taken ps :
  inv names t0 s h css taken ps → swept s ps → Z.of_nat (length h) ≤ int64_max → quiet s s' →
  ∃ css' taken' ps', inv names t0 s' h css' taken' ps' ∧ swept s' ps'.
Proof.
  intros Hinv Hsw Hb Hst. unfold quiet in Hst.
  inversion Hst as [c|c c' hd i op d err Hact|c t|c t m i w Hw|c t m now]; subst;
    cbn [swept holder next] in Hsw.
  - exists css, taken, (ps ++ [[]]). split; [by apply inv_register|].
    apply Forall_app. split; [done|]. by constructor.
  - exists css, [], ps. split; [by eapply inv_lock|constructor].
  - destruct (inv_snapshot _ _ _ _ _ _ _ _ _ _ _ Hinv Hb Hw) as (p & Hp & Hi).
    eexists css, _, _. split; [exact Hi|]. cbn [swept holder next]. by eapply swept_snapshot.
  - destruct (inv_commit _ _ _ _ _ now _ _ _ _ Hinv Hb) as [css' Hi].
    exists css', [], ps. split; [exact Hi|].
    pose proof (inv_workers _ _ _ _ _ _ _ Hinv) as Hw. cbn [coll] in Hw.
    rewrite Hw, length_fmap, take_ge in Hsw by done. exact Hsw.
Qed.

Lemma mjoin_all_nil {A} (ps : list (list A)) : Forall (λ p, p = []) ps → mjoin ps = [].
Proof. induction 1 as [|p ps -> _ IH]; [done|]. by rewrite mjoin_cons. Qed.

Lemma quiet_swept_rtc names t0 s s' h css taken ps :
  inv names t0 s h css taken ps → swept s ps → Z.of_nat (length h) ≤ int64_max →
  rtc quiet s s' → ∃ css' taken' ps', inv names t0 s' h css' taken' ps' ∧ swept s' ps'.
Proof.
  intros Hinv Hsw Hb Hrtc. revert css taken ps Hinv Hsw.
  induction Hrtc as [s|s s1 s' Hst _ IH]; intros css taken ps Hinv Hsw; [eauto 6|].
  destruct (quiet_swept _ _ _ _ _ _ _ _ Hinv Hsw Hb Hst) as (css1 & tk1 & ps1 & Hinv1 & Hsw1).
  by eapply IH.
Qed.

(** ** An executable scheduler

    [play] runs a list of moves, each choosing the goroutine that steps next;
    it stops with [None] at a move that is not enabled. *)

Inductive move :=
  | MRegister
  | MRecord (i : nat) (op : string) (durationSec : f64) (err : option error)
  | MLock (t : nat)
  | MSnapshot
  | MCommit (now : Time).

Definition move_step (s : conc) (mv : move) : option (conc * list event) :=
  match mv, s.(holder) with
  | MRegister, None => Some (mkConc (NewWorkerStats s.(coll)) None, [])
  | MRecord i op d err, hd =>
      c' ← act s.(coll) (Observe i op d err); Some (mkConc c' hd, [(op, obs_of d err)])
  | MLock t, None => Some (mkConc s.(coll) (Some (mkDraining t (zero_stats s.(coll).(ops)) 0)), [])
  | MSnapshot, Some d =>
      w ← s.(coll).(workers) !! d.(next);
      Some (mkConc (set_workers (<[d.(next) := (snapshot w).2]> s.(coll).(workers)) s.(coll))
              (Some (mkDraining d.(drainer) (merge_window d.(merged) (snapshot w).1) (S d.(next)))), [])
  | MCommit now, Some d =>
      if decide (d.(next) = length s.(coll).(workers))
      then Some (mkConc (drain_commit s.(coll) now d.(merged)) None, []) else None
  | _, _ => None
  end.

Fixpoint play (s : conc) (h : list event) (ms : list move) : option (conc * list event) :=
  match ms with
  | [] => Some (s, h)
  | mv :: ms => '(s', l) ← move_step s mv; play s' (h ++ l) ms
  end.

Lemma move_step_sound s mv s' l : move_step s mv = Some (s', l) → step s l s'.
Proof.
  destruct s as [c hd]. unfold move_step. cbn [holder coll].
  destruct mv as [|i op d err|t| |now], hd as [[t' m n]|]; cbn [next drainer merged]; intros Hm;
    try done.
  - injection Hm as <- <-. constructor.
  - apply bind_Some in Hm as (c' & Hact & [= <- <-]). by apply (step_record _ _ _ i).
  - apply bind_Some in Hm as (c' & Hact & [= <- <-]). by apply (step_record _ _ _ i).
  - injection Hm as <- <-. constructor.
  - apply bind_Some in Hm as (w & Hw & [= <- <-]). by apply step_snapshot.
  - case_decide as Hn; [|done]. injection Hm as <- <-. subst n. constructor.
Qed.

Lemma play_exec names t0 s h ms s' h' :
  exec names t0 s h → play s h ms = Some (s', h') → exec names t0 s' h'.
Proof.
  revert s h. induction ms as [|mv ms IH]; intros s h Hex Hp; cbn [play] in Hp.
  { by injection Hp as <- <-. }
  apply bind_Some in Hp as ([s1 l] & Hmv & Hp). apply (IH s1 (h ++ l)); [|done].
  eapply exec_step; [done|]. by eapply move_step_sound.
Qed.

Lemma play_quiet s h ms s' :
  Forall (λ mv, match mv with MRecord _ _ _ _ => False | _ => True end) ms →
  play s h ms = Some (s', h) → rtc quiet s s'.
Proof.
  intros HF. revert s. induction HF as [|mv ms Hmv HF IH]; intros s Hp; cbn [play] in Hp.
  { injection Hp as <-. constructor. }
  apply bind_Some in Hp as ([s1 l] & Hm & Hp).
  assert (l = []) as ->.
  { destruct s as [c hd]. unfold move_step in Hm.
    destruct mv as [|i op d err|t| |now]; [| | |destruct hd|destruct hd]; try done; cbn in Hm;
      repeat (case_match; simplify_eq); try done.
    by apply bind_Some in Hm as (w & Hw & [= <- <-]). }
  rewrite app_nil_r in Hp. econstructor; [by apply (move_step_sound _ mv)|by apply IH].
Qed.

(** The schedule of the witnesses: a recording falls between the two
    snapshots of the first drain, into the window already taken. *)
Definition sample_moves : list move :=
  [MRegister; MRegister;
   MRecord 0 "insert" (f_lit 3 1000) None; MRecord 1 "read" (f_lit 5 1000) None;
   MLock 0; MSnapshot; MRecord 0 "read" (f_lit 1 1000) (Some (ErrNew "timeout")); MSnapshot].

Definition sample_names : list string := ["insert"; "read"]%string.

Definition played (ms : list move) : conc * list event :=
  default (conc_init sample_names 0, []) (play (conc_init sample_names 0) [] ms).

Lemma played_exec ms : exec sample_names 0 (played ms).1 (played ms).2.
Proof.
  unfold played. destruct (play _ _ ms) as [[s h]|] eqn:Hp; [|constructor].
  eapply play_exec; [constructor|exact Hp].
Qed.

(** C1: no observation is lost or counted twice, however the recordings of the
    workers interleave with registrations and with the steps of any number of
    concurrent drains: at every moment the run total, the windows taken by the
    drain in progress and the worker windows together are exactly the
    statistics of what has been recorded. *)
Theorem no_observation_lost (names : list string) (t0 : Time) (s : conc) (h : list event) :
  exec names t0 s h → Z.of_nat (length h) ≤ int64_max → accounted s = by_op names h.
Proof.
  intros Hex Hb. destruct (exec_inv _ _ _ _ Hex Hb) as (css & taken & ps & Hinv).
  destruct Hinv as [Ho Hs Hw Ht _ _ Hm Hh _]. unfold accounted. rewrite Hw, Ht.
  pose proof (Permutation_length Hh) as Hlh. rewrite !length_app in Hlh.
  destruct (holder s) as [d|].
  - destruct Hm as [-> _]. rewrite merge_window_by_op by lia.
    rewrite merge_windows_by_op by (rewrite length_app; lia). by rewrite <- app_assoc, Hh.
  - subst taken. rewrite merge_window_empty, merge_windows_by_op by (cbn in Hlh; lia).
    by rewrite <- Hh.
Qed.

Lemma no_observation_lost_witness :
  length (played sample_moves).2 = 3%nat ∧
  accounted (played sample_moves).1 = by_op sample_names (played sample_moves).2.
Proof.
  split; [vm_compute; reflexivity|].
  apply (no_observation_lost sample_names 0); [apply played_exec|].
  vm_compute. discriminate.
Defined.

(** Whenever no drain is in progress, the reported series and the run
    total describe the same operations: the series partitions and tiles
    exactly the operations in the total. *)
Theorem series_matches_total (names : list string) (t0 : Time) (c : StatsCollector) (h : list event) :
  exec names t0 (mkConc c None) h → Z.of_nat (length h) ≤ int64_max →
  ∃ css, c.(total) = by_op names (mjoin (mjoin css))
    ∧ Forall2 (interval_ok names) css c.(intervals)
    ∧ timeline (Seconds 0) c.(intervals) (Seconds (Sub c.(lastBoundary) t0)).
Proof.
  intros Hex Hb. destruct (exec_inv _ _ _ _ Hex Hb) as (css & taken & ps & Hinv).
  exists css. split; [apply Hinv|]. split; apply Hinv.
Qed.

Lemma series_matches_total_witness :
  let c := (played (sample_moves ++ [MCommit (30 * Second)])).1.(coll) in
  length c.(intervals) = 1%nat ∧
  ∃ css, c.(total) = by_op sample_names (mjoin (mjoin css))
    ∧ Forall2 (interval_ok sample_names) css c.(intervals)
    ∧ timeline (Seconds 0) c.(intervals) (Seconds (Sub c.(lastBoundary) 0)).
Proof.
  cbv zeta. split; [vm_compute; reflexivity|].
  apply (series_matches_total sample_names 0 _ (played (sample_moves ++ [MCommit (30 * Second)])).2).
  - replace (mkConc _ None) with (played (sample_moves ++ [MCommit (30 * Second)])).1
      by (vm_compute; reflexivity).
    apply played_exec.
  - vm_compute. discriminate.
Defined.

(** C2: a drain that starts after the last recording makes the total
    complete: once the collector is unlocked again, after any further
    registrations and drains by any goroutine, the total is the statistics of
    the whole history and the series partitions all of it.  This is what
    [Finalize] relies on after the workers have stopped. *)
Theorem final_drain_complete (names : list string) (t0 : Time) (c c' : StatsCollector)
    (t : nat) (m : gmap string opStats) (h : list event) :
  exec names t0 (mkConc c (Some (mkDraining t m 0))) h → Z.of_nat (length h) ≤ int64_max →
  rtc quiet (mkConc c (Some (mkDraining t m 0))) (mkConc c' None) →
  c'.(total) = by_op names h
  ∧ ∃ css, mjoin (mjoin css) ≡ₚ h ∧ Forall2 (interval_ok names) css c'.(intervals).
Proof.
  intros Hex Hb Hrtc. destruct (exec_inv _ _ _ _ Hex Hb) as (css & taken & ps & Hinv).
  destruct (quiet_swept_rtc _ _ _ _ _ _ _ _ Hinv ltac:(constructor) Hb Hrtc)
    as (css' & taken' & ps' & [Ho Hs Hw Ht Hi _ Hm Hh _] & Hsw).
  cbn [holder coll swept] in *. subst taken'. rewrite (mjoin_all_nil ps'), !app_nil_r in Hh by done.
  split; [by rewrite Ht, Hh|]. by exists css'.
Qed.

Lemma final_drain_complete_witness :
  let ms := sample_moves ++ [MCommit (30 * Second); MLock 1] in
  let c' := default (conc_init sample_names 0, [])
      (play (played ms).1 (played ms).2 [MSnapshot; MSnapshot; MCommit (31 * Second)]) in
  c'.1.(coll).(total) = by_op sample_names (played ms).2
  ∧ ∃ css, mjoin (mjoin css) ≡ₚ (played ms).2
      ∧ Forall2 (interval_ok sample_names) css c'.1.(coll).(intervals).
Proof.
  intros ms c'.
  apply (final_drain_complete sample_names 0 (played ms).1.(coll) c'.1.(coll) 1
           (zero_stats sample_names)).
  - replace (mkConc _ _) with (played ms).1 by (vm_compute; reflexivity). apply played_exec.
  - vm_compute. discriminate.
  - apply (play_quiet _ (played ms).2 [MSnapshot; MSnapshot; MCommit (31 * Second)]).
    + repeat constructor.
    + vm_compute. reflexivity.
Defined.

Lemma drain_finishes c t m i now :
  (i ≤ length c.(workers))%nat →
  ∃ c', nsteps quiet (S (length c.(workers) - i)) (mkConc c (Some (mkDraining t m i)))
          (mkConc c' None) ∧ c'.(lastBoundary) ∈ [c.(lastBoundary); now].
Proof.
  remember (length c.(workers) - i)%nat as k eqn:Hk. revert c m i Hk.
  induction k as [|k IH]; intros c m i Hk Hle.
  - assert (i = length c.(workers)) as -> by lia.
    exists (drain_commit c now m). split.
    + apply nsteps_once, step_commit.
    + unfold drain_commit, recordIntervalLocked. cbn [lastBoundary].
      case_match; cbn [lastBoundary]; set_solver.
  - destruct (lookup_lt_is_Some_2 c.(workers) i ltac:(lia)) as [w Hw].
    set (c1 := set_workers (<[i := (snapshot w).2]> c.(workers)) c).
    destruct (IH c1 (merge_window m (snapshot w).1) (S i)) as (c' & Hn & Hlb).
    { cbn [c1 set_workers workers]. rewrite length_insert. lia. }
    { cbn [c1 set_workers workers]. rewrite length_insert. lia. }
    exists c'. split; [|done]. econstructor; [by apply step_snapshot|done].
Qed.

(** C34: draining cannot deadlock: a drain in progress can always run to its
    end on its own, in one step per remaining worker and one to commit,
    whatever the other goroutines hold, and a worker can record at any time,
    also in the middle of a drain. *)
Theorem drain_progress (names : list string) (t0 : Time) (s : conc) (h : list event) :
  exec names t0 s h → Z.of_nat (length h) < int64_max →
  (∀ d, s.(holder) = Some d →
     ∃ c', nsteps quiet (S (length s.(coll).(workers) - d.(next))) s (mkConc c' None))
  ∧ (∀ i op durationSec err, (i < length s.(coll).(workers))%nat → op ∈ names →
     ∃ s', step s [(op, obs_of durationSec err)] s').
Proof.
  intros Hex Hb. destruct (exec_inv _ _ _ _ Hex ltac:(lia)) as (css & taken & ps & Hinv).
  destruct Hinv as [Ho Hs Hw Ht _ _ Hm Hh _]. destruct s as [c hd]. cbn [coll holder] in *.
  split.
  - intros d ->. destruct Hm as [_ Hle]. destruct d as [t m i]. cbn [next] in *.
    destruct (drain_finishes c t m i 0) as (c' & Hn & _); [|by exists c'].
    by rewrite Hw, length_fmap.
  - intros i op d err Hi Hop. rewrite Hw, length_fmap in Hi.
    destruct (lookup_lt_is_Some_2 ps i Hi) as [p Hp].
    pose proof (Permutation_length Hh) as Hlh. rewrite !length_app in Hlh.
    pose proof (length_pending _ _ _ Hp).
    eexists. apply step_record with (i := i). cbn [act].
    rewrite Hw, list_lookup_fmap, Hp. cbn [fmap option_fmap option_map mbind option_bind].
    rewrite Record_by_op by (done || lia). done.
Qed.

Lemma drain_progress_witness :
  let ms := [MRegister; MRegister; MLock 0; MSnapshot] in
  (∀ d, (played ms).1.(holder) = Some d →
     ∃ c', nsteps quiet (S (length (played ms).1.(coll).(workers) - d.(next))) (played ms).1 (mkConc c' None))
  ∧ (∀ i op durationSec err, (i < length (played ms).1.(coll).(workers))%nat → op ∈ sample_names →
     ∃ s', step (played ms).1 [(op, obs_of durationSec err)] s').
Proof.
  intros ms. apply (drain_progress sample_names 0 _ (played ms).2); [apply played_exec|].
  vm_compute. reflexivity.
Defined.
