(* ===== verification/DbApi.v ===== *)
(** * What a query returns

    The rows of a pgx query as the program reads them: [Next] until it is
    false, [Scan] on each row, and [rows.Err()] at the end.  The rows are an
    argument of the code that reads them; nothing is assumed about them. *)

From S2P Require Export GoText.

(** What a query returned: the rows in order, with the outcome of [Scan] on
    each, and what [rows.Err()] reports at the end. *)
Record Rows (A : Type) := mkRows { rows_scans : list (result A); rows_Err : option error }.
Arguments mkRows {A}.
Arguments rows_scans {A}.
Arguments rows_Err {A}.

(** The loop [for rows.Next() { Scan; body }] followed by [rows.Err()]. *)
Fixpoint scan_rows {A S} (msg : string) (body : S → A → S) (out : S) (scans : list (result A))
    : result S :=
  match scans with
  | [] => Ok out
  | Err e :: _ => Err (wrapf msg e)
  | Ok row :: rest => scan_rows msg body (body out row) rest
  end.

Lemma scan_rows_ok {A S} msg (body : S → A → S) out (l : list A) :
  scan_rows msg body out (Ok <$> l) = Ok (foldl body out l).
Proof. revert out. induction l as [|x l IH]; intros out; [done|]. apply IH. Qed.

(** The first failing scan decides the outcome. *)
Lemma scan_rows_err {A S} msg (body : S → A → S) out (l : list A) e rest :
  scan_rows msg body out ((Ok <$> l) ++ Err e :: rest) = Err (wrapf msg e).
Proof. revert out. induction l as [|x l IH]; intros out; [done|]. apply IH. Qed.

(** Either every scan succeeded or some first one failed. *)
Lemma scans_split {A} (scans : list (result A)) :
  (∃ l, scans = Ok <$> l) ∨ (∃ l e rest, scans = (Ok <$> l) ++ Err e :: rest).
Proof.
  induction scans as [|[a|e] scans IH]; [left; by exists []| |right; by exists [], e, scans].
  destruct IH as [[l ->]|(l & e & rest & ->)].
  - left. by exists (a :: l).
  - right. by exists (a :: l), e, rest.
Qed.

(** The rows of a query that was read to its end without any error. *)
Definition complete {A} (q : result (Rows A)) (rows : list A) : Prop :=
  q = Ok (mkRows (Ok <$> rows) None).

Lemma query_outcome {A S} (msg0 msg1 msg2 : string) (body : S → A → S) (z : S) (q : result (Rows A)) d :
  match q with
  | Err e => Err (wrapf msg0 e)
  | Ok rows =>
      match scan_rows msg1 body z rows.(rows_scans) with
      | Err e => Err e
      | Ok out => match rows.(rows_Err) with Some e => Err (wrapf msg2 e) | None => Ok out end
      end
  end = Ok d ↔ ∃ rows, complete q rows ∧ d = foldl body z rows.
Proof.
  unfold complete. destruct q as [[scans err]|e]; cbn [rows_scans rows_Err].
  2:{ split; [done|]. by intros (rows & [=] & _). }
  destruct (scans_split scans) as [[l ->]|(l & e & rest & ->)].
  - rewrite scan_rows_ok. split.
    + destruct err; [done|]. intros [= <-]. by exists l.
    + intros (rows & [= Hl ->] & ->).
      apply (list_fmap_eq_inj Ok) in Hl as ->; [done|]. by intros ?? [=].
  - rewrite scan_rows_err. split; [done|]. intros (rows & [= Hl _] & _).
    assert (Err e ∈ (Ok <$> rows)) as Hin by (rewrite <- Hl; set_solver).
    by apply list_elem_of_fmap in Hin as (? & ? & _).
Qed.

(** A loop whose body returns the error of a failing [Scan] as it is and keeps
    what earlier rows did: the state reached and the error, which at the end
    is that of [rows.Err()]. *)
Fixpoint scan_partial {A S} (body : S → A → S) (out : S) (scans : list (result A))
    : S * option error :=
  match scans with
  | [] => (out, None)
  | Err e :: _ => (out, Some e)
  | Ok row :: rest => scan_partial body (body out row) rest
  end.

Definition scan_all {A S} (body : S → A → S) (out : S) (rows : Rows A) : S * option error :=
  match scan_partial body out rows.(rows_scans) with
  | (s, Some e) => (s, Some e)
  | (s, None) => (s, rows.(rows_Err))
  end.

(** What a loop over rows keeps is what its body keeps. *)
Lemma scan_all_invariant {A S} (P : S → Prop) (body : S → A → S) out rows :
  P out → (∀ s row, P s → P (body s row)) → P (scan_all body out rows).1.
Proof.
  intros Hout Hbody. unfold scan_all.
  assert (P (scan_partial body out (rows_scans rows)).1) as H.
  { revert out Hout. induction (rows_scans rows) as [|[a|e] l IH]; intros out Hout; simpl; auto. }
  by destruct (scan_partial body out (rows_scans rows)) as [s [e|]].
Qed.
