(* ===== verification/Result.v ===== *)
(** * workload/result.go: the result document

    [BuildRunResult] assembles the document from the finalised totals, and the
    two snapshot queries describe the database and the server.  The rows a
    query returns are an argument (see DbApi.v). *)

From S2P Require Export DbApi.
From S2P Require Export Totals.
From S2P Require Export Config.
From S2P Require Export Weights.

Record OpResult := mkOpResult {
  or_Op : string; or_Count : Z; or_Errors : Z; or_OpsPerSec : f64;
  or_Latency : option LatencyStats;
}.

Record RunTotals := mkRunTotals { rt_Ops : Z; rt_Errors : Z; rt_OpsPerSec : f64 }.

Record RunConfig := mkRunConfig {
  rc_Profile : string; rc_Workers : Z; rc_MinPayloadKB : Z; rc_MaxPayloadKB : Z;
  rc_ToastPct : Z; rc_ReadPayload : bool; rc_CreateIndexes : bool; rc_RingSize : Z;
  rc_DeleteBatchSize : Z; rc_UserPoolSize : Z; rc_ActorPoolSize : Z; rc_ThinkTimeMs : Z;
  rc_RunDurationSecs : Z; rc_OpWeights : gmap string Z;
}.

Record DatasetSize := mkDatasetSize {
  TotalBytes : Z; LiveTuples : Z; TableBytes : gmap string Z;
}.

Definition DatasetSize_zero : DatasetSize := mkDatasetSize 0 0 ∅.

Record DatasetSnapshot := mkDatasetSnapshot {
  ds_Start : DatasetSize; ds_End : DatasetSize; GrowthBytes : Z;
}.

Record ServerInfo := mkServerInfo { Version : string; Settings : gmap string string }.

Record RunMeta := mkRunMeta {
  rm_Dataset : option DatasetSnapshot; rm_Server : option ServerInfo;
  rm_StoppedBy : string; rm_Timeseries : list IntervalStats;
}.

Record RunResult := mkRunResult {
  rr_Profile : string; rr_StartedAt : Time; rr_EndedAt : Time; rr_DurationSeconds : f64;
  rr_StoppedBy : string; rr_Config : RunConfig; rr_Totals : RunTotals;
  rr_Operations : list OpResult; rr_Timeseries : list IntervalStats;
  rr_Dataset : option DatasetSnapshot; rr_Server : option ServerInfo;
}.

Definition StoppedByDuration : string := "duration".
Definition StoppedBySignal : string := "signal".

(** ** The snapshot queries *)

Definition add_table (out : DatasetSize) (row : string * Z * Z) : DatasetSize :=
  let '(name, bytes, live) := row in
  mkDatasetSize (out.(TotalBytes) +! bytes) (out.(LiveTuples) +! live)
    (<[name := bytes]> out.(TableBytes)).

Definition SnapshotDataset (query : result (Rows (string * Z * Z))) : result DatasetSize :=
  match query with
  | Err e => Err (wrapf "query dataset size" e)
  | Ok rows =>
      match scan_rows "scan dataset size" add_table DatasetSize_zero rows.(rows_scans) with
      | Err e => Err e
      | Ok out =>
          match rows.(rows_Err) with
          | Some e => Err (wrapf "read dataset size" e)
          | None => Ok out
          end
      end
  end.

Definition add_setting (out : ServerInfo) (row : string * string * string) : ServerInfo :=
  let '(name, setting, unit) := row in
  if decide (name = "server_version") then mkServerInfo setting out.(Settings)
  else
    let setting := if decide (unit = "") then setting else setting +:+ " " +:+ unit in
    mkServerInfo out.(Version) (<[name := setting]> out.(Settings)).

Definition SnapshotServerInfo (query : result (Rows (string * string * string))) : result ServerInfo :=
  match query with
  | Err e => Err (wrapf "query server settings" e)
  | Ok rows =>
      match scan_rows "scan server settings" add_setting (mkServerInfo "" ∅) rows.(rows_scans) with
      | Err e => Err e
      | Ok out =>
          match rows.(rows_Err) with
          | Some e => Err (wrapf "read server settings" e)
          | None => Ok out
          end
      end
  end.

(** The allow-list of settings the server is asked for. *)
Definition capturedSettings : list string :=
  ["server_version";
   "shared_buffers"; "effective_cache_size"; "work_mem"; "max_connections";
   "max_wal_size"; "min_wal_size"; "wal_compression"; "full_page_writes";
   "checkpoint_timeout"; "checkpoint_completion_target";
   "synchronous_commit";
   "autovacuum"; "autovacuum_naptime"; "autovacuum_vacuum_scale_factor";
   "default_toast_compression"]%string.

(** ** The document *)

(** [sort.Strings] *)
Definition sort_Strings (l : list string) : list string := merge_sort String.le l.

(** Operations per second over the duration of the run. *)
Definition run_rate (duration : f64) (n : Z) : f64 :=
  if fleb duration f_zero then f_zero else fdiv (of_int n) duration.

Definition op_weights (ops : list WeightedOp) : gmap string Z :=
  foldl (λ m o, <[wo_Name o := wo_Weight o]> m) ∅ ops.

(** One pass of the loop over the sorted names. *)
Definition op_result (totals : gmap string opStats) (duration : f64) (op : string) : OpResult :=
  let s := default opStats_zero (totals !! op) in
  mkOpResult op s.(count) s.(errors) (run_rate duration s.(count))
    (if samples s >? 0 then Some (latencyStats s) else None).

Definition add_totals (totals : gmap string opStats) (t : Z * Z) (op : string) : Z * Z :=
  let s := default opStats_zero (totals !! op) in
  (t.1 +! s.(count), t.2 +! s.(errors)).

Definition run_config (cfg : Config) (weights : gmap string Z) : RunConfig :=
  mkRunConfig cfg.(Profile) cfg.(Workers) cfg.(MinPayloadKB) cfg.(MaxPayloadKB) cfg.(ToastPct)
    cfg.(ReadPayload) cfg.(CreateIndexes) cfg.(RingSize) cfg.(DeleteBatchSize)
    cfg.(UserPoolSize) cfg.(ActorPoolSize) cfg.(ThinkTimeMs) cfg.(RunDurationSecs) weights.

Definition BuildRunResult (totals : gmap string opStats) (started ended : Time) (cfg : Config)
    (ops : list WeightedOp) (meta : RunMeta) : RunResult :=
  let duration := Seconds (Sub ended started) in
  let names := sort_Strings (map_to_list totals).*1 in
  let t := foldl (add_totals totals) (0, 0) names in
  mkRunResult cfg.(Profile) started ended duration meta.(rm_StoppedBy)
    (run_config cfg (op_weights ops))
    (mkRunTotals t.1 t.2 (run_rate duration t.1))
    (op_result totals duration <$> names)
    meta.(rm_Timeseries) meta.(rm_Dataset) meta.(rm_Server).

(** ** Properties of the snapshots *)

(** The size of the tables in [rows]. *)
Definition dataset_of (rows : list (string * Z * Z)) : DatasetSize :=
  mkDatasetSize (wrap 64 (sum_list_Z ((λ r, r.1.2) <$> rows)))
    (wrap 64 (sum_list_Z ((λ r, r.2) <$> rows)))
    (list_to_map (reverse (fst <$> rows))).

Lemma add_table_fold rows d :
  foldl add_table d rows
  = mkDatasetSize (foldl (λ a r, a +! r.1.2) d.(TotalBytes) rows)
      (foldl (λ a r, a +! r.2) d.(LiveTuples) rows)
      (list_to_map (reverse (fst <$> rows)) ∪ d.(TableBytes)).
Proof.
  revert d. induction rows as [|[[n b] l] rows IH]; intros d; cbn [foldl].
  { cbn. rewrite map_empty_union. by destruct d. }
  rewrite IH. cbn [add_table TotalBytes LiveTuples TableBytes fst snd]. f_equal.
  rewrite fmap_cons, reverse_cons, list_to_map_app. cbn [fst list_to_map foldr].
  rewrite <- (map_union_assoc _ _ (TableBytes d)). f_equal.
  by rewrite <- insert_union_l, map_empty_union.
Qed.

Lemma add_table_all rows : foldl add_table DatasetSize_zero rows = dataset_of rows.
Proof.
  rewrite add_table_fold. unfold dataset_of. cbn [TotalBytes LiveTuples TableBytes DatasetSize_zero].
  rewrite map_union_empty. f_equal.
  - exact (foldl_wrap_add (λ r : string * Z * Z, r.1.2) rows 0).
  - exact (foldl_wrap_add (λ r : string * Z * Z, r.2) rows 0).
Qed.

(** A setting as it is reported, with its unit. *)
Definition setting_text (r : string * string * string) : string :=
  if decide (r.2 = "") then r.1.2 else r.1.2 +:+ " " +:+ r.2.

Definition is_version (r : string * string * string) : Prop := r.1.1 = "server_version"%string.

#[export] Instance is_version_dec r : Decision (is_version r).
Proof. unfold is_version. apply _. Defined.

Definition server_of (rows : list (string * string * string)) : ServerInfo :=
  mkServerInfo (default "" ((λ r, r.1.2) <$> last (filter is_version rows)))
    (list_to_map (reverse ((λ r, (r.1.1, setting_text r)) <$> filter (λ r, ¬ is_version r) rows))).

Lemma add_setting_fold rows s :
  foldl add_setting s rows
  = mkServerInfo (default s.(Version) ((λ r, r.1.2) <$> last (filter is_version rows)))
      (list_to_map (reverse ((λ r, (r.1.1, setting_text r)) <$> filter (λ r, ¬ is_version r) rows))
         ∪ s.(Settings)).
Proof.
  revert s. induction rows as [|[[n v] u] rows IH]; intros s; cbn [foldl].
  { cbn. rewrite map_empty_union. by destruct s. }
  rewrite IH. unfold add_setting. destruct (decide (is_version (n, v, u))) as [Hv|Hv];
    unfold is_version in Hv; cbn [fst] in Hv.
  - rewrite decide_True, filter_cons_True, filter_cons_False, last_cons by (by auto).
    cbn [Version Settings]. f_equal. by destruct (last _).
  - rewrite decide_False, filter_cons_False, filter_cons_True by done.
    cbn [Version Settings]. f_equal.
    rewrite fmap_cons, reverse_cons, list_to_map_app. cbn [fst list_to_map foldr].
    rewrite <- (map_union_assoc _ _ (Settings s)). f_equal.
    by rewrite <- insert_union_l, map_empty_union.
Qed.

Lemma add_setting_all rows : foldl add_setting (mkServerInfo "" ∅) rows = server_of rows.
Proof. rewrite add_setting_fold. unfold server_of. cbn [Version Settings]. by rewrite map_union_empty. Qed.

(** ** Properties of the document *)

Lemma names_perm {A} (totals : gmap string A) :
  sort_Strings (map_to_list totals).*1 ≡ₚ (map_to_list totals).*1.
Proof. apply merge_sort_Permutation. Qed.

Lemma elem_of_names {A} (totals : gmap string A) op :
  op ∈ sort_Strings (map_to_list totals).*1 ↔ is_Some (totals !! op).
Proof.
  rewrite names_perm. rewrite list_elem_of_fmap. split.
  - intros ([o s] & -> & Hin). apply elem_of_map_to_list in Hin. by exists s.
  - intros [s Hs]. exists (op, s). split; [done|]. by apply elem_of_map_to_list.
Qed.

Lemma NoDup_names {A} (totals : gmap string A) : NoDup (sort_Strings (map_to_list totals).*1).
Proof. rewrite names_perm. apply NoDup_fst_map_to_list. Qed.

Lemma op_result_names totals d (l : list string) : or_Op <$> (op_result totals d <$> l) = l.
Proof. rewrite <- list_fmap_compose. apply list_fmap_id. Qed.

Lemma add_totals_fold totals t l :
  foldl (add_totals totals) t l
  = (foldl (λ a op, a +! count (default opStats_zero (totals !! op))) t.1 l,
     foldl (λ a op, a +! errors (default opStats_zero (totals !! op))) t.2 l).
Proof. revert t. induction l as [|op l IH]; intros t; [by destruct t|]. apply IH. Qed.

(** The sum over the sorted names is the sum over the map. *)
Lemma sum_names_stat_sum (f : opStats → Z) (totals : gmap string opStats) :
  sum_list_Z ((λ op, f (default opStats_zero (totals !! op))) <$> sort_Strings (map_to_list totals).*1)
  = stat_sum f totals.
Proof.
  rewrite names_perm. unfold stat_sum. rewrite <- list_fmap_compose. f_equal.
  apply list_fmap_ext. intros i [op s] Hi. cbn.
  apply list_elem_of_lookup_2, elem_of_map_to_list in Hi. by rewrite Hi.
Qed.

Lemma foldl_names_sum (f : opStats → Z) (totals : gmap string opStats) :
  foldl (λ a op, a +! f (default opStats_zero (totals !! op))) 0
    (sort_Strings (map_to_list totals).*1)
  = wrap 64 (stat_sum f totals).
Proof.
  rewrite <- sum_names_stat_sum.
  exact (foldl_wrap_add (λ op, f (default opStats_zero (totals !! op))) _ 0).
Qed.

(** The totals of the document are those of the events. *)
Lemma document_totals names h :
  tracked names h → Z.of_nat (length h) ≤ int64_max →
  foldl (add_totals (by_op names h)) (0, 0) (sort_Strings (map_to_list (by_op names h)).*1)
  = (Z.of_nat (length h), errors_in h).
Proof.
  intros Htr Hb. rewrite add_totals_fold. cbn [fst snd].
  rewrite (foldl_names_sum count), (foldl_names_sum errors).
  by rewrite count_sum_by_op, error_sum_by_op.
Qed.

Lemma document_count_sum names h :
  tracked names h → Z.of_nat (length h) ≤ int64_max →
  sum_list_Z ((λ op, count (default opStats_zero (by_op names h !! op)))
    <$> sort_Strings (map_to_list (by_op names h)).*1)
  = Z.of_nat (length h).
Proof.
  intros Htr Hb. rewrite (sum_names_stat_sum count), (stat_sum_by_op count (λ _, 1) names h eq_refl)
    by (try done; intros; simpl; lia).
  clear. induction h as [|e h IH]; [done|]. rewrite fmap_cons, sum_list_Z_cons, IH. simpl. lia.
Qed.

(** The document built at the end of any run, whatever was measured around it. *)
Lemma document_figures (names : list string) (t0 : Time) (acts : list action) (now ended : Time)
    (cfg : Config) (ops : list WeightedOp)
    (dataset : option DatasetSnapshot) (server : option ServerInfo) (stopped : string)
    (Hnd : NoDup names) (Hok : acts_ok names 0 acts = true)
    (Hbound : Z.of_nat (length (events acts)) ≤ int64_max) :
  ∃ c, run (NewStatsCollector names t0) acts = Some c ∧
    let '(totals, series, started, finished, _) := Finalize c now ended in
    let r := BuildRunResult totals started finished cfg ops (mkRunMeta dataset server stopped series) in
    r.(rr_Totals).(rt_Ops) = Z.of_nat (length (events acts))
    ∧ r.(rr_Totals).(rt_Errors) = errors_in (events acts)
    ∧ sum_list_Z (or_Count <$> r.(rr_Operations)) = r.(rr_Totals).(rt_Ops)
    ∧ sum_list_Z (is_Ops <$> r.(rr_Timeseries)) = r.(rr_Totals).(rt_Ops)
    ∧ sum_list_Z (is_Errors <$> r.(rr_Timeseries)) = r.(rr_Totals).(rt_Errors)
    ∧ Forall (λ o, let h := obs_for o.(or_Op) (events acts) in
        o.(or_Count) = Z.of_nat (length h)
        ∧ o.(or_Errors) = Z.of_nat (length (failures h))
        ∧ o.(or_Latency) = if o.(or_Count) >? o.(or_Errors)
                           then Some (latencyStats (summarize h)) else None) r.(rr_Operations).
Proof.
  destruct (Finalize_totals names t0 acts Hok Hbound now ended) as (c & Hrun & HT).
  destruct (series_sums names t0 acts Hok Hbound now ended Hnd) as (c1 & Hrun1 & HS).
  rewrite Hrun in Hrun1. injection Hrun1 as <-. exists c. split; [done|].
  destruct (Finalize c now ended) as [[[[totals series] started] finished] c'].
  destruct HT as (-> & -> & ->). destruct HS as (Hops & Herr & _ & _).
  pose proof (tracked_events names acts Hok) as Htr.
  cbv zeta. unfold BuildRunResult. cbn [rr_Totals rt_Ops rt_Errors rr_Operations rr_Timeseries rm_Timeseries].
  rewrite document_totals by done. cbn [fst snd]. split; [done|]. split; [done|]. split.
  { rewrite <- list_fmap_compose. pose proof (document_count_sum names (events acts) Htr Hbound) as Hs.
    exact Hs. }
  split; [done|]. split; [done|].
  apply Forall_fmap, Forall_forall. intros op [s Hs]%elem_of_names. cbn. rewrite Hs. cbn.
  rewrite by_op_lookup in Hs. case_decide as Hop; [|done]. injection Hs as <-.
  pose proof (length_obs_for op (events acts)).
  pose proof (length_successes_failures (obs_for op (events acts))).
  split; [done|]. split; [done|].
  rewrite samples_summarize, count_summarize, errors_summarize by lia.
  rewrite !Z.gtb_ltb. destruct (Z.ltb_spec 0 (Z.of_nat (length (successes (obs_for op (events acts))))));
    destruct (Z.ltb_spec (Z.of_nat (length (failures (obs_for op (events acts)))))
      (Z.of_nat (length (obs_for op (events acts))))); done || lia.
Qed.

(** ** The claims *)

(** C33: the document lists every tracked operation exactly once, in
    alphabetical order, with the counts, rate and latency block of its totals;
    the latency block is present exactly when a latency was sampled. *)
Theorem BuildRunResult_operations (totals : gmap string opStats) (started ended : Time)
    (cfg : Config) (ops : list WeightedOp) (meta : RunMeta) :
  let r := BuildRunResult totals started ended cfg ops meta in
  Sorted String.le (or_Op <$> r.(rr_Operations))
  ∧ NoDup (or_Op <$> r.(rr_Operations))
  ∧ (∀ op, op ∈ or_Op <$> r.(rr_Operations) ↔ is_Some (totals !! op))
  ∧ Forall (λ o, ∃ s, totals !! o.(or_Op) = Some s
      ∧ o.(or_Count) = s.(count) ∧ o.(or_Errors) = s.(errors)
      ∧ o.(or_OpsPerSec) = run_rate r.(rr_DurationSeconds) s.(count)
      ∧ o.(or_Latency) = if 0 <? samples s then Some (latencyStats s) else None)
      r.(rr_Operations).
Proof.
  cbv zeta. unfold BuildRunResult. cbn [rr_Operations rr_DurationSeconds].
  rewrite op_result_names. split; [apply Sorted_merge_sort, _|].
  split; [apply NoDup_names|]. split; [apply elem_of_names|].
  apply Forall_fmap, Forall_forall. intros op [s Hs]%elem_of_names.
  exists s. cbn. rewrite Hs. cbn. by rewrite Z.gtb_ltb.
Qed.

(** C7: from the recorded operations to the document.  For any run of the
    collector, the document built from what [Finalize] returns reports as
    totals exactly the operations and failures recorded; its operations and
    its time series both add up to them; and an operation has a latency block,
    the summary of its successful latencies, exactly when it succeeded at
    least once. *)
Theorem document_of_run (names : list string) (t0 : Time) (acts : list action) (now ended : Time)
    (cfg : Config) (ops : list WeightedOp) (stopped : string)
    (Hnd : NoDup names) (Hok : acts_ok names 0 acts = true)
    (Hbound : Z.of_nat (length (events acts)) ≤ int64_max) :
  ∃ c, run (NewStatsCollector names t0) acts = Some c ∧
    let '(totals, series, started, finished, _) := Finalize c now ended in
    let r := BuildRunResult totals started finished cfg ops (mkRunMeta None None stopped series) in
    r.(rr_Totals).(rt_Ops) = Z.of_nat (length (events acts))
    ∧ r.(rr_Totals).(rt_Errors) = errors_in (events acts)
    ∧ sum_list_Z (or_Count <$> r.(rr_Operations)) = r.(rr_Totals).(rt_Ops)
    ∧ sum_list_Z (is_Ops <$> r.(rr_Timeseries)) = r.(rr_Totals).(rt_Ops)
    ∧ sum_list_Z (is_Errors <$> r.(rr_Timeseries)) = r.(rr_Totals).(rt_Errors)
    ∧ Forall (λ o, let h := obs_for o.(or_Op) (events acts) in
        o.(or_Count) = Z.of_nat (length h)
        ∧ o.(or_Errors) = Z.of_nat (length (failures h))
        ∧ o.(or_Latency) = if o.(or_Count) >? o.(or_Errors)
                           then Some (latencyStats (summarize h)) else None) r.(rr_Operations).
Proof. exact (document_figures names t0 acts now ended cfg ops None None stopped Hnd Hok Hbound). Qed.

Lemma document_of_run_witness :
  ∃ c, run (NewStatsCollector sample_names 0) sample_acts = Some c ∧
    let '(totals, series, started, finished, _) := Finalize c 31000000000 31000000000 in
    let r := BuildRunResult totals started finished default_config []
               (mkRunMeta None None StoppedByDuration series) in
    r.(rr_Totals).(rt_Ops) = Z.of_nat (length (events sample_acts))
    ∧ r.(rr_Totals).(rt_Errors) = errors_in (events sample_acts)
    ∧ sum_list_Z (or_Count <$> r.(rr_Operations)) = r.(rr_Totals).(rt_Ops)
    ∧ sum_list_Z (is_Ops <$> r.(rr_Timeseries)) = r.(rr_Totals).(rt_Ops)
    ∧ sum_list_Z (is_Errors <$> r.(rr_Timeseries)) = r.(rr_Totals).(rt_Errors)
    ∧ Forall (λ o, let h := obs_for o.(or_Op) (events sample_acts) in
        o.(or_Count) = Z.of_nat (length h)
        ∧ o.(or_Errors) = Z.of_nat (length (failures h))
        ∧ o.(or_Latency) = if o.(or_Count) >? o.(or_Errors)
                           then Some (latencyStats (summarize h)) else None) r.(rr_Operations).
Proof. exact (document_of_run _ 0 _ _ _ _ _ _ sample_nodup sample_ok sample_bound). Defined.

(** A run that ends no later than it started reports zero rates, never an
    infinity or a NaN that would not survive the encoding. *)
Theorem rates_without_duration (totals : gmap string opStats) (started ended : Time)
    (cfg : Config) (ops : list WeightedOp) (meta : RunMeta) :
  ended ≤ started →
  let r := BuildRunResult totals started ended cfg ops meta in
  r.(rr_Totals).(rt_OpsPerSec) = f_zero ∧ Forall (λ o, o.(or_OpsPerSec) = f_zero) r.(rr_Operations).
Proof.
  intros Hle. cbv zeta. unfold BuildRunResult. cbn [rr_Totals rt_OpsPerSec rr_Operations].
  assert (∀ n, run_rate (Seconds (Sub ended started)) n = f_zero) as Hr.
  { intros n. unfold run_rate. rewrite fleb_nonpos; [done|].
    apply (Seconds_sign true). unfold Sub. lia. }
  split; [apply Hr|]. apply Forall_fmap, Forall_forall. intros op _. apply Hr.
Qed.

Lemma rates_without_duration_witness :
  let r := BuildRunResult (by_op sample_names (events sample_acts)) 7 5 default_config []
             (mkRunMeta None None StoppedBySignal []) in
  r.(rr_Totals).(rt_OpsPerSec) = f_zero ∧ Forall (λ o, o.(or_OpsPerSec) = f_zero) r.(rr_Operations).
Proof. apply rates_without_duration. lia. Defined.

(** The dataset snapshot is all or nothing: it succeeds exactly when the
    query and every row were read without error, and then reports the size of
    each table and the (64-bit) sums of bytes and live tuples over all rows. *)
Theorem SnapshotDataset_spec (query : result (Rows (string * Z * Z))) (d : DatasetSize) :
  SnapshotDataset query = Ok d ↔ ∃ rows, complete query rows ∧ d = dataset_of rows.
Proof. setoid_rewrite <- add_table_all. apply query_outcome. Qed.

(** The server snapshot is all or nothing as well: on success the version
    is the [server_version] row and every other row is a setting, with its
    unit appended when it has one; the version is never repeated among the
    settings. *)
Theorem SnapshotServerInfo_spec (query : result (Rows (string * string * string))) (info : ServerInfo) :
  (SnapshotServerInfo query = Ok info ↔ ∃ rows, complete query rows ∧ info = server_of rows)
  ∧ (SnapshotServerInfo query = Ok info → info.(Settings) !! "server_version"%string = None).
Proof.
  assert (SnapshotServerInfo query = Ok info ↔ ∃ rows, complete query rows ∧ info = server_of rows) as Hiff.
  { setoid_rewrite <- add_setting_all. apply query_outcome. }
  split; [exact Hiff|]. intros (rows & _ & ->)%Hiff. unfold server_of. cbn [Settings].
  apply not_elem_of_list_to_map_1. rewrite fmap_reverse, elem_of_reverse, <- list_fmap_compose.
  intros (r & Hn & [Hv _]%list_elem_of_filter)%list_elem_of_fmap. by apply Hv.
Qed.
