(* ===== verification/Json.v ===== *)
(** * The result document as JSON

    What [json.MarshalIndent] makes of a [RunResult]: the tree of its fields
    with the [omitempty] rules of the struct tags, maps with their keys in
    order, and the indented text of a tree.  The text of the leaves (quoted
    strings, floats, RFC 3339 times) is that of encoding/json and is a
    parameter; a NaN or infinite float and a time outside the years 0 to 9999
    have none, and make the encoding fail. *)

From S2P Require Export Result.

Inductive json :=
  | JInt (z : Z)
  | JFloat (f : f64)
  | JBool (b : bool)
  | JStr (s : string)
  | JTime (t : Time)
  | JArr (l : list json)
  | JObj (l : list (string * json)).

(** ** Encoding the structs *)

Definition field (name : string) (v : json) : list (string * json) := [(name, v)].

(** [omitempty]: the field is left out when [empty]. *)
Definition field_omit (empty : bool) (name : string) (v : json) : list (string * json) :=
  if empty then [] else [(name, v)].

Definition field_ptr {A} (name : string) (enc : A → json) (p : option A) : list (string * json) :=
  match p with Some a => [(name, enc a)] | None => [] end.

(** A map with its keys in ascending order. *)
Definition encode_map {A} (enc : A → json) (m : gmap string A) : json :=
  JObj (omap (λ k, (λ a, (k, enc a)) <$> m !! k) (sort_Strings (map_to_list m).*1)).

Definition encode_latency (l : LatencyStats) : json :=
  JObj [("min_ms", JFloat l.(MinMS)); ("mean_ms", JFloat l.(MeanMS)); ("p50_ms", JFloat l.(P50MS));
        ("p95_ms", JFloat l.(P95MS)); ("p99_ms", JFloat l.(P99MS)); ("p999_ms", JFloat l.(P999MS));
        ("max_ms", JFloat l.(MaxMS))]%string.

Definition encode_op (o : OpResult) : json :=
  JObj (field "op" (JStr o.(or_Op)) ++ field "count" (JInt o.(or_Count))
        ++ field "errors" (JInt o.(or_Errors)) ++ field "ops_per_sec" (JFloat o.(or_OpsPerSec))
        ++ field_ptr "latency" encode_latency o.(or_Latency)).

Definition encode_interval_op (o : IntervalOp) : json :=
  JObj (field "op" (JStr o.(io_Op)) ++ field "count" (JInt o.(io_Count))
        ++ field_omit (o.(io_Errors) =? 0) "errors" (JInt o.(io_Errors))
        ++ field "ops_per_sec" (JFloat o.(io_OpsPerSec)) ++ field "p50_ms" (JFloat o.(io_P50MS))
        ++ field "p95_ms" (JFloat o.(io_P95MS)) ++ field "p99_ms" (JFloat o.(io_P99MS))).

Definition encode_interval (iv : IntervalStats) : json :=
  JObj (field "start_seconds" (JFloat iv.(is_StartSeconds))
        ++ field "end_seconds" (JFloat iv.(is_EndSeconds)) ++ field "ops" (JInt iv.(is_Ops))
        ++ field "errors" (JInt iv.(is_Errors)) ++ field "ops_per_sec" (JFloat iv.(is_OpsPerSec))
        ++ field "operations" (JArr (encode_interval_op <$> iv.(is_Operations)))).

Definition encode_totals (t : RunTotals) : json :=
  JObj [("ops", JInt t.(rt_Ops)); ("errors", JInt t.(rt_Errors));
        ("ops_per_sec", JFloat t.(rt_OpsPerSec))]%string.

Definition encode_config (c : RunConfig) : json :=
  JObj [("profile", JStr c.(rc_Profile)); ("workers", JInt c.(rc_Workers));
        ("min_payload_kb", JInt c.(rc_MinPayloadKB)); ("max_payload_kb", JInt c.(rc_MaxPayloadKB));
        ("toast_pct", JInt c.(rc_ToastPct)); ("read_payload", JBool c.(rc_ReadPayload));
        ("create_indexes", JBool c.(rc_CreateIndexes)); ("ring_size", JInt c.(rc_RingSize));
        ("delete_batch_size", JInt c.(rc_DeleteBatchSize));
        ("user_pool_size", JInt c.(rc_UserPoolSize)); ("actor_pool_size", JInt c.(rc_ActorPoolSize));
        ("think_time_ms", JInt c.(rc_ThinkTimeMs)); ("run_duration_secs", JInt c.(rc_RunDurationSecs));
        ("op_weights", encode_map JInt c.(rc_OpWeights))]%string.

Definition encode_size (d : DatasetSize) : json :=
  JObj [("total_bytes", JInt d.(TotalBytes)); ("live_tuples", JInt d.(LiveTuples));
        ("table_bytes", encode_map JInt d.(TableBytes))]%string.

Definition encode_dataset (d : DatasetSnapshot) : json :=
  JObj [("start", encode_size d.(ds_Start)); ("end", encode_size d.(ds_End));
        ("growth_bytes", JInt d.(GrowthBytes))]%string.

Definition encode_server (s : ServerInfo) : json :=
  JObj [("version", JStr s.(Version)); ("settings", encode_map JStr s.(Settings))]%string.

Definition is_nil {A} (l : list A) : bool := match l with [] => true | _ => false end.

Definition encode_result (r : RunResult) : json :=
  JObj (field "profile" (JStr r.(rr_Profile)) ++ field "started_at" (JTime r.(rr_StartedAt))
        ++ field "ended_at" (JTime r.(rr_EndedAt))
        ++ field "duration_seconds" (JFloat r.(rr_DurationSeconds))
        ++ field_omit (bool_decide (r.(rr_StoppedBy) = "")) "stopped_by" (JStr r.(rr_StoppedBy))
        ++ field "config" (encode_config r.(rr_Config))
        ++ field "totals" (encode_totals r.(rr_Totals))
        ++ field "operations" (JArr (encode_op <$> r.(rr_Operations)))
        ++ field_omit (is_nil r.(rr_Timeseries)) "timeseries" (JArr (encode_interval <$> r.(rr_Timeseries)))
        ++ field_ptr "dataset" encode_dataset r.(rr_Dataset)
        ++ field_ptr "server" encode_server r.(rr_Server)).

(** ** The text *)

Section text.
Context (quote : string → string) (float_text : f64 → string) (time_text : Time → option string).


(** A new line indented two blanks per level. *)
Definition nl (depth : nat) : string := newline +:+ String.concat "" (replicate depth "  "%string).

Definition brackets (opening closing : string) (depth : nat) (items : list string) : string :=
  match items with
  | [] => opening +:+ closing
  | _ => opening +:+ nl (S depth) +:+ String.concat ("," +:+ nl (S depth)) items
           +:+ nl depth +:+ closing
  end.

Definition float_repr (f : f64) : option string :=
  match f with S754_nan | S754_infinity _ => None | _ => Some (float_text f) end.

Fixpoint render (depth : nat) (j : json) {struct j} : option string :=
  match j with
  | JInt z => Some (fmt_d z)
  | JFloat f => float_repr f
  | JBool b => Some (if b then "true" else "false")%string
  | JStr s => Some (quote s)
  | JTime t => time_text t
  | JArr l =>
      let fix items (l : list json) : option (list string) :=
        match l with
        | [] => Some []
        | x :: l => s ← render (S depth) x; r ← items l; Some (s :: r)
        end in
      brackets "[" "]" depth <$> items l
  | JObj l =>
      let fix items (l : list (string * json)) : option (list string) :=
        match l with
        | [] => Some []
        | (k, x) :: l => s ← render (S depth) x; r ← items l; Some ((quote k +:+ ": " +:+ s) :: r)
        end in
      brackets "{" "}" depth <$> items l
  end.

(** [json.MarshalIndent(r, "", "  ")] *)
Definition MarshalIndent (r : RunResult) : result string :=
  match render 0 (encode_result r) with
  | Some text => Ok text
  | None => Err (Errorf "json: unsupported value")
  end.

(** Every leaf of the tree has a text. *)
Inductive printable : json → Prop :=
  | printable_int z : printable (JInt z)
  | printable_bool b : printable (JBool b)
  | printable_str s : printable (JStr s)
  | printable_float f : is_Some (float_repr f) → printable (JFloat f)
  | printable_time t : is_Some (time_text t) → printable (JTime t)
  | printable_arr l : Forall printable l → printable (JArr l)
  | printable_obj l : Forall (λ kv, printable kv.2) l → printable (JObj l).

Lemma json_induction (P : json → Prop) :
  (∀ z, P (JInt z)) → (∀ f, P (JFloat f)) → (∀ b, P (JBool b)) → (∀ s, P (JStr s)) →
  (∀ t, P (JTime t)) → (∀ l, Forall P l → P (JArr l)) →
  (∀ l, Forall (λ kv, P kv.2) l → P (JObj l)) → ∀ j, P j.
Proof.
  intros Hi Hf Hb Hs Ht Ha Ho. fix IH 1. intros j. destruct j.
  - apply Hi.
  - apply Hf.
  - apply Hb.
  - apply Hs.
  - apply Ht.
  - apply Ha. induction l as [|x l IHl]; constructor; [apply IH|exact IHl].
  - apply Ho. induction l as [|[k x] l IHl]; constructor; [apply IH|exact IHl].
Qed.

(** A tree has a text exactly when all its leaves have one. *)
Lemma render_printable j : ∀ depth, is_Some (render depth j) ↔ printable j.
Proof.
  induction j as [z|f|b|s|t|l IH|l IH] using json_induction; intros depth; cbn [render].
  - split; [constructor|by eexists].
  - split; [by constructor|by inversion 1].
  - split; [constructor|by eexists].
  - split; [constructor|by eexists].
  - split; [by constructor|by inversion 1].
  - rewrite fmap_is_Some. trans (Forall printable l); [|split; [by constructor|by inversion 1]].
    induction IH as [|x l Hx _ IHl]; [split; [constructor|by eexists]|].
    rewrite Forall_cons, <- (Hx (S depth)), <- IHl. clear.
    destruct (render (S depth) x); cbn [mbind option_bind];
      [|split; [by intros [? [=]]|by intros [[? [=]] _]]].
    match goal with |- context [is_Some (?items l)] => destruct (items l) end; cbn [mbind option_bind].
    + split; intros _; [split|]; by eexists.
    + split; [by intros [? [=]]|by intros [_ [? [=]]]].
  - rewrite fmap_is_Some.
    trans (Forall (λ kv : string * json, printable kv.2) l); [|split; [by constructor|by inversion 1]].
    induction IH as [|[k x] l Hx _ IHl]; [split; [constructor|by eexists]|]. cbn [snd] in Hx.
    rewrite Forall_cons. cbn [snd]. rewrite <- (Hx (S depth)), <- IHl. clear.
    destruct (render (S depth) x); cbn [mbind option_bind];
      [|split; [by intros [? [=]]|by intros [[? [=]] _]]].
    match goal with |- context [is_Some (?items l)] => destruct (items l) end; cbn [mbind option_bind].
    + split; intros _; [split|]; by eexists.
    + split; [by intros [? [=]]|by intros [_ [? [=]]]].
Qed.
End text.

(** ** Nothing is lost by omitting fields *)

Lemma JObj_cons_inj k1 v1 l1 k2 v2 l2 :
  JObj ((k1, v1) :: l1) = JObj ((k2, v2) :: l2) → v1 = v2 ∧ JObj l1 = JObj l2.
Proof. by intros [= _ -> ->]. Qed.

Ltac obj_fields H :=
  repeat (let F := fresh "Hf" in apply JObj_cons_inj in H as [F H]); try clear H.

#[export] Instance encode_map_inj {A} (enc : A → json) `{!Inj eq eq enc} : Inj eq eq (encode_map enc).
Proof.
  intros m1 m2 H. injection H as H. apply map_eq; intros k. apply option_eq; intros a.
  assert (∀ m : gmap string A, m !! k = Some a ↔
    (k, enc a) ∈ omap (λ k, (λ a, (k, enc a)) <$> m !! k) (sort_Strings (map_to_list m).*1)) as Hin.
  { intros m. rewrite list_elem_of_omap. split.
    - intros Hk. exists k. rewrite elem_of_names, Hk. split; [by eexists|done].
    - intros (k' & _ & Hk'). apply fmap_Some in Hk' as (a' & Ha' & [= -> ->%(inj enc)]). done. }
  by rewrite !Hin, H.
Qed.

#[export] Instance JInt_inj : Inj eq eq JInt.
Proof. by intros ?? [=]. Qed.

#[export] Instance JStr_inj : Inj eq eq JStr.
Proof. by intros ?? [=]. Qed.

#[export] Instance encode_op_inj : Inj eq eq encode_op.
Proof.
  intros [n1 c1 e1 r1 [[]|]] [n2 c2 e2 r2 [[]|]] H; unfold encode_op in H; cbn in H;
    by simplify_eq/=.
Qed.

#[export] Instance encode_interval_op_inj : Inj eq eq encode_interval_op.
Proof.
  intros [n1 c1 e1 r1 p1 q1 t1] [n2 c2 e2 r2 p2 q2 t2] H; unfold encode_interval_op in H; cbn in H.
  destruct (Z.eqb_spec e1 0), (Z.eqb_spec e2 0); cbn in H; by simplify_eq/=.
Qed.

#[export] Instance encode_interval_inj : Inj eq eq encode_interval.
Proof.
  intros [s1 e1 o1 f1 r1 l1] [s2 e2 o2 f2 r2 l2] H; unfold encode_interval in H; cbn in H.
  injection H as -> -> -> -> -> Hl. f_equal. by apply (list_fmap_eq_inj encode_interval_op _).
Qed.

#[export] Instance encode_size_inj : Inj eq eq encode_size.
Proof.
  intros [b1 l1 m1] [b2 l2 m2] H. obj_fields H. apply (inj (encode_map JInt)) in Hf1. by simplify_eq/=.
Qed.

#[export] Instance encode_dataset_inj : Inj eq eq encode_dataset.
Proof.
  intros [s1 e1 g1] [s2 e2 g2] H. obj_fields H.
  apply (inj encode_size) in Hf, Hf0. by simplify_eq/=.
Qed.

#[export] Instance encode_server_inj : Inj eq eq encode_server.
Proof.
  intros [v1 m1] [v2 m2] H. obj_fields H. apply (inj (encode_map JStr)) in Hf0. by simplify_eq/=.
Qed.

#[export] Instance encode_config_inj : Inj eq eq encode_config.
Proof.
  intros [] [] H. obj_fields H.
  apply (inj (encode_map JInt)) in Hf12. by simplify_eq/=.
Qed.

#[export] Instance encode_totals_inj : Inj eq eq encode_totals.
Proof. intros [] [] H. unfold encode_totals in H. by simplify_eq/=. Qed.

(** The field [q] of an object. *)
Fixpoint assoc (q : string) (l : list (string * json)) : option json :=
  match l with
  | [] => None
  | (k, v) :: l => if String.eqb q k then Some v else assoc q l
  end.

Definition get (q : string) (j : json) : option json :=
  match j with JObj l => assoc q l | _ => None end.

Lemma assoc_app q l k :
  assoc q (l ++ k) = match assoc q l with Some v => Some v | None => assoc q k end.
Proof. induction l as [|[k' v] l IH]; [done|]. simpl. by destruct (String.eqb q k'). Qed.

Lemma assoc_field q n v : assoc q (field n v) = if String.eqb q n then Some v else None.
Proof. done. Qed.

Lemma assoc_field_omit q e n v :
  assoc q (field_omit e n v) = if String.eqb q n then if e then None else Some v else None.
Proof. destruct e; simpl; by destruct (String.eqb q n). Qed.

Lemma assoc_field_ptr {A} q n (enc : A → json) p :
  assoc q (field_ptr n enc p) = if String.eqb q n then enc <$> p else None.
Proof. destruct p; simpl; by destruct (String.eqb q n). Qed.

(** The fields of a document by name. *)
Lemma get_result q r :
  get q (encode_result r) =
  if String.eqb q "profile" then Some (JStr r.(rr_Profile))
  else if String.eqb q "started_at" then Some (JTime r.(rr_StartedAt))
  else if String.eqb q "ended_at" then Some (JTime r.(rr_EndedAt))
  else if String.eqb q "duration_seconds" then Some (JFloat r.(rr_DurationSeconds))
  else if String.eqb q "stopped_by" then
    if bool_decide (r.(rr_StoppedBy) = "") then None else Some (JStr r.(rr_StoppedBy))
  else if String.eqb q "config" then Some (encode_config r.(rr_Config))
  else if String.eqb q "totals" then Some (encode_totals r.(rr_Totals))
  else if String.eqb q "operations" then Some (JArr (encode_op <$> r.(rr_Operations)))
  else if String.eqb q "timeseries" then
    if is_nil r.(rr_Timeseries) then None else Some (JArr (encode_interval <$> r.(rr_Timeseries)))
  else if String.eqb q "dataset" then encode_dataset <$> r.(rr_Dataset)
  else if String.eqb q "server" then encode_server <$> r.(rr_Server)
  else None.
Proof.
  unfold encode_result, get.
  rewrite !assoc_app, !assoc_field, !assoc_field_omit, !assoc_field_ptr.
  repeat match goal with
  | |- context [String.eqb q ?n] =>
      destruct (String.eqb_spec q n) as [->|]; [by cbn; repeat case_match|]
  end. done.
Qed.

(** C32: the document distinguishes everything the result distinguishes: two
    results with the same JSON tree are equal.  In particular an omitted
    latency block, dataset or server is never confused with one that is
    present and all zero, nor an omitted error count with a non-zero one. *)
Theorem encode_result_injective (r1 r2 : RunResult) :
  encode_result r1 = encode_result r2 → r1 = r2.
Proof.
  intros H.
  assert (∀ q, get q (encode_result r1) = get q (encode_result r2)) as Hget by congruence.
  clear H. setoid_rewrite get_result in Hget. destruct r1 as [p1 s1 e1 d1 b1 c1 t1 o1 ts1 ds1 sv1], r2 as [p2 s2 e2 d2 b2 c2 t2 o2 ts2 ds2 sv2].
  pose proof (Hget "profile"%string) as Hp. pose proof (Hget "started_at"%string) as Hs.
  pose proof (Hget "ended_at"%string) as He. pose proof (Hget "duration_seconds"%string) as Hd.
  pose proof (Hget "stopped_by"%string) as Hb. pose proof (Hget "config"%string) as Hc.
  pose proof (Hget "totals"%string) as Ht. pose proof (Hget "operations"%string) as Ho.
  pose proof (Hget "timeseries"%string) as Hts. pose proof (Hget "dataset"%string) as Hds.
  pose proof (Hget "server"%string) as Hsv. clear Hget.
  cbn [String.eqb Ascii.eqb Bool.eqb rr_Profile rr_StartedAt rr_EndedAt rr_DurationSeconds rr_StoppedBy
    rr_Config rr_Totals rr_Operations rr_Timeseries rr_Dataset rr_Server] in *.
  injection Hp as ->. injection Hs as ->. injection He as ->. injection Hd as ->.
  assert (b1 = b2) as -> by (do 2 case_bool_decide; congruence).
  assert (c1 = c2) as -> by (apply (inj encode_config); congruence).
  assert (t1 = t2) as -> by (apply (inj encode_totals); congruence).
  assert (o1 = o2) as -> by (apply (list_fmap_eq_inj encode_op _); congruence).
  assert (ts1 = ts2) as ->.
  { apply (list_fmap_eq_inj encode_interval _). destruct ts1, ts2; cbn [is_nil] in Hts; congruence. }
  assert (ds1 = ds2) as -> by (by apply (inj (fmap encode_dataset))).
  assert (sv1 = sv2) as -> by (by apply (inj (fmap encode_server))).
  done.
Qed.

Lemma encode_result_injective_witness :
  let r := BuildRunResult ∅ 0 5 default_config [] (mkRunMeta None None "signal" []) in
  encode_result r = encode_result r ∧ r = r.
Proof. intros r. split; [reflexivity|]. apply (encode_result_injective r r). reflexivity. Defined.
