(* ===== verification/ResultFile.v ===== *)
(** * workload/result.go: writing the document

    [WriteRunResult] on a file system whose calls may fail.  The model
    records every state the file system goes through, because a reader may
    look at, and a crash may freeze, any of them. *)

From S2P Require Export Json.

(** Regular files by path; directories carry no content here. *)
Notation fs := (gmap string string).

(** What the operating system answers to the calls of one [WriteRunResult]:
    an error for any of them, the unique name [CreateTemp] chose, and how much
    of the data a failing [Write] had written. *)
Record os_answers := mkAnswers {
  os_MkdirAll : option error;
  os_CreateTemp : result string;
  os_Write : option (nat * error);
  os_Close : option error;
  os_Rename : option error;
  os_Remove : option error;
}.

(** The deferred [os.Remove(tmpName)]; its error is ignored.  Removing a file
    that is not there fails and changes nothing. *)
Definition remove_tmp (os : os_answers) (tmp : string) (f : fs) : fs :=
  match os.(os_Remove) with Some _ => f | None => delete tmp f end.

(** [string_take n s]: the first [n] bytes. *)
Definition string_take (n : nat) (s : string) : string := String.substring 0 n s.

(** The body of [WriteRunResult] once the temporary file exists: the states it
    goes through and the error it returns. *)
Definition write_and_rename (os : os_answers) (path tmp data : string) (f : fs)
    : list fs * option error :=
  match os.(os_Write) with
  | Some (n, e) =>
      let f1 := <[tmp := string_take n data]> f in
      ([f1], Some (wrapf "write result" e))
  | None =>
      let f1 := <[tmp := data]> f in
      match os.(os_Close) with
      | Some e => ([f1], Some (wrapf "close result" e))
      | None =>
          match os.(os_Rename) with
          | Some e => ([f1], Some (wrapf "rename result into place" e))
          | None => ([f1; <[path := data]> (delete tmp f1)], None)
          end
      end
  end.

Section write.
Context (quote : string → string) (float_text : f64 → string) (time_text : Time → option string).
(** [filepath.Dir] *)
Context (Dir : string → string).

(** [WriteRunResult]: the states of the file system, the first being the one
    it started in, and the error returned. *)
Definition WriteRunResult (os : os_answers) (path : string) (r : RunResult) (f : fs)
    : list fs * option error :=
  match MarshalIndent quote float_text time_text r with
  | Err e => ([f], Some (wrapf "marshal result" e))
  | Ok text =>
      let data := text +:+ newline in
      let dir := Dir path in
      match os.(os_MkdirAll) with
      | Some e => ([f], Some (wrapf ("create result directory " +:+ dir) e))
      | None =>
          match os.(os_CreateTemp) with
          | Err e => ([f], Some (wrapf ("create temp result file in " +:+ dir) e))
          | Ok tmp =>
              let f0 := <[tmp := ""%string]> f in
              let '(states, err) := write_and_rename os path tmp data f0 in
              (f :: f0 :: states ++ [remove_tmp os tmp (default f0 (last states))], err)
          end
      end
  end.

(** The file name [CreateTemp] chose is new and is not the destination. *)
Definition fresh_temp (os : os_answers) (path : string) (f : fs) : Prop :=
  match os.(os_CreateTemp) with Ok tmp => f !! tmp = None ∧ tmp ≠ path | Err _ => True end.

(** The document [WriteRunResult] would write. *)
Definition document (r : RunResult) : option string :=
  match MarshalIndent quote float_text time_text r with
  | Ok text => Some (text +:+ newline)
  | Err _ => None
  end.

(** [g] is [f] with the destination possibly replaced by the whole document
    and the temporary file possibly present. *)
Definition intact (path : string) (tmp doc : option string) (f g : fs) : Prop :=
  (g !! path = f !! path ∨ ∃ d, doc = Some d ∧ g !! path = Some d)
  ∧ ∀ p, p ≠ path → tmp ≠ Some p → g !! p = f !! p.

Definition temp_of (os : os_answers) : option string :=
  match os.(os_CreateTemp) with Ok tmp => Some tmp | Err _ => None end.

Lemma remove_tmp_other os tmp (f : fs) p : p ≠ tmp → remove_tmp os tmp f !! p = f !! p.
Proof. intros Hp. unfold remove_tmp. case_match; [done|]. by rewrite lookup_delete_ne. Qed.

Lemma intact_refl path tmp doc f : intact path tmp doc f f.
Proof. split; auto. Qed.

Lemma intact_write path tmp doc f g c :
  tmp ≠ path → intact path (Some tmp) doc f g → intact path (Some tmp) doc f (<[tmp := c]> g).
Proof.
  intros Hne [Hp Ho]. split; [by rewrite lookup_insert_ne|].
  intros p Hp' Ht. rewrite lookup_insert_ne by congruence. by apply Ho.
Qed.

Lemma intact_rename path tmp d f g :
  intact path (Some tmp) (Some d) f g →
  intact path (Some tmp) (Some d) f (<[path := d]> (delete tmp g)).
Proof.
  intros [Hp Ho]. split.
  - right. exists d. by rewrite lookup_insert_eq.
  - intros p Hp' Ht. rewrite lookup_insert_ne, lookup_delete_ne by congruence. by apply Ho.
Qed.

Lemma intact_remove os path tmp doc f g :
  tmp ≠ path → intact path (Some tmp) doc f g → intact path (Some tmp) doc f (remove_tmp os tmp g).
Proof.
  intros Hne Hg. unfold remove_tmp. case_match; [done|]. destruct Hg as [Hp Ho].
  split; [by rewrite lookup_delete_ne|].
  intros p Hp' Ht. rewrite lookup_delete_ne by congruence. by apply Ho.
Qed.

Lemma write_and_rename_intact os path tmp d f g :
  tmp ≠ path → intact path (Some tmp) (Some d) f g →
  Forall (intact path (Some tmp) (Some d) f) (write_and_rename os path tmp d g).1.
Proof.
  intros Hne Hg. unfold write_and_rename.
  destruct (os_Write os) as [[n e]|]; [|destruct (os_Close os); [|destruct (os_Rename os)]];
    cbn [fst]; rewrite ?Forall_cons, ?Forall_nil; auto using intact_write, intact_rename.
Qed.

(** C12: at every moment of a [WriteRunResult], whatever fails and wherever the
    process dies, the destination holds either what it held before or the
    complete new document, and no file other than the destination and the
    temporary one is touched. *)
Theorem WriteRunResult_atomic (os : os_answers) (path : string) (r : RunResult) (f : fs) :
  fresh_temp os path f →
  Forall (intact path (temp_of os) (document r) f) (WriteRunResult os path r f).1.
Proof.
  unfold fresh_temp, temp_of, WriteRunResult, document. intros Hf.
  destruct (MarshalIndent quote float_text time_text r) as [text|e]; [|by apply Forall_singleton, intact_refl].
  destruct (os_MkdirAll os) as [e|]; [by apply Forall_singleton, intact_refl|].
  destruct (os_CreateTemp os) as [tmp|e]; [|by apply Forall_singleton, intact_refl].
  destruct Hf as [Hnew Hne].
  pose proof (intact_write path tmp (Some (text +:+ newline)) f f "" Hne
    (intact_refl _ _ _ _)) as H0.
  pose proof (write_and_rename_intact os path tmp _ f _ Hne H0) as Hst.
  destruct (write_and_rename os path tmp (text +:+ newline) (<[tmp:=""%string]> f)) as [states err].
  cbn [fst] in *. constructor; [apply intact_refl|]. constructor; [done|].
  apply Forall_app. split; [done|]. constructor; [|constructor].
  apply intact_remove; [done|].
  destruct (last states) as [g|] eqn:Hl; [|done].
  apply last_Some in Hl as [l ->]. apply Forall_app in Hst as [_ Hg].
  rewrite Forall_singleton in Hg. exact Hg.
Qed.

(** C31: on success the destination holds the complete document, the temporary
    file is gone and nothing else changed; on failure the destination is what
    it was, and once the temporary file can be removed the whole file system
    is. *)
Theorem WriteRunResult_outcome (os : os_answers) (path : string) (r : RunResult) (f : fs) :
  fresh_temp os path f →
  let '(states, err) := WriteRunResult os path r f in
  ∃ g, last states = Some g ∧
  match err with
  | None => ∃ d, document r = Some d ∧ g = <[path := d]> f
  | Some _ => g !! path = f !! path ∧ (os.(os_Remove) = None → g = f)
  end.
Proof.
  unfold fresh_temp, WriteRunResult, document. intros Hf.
  destruct (MarshalIndent quote float_text time_text r) as [text|e]; [|by exists f].
  destruct (os_MkdirAll os) as [e|]; [by exists f|].
  destruct (os_CreateTemp os) as [tmp|e]; [|by exists f].
  destruct Hf as [Hnew Hne].
  assert (∀ c, let g := remove_tmp os tmp (<[tmp := c]> (<[tmp := ""]> f)) in
    g !! path = f !! path ∧ (os_Remove os = None → g = f)) as Hfail.
  { intros c. cbv zeta. rewrite remove_tmp_other, insert_insert_eq, lookup_insert_ne by done.
    split; [done|]. unfold remove_tmp. intros ->. by rewrite delete_insert_id. }
  unfold write_and_rename.
  destruct (os_Write os) as [[n e]|]; [eexists; split; [done|]; apply Hfail|].
  destruct (os_Close os) as [e|]; [eexists; split; [done|]; apply Hfail|].
  destruct (os_Rename os) as [e|]; [eexists; split; [done|]; apply Hfail|].
  eexists. split; [done|]. eexists. split; [done|]. cbn [last from_option default id].
  rewrite insert_insert_eq, delete_insert_id by done. unfold remove_tmp. case_match; [done|].
  by rewrite delete_insert_ne, delete_id by done.
Qed.
End write.

(** Witnesses: a successful write over an older document, and one whose
    [Write] fails half way while the temporary file cannot be removed. *)
Definition sample_result : RunResult :=
  BuildRunResult ∅ 0 5 default_config [] (mkRunMeta None None StoppedByDuration []).

Definition all_well : os_answers :=
  mkAnswers None (Ok "out/.pgstorm-result-1.json"%string) None None None None.

Definition disk_full : os_answers :=
  mkAnswers None (Ok "out/.pgstorm-result-2.json"%string) (Some (3%nat, ErrNew "disk full")) None None
    (Some (ErrNew "busy")).

Definition old_files : fs := {[ "out/result.json"%string := "old"%string ]}.

Lemma WriteRunResult_atomic_witness :
  Forall (intact "out/result.json" (temp_of disk_full)
           (document id (λ _, "0"%string) (λ _, Some "t"%string) sample_result) old_files)
    (WriteRunResult id (λ _, "0"%string) (λ _, Some "t"%string) (λ _, "out"%string)
       disk_full "out/result.json" sample_result old_files).1.
Proof. apply WriteRunResult_atomic. split; [reflexivity|done]. Defined.

Lemma WriteRunResult_outcome_witness :
  let '(states, err) := WriteRunResult id (λ _, "0"%string) (λ _, Some "t"%string) (λ _, "out"%string)
       all_well "out/result.json" sample_result old_files in
  ∃ g, last states = Some g ∧
  match err with
  | None => ∃ d, document id (λ _, "0"%string) (λ _, Some "t"%string) sample_result = Some d
                 ∧ g = <["out/result.json"%string := d]> old_files
  | Some _ => g !! "out/result.json"%string = old_files !! "out/result.json"%string
              ∧ (all_well.(os_Remove) = None → g = old_files)
  end.
Proof. apply WriteRunResult_outcome. split; [reflexivity|done]. Defined.
