(* ===== verification/Registry.v ===== *)
(** * The metrics of the program and their registration

    metrics/metrics.go, index_stats.go, pg_stats.go and pool_collector.go
    declare the metrics; [main] registers them.  A registration panics on an
    invalid or repeated name; [WithLabelValues] panics on a wrong number of
    label values. *)

From Stdlib Require Export Ascii.
From S2P Require Export GoFloat.

Inductive metric_kind :=
  | Counter
  | Gauge
  | Histogram (buckets : list f64).

Record Metric := mkMetric {
  m_kind : metric_kind;
  m_name : string;
  m_help : string;
  m_labels : list string;
}.

Definition namespace : string := "pgstorm".

(** The full name the client library builds from namespace and name. *)
Definition fqName (m : Metric) : string := namespace +:+ "_" +:+ m.(m_name).

Local Open Scope string_scope.

Local Definition dquote : string := String (ascii_of_nat 34) "".

(** ** metrics.go *)

Definition OpsTotal : Metric :=
  mkMetric Counter "ops_total"
    ("Total number of DB operations executed.")
    ["op"; "status"].

Definition OpDuration_buckets : list f64 :=
  [f_lit 1 1000; f_lit 5 1000; f_lit 1 100; f_lit 25 1000; f_lit 5 100; f_lit 1 10; f_lit 25 100;
   f_lit 5 10; of_int 1; f_lit 25 10; of_int 5; of_int 10; of_int 30].

Definition OpDuration : Metric :=
  mkMetric (Histogram OpDuration_buckets) "op_duration_seconds"
    ("Duration of each SUCCESSFUL DB operation. Failed ops are excluded — they " +:+
     "return in microseconds without touching data and would drag every quantile " +:+
     "down as the server degrades. Count them via ops_total{status=" +:+
     dquote +:+ "error" +:+
     dquote +:+ "}; op_duration_seconds_count therefore does not equal sum(ops_total).")
    ["op"].

Definition WorkersActive : Metric :=
  mkMetric Gauge "workers_active"
    ("Number of worker goroutines currently executing a DB op.")
    [].

Definition OpsSkipped : Metric :=
  mkMetric Counter "ops_skipped_total"
    ("Ops that intentionally did no DB work (e.g. empty ring at cold start). Not " +:+
     "counted in ops_total or op_duration_seconds, so they don't skew " +:+
     "rate/latency.")
    ["op"].

(** ** index_stats.go *)

Definition indexSizeBytes : Metric :=
  mkMetric Gauge "index_size_bytes"
    ("Size of each B-tree index in bytes.")
    ["index"; "table"].

Definition indexScansTotal : Metric :=
  mkMetric Counter "index_scans_total"
    ("Index scans observed since pod start (delta-tracked against pg_stat_user_indexes.idx_scan).")
    ["index"; "table"].

Definition tableSizeBytes : Metric :=
  mkMetric Gauge "table_size_bytes"
    ("Size of each table heap in bytes.")
    ["table"].

Definition tableLiveTuples : Metric :=
  mkMetric Gauge "table_live_tuples"
    ("Estimated live tuples per table (pg_stat_user_tables.n_live_tup).")
    ["table"].

Definition tableDeadTuples : Metric :=
  mkMetric Gauge "table_dead_tuples"
    ("Estimated dead tuples per table — proxy for MVCC bloat (pg_stat_user_tables.n_dead_tup).")
    ["table"].

Definition tableModSinceAnalyze : Metric :=
  mkMetric Gauge "table_mod_since_analyze"
    ("Rows modified since the last analyze; high value means stale statistics.")
    ["table"].

Definition tableAutovacuumTotal : Metric :=
  mkMetric Counter "table_autovacuum_total"
    ("Autovacuum runs observed since pod start (delta-tracked against " +:+
     "pg_stat_user_tables.autovacuum_count).")
    ["table"].

Definition tableAutoanalyzeTotal : Metric :=
  mkMetric Counter "table_autoanalyze_total"
    ("Autoanalyze runs observed since pod start (delta-tracked against " +:+
     "pg_stat_user_tables.autoanalyze_count).")
    ["table"].

(** ** pg_stats.go *)

Definition bgwriterCheckpointsTimed : Metric :=
  mkMetric Counter "bgwriter_checkpoints_timed_total"
    ("Checkpoints triggered by checkpoint_timeout.")
    [].

Definition bgwriterCheckpointsReq : Metric :=
  mkMetric Counter "bgwriter_checkpoints_req_total"
    ("Checkpoints triggered by WAL segment demand; high rate indicates checkpoint pressure.")
    [].

Definition bgwriterBuffersCheckpoint : Metric :=
  mkMetric Counter "bgwriter_buffers_checkpoint_total"
    ("Shared buffers written during checkpoints.")
    [].

Definition bgwriterBuffersClean : Metric :=
  mkMetric Counter "bgwriter_buffers_clean_total"
    ("Shared buffers written by the background writer.")
    [].

Definition bgwriterBuffersBackend : Metric :=
  mkMetric Counter "bgwriter_buffers_backend_total"
    ("Shared buffers written directly by backends (PG14–16 only; not available on PG17+).")
    [].

Definition bgwriterCheckpointWriteSeconds : Metric :=
  mkMetric Counter "bgwriter_checkpoint_write_seconds_total"
    ("Total time spent writing files to disk during checkpoints, in seconds.")
    [].

Definition bgwriterCheckpointSyncSeconds : Metric :=
  mkMetric Counter "bgwriter_checkpoint_sync_seconds_total"
    ("Total time spent syncing files to disk during checkpoints, in seconds.")
    [].

Definition waitEventsActive : Metric :=
  mkMetric Gauge "wait_events_active"
    ("Number of sessions currently waiting on a specific PostgreSQL wait event " +:+
     "(snapshot, not cumulative).")
    ["wait_event_type"; "wait_event"].

Definition walBytesTotal : Metric :=
  mkMetric Counter "wal_bytes_total"
    ("Total bytes of WAL generated; rate() gives write amplification.")
    [].

Definition walRecordsTotal : Metric :=
  mkMetric Counter "wal_records_total"
    ("Total WAL records generated.")
    [].

Definition walFPITotal : Metric :=
  mkMetric Counter "wal_fpi_total"
    ("Full-page images written to WAL; spikes after each checkpoint.")
    [].

Definition walBuffersFullTotal : Metric :=
  mkMetric Counter "wal_buffers_full_total"
    ("Times WAL was flushed to disk because WAL buffers were full.")
    [].

(** ** Registration *)

Definition Register : list Metric := [OpsTotal; OpDuration; WorkersActive; OpsSkipped].

Definition RegisterTableStats : list Metric :=
  [tableSizeBytes; tableLiveTuples; tableDeadTuples;
   tableModSinceAnalyze; tableAutovacuumTotal; tableAutoanalyzeTotal].

Definition RegisterIndexStats : list Metric := [indexSizeBytes; indexScansTotal].

Definition RegisterPGStats : list Metric :=
  [waitEventsActive;
   bgwriterCheckpointsTimed;
   bgwriterCheckpointsReq;
   bgwriterBuffersCheckpoint;
   bgwriterBuffersClean;
   bgwriterBuffersBackend;
   bgwriterCheckpointWriteSeconds;
   bgwriterCheckpointSyncSeconds;
   walBytesTotal;
   walRecordsTotal;
   walFPITotal;
   walBuffersFullTotal].

(** ** pool_collector.go: the descriptors of the connection pool *)

Record Desc := mkDesc { d_fqName : string; d_help : string }.

Record PoolCollector := mkPoolCollector {
  pc_acquired : Desc; pc_idle : Desc; pc_total : Desc; pc_maxConns : Desc;
  pc_acquireCount : Desc; pc_emptyAcquireCount : Desc; pc_canceledAcquireCount : Desc;
  pc_acquireDuration : Desc;
}.

Definition newPoolCollectorWith : PoolCollector := {|
  pc_acquired := mkDesc (namespace +:+ "_pool_acquired_conns")
    "Number of currently acquired connections.";
  pc_idle := mkDesc (namespace +:+ "_pool_idle_conns")
    "Number of idle connections in the pool.";
  pc_total := mkDesc (namespace +:+ "_pool_total_conns")
    "Total number of connections in the pool.";
  pc_maxConns := mkDesc (namespace +:+ "_pool_max_conns")
    "Maximum number of connections allowed by the pool.";
  pc_acquireCount := mkDesc (namespace +:+ "_pool_acquire_count_total")
    "Cumulative count of successful connection acquisitions from the pool.";
  pc_emptyAcquireCount := mkDesc (namespace +:+ "_pool_empty_acquire_count_total")
    ("Cumulative count of acquisitions that had to wait for a connection (pool was empty). " +:+
     "Rising values mean workers are queueing on the pool, and that wait is charged to op latency.");
  pc_canceledAcquireCount := mkDesc (namespace +:+ "_pool_canceled_acquire_count_total")
    "Cumulative count of acquisitions cancelled by context before a connection was obtained.";
  pc_acquireDuration := mkDesc (namespace +:+ "_pool_acquire_duration_seconds_total")
    "Cumulative time spent waiting to acquire a connection from the pool, in seconds.";
|}.

(** The descriptors sent on the channel, in order. *)
Definition Describe (c : PoolCollector) : list Desc :=
  [c.(pc_acquired); c.(pc_idle); c.(pc_total); c.(pc_maxConns); c.(pc_acquireCount);
   c.(pc_emptyAcquireCount); c.(pc_canceledAcquireCount); c.(pc_acquireDuration)].
