(* ===== verification/Metrics.v ===== *)
(** * metrics/: what the program tells Prometheus

    The Prometheus client is a library the program only calls, so the model
    records the calls: each function returns the list of calls it makes.  The
    state of the package itself is that of the two delta trackers, which turn
    the cumulative values of PostgreSQL's statistics views into increments.
    The rows of every query are an argument (DbApi.v). *)

From S2P Require Export DbApi.
From S2P Require Export GoTime.
From S2P Require Export Registry.

(** A call on a metric. *)
Inductive metric_call :=
  | Inc (metric : Metric) (labels : list string)
  | Dec (metric : Metric)
  | Add (metric : Metric) (labels : list string) (v : f64)
  | SetGauge (metric : Metric) (labels : list string) (v : f64)
  | ResetGauge (metric : Metric)
  | ObserveHist (metric : Metric) (labels : list string) (v : f64).

(** ** metrics.go *)

Definition RecordOp (op : string) (durationSec : f64) (err : option error) : list metric_call :=
  match err with
  | Some _ => [Inc OpsTotal [op; "error"]]
  | None => [Inc OpsTotal [op; "ok"]; ObserveHist OpDuration [op] durationSec]
  end%string.

Definition RecordSkip (op : string) : list metric_call := [Inc OpsSkipped [op]].

(** ** index_stats.go *)

(** [indexScanTracker]: the last value seen per key. *)
Notation indexScanTracker := (gmap string Z).

Definition newIndexScanTracker : indexScanTracker := ∅.

Definition scan_delta (t : indexScanTracker) (key : string) (current : Z) : Z * indexScanTracker :=
  let t' := <[key := current]> t in
  match t !! key with
  | None => (0, t')
  | Some prev => if current <? prev then (0, t') else (current -! prev, t')
  end.

(** [if d := tracker.delta(key, v); d > 0 { counter.Add(float64(d)) }] *)
Definition add_positive (metric : Metric) (labels : list string) (key : string) (current : Z)
    (st : indexScanTracker * list metric_call) : indexScanTracker * list metric_call :=
  let '(d, t) := scan_delta st.1 key current in
  (t, if d >? 0 then st.2 ++ [Add metric labels (of_int d)] else st.2).

Record table_row := mkTableRow {
  tr_tableName : string; tr_sizeBytes : Z; tr_liveTup : Z; tr_deadTup : Z;
  tr_modSinceAnalyze : Z; tr_autovacuumCount : Z; tr_autoanalyzeCount : Z;
}.

Definition table_body (st : indexScanTracker * list metric_call) (r : table_row)
    : indexScanTracker * list metric_call :=
  let name := r.(tr_tableName) in
  let st := (st.1, st.2 ++
    [SetGauge tableSizeBytes [name] (of_int r.(tr_sizeBytes));
     SetGauge tableLiveTuples [name] (of_int r.(tr_liveTup));
     SetGauge tableDeadTuples [name] (of_int r.(tr_deadTup));
     SetGauge tableModSinceAnalyze [name] (of_int r.(tr_modSinceAnalyze))]%string) in
  let st := add_positive tableAutovacuumTotal [name] (name +:+ ":autovacuum")
              r.(tr_autovacuumCount) st in
  add_positive tableAutoanalyzeTotal [name] (name +:+ ":autoanalyze") r.(tr_autoanalyzeCount) st.

Definition collectTableStats (t : indexScanTracker) (query : result (Rows table_row))
    : (indexScanTracker * list metric_call) * option error :=
  match query with
  | Err e => ((t, []), Some e)
  | Ok rows => scan_all table_body (t, []) rows
  end.

Record index_row := mkIndexRow {
  ir_indexName : string; ir_tableName : string; ir_sizeBytes : Z; ir_scans : Z;
}.

Definition index_body (st : indexScanTracker * list metric_call) (r : index_row)
    : indexScanTracker * list metric_call :=
  let st := (st.1, st.2 ++
    [SetGauge indexSizeBytes [r.(ir_indexName); r.(ir_tableName)] (of_int r.(ir_sizeBytes))]) in
  add_positive indexScansTotal [r.(ir_indexName); r.(ir_tableName)] r.(ir_indexName)
    r.(ir_scans) st.

Definition collectIndexStats (t : indexScanTracker) (query : result (Rows index_row))
    : (indexScanTracker * list metric_call) * option error :=
  match query with
  | Err e => ((t, []), Some e)
  | Ok rows => scan_all index_body (t, []) rows
  end.

(** ** pg_stats.go *)

Notation pgStatsTracker := (gmap string f64).

Definition newPGStatsTracker : pgStatsTracker := ∅.

Definition stat_delta (t : pgStatsTracker) (key : string) (current : f64) : f64 * pgStatsTracker :=
  let t' := <[key := current]> t in
  match t !! key with
  | None => (f_zero, t')
  | Some prev => if fltb current prev then (f_zero, t') else (fsub current prev, t')
  end.

(** [counter.Add(tracker.delta(key, v))] *)
Definition add_delta (metric : Metric) (key : string) (v : f64) (st : pgStatsTracker * list metric_call)
    : pgStatsTracker * list metric_call :=
  let '(d, t) := stat_delta st.1 key v in (t, st.2 ++ [Add metric [] d]).

(** [counter.Add(tracker.delta(key, ms) / 1000)] *)
Definition add_delta_ms (metric : Metric) (key : string) (v : f64) (st : pgStatsTracker * list metric_call)
    : pgStatsTracker * list metric_call :=
  let '(d, t) := stat_delta st.1 key v in (t, st.2 ++ [Add metric [] (fdiv d (of_int 1000))]).

Record bgwriter16 := mkBgwriter16 {
  b_cpTimed : f64; b_cpReq : f64; b_bufCheckpoint : f64; b_bufClean : f64;
  b_bufBackend : f64; b_writeTime : f64; b_syncTime : f64;
}.

Definition collectBgwriterStatsPG16 (t : pgStatsTracker) (query : result bgwriter16)
    : (pgStatsTracker * list metric_call) * option error :=
  match query with
  | Err e => ((t, []), Some e)
  | Ok r =>
      let st := add_delta bgwriterCheckpointsTimed "cp_timed" r.(b_cpTimed) (t, []) in
      let st := add_delta bgwriterCheckpointsReq "cp_req" r.(b_cpReq) st in
      let st := add_delta bgwriterBuffersCheckpoint "buf_checkpoint" r.(b_bufCheckpoint) st in
      let st := add_delta bgwriterBuffersClean "buf_clean" r.(b_bufClean) st in
      let st := add_delta bgwriterBuffersBackend "buf_backend" r.(b_bufBackend) st in
      let st := add_delta_ms bgwriterCheckpointWriteSeconds "cp_write_ms" r.(b_writeTime) st in
      let st := add_delta_ms bgwriterCheckpointSyncSeconds "cp_sync_ms" r.(b_syncTime) st in
      (st, None)
  end.

Record checkpointer17 := mkCheckpointer17 {
  c_cpTimed : f64; c_cpReq : f64; c_bufCheckpoint : f64; c_writeTime : f64; c_syncTime : f64;
}.

Definition collectBgwriterStatsPG17 (t : pgStatsTracker) (query : result checkpointer17)
    (query2 : result f64) : (pgStatsTracker * list metric_call) * option error :=
  match query with
  | Err e => ((t, []), Some e)
  | Ok r =>
      let st := add_delta bgwriterCheckpointsTimed "cp_timed" r.(c_cpTimed) (t, []) in
      let st := add_delta bgwriterCheckpointsReq "cp_req" r.(c_cpReq) st in
      let st := add_delta bgwriterBuffersCheckpoint "buf_checkpoint" r.(c_bufCheckpoint) st in
      let st := add_delta_ms bgwriterCheckpointWriteSeconds "cp_write_ms" r.(c_writeTime) st in
      let st := add_delta_ms bgwriterCheckpointSyncSeconds "cp_sync_ms" r.(c_syncTime) st in
      match query2 with
      | Err e => (st, Some e)
      | Ok bufClean => (add_delta bgwriterBuffersClean "buf_clean" bufClean st, None)
      end
  end.

(** The answers to the queries of one tick. *)
Record pg_answers := mkPgAnswers {
  a_bgwriter16 : result bgwriter16;
  a_checkpointer17 : result checkpointer17;
  a_bufClean17 : result f64;
  a_wal : result (f64 * f64 * f64 * f64);
  a_waits : result (Rows (string * string * f64));
  a_ctxErr : bool;
}.

Definition collectBgwriterStats (t : pgStatsTracker) (pgMajor : Z) (a : pg_answers)
    : (pgStatsTracker * list metric_call) * option error :=
  if pgMajor >=? 17 then collectBgwriterStatsPG17 t a.(a_checkpointer17) a.(a_bufClean17)
  else collectBgwriterStatsPG16 t a.(a_bgwriter16).

Definition collectWALStats (t : pgStatsTracker) (query : result (f64 * f64 * f64 * f64))
    : (pgStatsTracker * list metric_call) * option error :=
  match query with
  | Err e => ((t, []), Some e)
  | Ok (walBytes, walRecords, walFPI, walBuffersFull) =>
      let st := add_delta walBytesTotal "wal_bytes" walBytes (t, []) in
      let st := add_delta walRecordsTotal "wal_records" walRecords st in
      let st := add_delta walFPITotal "wal_fpi" walFPI st in
      let st := add_delta walBuffersFullTotal "wal_buffers_full" walBuffersFull st in
      (st, None)
  end.

Definition wait_body (calls : list metric_call) (r : string * string * f64) : list metric_call :=
  calls ++ [SetGauge waitEventsActive [r.1.1; r.1.2] r.2].

Definition collectWaitEventStats (query : result (Rows (string * string * f64)))
    : list metric_call * option error :=
  match query with
  | Err e => ([], Some e)
  | Ok rows => scan_all wait_body [ResetGauge waitEventsActive] rows
  end.

(** The error of a collector is logged unless the run is over. *)
Definition log_error (prefix : string) (ctxErr : bool) (err : option error) : list string :=
  match err with
  | Some e => if ctxErr then [] else [prefix +:+ ": " +:+ Error e]
  | None => []
  end.

(** One tick of [RunPGStatsLoop]: the tracker, the metric calls, the log. *)
Definition pg_stats_tick (pgMajor : Z) (t : pgStatsTracker) (a : pg_answers)
    : pgStatsTracker * list metric_call * list string :=
  let '((t1, c1), e1) := collectBgwriterStats t pgMajor a in
  let '((t2, c2), e2) := collectWALStats t1 a.(a_wal) in
  let '(c3, e3) := collectWaitEventStats a.(a_waits) in
  (t2, c1 ++ c2 ++ c3,
   log_error "bgwriter stats error" a.(a_ctxErr) e1
     ++ log_error "WAL stats error" a.(a_ctxErr) e2
     ++ log_error "wait event stats error" a.(a_ctxErr) e3).

(** The version the loop works with when it cannot be read. *)
Definition detected_major (version : result Z) : Z :=
  match version with Ok major => major | Err _ => 16 end.

(** [RunPGStatsLoop] over the ticks until the context is done. *)
Fixpoint pg_stats_loop (pgMajor : Z) (t : pgStatsTracker) (ticks : list pg_answers)
    : list metric_call * list string :=
  match ticks with
  | [] => ([], [])
  | a :: rest =>
      let '(t', calls, logs) := pg_stats_tick pgMajor t a in
      let '(calls', logs') := pg_stats_loop pgMajor t' rest in
      (calls ++ calls', logs ++ logs')
  end.

Definition RunPGStatsLoop (version : result Z) (ticks : list pg_answers)
    : list metric_call * list string :=
  pg_stats_loop (detected_major version) newPGStatsTracker ticks.

(** One tick of [RunTableStatsLoop] or [RunIndexStatsLoop]: what the query
    returned and whether the context was done when its error was logged. *)
Definition stats_tick {A} (collect : indexScanTracker → result (Rows A) →
      (indexScanTracker * list metric_call) * option error) (prefix : string)
    (st : indexScanTracker * list metric_call * list string) (tick : result (Rows A) * bool)
    : indexScanTracker * list metric_call * list string :=
  let '(t, calls, logs) := st in
  let '((t', calls'), err) := collect t tick.1 in
  (t', calls ++ calls', logs ++ log_error prefix tick.2 err).

Definition RunTableStatsLoop (ticks : list (result (Rows table_row) * bool))
    : indexScanTracker * list metric_call * list string :=
  foldl (stats_tick collectTableStats "table stats collection error") (newIndexScanTracker, [], []) ticks.

Definition RunIndexStatsLoop (ticks : list (result (Rows index_row) * bool))
    : indexScanTracker * list metric_call * list string :=
  foldl (stats_tick collectIndexStats "index stats collection error") (newIndexScanTracker, [], []) ticks.

(** ** pool_collector.go *)

Record poolStats := mkPoolStats {
  p_acquired : Z; p_idle : Z; p_total : Z; p_max : Z;
  p_acquireCount : Z; p_emptyAcquireCount : Z; p_canceledAcquireCount : Z;
  p_acquireDurationSeconds : f64;
}.

Inductive value_type := GaugeValue | CounterValue.

(** [Collect] sends one constant metric per descriptor. *)
Definition Collect (c : PoolCollector) (s : poolStats) : list (Desc * value_type * f64) :=
  [(c.(pc_acquired), GaugeValue, of_int s.(p_acquired));
   (c.(pc_idle), GaugeValue, of_int s.(p_idle));
   (c.(pc_total), GaugeValue, of_int s.(p_total));
   (c.(pc_maxConns), GaugeValue, of_int s.(p_max));
   (c.(pc_acquireCount), CounterValue, of_int s.(p_acquireCount));
   (c.(pc_emptyAcquireCount), CounterValue, of_int s.(p_emptyAcquireCount));
   (c.(pc_canceledAcquireCount), CounterValue, of_int s.(p_canceledAcquireCount));
   (c.(pc_acquireDuration), CounterValue, s.(p_acquireDurationSeconds))].

(** ** Counters only go up

    [Counter.Add] panics on a negative argument. *)

Definition safe_call (c : metric_call) : Prop :=
  match c with Add _ _ v => fltb v f_zero = false | _ => True end.

Lemma add_positive_safe metric labels key v st :
  Forall safe_call st.2 → Forall safe_call (add_positive metric labels key v st).2.
Proof.
  intros Hst. unfold add_positive. destruct (scan_delta st.1 key v) as [d t]. cbn [snd].
  rewrite Z.gtb_ltb. destruct (Z.ltb_spec 0 d); [|done].
  apply Forall_app. split; [done|]. constructor; [|constructor].
  apply f_nonneg_ltb, of_int_nonneg. lia.
Qed.

Lemma table_body_safe st r : Forall safe_call st.2 → Forall safe_call (table_body st r).2.
Proof.
  intros Hst. unfold table_body. apply add_positive_safe, add_positive_safe. cbn [snd].
  apply Forall_app. split; [done|]. repeat constructor.
Qed.

Lemma index_body_safe st r : Forall safe_call st.2 → Forall safe_call (index_body st r).2.
Proof.
  intros Hst. unfold index_body. apply add_positive_safe. cbn [snd].
  apply Forall_app. split; [done|]. repeat constructor.
Qed.

Lemma collectTableStats_safe t q : Forall safe_call (collectTableStats t q).1.2.
Proof.
  unfold collectTableStats. destruct q as [rows|e]; [|by constructor].
  apply (scan_all_invariant (λ st, Forall safe_call st.2)); [constructor|].
  intros st r. apply table_body_safe.
Qed.

Lemma collectIndexStats_safe t q : Forall safe_call (collectIndexStats t q).1.2.
Proof.
  unfold collectIndexStats. destruct q as [rows|e]; [|by constructor].
  apply (scan_all_invariant (λ st, Forall safe_call st.2)); [constructor|].
  intros st r. apply index_body_safe.
Qed.

(** A property of all the calls of a collector holds of those of its loop. *)
Lemma stats_loop_calls {A} (P : metric_call → Prop) collect prefix
    (ticks : list (result (Rows A) * bool)) st :
  (∀ t q, Forall P (collect t q).1.2) → Forall P st.1.2 →
  Forall P (foldl (stats_tick collect prefix) st ticks).1.2.
Proof.
  intros Hc. revert st. induction ticks as [|tick ticks IH]; intros st Hst; [done|].
  cbn [foldl]. apply IH. destruct st as [[t calls] logs]. unfold stats_tick.
  specialize (Hc t tick.1). destruct (collect t tick.1) as [[t' calls'] err]. cbn [fst snd] in *.
  by apply Forall_app.
Qed.

(** A tracker of the floats of a program. *)
Definition valid_tracker (t : pgStatsTracker) : Prop := map_Forall (λ _ v, f_valid v) t.

Definition good_state (st : pgStatsTracker * list metric_call) : Prop :=
  valid_tracker st.1 ∧ Forall safe_call st.2.

Lemma stat_delta_spec t key v :
  valid_tracker t → f_valid v →
  f_nonneg (stat_delta t key v).1 ∧ valid_tracker (stat_delta t key v).2.
Proof.
  intros Ht Hv. unfold stat_delta.
  assert (valid_tracker (<[key:=v]> t)) as Hins by (by apply map_Forall_insert_2).
  destruct (t !! key) as [prev|] eqn:Hk; [|by split; [right|]].
  destruct (fltb v prev) eqn:Hlt; [by split; [right|]|].
  split; [|done]. apply fsub_nonneg; [done| |done]. by apply (Ht key).
Qed.

Lemma add_delta_good metric key v st :
  good_state st → f_valid v → good_state (add_delta metric key v st).
Proof.
  intros [Ht Hc] Hv. unfold add_delta. destruct (stat_delta_spec st.1 key v Ht Hv) as [Hd Ht'].
  destruct (stat_delta st.1 key v) as [d t']. split; [done|]. apply Forall_app. split; [done|].
  constructor; [by apply f_nonneg_ltb|constructor].
Qed.

Lemma add_delta_ms_good metric key v st :
  good_state st → f_valid v → good_state (add_delta_ms metric key v st).
Proof.
  intros [Ht Hc] Hv. unfold add_delta_ms. destruct (stat_delta_spec st.1 key v Ht Hv) as [Hd Ht'].
  destruct (stat_delta st.1 key v) as [d t']. split; [done|]. apply Forall_app. split; [done|].
  constructor; [|constructor]. apply f_nonneg_ltb.
  assert (∃ m e, of_int 1000 = S754_finite false m e) as (m & e & ->)
    by (eexists _, _; vm_compute; reflexivity).
  by apply fdiv_nonneg.
Qed.

#[export] Hint Resolve add_delta_good add_delta_ms_good : go.

(** The floats a tick scans are floats of the program. *)
Record valid_answers (a : pg_answers) : Prop := {
  va_16 : ∀ r, a.(a_bgwriter16) = Ok r → Forall f_valid
    [r.(b_cpTimed); r.(b_cpReq); r.(b_bufCheckpoint); r.(b_bufClean); r.(b_bufBackend);
     r.(b_writeTime); r.(b_syncTime)];
  va_17 : ∀ r, a.(a_checkpointer17) = Ok r → Forall f_valid
    [r.(c_cpTimed); r.(c_cpReq); r.(c_bufCheckpoint); r.(c_writeTime); r.(c_syncTime)];
  va_clean : ∀ v, a.(a_bufClean17) = Ok v → f_valid v;
  va_wal : ∀ b r f w, a.(a_wal) = Ok (b, r, f, w) → Forall f_valid [b; r; f; w];
}.

Ltac split_valid H := rewrite ?Forall_cons in H; destruct_and? H.

Lemma collectBgwriterStats_good t major a :
  valid_tracker t → valid_answers a → good_state (collectBgwriterStats t major a).1.
Proof.
  intros Ht [H16 H17 Hcl _].
  assert (good_state (t, [])) as Hst by (split; [done|constructor]).
  unfold collectBgwriterStats. case_match.
  - unfold collectBgwriterStatsPG17. destruct (a_checkpointer17 a) as [r|e]; [|done].
    specialize (H17 r eq_refl). split_valid H17.
    destruct (a_bufClean17 a) as [v|e]; cbn [fst]; eauto 10 with go.
  - unfold collectBgwriterStatsPG16. destruct (a_bgwriter16 a) as [r|e]; [|done].
    specialize (H16 r eq_refl). split_valid H16. cbn [fst]. eauto 10 with go.
Qed.

Lemma collectWALStats_good t a :
  valid_tracker t → valid_answers a → good_state (collectWALStats t a.(a_wal)).1.
Proof.
  intros Ht [_ _ _ Hw].
  assert (good_state (t, [])) as Hst by (split; [done|constructor]).
  unfold collectWALStats. destruct (a_wal a) as [[[[b r] f] w]|e]; [|done].
  specialize (Hw b r f w eq_refl). split_valid Hw. cbn [fst]. eauto 10 with go.
Qed.

Lemma collectWaitEventStats_safe q : Forall safe_call (collectWaitEventStats q).1.
Proof.
  unfold collectWaitEventStats. destruct q as [rows|e]; [|constructor].
  apply (scan_all_invariant (Forall safe_call)); [by repeat constructor|].
  intros calls r Hc. unfold wait_body. apply Forall_app. split; [done|]. by repeat constructor.
Qed.

Lemma pg_stats_loop_safe major t ticks :
  valid_tracker t → Forall valid_answers ticks → Forall safe_call (pg_stats_loop major t ticks).1.
Proof.
  intros Ht HF. revert t Ht. induction HF as [|a ticks Ha _ IH]; intros t Ht; [constructor|].
  cbn [pg_stats_loop]. unfold pg_stats_tick.
  pose proof (collectBgwriterStats_good t major a Ht Ha) as [H1 H2].
  destruct (collectBgwriterStats t major a) as [[t1 c1] e1]. cbn [fst snd] in *.
  pose proof (collectWALStats_good t1 a H1 Ha) as [H3 H4].
  destruct (collectWALStats t1 (a_wal a)) as [[t2 c2] e2]. cbn [fst snd] in *.
  pose proof (collectWaitEventStats_safe (a_waits a)) as H5.
  destruct (collectWaitEventStats (a_waits a)) as [c3 e3]. cbn [fst snd] in *.
  specialize (IH t2 H3). destruct (pg_stats_loop major t2 ticks) as [calls logs]. cbn [fst snd] in *.
  by rewrite !Forall_app.
Qed.

(** ** What the increments add up to *)

(** The increments of a sequence of observations, with their keys. *)
Fixpoint deltas (t : indexScanTracker) (obs : list (string * Z)) : list (string * Z) :=
  match obs with
  | [] => []
  | (key, v) :: rest => let '(d, t') := scan_delta t key v in (key, d) :: deltas t' rest
  end.

Definition of_key {A} (key : string) (l : list (string * A)) : list A :=
  omap (λ kv, if decide (kv.1 = key) then Some kv.2 else None) l.

(** The rises of a sequence of values; a fall is a reset of the statistics. *)
Fixpoint rises (prev : option Z) (l : list Z) : Z :=
  match l with
  | [] => 0
  | v :: l => match prev with Some p => Z.max 0 (v - p) | None => 0 end + rises (Some v) l
  end.

Lemma of_key_cons {A} key k (v : A) l :
  of_key key ((k, v) :: l) = if decide (k = key) then v :: of_key key l else of_key key l.
Proof. unfold of_key. simpl. by case_decide. Qed.

Lemma deltas_rises key t obs :
  map_Forall (λ _ v, 0 ≤ v ≤ int64_max) t → Forall (λ kv, 0 ≤ kv.2 ≤ int64_max) obs →
  sum_list_Z (of_key key (deltas t obs)) = rises (t !! key) (of_key key obs).
Proof.
  intros Ht HF. revert t Ht. induction HF as [|[k v] obs Hv _ IH]; intros t Ht; [done|].
  cbn [snd] in Hv. cbn [deltas]. unfold scan_delta.
  assert (map_Forall (λ _ v, 0 ≤ v ≤ int64_max) (<[k:=v]> t)) as Ht' by (by apply map_Forall_insert_2).
  specialize (IH _ Ht').
  assert (∃ d, (match t !! k with
    | None => (0, <[k:=v]> t)
    | Some prev => if v <? prev then (0, <[k:=v]> t) else (v -! prev, <[k:=v]> t)
    end) = (d, <[k:=v]> t) ∧ d = match t !! k with Some p => Z.max 0 (v - p) | None => 0 end) as (d & -> & Hd).
  { destruct (t !! k) as [p|] eqn:Hp; [|by eexists].
    pose proof (Ht k p Hp) as Hpr. cbn in Hpr. destruct (Z.ltb_spec v p); eexists; split; try done; [lia|].
    rewrite wrap64_small; lia. }
  rewrite !of_key_cons. case_decide as Hk.
  - subst k. rewrite sum_list_Z_cons, IH, lookup_insert_eq, Hd. done.
  - by rewrite IH, lookup_insert_ne.
Qed.

(** C21: a counter is never decreased.  Whatever the queries return, for any
    sequence of polls, with failing queries, failing scans and statistics
    resets in any order, no increment passed to a Prometheus counter is
    negative (a negative one would panic); for the floats of the PostgreSQL
    statistics this rests on the rounding of float64 subtraction. *)
Theorem counters_never_decrease (version : result Z) (ticks : list pg_answers)
    (tables : list (result (Rows table_row) * bool)) (indexes : list (result (Rows index_row) * bool)) :
  Forall valid_answers ticks →
  Forall safe_call (RunPGStatsLoop version ticks).1
  ∧ Forall safe_call (RunTableStatsLoop tables).1.2
  ∧ Forall safe_call (RunIndexStatsLoop indexes).1.2.
Proof.
  intros Hv. split; [|split].
  - apply pg_stats_loop_safe; [apply map_Forall_empty|done].
  - apply stats_loop_calls; [apply collectTableStats_safe|constructor].
  - apply stats_loop_calls; [apply collectIndexStats_safe|constructor].
Qed.

(** A poll of PostgreSQL 17 with WAL statistics, then one after a reset. *)
Definition sample_tick (n : Z) : pg_answers :=
  mkPgAnswers (Err (ErrNew "no such column"))
    (Ok (mkCheckpointer17 (of_int n) (of_int 1) (of_int (n * 100)) (f_lit n 10) f_zero))
    (Ok (of_int 7)) (Ok (of_int n, of_int n, f_zero, f_zero)) (Err (ErrNew "closed")) false.

Lemma counters_never_decrease_witness :
  Forall safe_call (RunPGStatsLoop (Ok 17) [sample_tick 5; sample_tick 9; sample_tick 1]).1
  ∧ Forall safe_call (RunTableStatsLoop []).1.2
  ∧ Forall safe_call (RunIndexStatsLoop
      [(Ok (mkRows [Ok (mkIndexRow "i" "t" 8192 3)] None), false)]).1.2.
Proof.
  apply counters_never_decrease.
  assert (∀ n, n = 5 ∨ n = 9 ∨ n = 1 → valid_answers (sample_tick n)) as Hs.
  { intros n Hn. split; cbn; [done| | |].
    - intros r [= <-]. cbn. destruct Hn as [->|[->| ->] ]; repeat constructor.
    - intros v [= <-]. reflexivity.
    - intros b r f w Hw. injection Hw as <- <- <- <-. destruct Hn as [->|[->| ->] ]; repeat constructor. }
  apply Forall_cons; split; [apply Hs; auto|]. apply Forall_cons; split; [apply Hs; auto|].
  apply Forall_cons; split; [apply Hs; auto|constructor].
Defined.

(** C35: delta tracking loses nothing and invents nothing: over any interleaved
    sequence of observations of cumulative counters, the increments counted
    for a key add up to the rises of that key's values since it was first
    seen; in particular, without a reset they add up to last minus first. *)
Theorem delta_tracking (key : string) (obs : list (string * Z)) :
  Forall (λ kv, 0 ≤ kv.2 ≤ int64_max) obs →
  sum_list_Z (of_key key (deltas newIndexScanTracker obs)) = rises None (of_key key obs).
Proof. intros HF. rewrite deltas_rises; [done|apply map_Forall_empty|done]. Qed.

Lemma delta_tracking_witness :
  let obs := [("a", 10); ("b", 3); ("a", 15); ("a", 2); ("b", 4); ("a", 9)]%string in
  sum_list_Z (of_key "a" (deltas newIndexScanTracker obs)) = 12
  ∧ sum_list_Z (of_key "a" (deltas newIndexScanTracker obs)) = rises None (of_key "a" obs).
Proof.
  intros obs. split; [reflexivity|]. apply delta_tracking. repeat constructor; cbn; lia.
Defined.
