(* ===== verification/Executor.v ===== *)
(** * The interface between workers and profiles

    workload/profile.go: an executor runs one named operation and returns its
    error.  Its state (database, shared ring) belongs to the instance; the
    random source is shared with the worker.  The sentinel errors the worker tells apart are here too. *)

From S2P Require Export GoText.
From S2P Require Export GoRand.
From S2P Require Export Weights.

(** [errSkipped] of ops.go. *)
Definition errSkipped : error := ErrNew "op skipped: no database work".

(** [context.Canceled] and [context.DeadlineExceeded]. *)
Definition context_Canceled : error := ErrNew "context canceled".
Definition context_DeadlineExceeded : error := ErrNew "context deadline exceeded".

(** How a call of [Execute] ends. *)
Inductive exec_outcome :=
  | Returned (err : option error)
  | Panicked.

(** [Execute] takes the executor and the worker's random source: the executor
    holds the very [*rand.Rand] its worker rolls with, so each sees the draws
    of the other. *)
Class Executor (E R : Type) := Execute : E → R → string → exec_outcome * E * R.

(** What the worker expects of the executor of a profile: the operations of
    the profile do not panic.  [ok] is an invariant of the executor's state. *)
Class ExecutorOk (E R : Type) `{Executor E R} (names : list string) (ok : E → Prop) := {
  Execute_returns : ∀ e r op, ok e → op ∈ names →
    ∃ err e' r', Execute e r op = (Returned err, e', r') ∧ ok e';
}.
