(* ===== verification/Worker.v ===== *)
(** * workload/worker.go: the worker loop

    A worker picks an operation by weight, runs it, and accounts for its
    outcome, until the context is done.  What the outside world decides in one
    pass of the loop (whether the context is done, how long the operation took)
    is an [iteration]; a list of them drives the loop.  A worker's effects are
    its window of statistics, its metric calls and its log lines. *)

From S2P Require Export Executor.
From S2P Require Export Metrics.
From S2P Require Export Accounting.
From S2P Require Export Config.

(** [isShutdownCancellation]; [ctxErr] is [ctx.Err() != nil]. *)
Definition isShutdownCancellation (ctxErr : bool) (err : option error) : bool :=
  ctxErr &&
  match err with
  | Some e => errors_Is e context_Canceled || errors_Is e context_DeadlineExceeded
  | None => false
  end.

Definition is_skipped (err : option error) : bool :=
  match err with Some e => errors_Is e errSkipped | None => false end.

(** The arguments of a call of [ws.Record]. *)
Definition recording : Type := string * f64 * option error.

(** The window as it is when nobody drains it, the metric calls, the calls of
    [ws.Record] on the shared window, and the errors logged. *)
Record worker := mkWorker {
  w_stats : WorkerStats;
  w_calls : list metric_call;
  w_records : list recording;
  w_logs : list error;
}.

Definition add_calls (calls : list metric_call) (w : worker) : worker :=
  mkWorker w.(w_stats) (w.(w_calls) ++ calls) w.(w_records) w.(w_logs).

(** [ws.Record(op, duration, err)]; [None] is its crash. *)
Definition add_record (op : string) (duration : f64) (err : option error) (w : worker) : option worker :=
  ws ← WorkerStats_Record w.(w_stats) op duration err;
  Some (mkWorker ws w.(w_calls) (w.(w_records) ++ [(op, duration, err)]) w.(w_logs)).

(** [if err != nil { log.Printf(...) }] *)
Definition add_log (err : option error) (w : worker) : worker :=
  mkWorker w.(w_stats) w.(w_calls) w.(w_records)
    (w.(w_logs) ++ match err with Some e => [e] | None => [] end).

(** The switch on the outcome of an operation; [None] is a crash of [Record]. *)
Definition account (op : string) (duration : f64) (ctxErr : bool) (err : option error) (w : worker)
    : option worker :=
  if is_skipped err then Some (add_calls (RecordSkip op) w)
  else if isShutdownCancellation ctxErr err then Some w
  else
    let w := add_calls (RecordOp op duration err) w in
    w ← add_record op duration err w;
    Some (add_log err w).

(** One pass of the loop as the outside world sees it. *)
Record iteration := mkIteration {
  it_done : bool;
  it_elapsed : Duration;
  it_ctxErr : bool;
  it_doneThinking : bool;
}.

Section worker.
Context {E R : Type} `{Executor E R} `{Rand R}.

(** [runOp]: the gauge counts the operation in flight; the deferred [Dec] runs
    on every return path, a panic included. *)
Definition runOp (exec : E) (rng : R) (op : string) : exec_outcome * E * R * list metric_call :=
  let '(outcome, exec', rng') := Execute exec rng op in
  (outcome, exec', rng', [Inc WorkersActive []; Dec WorkersActive]).

Inductive worker_result :=
  | Finished (w : worker)
  | Crashed (w : worker)
  | Running (w : worker) (exec : E) (rng : R).

Definition result_worker (r : worker_result) : worker :=
  match r with Finished w | Crashed w | Running w _ _ => w end.

Fixpoint worker_loop (thinkTime : Duration) (ops : list WeightedOp) (its : list iteration)
    (exec : E) (rng : R) (w : worker) : worker_result :=
  match its with
  | [] => Running w exec rng
  | it :: its =>
      if it.(it_done) then Finished w
      else
        match Intn 100 rng with
        | None => Crashed w
        | Some (roll, rng) =>
            let op := SelectOp roll ops in
            let '(outcome, exec, rng, gauge) := runOp exec rng op in
            let w := add_calls gauge w in
            match outcome with
            | Panicked => Crashed w
            | Returned err =>
                match account op (Seconds it.(it_elapsed)) it.(it_ctxErr) err w with
                | None => Crashed w
                | Some w =>
                    if (thinkTime >? 0) && it.(it_doneThinking) then Finished w
                    else worker_loop thinkTime ops its exec rng w
                end
            end
        end
  end.

(** [RunWorker]: a fresh random source, the executor that shares it, and the
    worker's window. *)
Definition RunWorker (cfg : Config) (ops : list WeightedOp) (its : list iteration)
    (exec : E) (rng : R) (ws : WorkerStats) : worker_result :=
  worker_loop (cfg.(ThinkTimeMs) *! Millisecond) ops its exec rng (mkWorker ws [] [] []).
End worker.

(** ** What the metric calls say *)

(** The events behind the calls on the operation metrics. *)
Definition call_event (c : metric_call) : option event :=
  match c with
  | Inc metric [op; status] =>
      if bool_decide (m_name metric = "ops_total"%string ∧ status = "error"%string)
      then Some (op, Failure) else None
  | ObserveHist metric [op] d =>
      if bool_decide (m_name metric = "op_duration_seconds"%string) then Some (op, Success (micros d)) else None
  | _ => None
  end.

Definition call_events (calls : list metric_call) : list event := omap call_event calls.

(** The value of the [workers_active] gauge after the calls. *)
Definition gauge_delta (c : metric_call) : Z :=
  match c with
  | Inc metric _ => if bool_decide (m_name metric = "workers_active"%string) then 1 else 0
  | Dec metric => if bool_decide (m_name metric = "workers_active"%string) then -1 else 0
  | _ => 0
  end.

Definition gauge (calls : list metric_call) : Z := sum_list_Z (gauge_delta <$> calls).

Lemma call_events_app l k : call_events (l ++ k) = call_events l ++ call_events k.
Proof. apply omap_app. Qed.

Lemma gauge_app l k : gauge (l ++ k) = gauge l + gauge k.
Proof. unfold gauge. by rewrite fmap_app, sum_list_Z_app. Qed.

Lemma call_events_RecordOp op d err : call_events (RecordOp op d err) = [(op, obs_of d err)].
Proof. by destruct err. Qed.

Lemma call_events_skip op : call_events (RecordSkip op) = [].
Proof. done. Qed.

(** The three outcomes of [account]. *)
Lemma account_cases op d ctxErr err w w' :
  account op d ctxErr err w = Some w' →
  w' = add_calls (RecordSkip op) w ∨ w' = w
  ∨ w'.(w_calls) = w.(w_calls) ++ RecordOp op d err ∧ w'.(w_records) = w.(w_records) ++ [(op, d, err)].
Proof.
  unfold account. case_match; [intros [= <-]; by left|]. case_match; [intros [= <-]; auto|].
  intros (? & (ws & _ & [= <-])%bind_Some & [= <-])%bind_Some. by right; right.
Qed.

(** What one operation keeps, the loop keeps, however it ends. *)
Lemma worker_loop_invariant {E R} `{Executor E R} `{Rand R} (P : worker → Prop)
    thinkTime ops its (exec : E) (rng : R) w :
  (∀ roll d ctxErr err w w', P w → account (SelectOp roll ops) d ctxErr err w = Some w' → P w') →
  (∀ w, P w → P (add_calls [Inc WorkersActive []; Dec WorkersActive] w)) →
  P w → P (result_worker (worker_loop thinkTime ops its exec rng w)).
Proof.
  intros Hacc Hgauge. revert exec rng w. induction its as [|it its IH]; intros exec rng w Hw; [done|].
  cbn [worker_loop]. case_match; [done|]. destruct (Intn 100 rng) as [[roll rng']|]; [|done].
  unfold runOp. destruct (Execute exec rng' (SelectOp roll ops)) as [[outcome exec'] rng''].
  apply Hgauge in Hw. destruct outcome as [err|]; [|done].
  destruct (account _ _ _ _ _) as [w'|] eqn:Ha; [|done].
  apply (Hacc _ _ _ _ _ _ Hw) in Ha. case_match; [done|]. by apply IH.
Qed.

(** The events of the calls of [ws.Record]. *)
Definition recorded_event (r : recording) : event := (r.1.1, obs_of r.1.2 r.2).

(** What a worker told the collector is what it told Prometheus, and only of
    operations of its mix. *)
Record told_alike (names : list string) (w : worker) : Prop := {
  alike_events : call_events w.(w_calls) = recorded_event <$> w.(w_records);
  alike_tracked : Forall (λ r : recording, r.1.1 ∈ names) w.(w_records);
}.

Lemma worker_loop_alike {E R} `{Executor E R} `{Rand R} thinkTime ops its (exec : E) (rng : R) w :
  ops ≠ [] → told_alike (OpNames ops) w →
  told_alike (OpNames ops) (result_worker (worker_loop thinkTime ops its exec rng w)).
Proof.
  intros Hne. apply worker_loop_invariant.
  - intros roll d ctxErr err w1 w2 [He Ht] [->|[->|[Hc Hr]]]%account_cases; [|done|].
    + split; [|done]. cbn [add_calls w_calls w_records]. by rewrite call_events_app, app_nil_r.
    + split; rewrite ?Hc, ?Hr.
      * by rewrite call_events_app, fmap_app, call_events_RecordOp, He.
      * apply Forall_app. split; [done|]. constructor; [by apply SelectOp_in|constructor].
  - intros w1 [He Ht]. split; [|done]. cbn [add_calls w_calls w_records].
    by rewrite call_events_app, app_nil_r.
Qed.

(** A worker in good order: its window holds exactly the operations its
    metric calls report, and no operation is in flight. *)
Record worker_ok (names : list string) (h0 : list event) (w : worker) : Prop := {
  wk_stats : w.(w_stats) = mkWorkerStats (by_op names (h0 ++ call_events w.(w_calls)));
  wk_gauge : gauge w.(w_calls) = 0;
}.

Lemma account_ok names h0 op d ctxErr err w :
  worker_ok names h0 w → op ∈ names →
  Z.of_nat (length (h0 ++ call_events w.(w_calls))) < int64_max →
  ∃ w', account op d ctxErr err w = Some w' ∧ worker_ok names h0 w'
    ∧ (length (call_events w'.(w_calls)) ≤ S (length (call_events w.(w_calls))))%nat.
Proof.
  intros [Hs Hg] Hop Hb. unfold account. case_match.
  - eexists. split; [done|]. split; [|].
    + split; cbn [add_calls w_stats w_calls]; [by rewrite call_events_app, app_nil_r|].
      rewrite gauge_app, Hg. done.
    + cbn [add_calls w_calls]. rewrite call_events_app, app_nil_r. lia.
  - case_match; [eexists; split; [done|]; split; [done|lia]|].
    unfold add_record. cbn [add_calls w_stats w_calls w_records w_logs]. rewrite Hs, Record_by_op by done.
    cbn [mbind option_bind]. eexists. split; [done|]. split.
    + split; cbn [add_log w_stats w_calls].
      * by rewrite call_events_app, call_events_RecordOp, app_assoc.
      * rewrite gauge_app, Hg. by destruct err.
    + cbn [add_log w_calls]. rewrite call_events_app, call_events_RecordOp, length_app. cbn [length]. lia.
Qed.

(** The gauge calls of one operation cancel out. *)
Lemma add_gauge_ok names h0 w :
  worker_ok names h0 w → worker_ok names h0 (add_calls [Inc WorkersActive []; Dec WorkersActive] w).
Proof.
  intros [Hs Hg]. split; cbn [add_calls w_stats w_calls].
  - by rewrite call_events_app, app_nil_r.
  - rewrite gauge_app, Hg. done.
Qed.

(** ** The loop *)

Section loop.
Context {E R : Type} `{Executor E R} `{Rand R}.
Context (thinkTime : Duration) (ops : list WeightedOp) (Hne : ops ≠ []).

Lemma worker_loop_ok (its : list iteration) (exec : E) (rng : R) h0 w :
  worker_ok (OpNames ops) h0 w →
  Z.of_nat (length (h0 ++ call_events w.(w_calls)) + length its) < int64_max →
  worker_ok (OpNames ops) h0 (result_worker (worker_loop thinkTime ops its exec rng w)).
Proof.
  revert exec rng w. induction its as [|it its IH]; intros exec rng w Hok Hb; [done|].
  cbn [worker_loop]. case_match; [done|].
  destruct (Intn 100 rng) as [[roll rng']|]; [|done].
  unfold runOp. destruct (Execute exec rng' (SelectOp roll ops)) as [[outcome exec'] rng''].
  pose proof (add_gauge_ok _ _ _ Hok) as Hok1. set (w1 := add_calls _ w) in *.
  assert (call_events w1.(w_calls) = call_events w.(w_calls)) as Hce.
  { cbn [w1 add_calls w_calls]. by rewrite call_events_app, app_nil_r. }
  destruct outcome as [err|]; [|done].
  cbn [length] in Hb.
  destruct (account_ok _ _ _ (Seconds it.(it_elapsed)) it.(it_ctxErr) err _ Hok1 (SelectOp_in roll ops Hne))
    as (w2 & -> & Hok2 & Hlen).
  { rewrite Hce. lia. }
  case_match; [done|]. apply IH; [done|]. rewrite Hce in Hlen. rewrite length_app in *. lia.
Qed.

(** More passes carry on where the loop got to. *)
Definition resume (its : list iteration) (r : worker_result (E := E) (R := R)) : worker_result :=
  match r with
  | Running w exec rng => worker_loop thinkTime ops its exec rng w
  | r => r
  end.

Lemma worker_loop_app its its' (exec : E) (rng : R) w :
  worker_loop thinkTime ops (its ++ its') exec rng w = resume its' (worker_loop thinkTime ops its exec rng w).
Proof.
  revert exec rng w. induction its as [|it its IH]; intros exec rng w; [done|].
  rewrite <- app_comm_cons. cbn [worker_loop]. case_match; [done|].
  destruct (Intn 100 rng) as [[roll rng']|]; [|done].
  destruct (runOp exec rng' (SelectOp roll ops)) as [[[outcome exec'] rng''] g].
  destruct outcome as [err|]; [|done].
  destruct (account _ _ _ _ _) as [w'|]; [|done]. case_match; [done|]. apply IH.
Qed.

(** What follows a pass that found the context done does not matter. *)
Lemma worker_loop_stops (pre : list iteration) it post post' (exec : E) (rng : R) w :
  it.(it_done) = true →
  worker_loop thinkTime ops (pre ++ it :: post) exec rng w
    = worker_loop thinkTime ops (pre ++ it :: post') exec rng w
  ∧ ∀ w' e' r', worker_loop thinkTime ops (pre ++ it :: post) exec rng w ≠ Running w' e' r'.
Proof.
  intros Hd. revert exec rng w. induction pre as [|p pre IH]; intros exec rng w.
  { rewrite !app_nil_l. cbn [worker_loop]. by rewrite Hd. }
  rewrite <- !app_comm_cons. cbn [worker_loop]. case_match; [done|].
  destruct (Intn 100 rng) as [[roll rng']|]; [|done].
  destruct (runOp exec rng' (SelectOp roll ops)) as [[[outcome exec'] rng''] g].
  destruct outcome as [err|]; [|done].
  destruct (account _ _ _ _ _) as [w'|]; [|done]. case_match; [done|]. apply IH.
Qed.

Context `{!RandOk R} (ok : E → Prop) `{!ExecutorOk E R (OpNames ops) ok}.

Lemma worker_loop_no_crash (its : list iteration) (exec : E) (rng : R) h0 w :
  ok exec → worker_ok (OpNames ops) h0 w →
  Z.of_nat (length (h0 ++ call_events w.(w_calls)) + length its) < int64_max →
  ∀ w', worker_loop thinkTime ops its exec rng w ≠ Crashed w'.
Proof.
  revert exec rng w. induction its as [|it its IH]; intros exec rng w Hex Hok Hb w'; [done|].
  cbn [worker_loop]. case_match; [done|].
  destruct (Intn_pos 100 rng ltac:(lia)) as (roll & rng' & -> & _).
  pose proof (SelectOp_in roll ops Hne) as Hop.
  destruct (Execute_returns exec rng' (SelectOp roll ops) Hex Hop) as (err & exec' & rng'' & Hexec & Hex').
  unfold runOp. rewrite Hexec. pose proof (add_gauge_ok _ _ _ Hok) as Hok1.
  set (w1 := add_calls _ w) in *.
  assert (call_events w1.(w_calls) = call_events w.(w_calls)) as Hce.
  { cbn [w1 add_calls w_calls]. by rewrite call_events_app, app_nil_r. }
  cbn [length] in Hb.
  destruct (account_ok _ _ _ (Seconds it.(it_elapsed)) it.(it_ctxErr) err _ Hok1 Hop)
    as (w2 & -> & Hok2 & Hlen).
  { rewrite Hce. lia. }
  case_match; [done|]. apply IH; [done|done|]. rewrite Hce in Hlen. rewrite length_app in *. lia.
Qed.
End loop.

(** An executor for the witnesses: it replays a list of outcomes, then
    succeeds. *)
Definition replay : Type := list (option error).

#[export] Instance replay_executor {R} : Executor replay R := λ e r _,
  match e with [] => (Returned None, [], r) | err :: e => (Returned err, e, r) end.

#[export] Instance replay_ok {R} names : ExecutorOk replay R names (λ _, True).
Proof. split. intros [|err e] r op _ _; eexists _, _, _; done. Qed.

Definition sample_mix : list WeightedOp := [mkWeightedOp "insert" 60; mkWeightedOp "read" 40].

Definition sample_outcomes : replay :=
  [None; Some errSkipped; Some (wrapf "read simple" context_Canceled); Some (ErrNew "deadlock")].

Definition sample_its : list iteration :=
  [mkIteration false (3 * Millisecond) false false; mkIteration false 0 false false;
   mkIteration false (2 * Millisecond) true false; mkIteration false (5 * Millisecond) true false;
   mkIteration true 0 true true].

Definition fresh_worker (ops : list WeightedOp) : worker :=
  mkWorker (newWorkerStats (OpNames ops)) [] [] [].

Lemma fresh_worker_ok ops : worker_ok (OpNames ops) [] (fresh_worker ops).
Proof. split; [|done]. cbn. unfold newWorkerStats. by rewrite zero_stats_by_op. Qed.

(** C8: Prometheus and the run's own statistics describe the same population.
    Whatever the executor does, panic included, and whatever the random source
    draws, at every point of a worker's life the window of statistics is
    exactly the statistics of the operations reported on the Prometheus
    counters and histogram (each counted once, failures without a latency), and
    the gauge of active workers is back to where it was. *)
Theorem worker_accounting {E R} `{Executor E R} `{Rand R} (cfg : Config) (ops : list WeightedOp)
    (its : list iteration) (exec : E) (rng : R) :
  ops ≠ [] → Z.of_nat (length its) < int64_max →
  let w := result_worker (RunWorker cfg ops its exec rng (newWorkerStats (OpNames ops))) in
  w.(w_stats) = mkWorkerStats (by_op (OpNames ops) (call_events w.(w_calls)))
  ∧ gauge w.(w_calls) = 0.
Proof.
  intros Hne Hb. cbv zeta. unfold RunWorker.
  destruct (worker_loop_ok (cfg.(ThinkTimeMs) *! Millisecond) ops Hne its exec rng [] _
    (fresh_worker_ok ops)) as [Hs Hg]; [cbn; lia|].
  split; [exact Hs|exact Hg].
Qed.

Lemma worker_accounting_witness :
  let w := result_worker (RunWorker default_config sample_mix sample_its sample_outcomes [7; 80; 3; 99]
             (newWorkerStats (OpNames sample_mix))) in
  length (call_events w.(w_calls)) = 2%nat ∧
  w.(w_stats) = mkWorkerStats (by_op (OpNames sample_mix) (call_events w.(w_calls)))
  ∧ gauge w.(w_calls) = 0.
Proof.
  intros w. split; [vm_compute; reflexivity|]. apply worker_accounting; [done|].
  vm_compute. reflexivity.
Defined.

(** C25: a worker never crashes over an executor that returns for the
    operations of its profile: the roll is always drawn, the selected operation
    is always one the window tracks, and the loop ends at the first pass that
    finds the context done, whatever would have come after it. *)
Theorem worker_runs {E R} `{Executor E R} `{RandOk R} (cfg : Config) (ops : list WeightedOp)
    (ok : E → Prop) `{!ExecutorOk E R (OpNames ops) ok}
    (pre : list iteration) (it : iteration) (post : list iteration) (exec : E) (rng : R) :
  ops ≠ [] → ok exec → it.(it_done) = true →
  Z.of_nat (length (pre ++ it :: post)) < int64_max →
  ∃ w, RunWorker cfg ops (pre ++ it :: post) exec rng (newWorkerStats (OpNames ops)) = Finished w
     ∧ RunWorker cfg ops (pre ++ [it]) exec rng (newWorkerStats (OpNames ops)) = Finished w.
Proof.
  intros Hne Hex Hd Hb. unfold RunWorker.
  set (thinkTime := cfg.(ThinkTimeMs) *! Millisecond).
  destruct (worker_loop_stops thinkTime ops pre it post [] exec rng (fresh_worker ops) Hd) as [Heq Hnr].
  pose proof (worker_loop_no_crash thinkTime ops Hne ok (pre ++ it :: post) exec rng [] _
    Hex (fresh_worker_ok ops) Hb) as Hnc.
  unfold fresh_worker in *. rewrite <- Heq.
  destruct (worker_loop thinkTime ops (pre ++ it :: post) exec rng _) as [w|w|w e r].
  - by exists w.
  - by destruct (Hnc w).
  - by destruct (Hnr w e r).
Qed.

Lemma worker_runs_witness :
  ∃ w, RunWorker default_config sample_mix (sample_its ++ [mkIteration false 9 false false])
         sample_outcomes [7; 80; 3; 99] (newWorkerStats (OpNames sample_mix)) = Finished w
     ∧ RunWorker default_config sample_mix sample_its
         sample_outcomes [7; 80; 3; 99] (newWorkerStats (OpNames sample_mix)) = Finished w.
Proof.
  apply (worker_runs default_config sample_mix (λ _ : replay, True)
    (take 4 sample_its) (mkIteration true 0 true true) [mkIteration false 9 false false]
    sample_outcomes [7; 80; 3; 99]); [done|done|done|vm_compute; reflexivity].
Defined.

(** C26: how an outcome is classified.  A skipped operation is only counted as
    skipped.  An operation interrupted by the end of the run (the run's
    context is done and the error is a context error) leaves no trace.  Every
    other outcome is recorded: a success always, a genuine failure even during
    shutdown, a context error (a per-operation timeout) even while the run goes
    on; and exactly the recorded failures are logged. *)
Theorem outcome_classification (names : list string) (h : list event) (op : string) (d : f64)
    (ctxErr : bool) (err : option error) (w : worker) :
  worker_ok names h w → op ∈ names →
  Z.of_nat (length (h ++ call_events w.(w_calls))) < int64_max →
  ∃ w', account op d ctxErr err w = Some w' ∧
  let skipped := match err with Some e => errors_Is e errSkipped = true | None => False end in
  let interrupted := ctxErr = true ∧ ∃ e, err = Some e ∧
    (errors_Is e context_Canceled = true ∨ errors_Is e context_DeadlineExceeded = true) in
  (skipped → w'.(w_calls) = w.(w_calls) ++ RecordSkip op ∧ w'.(w_stats) = w.(w_stats)
             ∧ w'.(w_logs) = w.(w_logs))
  ∧ (¬ skipped → interrupted → w' = w)
  ∧ (¬ skipped → ¬ interrupted →
       call_events w'.(w_calls) = call_events w.(w_calls) ++ [(op, obs_of d err)]
       ∧ w'.(w_stats) = mkWorkerStats (by_op names (h ++ call_events w'.(w_calls)))
       ∧ w'.(w_logs) = w.(w_logs) ++ match err with Some e => [e] | None => [] end).
Proof.
  intros Hok Hop Hb. destruct (account_ok _ _ op d ctxErr err _ Hok Hop Hb) as (w' & Hacc & Hok' & _).
  exists w'. split; [done|]. cbv zeta. unfold account in Hacc.
  destruct err as [e|]; cbn [is_skipped] in Hacc.
  - destruct (errors_Is e errSkipped) eqn:Hsk.
    { injection Hacc as <-. split; [done|]. by split; intros []. }
    split; [done|]. unfold isShutdownCancellation in Hacc.
    destruct (ctxErr && (errors_Is e context_Canceled || errors_Is e context_DeadlineExceeded)) eqn:Hint.
    + injection Hacc as <-. split; [done|]. intros _ []. 
      apply andb_prop in Hint as [-> Hi%orb_prop]. split; [done|]. eauto.
    + split.
      * intros _ (-> & e' & [= <-] & Hi). cbn [andb] in Hint. apply orb_false_elim in Hint as [H1 H2].
        destruct Hi; congruence.
      * intros _ _. apply bind_Some in Hacc as (? & (ws & Hrec & [= <-])%bind_Some & [= <-]).
        split; [|split; [apply Hok'|done]]. cbn [add_log w_calls add_calls].
        by rewrite call_events_app.
  - unfold isShutdownCancellation in Hacc. rewrite andb_false_r in Hacc.
    split; [done|]. split; [by intros _ (_ & e & [=] & _)|]. intros _ _.
    apply bind_Some in Hacc as (? & (ws & Hrec & [= <-])%bind_Some & [= <-]).
    split; [|split; [apply Hok'|cbn; by rewrite app_nil_r]]. cbn [add_log w_calls add_calls].
    by rewrite call_events_app.
Qed.

Lemma outcome_classification_witness :
  ∃ w', account "insert" (f_lit 1 100) true (Some (ErrNew "deadlock")) (fresh_worker sample_mix) = Some w' ∧
    call_events w'.(w_calls) = [("insert"%string, Failure)].
Proof.
  destruct (outcome_classification (OpNames sample_mix) [] "insert" (f_lit 1 100) true
    (Some (ErrNew "deadlock")) (fresh_worker sample_mix)) as (w' & Hacc & _ & _ & Hrec).
  - apply fresh_worker_ok.
  - apply (bool_decide_unpack _). vm_compute. exact I.
  - vm_compute. reflexivity.
  - exists w'. split; [exact Hacc|]. apply Hrec; [by vm_compute|].
    intros (_ & e & [= <-] & [Hc|Hc]); vm_compute in Hc; discriminate.
Defined.
