(* ===== verification/MetricsTypes.v ===== *)
(** * The metric calls are well-typed

    The client library checks the use of a metric only when it happens: a
    repeated or malformed name panics at registration, a wrong number of label
    values at the call.  Here every call the program can make is checked
    against the declarations of Registry.v. *)

From S2P Require Export Worker.

(** What [main] registers besides the pool collector. *)
Definition registered_metrics (createIndexes : bool) : list Metric :=
  Register ++ RegisterTableStats ++ RegisterPGStats
    ++ if createIndexes then RegisterIndexStats else [].

(** All names that reach the registry. *)
Definition registered_names (createIndexes : bool) : list string :=
  (fqName <$> registered_metrics createIndexes) ++ (d_fqName <$> Describe newPoolCollectorWith).

(** The names Prometheus accepts: letters, digits and underscores (colons are
    left to recording rules), not starting with a digit. *)
Definition name_char (c : ascii) : bool :=
  let n := Z.of_N (N_of_ascii c) in
  ((97 <=? n) && (n <=? 122)) || ((65 <=? n) && (n <=? 90)) || ((48 <=? n) && (n <=? 57)) || (n =? 95).

Fixpoint all_chars (s : string) : bool :=
  match s with EmptyString => true | String c s => name_char c && all_chars s end.

Definition valid_name (s : string) : bool :=
  match s with EmptyString => false | String c _ => all_chars s && negb ((48 <=? Z.of_N (N_of_ascii c)) && (Z.of_N (N_of_ascii c) <=? 57)) end.

Definition is_histogram (m : Metric) : Prop :=
  match m.(m_kind) with Histogram _ => True | _ => False end.

(** A call on a registered metric of the right kind, with a value per label. *)
Definition call_ok (ms : list Metric) (c : metric_call) : Prop :=
  match c with
  | Inc m ls => m ∈ ms ∧ m.(m_kind) ∈ [Counter; Gauge] ∧ length ls = length m.(m_labels)
  | Dec m => m ∈ ms ∧ m.(m_kind) = Gauge ∧ m.(m_labels) = []
  | Metrics.Add m ls _ => m ∈ ms ∧ m.(m_kind) = Counter ∧ length ls = length m.(m_labels)
  | SetGauge m ls _ => m ∈ ms ∧ m.(m_kind) = Gauge ∧ length ls = length m.(m_labels)
  | ResetGauge m => m ∈ ms ∧ m.(m_kind) = Gauge
  | ObserveHist m ls _ => m ∈ ms ∧ is_histogram m ∧ length ls = length m.(m_labels)
  end.

(** ** Calls preserved by the delta trackers *)

Section calls.
Context (P : metric_call → Prop).

Lemma add_positive_calls metric labels key v st :
  (∀ d, P (Metrics.Add metric labels d)) → Forall P st.2 → Forall P (add_positive metric labels key v st).2.
Proof.
  intros HP Hst. unfold add_positive. destruct (scan_delta st.1 key v) as [d t]. cbn [snd].
  case_match; [|done]. apply Forall_app. split; [done|]. by constructor.
Qed.

Lemma add_delta_calls metric key v st :
  (∀ d, P (Metrics.Add metric [] d)) → Forall P st.2 → Forall P (add_delta metric key v st).2.
Proof.
  intros HP Hst. unfold add_delta. destruct (stat_delta st.1 key v) as [d t]. cbn [snd].
  apply Forall_app. split; [done|]. by constructor.
Qed.

Lemma add_delta_ms_calls metric key v st :
  (∀ d, P (Metrics.Add metric [] d)) → Forall P st.2 → Forall P (add_delta_ms metric key v st).2.
Proof.
  intros HP Hst. unfold add_delta_ms. destruct (stat_delta st.1 key v) as [d t]. cbn [snd].
  apply Forall_app. split; [done|]. by constructor.
Qed.
End calls.

(** Membership in the constant lists. *)
Ltac registered :=
  unfold registered_metrics, Register, RegisterTableStats, RegisterPGStats, RegisterIndexStats;
  cbn [app]; repeat first [apply list_elem_of_here | apply list_elem_of_further].

Ltac call_ok := first [split; [registered|split; [first [done|set_solver]|done]] | split; [registered|done]].

Section typed.
Context (createIndexes : bool).
Local Notation ok := (call_ok (registered_metrics createIndexes)).

Lemma table_calls t q : Forall ok (collectTableStats t q).1.2.
Proof using.
  unfold collectTableStats. destruct q as [rows|e]; [|by constructor].
  apply (scan_all_invariant (λ st, Forall ok st.2)); [constructor|].
  intros st r Hst. unfold table_body.
  apply add_positive_calls; [intros; call_ok|]. apply add_positive_calls; [intros; call_ok|].
  cbn [snd]. apply Forall_app. split; [done|]. repeat (constructor; [call_ok|]). constructor.
Qed.

Lemma bgwriter_calls t major a : Forall ok (collectBgwriterStats t major a).1.2.
Proof using.
  unfold collectBgwriterStats. case_match.
  - unfold collectBgwriterStatsPG17. destruct (a_checkpointer17 a) as [r|e]; [|constructor].
    destruct (a_bufClean17 a) as [v|e]; cbn [fst].
    all: repeat first [constructor | apply add_delta_ms_calls; [intros; call_ok|]
                      | apply add_delta_calls; [intros; call_ok|]].
  - unfold collectBgwriterStatsPG16. destruct (a_bgwriter16 a) as [r|e]; [|constructor]. cbn [fst].
    repeat first [constructor | apply add_delta_ms_calls; [intros; call_ok|]
                 | apply add_delta_calls; [intros; call_ok|]].
Qed.

Lemma wal_calls t q : Forall ok (collectWALStats t q).1.2.
Proof using.
  unfold collectWALStats. destruct q as [[[[b r] f] w]|e]; [|constructor]. cbn [fst].
  repeat first [constructor | apply add_delta_calls; [intros; call_ok|]].
Qed.

Lemma wait_calls q : Forall ok (collectWaitEventStats q).1.
Proof using.
  unfold collectWaitEventStats. destruct q as [rows|e]; [|constructor].
  apply (scan_all_invariant (Forall ok)); [constructor; [call_ok|constructor]|].
  intros calls r Hc. unfold wait_body. apply Forall_app. split; [done|].
  constructor; [call_ok|constructor].
Qed.

Lemma pg_loop_calls major t ticks : Forall ok (pg_stats_loop major t ticks).1.
Proof using.
  revert t. induction ticks as [|a ticks IH]; intros t; [constructor|].
  cbn [pg_stats_loop]. unfold pg_stats_tick.
  pose proof (bgwriter_calls t major a) as H1.
  destruct (collectBgwriterStats t major a) as [[t1 c1] e1]. cbn [fst snd] in *.
  pose proof (wal_calls t1 (a_wal a)) as H2.
  destruct (collectWALStats t1 (a_wal a)) as [[t2 c2] e2]. cbn [fst snd] in *.
  pose proof (wait_calls (a_waits a)) as H3.
  destruct (collectWaitEventStats (a_waits a)) as [c3 e3]. cbn [fst snd] in *.
  specialize (IH t2). destruct (pg_stats_loop major t2 ticks) as [calls logs]. cbn [fst snd] in *.
  by rewrite !Forall_app.
Qed.

Lemma RecordOp_calls op d err : Forall ok (RecordOp op d err).
Proof using. destruct err; repeat (constructor; [call_ok|]); constructor. Qed.

Lemma RecordSkip_calls op : Forall ok (RecordSkip op).
Proof using. repeat (constructor; [call_ok|]). constructor. Qed.

Lemma worker_calls {E R} `{Executor E R} `{Rand R} thinkTime ops its (exec : E) (rng : R) w :
  Forall ok w.(w_calls) →
  Forall ok (result_worker (worker_loop thinkTime ops its exec rng w)).(w_calls).
Proof using.
  apply (worker_loop_invariant (λ w, Forall ok w.(w_calls))).
  - intros roll d ctxErr err w1 w2 Hw [->|[->|[-> _]]]%account_cases; [|done|];
      apply Forall_app; (split; [done|]); [apply RecordSkip_calls|apply RecordOp_calls].
  - intros w1 Hw. apply Forall_app. split; [done|]. constructor; [call_ok|].
    constructor; [|constructor]. split; [registered|done].
Qed.
End typed.

Lemma index_calls t q : Forall (call_ok (registered_metrics true)) (collectIndexStats t q).1.2.
Proof.
  unfold collectIndexStats. destruct q as [rows|e]; [|by constructor].
  apply (scan_all_invariant (λ st, Forall (call_ok (registered_metrics true)) st.2)); [constructor|].
  intros st r Hst. unfold index_body. apply add_positive_calls; [intros; call_ok|].
  cbn [snd]. apply Forall_app. split; [done|]. constructor; [call_ok|constructor].
Qed.

(** C22: the metrics are used as they are declared.  Whether or not the index
    metrics are registered, all registered names are valid and distinct, those
    of the pool collector included, so no registration panics; and every call
    made by the polling loops and by a worker, in any run, is on a registered
    metric of the right kind with one value per label, so no call panics and
    nothing is counted out of sight.  The index loop, whose metrics are only
    registered with CREATE_INDEXES, only runs then. *)
Theorem metrics_well_typed {E R} `{Executor E R} `{Rand R} (createIndexes : bool) (version : result Z)
    (ticks : list pg_answers) (tables : list (result (Rows table_row) * bool))
    (indexes : list (result (Rows index_row) * bool))
    (cfg : Config) (ops : list WeightedOp) (its : list iteration) (exec : E) (rng : R) (ws : WorkerStats) :
  let ok := call_ok (registered_metrics createIndexes) in
  NoDup (registered_names createIndexes)
  ∧ Forall (λ s, valid_name s = true) (registered_names createIndexes)
  ∧ Forall ok (RunPGStatsLoop version ticks).1
  ∧ Forall ok (RunTableStatsLoop tables).1.2
  ∧ Forall ok (RunIndexStatsLoop (if createIndexes then indexes else [])).1.2
  ∧ Forall ok (result_worker (RunWorker cfg ops its exec rng ws)).(w_calls).
Proof.
  intros ok. split; [|split; [|split; [|split; [|split]]]].
  - destruct createIndexes; apply (bool_decide_unpack _); vm_compute; exact I.
  - destruct createIndexes; apply (bool_decide_unpack _); vm_compute; exact I.
  - apply pg_loop_calls.
  - apply stats_loop_calls; [apply table_calls|constructor].
  - destruct createIndexes; [|constructor]. apply stats_loop_calls; [apply index_calls|constructor].
  - apply worker_calls. constructor.
Qed.
