(* ===== verification/Actors.v ===== *)
(** * workload/actors.go: the bounded user and actor populations

    The two pools are filled once with fresh UUIDs; [uuid.New] belongs to
    google/uuid and its results are an argument, a stream of ids. *)

From S2P Require Export Ring.

Record actor_pools := mkActorPools { userPool : list UUID; actorPool : list UUID }.

(** [make([]uuid.UUID, n)], which may panic ([None]), filled with the next [n]
    ids. *)
Definition fill_pool (n : Z) (fresh : nat → UUID) (from : nat) : option (list UUID) :=
  k ← make_len uuid_size n;
  Some (fresh <$> seq from k).

(** [InitActorPools]; [fresh i] is the result of the [i]-th [uuid.New]. *)
Definition InitActorPools (userPoolSize actorPoolSize : Z) (fresh : nat → UUID)
    : option actor_pools :=
  users ← fill_pool userPoolSize fresh 0;
  actors ← fill_pool actorPoolSize fresh (Z.to_nat userPoolSize);
  Some (mkActorPools users actors).

(** An element of a pool at a uniform index; [None] is a panic. *)
Definition pick {A R} `{Rand R} (pool : list A) (rng : R) : option (A * R) :=
  '(i, rng) ← Intn (Z.of_nat (length pool)) rng;
  id ← pool !! Z.to_nat i;
  Some (id, rng).

Definition pickUser {R} `{Rand R} (p : actor_pools) (rng : R) : option (UUID * R) :=
  pick p.(userPool) rng.

Definition pickActor {R} `{Rand R} (p : actor_pools) (rng : R) : option (UUID * R) :=
  pick p.(actorPool) rng.

Definition pools_ready (p : actor_pools) : Prop := p.(userPool) ≠ [] ∧ p.(actorPool) ≠ [].

Lemma InitActorPools_ready users actors fresh :
  1 ≤ users ≤ 2 ^ 44 → 1 ≤ actors ≤ 2 ^ 44 →
  ∃ p, InitActorPools users actors fresh = Some p ∧ pools_ready p
    ∧ length p.(userPool) = Z.to_nat users ∧ length p.(actorPool) = Z.to_nat actors.
Proof.
  intros Hu Ha. unfold InitActorPools, fill_pool.
  rewrite !make_len_some by (unfold uuid_size, max_alloc; lia). cbn [mbind option_bind].
  eexists. split; [done|]. unfold pools_ready. cbn [userPool actorPool].
  rewrite !length_fmap, !length_seq. split; [|done].
  destruct (Z.to_nat users) eqn:?, (Z.to_nat actors) eqn:?; [lia..|]. done.
Qed.

Lemma pick_member {A R} `{RandOk R} (pool : list A) (rng : R) :
  pool ≠ [] → ∃ id rng', pick pool rng = Some (id, rng') ∧ id ∈ pool.
Proof.
  intros Hne. unfold pick.
  destruct (Intn_pos (Z.of_nat (length pool)) rng) as (i & rng' & -> & Hi).
  { destruct pool; [done|]. simpl. lia. }
  cbn [mbind option_bind].
  destruct (lookup_lt_is_Some_2 pool (Z.to_nat i)) as [id Hid]; [lia|].
  rewrite Hid. cbn [mbind option_bind]. eexists _, _. split; [done|].
  by eapply list_elem_of_lookup_2.
Qed.
