(* ===== verification/Payload.v ===== *)
(** * workload/payload.go: payloads on the write path

    Payloads are copies of pre-built templates in which one 16 digit field is
    rewritten with random hex digits.  The templates are built at start-up and
    never change afterwards. *)

From S2P Require Export GoText.
From S2P Require Export GoRand.

(** [[]byte] *)
Notation bytes := (list ascii).

Fixpoint of_string (s : string) : bytes :=
  match s with EmptyString => [] | String c s => c :: of_string s end.

Definition templatePoolSize : Z := 100.

(** A pool of templates with the offsets of their mutable fields. *)
Record pool := mkPool { templates : list bytes; offsets : list Z }.

(** The template pools and [toastPct]. *)
Record payloads := mkPayloads {
  sessionPool : pool;
  eventPool : pool;
  auditPool : pool;
  smallPayloadPool : pool;
  smallAuditPool : pool;
  toastPct : Z;
}.

Definition SetToastPct (pct : Z) (p : payloads) : payloads :=
  mkPayloads p.(sessionPool) p.(eventPool) p.(auditPool) p.(smallPayloadPool) p.(smallAuditPool) pct.

(** ** Finding the mutable field *)

Fixpoint has_prefix (p s : bytes) : bool :=
  match p, s with
  | [], _ => true
  | x :: p, y :: s => bool_decide (x = y) && has_prefix p s
  | _ :: _, [] => false
  end.

(** [bytes.Index]: the first occurrence, or -1. *)
Fixpoint Index (s sep : bytes) : Z :=
  if has_prefix sep s then 0
  else match s with
       | [] => -1
       | _ :: s => let i := Index s sep in if i <? 0 then -1 else i + 1
       end.

Definition find_marker (marker data : bytes) : Z :=
  let idx := Index data marker in
  if idx <? 0 then -1 else idx +! Z.of_nat (length marker).

Definition quote_char : ascii := ascii_of_nat 34.

(** The bytes of [str] between double quotes. *)
Definition quoted (str : string) : bytes := quote_char :: of_string str ++ [quote_char].

Definition traceIDMarker : bytes := quoted "trace_id" ++ of_string ":" ++ [quote_char].
Definition nonceMarker : bytes := quoted "_nonce" ++ of_string ":" ++ [quote_char].

Definition findTraceIDOffset (data : bytes) : Z := find_marker traceIDMarker data.
Definition findAuditNonceOffset (data : bytes) : Z := find_marker nonceMarker data.

(** ** The write path *)

Definition hexChars : list ascii := of_string "0123456789abcdef".

(** [%016x] of a non-negative 64-bit number. *)
Definition hex_digit (d : Z) : ascii := default "0"%char (hexChars !! Z.to_nat d).

Fixpoint hex_digits (n : nat) (z : Z) (acc : string) : string :=
  match n with
  | O => acc
  | S n => hex_digits n (Z.shiftr z 4) (String (hex_digit (Z.land z 15)) acc)
  end.

Definition fmt_016x (z : Z) : string := hex_digits 16 z "".

Section rng.
Context {R : Type} `{Rand R}.

(** [isLarge]: whether a write gets a large payload; [None] is a panic. *)
Definition isLarge (p : payloads) (rng : R) : option (bool * R) :=
  '(roll, rng) ← Intn 100 rng; Some (roll <? p.(toastPct), rng).

(** The loop that rewrites [n] bytes from index [i] on. *)
Fixpoint rewrite_hex (n : nat) (i : nat) (buf : bytes) (rng : R) : option (bytes * R) :=
  match n with
  | O => Some (buf, rng)
  | S n =>
      '(d, rng) ← Intn 16 rng;
      c ← hexChars !! Z.to_nat d;
      if decide (i < length buf)%nat then rewrite_hex n (S i) (<[i := c]> buf) rng else None
  end.

(** [mutatedPayload]: [None] is a panic (a draw or an index out of range). *)
Definition mutatedPayload (p : pool) (rng : R) : option (bytes * R) :=
  '(idx, rng) ← Intn templatePoolSize rng;
  buf ← p.(templates) !! Z.to_nat idx;
  offset ← p.(offsets) !! Z.to_nat idx;
  if (0 <=? offset) && (offset +! 16 <=? Z.of_nat (length buf))
  then rewrite_hex 16 (Z.to_nat offset) buf rng
  else Some (buf, rng).

Definition sized_payload (p : payloads) (large small : pool) (rng : R) : option (bytes * R) :=
  '(l, rng) ← isLarge p rng;
  mutatedPayload (if (l : bool) then large else small) rng.

Definition GetSessionPayload (p : payloads) (rng : R) : option (bytes * R) :=
  sized_payload p p.(sessionPool) p.(smallPayloadPool) rng.

Definition GetEventPayload (p : payloads) (rng : R) : option (bytes * R) :=
  sized_payload p p.(eventPool) p.(smallPayloadPool) rng.

Definition GetAuditDiff (p : payloads) (rng : R) : option (bytes * R) :=
  sized_payload p p.(auditPool) p.(smallAuditPool) rng.
End rng.

(** ** The search for the marker *)

Lemma has_prefix_spec p s : has_prefix p s = true ↔ ∃ k, s = p ++ k.
Proof.
  revert s. induction p as [|x p IH]; intros s; simpl.
  - split; [by exists s|done].
  - destruct s as [|y s]; [split; [done|by intros [k [=]]]|].
    rewrite andb_true_iff, bool_decide_eq_true, IH. split.
    + intros [-> [k ->]]. by exists k.
    + intros [k [= -> ->]]. split; [done|by exists k].
Qed.

(** [bytes.Index] reports the first position at which the marker starts. *)
Lemma Index_first pre sep post :
  (∀ pre1 pre2, pre = pre1 ++ pre2 → pre2 ≠ [] → has_prefix sep (pre2 ++ sep ++ post) = false) →
  Index (pre ++ sep ++ post) sep = Z.of_nat (length pre).
Proof.
  induction pre as [|x pre IH]; intros Hno.
  - rewrite app_nil_l. assert (has_prefix sep (sep ++ post) = true) as Hp
      by (apply has_prefix_spec; by exists post).
    destruct (sep ++ post) eqn:He; cbn [Index]; by rewrite Hp.
  - rewrite <- app_comm_cons. cbn [Index]. rewrite app_comm_cons.
    rewrite (Hno [] (x :: pre) eq_refl ltac:(done)), IH.
    + destruct (Z.ltb_spec (Z.of_nat (length pre)) 0); [lia|]. cbn [length]. lia.
    + intros pre1 pre2 -> Hne. by apply (Hno (x :: pre1)).
Qed.

Lemma Index_range s sep : -1 ≤ Index s sep.
Proof.
  induction s as [|x s IH]; simpl; case_match; try lia.
  destruct (Z.ltb_spec (Index s sep) 0); lia.
Qed.

Lemma Index_none s sep : Index s sep = -1 → ∀ k j, s ≠ k ++ sep ++ j.
Proof.
  induction s as [|x s IH]; intros Hi k j Hs; cbn [Index] in Hi.
  - destruct k, sep; simplify_eq/=.
  - destruct (has_prefix sep (x :: s)) eqn:Hp; [done|].
    destruct k as [|y k].
    + assert (has_prefix sep (x :: s) = true); [|congruence].
      apply has_prefix_spec. by exists j.
    + injection Hs as <- Hs. pose proof (Index_range s sep).
      destruct (Z.ltb_spec (Index s sep) 0); [|lia]. by apply (IH ltac:(lia) k j).
Qed.

Lemma Index_found s sep i :
  Index s sep = i → 0 ≤ i → ∃ post, s = take (Z.to_nat i) s ++ sep ++ post.
Proof.
  revert i. induction s as [|x s IH]; intros i Hi Hnn; cbn [Index] in Hi.
  - destruct (has_prefix sep []) eqn:Hp; [|lia].
    apply has_prefix_spec in Hp as [k Hk]. subst i. by exists k.
  - destruct (has_prefix sep (x :: s)) eqn:Hp.
    + apply has_prefix_spec in Hp as [k Hk]. subst i. exists k. by rewrite Hk.
    + pose proof (Index_range s sep). destruct (Z.ltb_spec (Index s sep) 0); [lia|].
      destruct (IH (Index s sep) eq_refl ltac:(lia)) as [post Hpost].
      exists post. subst i. replace (Z.to_nat (Index s sep + 1)) with (S (Z.to_nat (Index s sep))) by lia.
      cbn [take app]. by rewrite <- Hpost.
Qed.

(** ** What a mutated payload is *)

Definition is_hex (c : ascii) : Prop := c ∈ hexChars.

(** [b] is [tmpl] with 16 hex digits in place of the bytes from [offset] on. *)
Definition mutation_of (tmpl : bytes) (offset : nat) (b : bytes) : Prop :=
  ∃ digits, length digits = 16%nat ∧ Forall is_hex digits
    ∧ b = take offset tmpl ++ digits ++ drop (offset + 16) tmpl.

Section spec.
Context {R : Type} `{RandOk R}.

Lemma rewrite_hex_ok n i buf (rng : R) :
  (i + n ≤ length buf)%nat →
  ∃ digits rng', rewrite_hex n i buf rng
      = Some (take i buf ++ digits ++ drop (i + n) buf, rng')
    ∧ length digits = n ∧ Forall is_hex digits.
Proof.
  revert i buf rng. induction n as [|n IH]; intros i buf rng Hle; cbn [rewrite_hex].
  { exists [], rng. rewrite Nat.add_0_r, app_nil_l, take_drop. done. }
  destruct (Intn_pos 16 rng ltac:(lia)) as (d & rng1 & -> & Hd). cbn [mbind option_bind].
  destruct (lookup_lt_is_Some_2 hexChars (Z.to_nat d)) as [c Hc]; [cbn; lia|].
  rewrite Hc. cbn [mbind option_bind]. rewrite decide_True by lia.
  destruct (IH (S i) (<[i:=c]> buf) rng1) as (digits & rng2 & -> & Hlen & Hhex).
  { rewrite length_insert. lia. }
  exists (c :: digits), rng2. split; [|split; [simpl; lia|constructor; [|done]]].
  - rewrite (take_S_r _ _ c) by (apply list_lookup_insert_eq; lia).
    rewrite take_insert_ge, drop_insert_lt by lia.
    replace (i + S n)%nat with (S i + n)%nat by lia. by rewrite <- app_assoc.
  - by eapply list_elem_of_lookup_2.
Qed.

(** The pools the start-up code leaves behind. *)
Record pool_ok (p : pool) : Prop := {
  pool_size : length p.(templates) = 100%nat;
  pool_offsets : length p.(offsets) = 100%nat;
  pool_fields : ∀ i t o, p.(templates) !! i = Some t → p.(offsets) !! i = Some o →
    0 ≤ o ∧ o + 16 ≤ Z.of_nat (length t) ≤ int64_max;
}.

Lemma mutatedPayload_ok p (rng : R) :
  pool_ok p → ∃ i tmpl o b rng', p.(templates) !! i = Some tmpl ∧ p.(offsets) !! i = Some o
    ∧ mutatedPayload p rng = Some (b, rng')
    ∧ mutation_of tmpl (Z.to_nat o) b ∧ (Z.to_nat o + 16 ≤ length tmpl)%nat.
Proof.
  intros [Ht Ho Hf]. unfold mutatedPayload.
  destruct (Intn_pos templatePoolSize rng ltac:(done)) as (i & rng1 & -> & Hi).
  unfold templatePoolSize in Hi. cbn [mbind option_bind].
  destruct (lookup_lt_is_Some_2 p.(templates) (Z.to_nat i)) as [tmpl Htm]; [lia|].
  destruct (lookup_lt_is_Some_2 p.(offsets) (Z.to_nat i)) as [o Hoff]; [lia|].
  destruct (Hf _ _ _ Htm Hoff) as [Ho0 Ho1]. exists (Z.to_nat i), tmpl, o.
  rewrite Htm. cbn [mbind option_bind]. rewrite Hoff. cbn [mbind option_bind].
  rewrite wrap64_small by lia.
  rewrite (proj2 (Z.leb_le 0 o)), (proj2 (Z.leb_le _ _)) by lia. cbn [andb].
  destruct (rewrite_hex_ok 16 (Z.to_nat o) tmpl rng1) as (digits & rng2 & -> & Hlen & Hhex); [lia|].
  eexists _, rng2. split; [done|]. split; [done|]. split; [done|]. split; [|lia]. by exists digits.
Qed.

Record payloads_ok (p : payloads) : Prop := {
  ok_session : pool_ok p.(sessionPool);
  ok_event : pool_ok p.(eventPool);
  ok_audit : pool_ok p.(auditPool);
  ok_smallPayload : pool_ok p.(smallPayloadPool);
  ok_smallAudit : pool_ok p.(smallAuditPool);
}.

Lemma sized_payload_ok p large small (rng : R) :
  pool_ok large → pool_ok small → ∃ tmpl offset b rng',
    tmpl ∈ large.(templates) ++ small.(templates) ∧ sized_payload p large small rng = Some (b, rng')
    ∧ mutation_of tmpl offset b ∧ (offset + 16 ≤ length tmpl)%nat.
Proof.
  intros Hl Hs. unfold sized_payload, isLarge.
  destruct (Intn_pos 100 rng ltac:(lia)) as (roll & rng1 & -> & _). cbn [mbind option_bind].
  destruct (roll <? toastPct p).
  - destruct (mutatedPayload_ok large rng1 Hl) as (i & tm & o & b & rng2 & Hin & _ & -> & Hm & Hle).
    apply list_elem_of_lookup_2 in Hin. exists tm, (Z.to_nat o), b, rng2. split; [set_solver|done].
  - destruct (mutatedPayload_ok small rng1 Hs) as (i & tm & o & b & rng2 & Hin & _ & -> & Hm & Hle).
    apply list_elem_of_lookup_2 in Hin. exists tm, (Z.to_nat o), b, rng2. split; [set_solver|done].
Qed.
End spec.
