(* ===== verification/PayloadText.v ===== *)
(** * The JSON text of payload documents

    workload/payload.go builds its templates as maps of strings, numbers,
    lists and maps and marshals them with encoding/json: no blanks, the keys
    of a map in ascending order, strings escaped.  The text of a float is that
    of encoding/json and is a parameter; a NaN or infinite float has none.
    The marker of the mutable field is searched in the text; [clean] says where
    it cannot occur. *)

From S2P Require Export Payload.

(** A map is the list of its entries, with distinct keys. *)
Inductive value :=
  | VString (s : bytes)
  | VInt (n : Z)
  | VFloat (f : f64)
  | VList (l : list value)
  | VMap (l : list (string * value)).

(** ** Strings *)

Definition code (c : ascii) : Z := Z.of_N (N_of_ascii c).
Definition backslash : ascii := ascii_of_nat 92.

(** One character of a string; the characters beyond ASCII, which no string
    of the program has, are taken as they are. *)
Definition escape_char (c : ascii) : bytes :=
  let n := code c in
  if (n =? 34) || (n =? 92) then [backslash; c]
  else if n =? 8 then [backslash; "b"%char]
  else if n =? 12 then [backslash; "f"%char]
  else if n =? 10 then [backslash; "n"%char]
  else if n =? 13 then [backslash; "r"%char]
  else if n =? 9 then [backslash; "t"%char]
  else if (n <? 32) || (n =? 60) || (n =? 62) || (n =? 38)
  then backslash :: of_string "u00" ++ [hex_digit (Z.shiftr n 4); hex_digit (Z.land n 15)]
  else [c].

Definition marshal_string (s : bytes) : bytes :=
  quote_char :: mjoin (escape_char <$> s) ++ [quote_char].

(** ** Lists and maps *)

Fixpoint join (l : list bytes) : bytes :=
  match l with
  | [] => []
  | [x] => x
  | x :: l => x ++ ","%char :: join l
  end.

Definition array (items : list bytes) : bytes := "["%char :: join items ++ ["]"%char].

Definition entry (kv : string * bytes) : bytes :=
  marshal_string (of_string kv.1) ++ ":"%char :: kv.2.

Definition key_le (a b : string * bytes) : Prop := String.le a.1 b.1.

#[export] Instance key_le_dec a b : Decision (key_le a b).
Proof. unfold key_le. apply _. Defined.

Definition object (items : list (string * bytes)) : bytes :=
  "{"%char :: join (entry <$> merge_sort key_le items) ++ ["}"%char].

Section text.
Context (float_text : f64 → bytes).

Definition marshal_float (f : f64) : option bytes :=
  match f with S754_nan | S754_infinity _ => None | _ => Some (float_text f) end.

(** [json.Marshal]; [None] is its error. *)
Fixpoint Marshal (v : value) : option bytes :=
  match v with
  | VString s => Some (marshal_string s)
  | VInt n => Some (of_string (fmt_d n))
  | VFloat f => marshal_float f
  | VList l =>
      let fix items (l : list value) : option (list bytes) :=
        match l with
        | [] => Some []
        | x :: l => s ← Marshal x; r ← items l; Some (s :: r)
        end in
      array <$> items l
  | VMap l =>
      let fix items (l : list (string * value)) : option (list (string * bytes)) :=
        match l with
        | [] => Some []
        | (k, x) :: l => s ← Marshal x; r ← items l; Some ((k, s) :: r)
        end in
      object <$> items l
  end.

Definition marshal_entry (kv : string * value) : option (string * bytes) :=
  s ← Marshal kv.2; Some (kv.1, s).

Lemma Marshal_list l : Marshal (VList l) = array <$> mapM Marshal l.
Proof. reflexivity. Qed.

Lemma Marshal_map l : Marshal (VMap l) = object <$> mapM marshal_entry l.
Proof.
  cbn [Marshal]. f_equal. induction l as [|[k x] l IH]; [done|]. cbn [mapM]. rewrite IH.
  unfold marshal_entry. cbn [fst snd]. by destruct (Marshal x).
Qed.

(** ** Plain documents

    The characters that stand for themselves in a JSON string. *)

Definition plain_char (c : ascii) : bool :=
  let n := code c in
  (32 <=? n) && (n <? 127) && negb ((n =? 34) || (n =? 92) || (n =? 60) || (n =? 62) || (n =? 38)).

Notation plain s := (Forall (λ c, plain_char c = true) s).

Lemma escape_plain s : plain s → mjoin (escape_char <$> s) = s.
Proof.
  induction 1 as [|c s Hc _ IH]; [done|]. rewrite fmap_cons. change (mjoin (?x :: ?l)) with (x ++ mjoin l).
  rewrite IH. unfold plain_char in Hc. unfold escape_char.
  destruct (Z.leb_spec 32 (code c)); [|done]. cbn [andb] in Hc.
  apply andb_prop in Hc as [_ Hc]. apply negb_true_iff in Hc.
  apply orb_false_iff in Hc as [Hc H38]. apply orb_false_iff in Hc as [Hc H62].
  apply orb_false_iff in Hc as [Hc H60]. rewrite Hc, H60, H62, H38.
  rewrite !(proj2 (Z.eqb_neq (code c) _)) by lia.
  rewrite (proj2 (Z.ltb_ge (code c) 32)) by lia. done.
Qed.

Lemma marshal_plain s : plain s → marshal_string s = quote_char :: s ++ [quote_char].
Proof. intros Hs. unfold marshal_string. by rewrite escape_plain. Qed.

Lemma plain_not_quote s : plain s → Forall (λ c, c ≠ quote_char) s.
Proof. intros Hs. eapply Forall_impl; [exact Hs|]. intros c Hc ->. done. Qed.
End text.

Notation plain s := (Forall (λ c, plain_char c = true) s).

(** ** Where the marker cannot occur

    [clean m a rest]: the marker [m] starts nowhere in [a], read in front of
    [rest]. *)

Definition clean (m a rest : bytes) : Prop :=
  ∀ a1 a2, a = a1 ++ a2 → a2 ≠ [] → has_prefix m (a2 ++ rest) = false.

Lemma clean_nil m rest : clean m [] rest.
Proof. intros a1 a2 H Hne. by destruct a1, a2. Qed.

Lemma clean_app m a b rest : clean m a (b ++ rest) → clean m b rest → clean m (a ++ b) rest.
Proof.
  intros Ha Hb c1 c2 Hc Hne.
  apply app_eq_app in Hc as (k & [[-> ->]|[-> ->]]); [|by apply (Hb k c2)].
  destruct k as [|x k]; [by apply (Hb [] b)|]. rewrite <- app_assoc. by apply (Ha c1).
Qed.

Lemma clean_unquoted m a rest :
  Forall (λ c, c ≠ quote_char) a → clean (quote_char :: m) a rest.
Proof.
  intros Ha a1 a2 -> Hne. destruct a2 as [|c a2]; [done|].
  apply Forall_app in Ha as [_ [Hc _]%Forall_cons]. cbn [has_prefix app].
  by rewrite bool_decide_eq_false_2.
Qed.

Lemma clean_cons m c a rest :
  c ≠ quote_char → clean (quote_char :: m) a rest → clean (quote_char :: m) (c :: a) rest.
Proof. intros Hc. apply (clean_app _ [c]). apply clean_unquoted. by constructor. Qed.

(** What follows a string, a number, a list or a map in a document. *)
Definition delimited (rest : bytes) : Prop :=
  match rest with c :: _ => c ∈ [","; ":"; "]"; "}"]%char | [] => False end.

(** A key that no delimiter starts. *)
Definition good_key (key : string) : Prop :=
  plain (of_string key) ∧ match key with String c _ => c ∉ [","; ":"; "]"; "}"]%char | _ => False end.

#[export] Instance good_key_dec key : Decision (good_key key).
Proof. unfold good_key. destruct key; apply _. Defined.

(** The marker of the field [key] whose value is a string. *)
Definition marker (key : string) : bytes := quoted key ++ of_string ":" ++ [quote_char].

Lemma marker_eq key : marker key = quote_char :: (of_string key ++ quote_char :: [":"%char; quote_char]).
Proof. unfold marker, quoted. rewrite <- app_comm_cons, <- app_assoc. done. Qed.

Lemma quoted_prefix (a b x y : bytes) :
  Forall (λ c, c ≠ quote_char) a → Forall (λ c, c ≠ quote_char) b →
  has_prefix (a ++ quote_char :: x) (b ++ quote_char :: y) = true → a = b ∧ has_prefix x y = true.
Proof.
  intros Ha. revert b. induction Ha as [|c a Hc _ IH]; intros b Hb; destruct Hb as [|d b Hd Hb];
    cbn [app has_prefix]; intros [He%bool_decide_eq_true Hp]%andb_prop; subst; try done.
  by apply IH in Hp as [-> Hp].
Qed.

Section clean.
Context (key : string) (Hkey : good_key key).

Lemma clean_string s rest :
  plain s → s ≠ of_string key → delimited rest → clean (marker key) (marshal_string s) rest.
Proof using Hkey.
  intros Hs Hne Hr. rewrite marshal_plain, marker_eq by done. destruct Hkey as [Hk Hhd].
  change (quote_char :: s ++ [quote_char]) with ([quote_char] ++ s ++ [quote_char]).
  apply clean_app; [|apply clean_app; [by apply clean_unquoted, plain_not_quote|]].
  all: intros a1 a2 Ha Ha2.
  - assert (a2 = [quote_char]) as ->.
    { destruct a1 as [|c a1]; [done|]. injection Ha as <- Ha. by destruct a1, a2. }
    apply not_true_is_false. cbn [app has_prefix]. intros [_ Hp]%andb_prop.
    rewrite <- app_assoc in Hp. apply quoted_prefix in Hp as [He _]; [by apply Hne|by apply plain_not_quote..].
  - assert (a2 = [quote_char]) as ->.
    { destruct a1 as [|c a1]; [done|]. injection Ha as <- Ha. by destruct a1, a2. }
    destruct key as [|c k]; [done|]. destruct rest as [|d rest]; [done|].
    cbn [of_string app has_prefix]. rewrite bool_decide_eq_true_2 by done. cbn [andb].
    rewrite bool_decide_eq_false_2; [done|]. intros ->. done.
Qed.

Lemma clean_join items rest :
  (∀ x r, x ∈ items → delimited r → clean (marker key) x r) → delimited rest →
  clean (marker key) (join items) rest.
Proof using Hkey.
  intros Hi Hr. induction items as [|x items IH]; [apply clean_nil|].
  destruct items as [|y items]; [apply Hi; [set_solver|done]|].
  change (join (x :: y :: items)) with (x ++ [","%char] ++ join (y :: items)).
  apply clean_app; [apply Hi; [set_solver|cbn; set_solver]|].
  rewrite marker_eq. apply clean_cons; [done|]. rewrite <- marker_eq.
  apply IH. intros; apply Hi; [set_solver|done].
Qed.

Lemma clean_brackets (o c : ascii) a rest :
  o ≠ quote_char → c ∈ [","; ":"; "]"; "}"]%char → (∀ r, delimited r → clean (marker key) a r) →
  clean (marker key) (o :: a ++ [c]) rest.
Proof using Hkey.
  intros Ho Hc Ha. rewrite marker_eq. apply clean_cons; [done|]. apply clean_app.
  - rewrite <- marker_eq. by apply Ha.
  - apply clean_unquoted. constructor; [|constructor]. intros ->. set_solver.
Qed.

Lemma clean_entry k t rest :
  plain (of_string k) → k ≠ key → (∀ r, delimited r → clean (marker key) t r) → delimited rest →
  clean (marker key) (entry (k, t)) rest.
Proof using Hkey.
  intros Hk Hne Ht Hr. unfold entry. cbn [fst snd].
  apply clean_app.
  - apply clean_string; [done| |cbn; set_solver].
    intros He. apply Hne. clear -He. revert key He. induction k as [|c k IH]; intros [|d l] [=]; [done|].
    subst. f_equal. auto.
  - rewrite marker_eq. apply clean_cons; [done|]. rewrite <- marker_eq. by apply Ht.
Qed.
End clean.

(** ** Documents in which only one field has the marker *)

Lemma value_ind' (P : value → Prop) :
  (∀ s, P (VString s)) → (∀ n, P (VInt n)) → (∀ f, P (VFloat f)) →
  (∀ l, Forall P l → P (VList l)) → (∀ l, Forall (λ kv, P kv.2) l → P (VMap l)) → ∀ v, P v.
Proof.
  intros Hs Hi Hf Hl Hm. fix IH 1. intros [s|n|f|l|l]; [apply Hs|apply Hi|apply Hf| |].
  - apply Hl. induction l as [|x l IHl]; constructor; [apply IH|exact IHl].
  - apply Hm. induction l as [|[k x] l IHl]; constructor; [apply IH|exact IHl].
Qed.

Lemma pretty_digit_plain x : plain_char (pretty_N_char x) = true.
Proof. by destruct x as [|[[[[p|p|]|[p|p|]|]|[[p|p|]|[p|p|]|]|]|[[[p|p|]|[p|p|]|]|[[p|p|]|[p|p|]|]|]|]]. Qed.

Lemma plain_pretty_N x s : plain (of_string s) → plain (of_string (pretty_N_go x s)).
Proof.
  revert s. induction (N.lt_wf_0 x) as [x _ IH]; intros s Hs.
  assert (x = 0 ∨ 0 < x)%N as [->|Hx] by lia; [by rewrite pretty_N_go_0|].
  rewrite pretty_N_go_step by done. apply IH; [apply N.div_lt; lia|].
  cbn [of_string]. constructor; [apply pretty_digit_plain|done].
Qed.

Lemma plain_fmt_d z : plain (of_string (fmt_d z)).
Proof.
  assert (∀ p : positive, plain (of_string (pretty p))) as Hp.
  { intros p. unfold pretty, pretty_positive, pretty, pretty_N. case_decide; [done|].
    apply plain_pretty_N. constructor. }
  unfold fmt_d. destruct z as [|p|p]; [by repeat constructor|apply Hp|].
  change (pretty (Zneg p)) with (String "-" (pretty p)). constructor; [done|apply Hp].
Qed.

(** No string and no key of the value is [key]. *)
Inductive clear (key : string) : value → Prop :=
  | clear_string s : plain s → s ≠ of_string key → clear key (VString s)
  | clear_int n : clear key (VInt n)
  | clear_float f : f_finite f → clear key (VFloat f)
  | clear_list l : Forall (clear key) l → clear key (VList l)
  | clear_map l :
      Forall (λ kv, plain (of_string kv.1) ∧ kv.1 ≠ key ∧ clear key kv.2) l → clear key (VMap l).

(** What marshalling promises about a value. *)
Definition marshals (float_text : f64 → bytes) (key : string) (v : value) (t : bytes) : Prop :=
  Marshal float_text v = Some t ∧ ∀ r, delimited r → clean (marker key) t r.

Section clear.
Context (float_text : f64 → bytes) (Hfloat : ∀ f, plain (float_text f)).
Context (key : string) (Hkey : good_key key).

Lemma mapM_marshals (l : list value) :
  Forall (λ v, ∃ t, marshals float_text key v t) l →
  ∃ ts, mapM (Marshal float_text) l = Some ts ∧ Forall2 (marshals float_text key) l ts.
Proof using.
  intros HF. assert (∃ ts, Forall2 (marshals float_text key) l ts) as [ts Hts].
  { induction HF as [|v l (t & Ht) _ (ts & Hts)]; eexists; by constructor. }
  exists ts. split; [|done]. apply mapM_Some_2. eapply Forall2_impl; [done|]. by intros v t [? _].
Qed.

Lemma mapM_marshal_entry (l : list (string * value)) :
  Forall (λ kv, ∃ t, marshals float_text key kv.2 t) l →
  ∃ ts, mapM (marshal_entry float_text) l = Some ts
    ∧ Forall2 (λ kv kt, kt.1 = kv.1 ∧ marshals float_text key kv.2 kt.2) l ts.
Proof using.
  intros HF.
  assert (∃ ts, Forall2 (λ (kv : string * value) (kt : string * bytes),
    kt.1 = kv.1 ∧ marshals float_text key kv.2 kt.2) l ts) as [ts Hts].
  { induction HF as [|[k v] l (t & Ht) _ (ts & Hts)]; [by exists []|].
    exists ((k, t) :: ts). by constructor. }
  exists ts. split; [|done]. apply mapM_Some_2. eapply Forall2_impl; [done|].
  intros [k v] [k' t] [Hk [Hm _]]. cbn [fst snd] in *. subst k'. unfold marshal_entry. cbn [fst snd].
  by rewrite Hm.
Qed.

(** Such a value has a text, in which the marker does not occur. *)
Lemma clear_marshals v : clear key v → ∃ t, marshals float_text key v t.
Proof using All.
  induction v as [s|n|f|l IH|l IH] using value_ind'; intros Hv; inversion Hv; subst.
  - eexists. split; [done|]. intros r. by apply clean_string.
  - eexists. split; [done|]. intros r _. rewrite marker_eq.
    apply clean_unquoted, plain_not_quote, plain_fmt_d.
  - exists (float_text f). split; [by destruct f|]. intros r _. rewrite marker_eq.
    by apply clean_unquoted, plain_not_quote.
  - destruct (mapM_marshals l) as (ts & Hts & HF).
    { rewrite Forall_forall in IH, H0 |- *. eauto. }
    exists (array ts). split; [by rewrite Marshal_list, Hts|]. intros r Hr.
    apply clean_brackets; [done|done|set_solver|]. intros r' Hr'. apply clean_join; [done| |done].
    intros x r'' Hx Hr''. apply list_elem_of_lookup in Hx as [i Hi].
    destruct (Forall2_lookup_r _ _ _ _ _ HF Hi) as (v & _ & _ & Hc). by apply Hc.
  - destruct (mapM_marshal_entry l) as (ts & Hts & HF).
    { rewrite Forall_forall in IH, H0 |- *. intros kv Hkv. apply IH; [done|]. by apply H0. }
    exists (object ts). split; [by rewrite Marshal_map, Hts|]. intros r Hr.
    apply clean_brackets; [done|done|set_solver|]. intros r' Hr'. apply clean_join; [done| |done].
    intros x r'' (kt & -> & Hkt)%list_elem_of_fmap Hr''.
    rewrite merge_sort_Permutation in Hkt. apply list_elem_of_lookup in Hkt as [i Hi].
    destruct (Forall2_lookup_r _ _ _ _ _ HF Hi) as ([k v] & Hkv & Hk & _ & Hc). cbn [fst snd] in *.
    destruct kt as [k' t]. cbn [fst snd] in *. subst k'.
    rewrite Forall_forall in H0. destruct (H0 (k, v)) as (Hp & Hne & _); [by eapply list_elem_of_lookup_2|].
    apply clean_entry; done.
Qed.
End clear.

(** ** The size of a text *)

Fixpoint text_size (float_text : f64 → bytes) (v : value) : Z :=
  match v with
  | VString s => Z.of_nat (length s) + 2
  | VInt n => Z.of_nat (length (of_string (fmt_d n)))
  | VFloat f => Z.of_nat (length (float_text f))
  | VList l =>
      let fix items (l : list value) : Z :=
        match l with [] => 0 | x :: l => text_size float_text x + items l end in
      items l + Z.max 0 (Z.of_nat (length l) - 1) + 2
  | VMap l =>
      let fix items (l : list (string * value)) : Z :=
        match l with
        | [] => 0
        | (k, x) :: l => Z.of_nat (length (of_string k)) + 3 + text_size float_text x + items l
        end in
      items l + Z.max 0 (Z.of_nat (length l) - 1) + 2
  end.

Definition entry_size (float_text : f64 → bytes) (kv : string * value) : Z :=
  Z.of_nat (length (of_string kv.1)) + 3 + text_size float_text kv.2.

Notation len l := (Z.of_nat (length l)).

Lemma text_size_list ft l :
  text_size ft (VList l) = sum_list_Z (text_size ft <$> l) + Z.max 0 (len l - 1) + 2.
Proof. cbn [text_size]. do 2 f_equal. induction l as [|x l IH]; [done|]. by rewrite IH. Qed.

Lemma text_size_map ft l :
  text_size ft (VMap l) = sum_list_Z (entry_size ft <$> l) + Z.max 0 (len l - 1) + 2.
Proof.
  cbn [text_size]. do 2 f_equal. induction l as [|[k x] l IH]; [done|].
  rewrite IH, fmap_cons, sum_list_Z_cons. unfold entry_size. cbn [fst snd]. lia.
Qed.

Lemma length_join l : len (join l) = sum_list_Z ((λ x, len x) <$> l) + Z.max 0 (len l - 1).
Proof.
  induction l as [|x l IH]; [done|]. destruct l as [|y l]; [cbn; lia|].
  change (join (x :: y :: l)) with (x ++ ","%char :: join (y :: l)).
  rewrite length_app, length_cons, fmap_cons, sum_list_Z_cons. cbn [length] in *. lia.
Qed.

Section size.
Context (float_text : f64 → bytes) (key : string).

Lemma length_Marshal v t : clear key v → Marshal float_text v = Some t → len t = text_size float_text v.
Proof using.
  revert t. induction v as [s|n|f|l IH|l IH] using value_ind'; intros t Hv Ht; inversion Hv; subst.
  - injection Ht as <-. rewrite marshal_plain by done. cbn [text_size length].
    rewrite length_app. cbn [length]. lia.
  - by injection Ht as <-.
  - destruct f as [s| | |s m e]; try done; cbn [Marshal marshal_float] in Ht; by simplify_eq.
  - rewrite Marshal_list in Ht. apply fmap_Some in Ht as (ts & Hts%mapM_Some_1 & ->).
    rewrite text_size_list. unfold array. rewrite length_cons, length_app. cbn [length].
    rewrite Nat2Z.inj_succ, Nat2Z.inj_add, length_join, (Forall2_length _ _ _ Hts).
    assert ((λ x, len x) <$> ts = text_size float_text <$> l) as ->; [|lia].
    clear Hv. induction Hts as [|v t l ts Hv _ IHl]; [done|]. inversion H0; inversion IH; subst.
    rewrite !fmap_cons. f_equal; auto.
  - rewrite Marshal_map in Ht. apply fmap_Some in Ht as (ts & Hts%mapM_Some_1 & ->).
    rewrite text_size_map. unfold object. rewrite length_cons, length_app. cbn [length].
    rewrite Nat2Z.inj_succ, Nat2Z.inj_add, length_join, length_fmap, merge_sort_Permutation,
      (Forall2_length _ _ _ Hts).
    assert ((λ x, len x) <$> (entry <$> ts) = entry_size float_text <$> l) as ->; [|lia].
    clear Hv. induction Hts as [|[k v] [k' t] l ts Hv _ IHl]; [done|].
    inversion H0 as [|?? (Hk & _ & Hc)]; inversion IH; subst.
    rewrite !fmap_cons. f_equal; [|auto]. unfold marshal_entry in Hv. cbn [fst snd] in *.
    destruct (Marshal float_text v) as [t'|] eqn:Ht; [|done]. injection Hv as <- <-.
    unfold entry, entry_size. cbn [fst snd]. rewrite marshal_plain by done.
    rewrite length_app, length_cons, length_app. cbn [length].
    assert (len t' = text_size float_text v) by auto. lia.
Qed.
End size.
