(* ===== verification/PayloadField.v ===== *)
(** * Documents with one mutable field

    A payload document is a map with one string field, the mutable one, whose
    key occurs nowhere else.  Its text around the field does not depend on the
    value of the field, and the search of payload.go finds exactly the start
    of that value. *)

From S2P Require Export PayloadText.

(** The map with the entries of [l1] and [l2] and [x] in the field [key]. *)
Definition document (key : string) (l1 l2 : list (string * value)) (x : bytes) : value :=
  VMap (l1 ++ (key, VString x) :: l2).

(** ** Sorting the entries *)

Lemma key_le_sorted (l : list (string * bytes)) :
  StronglySorted key_le l ↔ StronglySorted String.le l.*1.
Proof.
  split; [apply StronglySorted_fmap; done|].
  induction l as [|x l IH]; intros Hs; [constructor|]. inversion Hs as [|?? Hs' HF]; subst.
  constructor; [auto|]. by rewrite Forall_fmap in HF.
Qed.

#[export] Instance key_le_trans : Transitive key_le.
Proof. intros x y z. unfold key_le. by transitivity (y.1). Qed.

#[export] Instance key_le_total : Total key_le.
Proof. intros x y. apply String.le_total. Qed.

Lemma key_le_merge_sort l : StronglySorted key_le (merge_sort key_le l).
Proof. apply (StronglySorted_merge_sort key_le _). Qed.

(** The sorted entries around one key do not depend on its value. *)
Lemma sort_around (key : string) (ts1 ts2 : list (string * bytes)) :
  NoDup (ts1.*1 ++ key :: ts2.*1) →
  ∃ us1 us2, us1 ++ us2 ≡ₚ ts1 ++ ts2
    ∧ ∀ t, merge_sort key_le (ts1 ++ (key, t) :: ts2) = us1 ++ (key, t) :: us2.
Proof.
  intros Hnd. pose proof (merge_sort_Permutation key_le (ts1 ++ (key, []) :: ts2)) as Hp.
  assert ((key, []) ∈ merge_sort key_le (ts1 ++ (key, []) :: ts2)) as Hin by (rewrite Hp; set_solver).
  apply list_elem_of_split in Hin as (us1 & us2 & Hs). rewrite Hs in Hp.
  assert (us1 ++ us2 ≡ₚ ts1 ++ ts2) as Hperm by (by eapply Permutation_app_inv).
  exists us1, us2. split; [done|]. intros t. apply (StronglySorted_unique_strong key_le).
  - intros [k1 x1] [k2 x2] H1 H2 Hle1 Hle2. unfold key_le in *. cbn [fst] in *.
    assert (k1 = k2) as -> by (by apply (anti_symm String.le)). f_equal.
    assert (us1 ++ (key, t) :: us2 ≡ₚ ts1 ++ (key, t) :: ts2) as Hq.
    { rewrite <- !Permutation_middle. by constructor. }
    rewrite merge_sort_Permutation in H1. rewrite Hq in H2.
    assert (NoDup (ts1 ++ (key, t) :: ts2).*1) as Hnd' by (by rewrite fmap_app, fmap_cons).
    apply list_elem_of_lookup in H1 as [i Hi]. apply list_elem_of_lookup in H2 as [j Hj].
    assert (i = j) as ->; [|congruence].
    eapply (NoDup_lookup _ _ _ k2 Hnd'); rewrite list_lookup_fmap; [by rewrite Hi|by rewrite Hj].
  - apply key_le_merge_sort.
  - apply key_le_sorted. rewrite fmap_app, fmap_cons. cbn [fst].
    pose proof (key_le_merge_sort (ts1 ++ (key, []) :: ts2)) as Hss. rewrite Hs in Hss.
    apply key_le_sorted in Hss. by rewrite fmap_app, fmap_cons in Hss.
  - rewrite merge_sort_Permutation, <- !Permutation_middle. by constructor.
Qed.

(** ** The text around the field *)

Definition before (items : list bytes) : bytes := mjoin ((λ x, x ++ [","%char]) <$> items).
Definition behind (items : list bytes) : bytes := mjoin ((λ x, ","%char :: x) <$> items).

Lemma join_cons x b : join (x :: b) = x ++ behind b.
Proof.
  unfold behind. revert x. induction b as [|y b IH]; intros x; [by rewrite app_nil_r|].
  change (join (x :: y :: b)) with (x ++ ","%char :: join (y :: b)). rewrite IH.
  by rewrite fmap_cons.
Qed.

Lemma join_around a x b : join (a ++ x :: b) = before a ++ x ++ behind b.
Proof.
  unfold before. induction a as [|y a IH]; [apply join_cons|].
  rewrite fmap_cons. change (mjoin (?x :: ?l)) with (x ++ mjoin l).
  rewrite <- !app_assoc, <- IH. by destruct a.
Qed.

Section document.
Context (float_text : f64 → bytes) (Hfloat : ∀ f, plain (float_text f)).
Context (key : string) (Hkey : good_key key).
Context (l1 l2 : list (string * value)).
Context (Hkeys : NoDup (l1.*1 ++ key :: l2.*1)).
Context (Hclear : Forall (λ kv, plain (of_string kv.1) ∧ clear key kv.2) (l1 ++ l2)).

Lemma entries_keys l ts :
  Forall2 (λ (kv : string * value) (kt : string * bytes),
    kt.1 = kv.1 ∧ marshals float_text key kv.2 kt.2) l ts → ts.*1 = l.*1.
Proof using. induction 1 as [|???? [? _]]; [done|]. rewrite !fmap_cons. by f_equal. Qed.

Lemma document_text :
  ∃ pre post, (∀ x, plain x → Marshal float_text (document key l1 l2 x)
      = Some (pre ++ marker key ++ x ++ quote_char :: post))
    ∧ ∀ rest, clean (marker key) pre (marker key ++ rest).
Proof using All.
  assert (∀ l, Forall (λ kv, plain (of_string kv.1) ∧ clear key kv.2) l →
    ∃ ts, mapM (marshal_entry float_text) l = Some ts ∧ ts.*1 = l.*1
      ∧ Forall (λ kt, ∀ r, delimited r → clean (marker key) kt.2 r) ts) as Hm.
  { intros l HF. destruct (mapM_marshal_entry float_text key l) as (ts & Hts & HF2).
    { eapply Forall_impl; [exact HF|]. intros kv [_ Hc]. by apply clear_marshals. }
    exists ts. split; [done|]. split; [by apply entries_keys|].
    apply Forall_forall. intros kt Hkt. apply list_elem_of_lookup in Hkt as [i Hi].
    by destruct (Forall2_lookup_r _ _ _ _ _ HF2 Hi) as (kv & _ & _ & _ & Hc). }
  pose proof Hclear as [Hc1 Hc2]%Forall_app.
  destruct (Hm l1 Hc1) as (ts1 & Ht1 & Hk1 & Hf1), (Hm l2 Hc2) as (ts2 & Ht2 & Hk2 & Hf2).
  destruct (sort_around key ts1 ts2) as (us1 & us2 & Hperm & Hsort); [by rewrite Hk1, Hk2|].
  exists ("{"%char :: before (entry <$> us1)), (behind (entry <$> us2) ++ ["}"%char]). split.
  - intros x Hx. unfold document. rewrite Marshal_map.
    assert (mapM (marshal_entry float_text) (l1 ++ (key, VString x) :: l2)
      = Some (ts1 ++ (key, marshal_string x) :: ts2)) as ->.
    { apply mapM_Some_2, Forall2_app; [by apply mapM_Some_1|].
      constructor; [done|by apply mapM_Some_1]. }
    cbn [fmap option_fmap option_map]. f_equal. unfold object.
    rewrite Hsort, fmap_app, fmap_cons, join_around. destruct Hkey as [Hp _].
    unfold entry at 2. cbn [fst snd]. rewrite !marshal_plain, marker_eq by done.
    by list_simplifier.
  - intros rest. rewrite marker_eq at 1. apply clean_cons; [done|]. rewrite <- marker_eq.
    assert (∀ kt, kt ∈ us1 → plain (of_string kt.1) ∧ kt.1 ≠ key
        ∧ ∀ r, delimited r → clean (marker key) kt.2 r) as Hus.
    { intros kt Hkt. assert (kt ∈ ts1 ++ ts2) as Hin by (rewrite <- Hperm; set_solver).
      assert (kt.1 ∈ l1.*1 ++ l2.*1) as Hkin.
      { rewrite <- Hk1, <- Hk2, <- fmap_app. by apply list_elem_of_fmap_2. }
      split; [|split].
      - rewrite <- fmap_app in Hkin. apply list_elem_of_fmap in Hkin as (kv & -> & Hkv).
        rewrite Forall_forall in Hclear. by apply Hclear.
      - intros Heq. rewrite Heq in Hkin. apply NoDup_app in Hkeys as (_ & Hd & [Hnin _]%NoDup_cons). set_solver.
      - apply elem_of_app in Hin as [Hin|Hin]; [rewrite Forall_forall in Hf1|rewrite Forall_forall in Hf2]; auto. }
    clear -Hus Hkey. unfold before. induction us1 as [|[k t] us1 IH]; [apply clean_nil|].
    rewrite !fmap_cons. change (mjoin (?x :: ?l)) with (x ++ mjoin l).
    apply clean_app; [|apply IH; intros; apply Hus; set_solver].
    destruct (Hus (k, t)) as (Hp & Hne & Hc); [set_solver|]. apply clean_app.
    + apply clean_entry; [done..|]. cbn. set_solver.
    + rewrite marker_eq at 1. apply clean_cons; [done|]. apply clean_nil.
Qed.
End document.

(** ** Templates *)

(** [t] is the text of a document whose field [key] has its value at offset
    [o]; replacing those bytes replaces the value of the field. *)
Record template_ok (float_text : f64 → bytes) (key : string) (t : bytes) (o : Z) : Prop := {
  tmpl_field : ∃ l1 l2 field,
    Marshal float_text (document key l1 l2 field) = Some t
    ∧ plain field ∧ (16 ≤ length field)%nat ∧ o + len field ≤ len t
    ∧ ∀ x, plain x → length x = length field →
        Marshal float_text (document key l1 l2 x)
        = Some (take (Z.to_nat o) t ++ x ++ drop (Z.to_nat o + length field) t);
  tmpl_offset : 0 ≤ o;
  tmpl_size : len t ≤ int64_max;
}.

(** The search finds the field. *)
Lemma document_template (float_text : f64 → bytes) key l1 l2 field :
  (∀ f, plain (float_text f)) → good_key key → NoDup (l1.*1 ++ key :: l2.*1) →
  Forall (λ kv, plain (of_string kv.1) ∧ clear key kv.2) (l1 ++ l2) →
  plain field → (16 ≤ length field)%nat →
  ∃ t, Marshal float_text (document key l1 l2 field) = Some t
    ∧ (len t ≤ int64_max → template_ok float_text key t (find_marker (marker key) t)).
Proof.
  intros Hf Hk Hnd Hc Hp H16.
  destruct (document_text float_text Hf key Hk l1 l2 Hnd Hc) as (pre & post & Hm & Hpre).
  exists (pre ++ marker key ++ field ++ quote_char :: post). split; [by apply Hm|]. intros Hlen.
  assert (find_marker (marker key) (pre ++ marker key ++ field ++ quote_char :: post)
    = Z.of_nat (length pre + length (marker key))) as ->.
  { unfold find_marker. rewrite (Index_first pre (marker key)).
    - rewrite (proj2 (Z.ltb_ge _ _)) by lia. rewrite !length_app in Hlen.
      rewrite wrap64_small; lia.
    - intros a1 a2 Ha Hne. by apply (Hpre _ a1). }
  split; [|lia|done]. exists l1, l2, field. split; [by apply Hm|]. split; [done|]. split; [done|].
  split; [rewrite !length_app; cbn [length]; lia|]. intros x Hx Hxl. rewrite Hm by done. f_equal.
  rewrite Nat2Z.id, <- length_app. set (h := pre ++ marker key).
  replace (pre ++ marker key ++ field ++ quote_char :: post) with (h ++ field ++ quote_char :: post)
    by (subst h; by rewrite <- app_assoc).
  rewrite (app_assoc pre). fold h. rewrite take_app_length. do 2 f_equal.
  by rewrite <- drop_drop, drop_app_length, drop_app_length.
Qed.

Lemma hex_plain c : is_hex c → plain_char c = true.
Proof. unfold is_hex. revert c. apply Forall_forall. by repeat constructor. Qed.

(** The mutated copies are documents again. *)
Lemma mutation_document float_text key t o b :
  template_ok float_text key t o → mutation_of t (Z.to_nat o) b →
  ∃ l1 l2 field digits, Marshal float_text (document key l1 l2 field) = Some t
    ∧ length digits = 16%nat ∧ Forall is_hex digits
    ∧ Marshal float_text (document key l1 l2 (digits ++ drop 16 field)) = Some b.
Proof.
  intros [(l1 & l2 & field & Hm & Hp & H16 & Hle & Hx) Ho _] (digits & Hd & Hhex & ->).
  exists l1, l2, field, digits. split; [done|]. split; [done|]. split; [done|].
  assert (Marshal float_text (document key l1 l2 field)
    = Some (take (Z.to_nat o) t ++ field ++ drop (Z.to_nat o + length field) t)) as Hmf by (by apply Hx).
  rewrite Hm in Hmf. injection Hmf as Ht.
  rewrite Hx; [|apply Forall_app; split; [|by apply Forall_drop]|rewrite length_app, length_drop; lia].
  2: { eapply Forall_impl; [exact Hhex|]. apply hex_plain. }
  f_equal. rewrite <- app_assoc. do 2 f_equal.
  assert (drop (Z.to_nat o) t = field ++ drop (Z.to_nat o + length field) t) as Hd16.
  { rewrite Ht at 1. apply drop_app_length'. rewrite length_take. lia. }
  rewrite <- (drop_drop _ 16), Hd16, drop_app_le by lia. done.
Qed.
