(* ===== verification/PayloadBuild.v ===== *)
(** * workload/payload.go: building the templates

    Each builder draws from its own source, marshals a map and reports the
    offset of the mutable field.  The templates of a pool are built from
    sources with fixed seeds; [seed i] is [rand.New(rand.NewSource(i))]. *)

From S2P Require Export PayloadField.

Section build.
Context {R : Type} `{Rand R} (float_text : f64 → bytes).

(** [data, _ := json.Marshal(v)]: nil after an error. *)
Definition marshal_or_nil (v : value) : bytes := default [] (Marshal float_text v).

(** [make([]T, n)] for elements of [elem] bytes. *)
Definition make (elem n : Z) : rnd R nat := must (make_len elem n).

(** ** Random text *)

Definition charset : bytes :=
  of_string "abcdefghijklmnopqrstuvwxyzABCDEFGHIJKLMNOPQRSTUVWXYZ0123456789".

Definition randomString (minLen maxLen : Z) : rnd R bytes :=
  k ← draw (maxLen -! minLen +! 1);
  n ← make 1 (minLen +! k);
  mapM (λ _, draw_from charset) (seq 0 n).

(** The standard base64 alphabet, without the padding character. *)
Definition base64_alphabet : bytes :=
  of_string "ABCDEFGHIJKLMNOPQRSTUVWXYZabcdefghijklmnopqrstuvwxyz0123456789+/".

Definition base64_char (n : Z) : ascii := default "="%char (base64_alphabet !! Z.to_nat n).

(** [base64.StdEncoding.EncodeToString] *)
Fixpoint base64 (b : list Z) : bytes :=
  match b with
  | [] => []
  | [x] => [base64_char (Z.shiftr x 2); base64_char (Z.shiftl (Z.land x 3) 4); "="; "="]%char
  | [x; y] =>
      [base64_char (Z.shiftr x 2); base64_char (Z.lor (Z.shiftl (Z.land x 3) 4) (Z.shiftr y 4));
       base64_char (Z.shiftl (Z.land y 15) 2); "="]%char
  | x :: y :: z :: b =>
      [base64_char (Z.shiftr x 2); base64_char (Z.lor (Z.shiftl (Z.land x 3) 4) (Z.shiftr y 4));
       base64_char (Z.lor (Z.shiftl (Z.land y 15) 2) (Z.shiftr z 6)); base64_char (Z.land z 63)]
      ++ base64 b
  end.

(** [EncodedLen], the length of the buffer [EncodeToString] makes. *)
Definition encoded_len (n : Z) : Z := Z.quot (n +! 2) 3 *! 4.

Definition randomBase64 (n : Z) : rnd R bytes :=
  k ← make 1 n;
  b ← mapM (λ _, draw 256) (seq 0 k);
  _ ← make 1 (encoded_len n);
  mret (base64 b).

(** [s[:n]] panics when [s] is shorter. *)
Definition slice_to (n : Z) (s : bytes) : rnd R bytes :=
  must (if (0 <=? n) && (n <=? len s) then Some (take (Z.to_nat n) s) else None).

Definition randomBase64Exact (n : Z) : rnd R bytes :=
  if n <=? 0 then mret []
  else s ← randomBase64 (Z.quot (n *! 3) 4 +! 3); slice_to n s.

(** [fmt.Sprintf("%016x", rng.Int63())] *)
Definition hex63 : rnd R bytes := n ← draw63; mret (of_string (fmt_016x n)).

(** [fmt.Sprintf("%016x%016x", rng.Int63(), rng.Int63())] *)
Definition trace_id : rnd R bytes := a ← hex63; b ← hex63; mret (a ++ b).

Definition str (s : string) : value := VString (of_string s).

(** ** The parts of a large payload *)

Definition methods : list string := ["GET"; "POST"; "PUT"; "DELETE"; "PATCH"].

(** [headers[fmt.Sprintf(prefix+"%d", i)] = randomString(rng, lo, hi)] *)
Definition header (prefix : string) (lo hi : Z) (i : nat) : rnd R (string * value) :=
  s ← randomString lo hi; mret (prefix +:+ fmt_d (Z.of_nat i), VString s).

Definition buildRequest (bodyKB : Z) : rnd R value :=
  let paths := ["/api/v2/users"; "/api/v2/sessions"; "/api/v2/events"; "/api/v2/reports";
                "/api/v2/metrics"]%string in
  headers ← mapM (header "X-Header-" 20 60) (seq 0 25);
  method ← draw_from methods;
  path ← draw_from paths;
  body ← randomBase64 (Z.quot (bodyKB *! 1024 *! 3) 4);
  mret (VMap [("method", str method); ("path", str path); ("headers", VMap headers);
              ("body", VString body)]%string).

Definition buildResponse (bodyKB : Z) : rnd R value :=
  let statuses := [200; 201; 400; 404; 500] in
  headers ← mapM (header "X-Resp-Header-" 10 40) (seq 0 15);
  status ← draw_from statuses;
  body ← randomBase64 (Z.quot (bodyKB *! 1024 *! 3) 4);
  mret (VMap [("status", VInt status); ("headers", VMap headers); ("body", VString body)]%string).

(** [fmt.Sprintf("at %s.%s (%s:%d)", ...)] *)
Definition frame : rnd R value :=
  a ← randomString 5 15;
  b ← randomString 5 15;
  c ← randomString 5 15;
  n ← draw 500;
  mret (VString (of_string "at " ++ a ++ of_string "." ++ b ++ of_string " (" ++ (c ++ of_string ".go")
                 ++ of_string ":" ++ of_string (fmt_d (n +! 1)) ++ of_string ")")).

Definition buildStackTrace : rnd R value :=
  k ← draw 21;
  n ← make 16 (20 +! k);
  frames ← mapM (λ _, frame) (seq 0 n);
  mret (VList frames).

Definition buildTags : rnd R value :=
  k ← draw 51;
  n ← make 16 (50 +! k);
  tags ← mapM (λ _, randomString 5 20) (seq 0 n);
  mret (VList (VString <$> tags)).

Definition metric (i : nat) : rnd R (string * value) :=
  f ← draw_float;
  mret ("metric_" +:+ fmt_d (Z.of_nat i), VFloat (fmul f (of_int 1000)))%string.

Definition buildMetrics : rnd R value := m ← mapM metric (seq 0 40); mret (VMap m).

Definition buildContext : rnd R value :=
  v1 ← randomString 10 30;
  v2 ← randomString 10 30;
  v3 ← randomString 10 30;
  data ← randomString 50 100;
  mret (VMap [("level1", VMap [("value", VString v1);
    ("level2", VMap [("value", VString v2);
      ("level3", VMap [("value", VString v3); ("data", VString data)])])])]%string).

(** ** The builders *)

(** The kilobytes of the request and of the response body. *)
Definition body_budget (targetKB : Z) : Z * Z :=
  let bodyBudgetKB := targetKB -! 4 in
  let bodyBudgetKB := if bodyBudgetKB <? 1 then 1 else bodyBudgetKB in
  let reqBodyKB := Z.quot (bodyBudgetKB *! 3) 5 in
  let reqBodyKB := if reqBodyKB <? 1 then 1 else reqBodyKB in
  let respBodyKB := bodyBudgetKB -! reqBodyKB in
  let respBodyKB := if respBodyKB <? 1 then 1 else respBodyKB in
  (reqBodyKB, respBodyKB).

Definition buildTemplate (minKB maxKB : Z) : rnd R (bytes * Z) :=
  k ← draw (maxKB -! minKB +! 1);
  let '(reqBodyKB, respBodyKB) := body_budget (minKB +! k) in
  request ← buildRequest reqBodyKB;
  response ← buildResponse respBodyKB;
  stack_trace ← buildStackTrace;
  tags ← buildTags;
  metrics ← buildMetrics;
  context ← buildContext;
  id ← trace_id;
  let payload := VMap [("request", request); ("response", response); ("stack_trace", stack_trace);
    ("tags", tags); ("metrics", metrics); ("context", context); ("trace_id", VString id)]%string in
  let data := marshal_or_nil payload in
  mret (data, findTraceIDOffset data).

Definition buildAuditTemplate : rnd R (bytes * Z) :=
  nonce ← hex63;
  m1 ← randomString 50 100;
  m2 ← randomString 50 100;
  context ← randomString 100 200;
  let diff := [("_nonce", VString nonce);
    ("before", VMap [("status", str "active"); ("metadata", VString m1)]);
    ("after", VMap [("status", str "closed"); ("metadata", VString m2)]);
    ("changed_fields", VList [str "status"; str "metadata"; str "ended_at"]);
    ("context", VString context)]%string in
  let data := marshal_or_nil (VMap diff) in
  k ← draw 3;
  let targetSize := (2 +! k) *! 1024 in
  let padLen := targetSize -! len data -! 12 in
  if padLen >? 0 then
    pad ← randomBase64Exact padLen;
    let data := marshal_or_nil (VMap (diff ++ [("_pad", VString pad)]%string)) in
    mret (data, findAuditNonceOffset data)
  else mret (data, findAuditNonceOffset data).

Definition buildSmallPayloadTemplate : rnd R (bytes * Z) :=
  let paths := ["/api/v2/users"; "/api/v2/sessions"; "/api/v2/events"]%string in
  k ← draw 769;
  let bodyBytes := 128 +! k in
  method ← draw_from methods;
  path ← draw_from paths;
  status ← draw_from [200; 201; 400; 404; 500];
  t1 ← randomString 5 20;
  t2 ← randomString 5 20;
  t3 ← randomString 5 20;
  body ← randomBase64 bodyBytes;
  id ← trace_id;
  let payload := VMap [("method", str method); ("path", str path); ("status", VInt status);
    ("tags", VList [VString t1; VString t2; VString t3]); ("body", VString body);
    ("trace_id", VString id)]%string in
  let data := marshal_or_nil payload in
  mret (data, findTraceIDOffset data).

Definition buildSmallAuditTemplate : rnd R (bytes * Z) :=
  nonce ← hex63;
  m1 ← randomString 50 100;
  m2 ← randomString 50 100;
  k ← draw 513;
  context ← randomBase64 (128 +! k);
  let diff := VMap [("_nonce", VString nonce);
    ("before", VMap [("status", str "active"); ("metadata", VString m1)]);
    ("after", VMap [("status", str "closed"); ("metadata", VString m2)]);
    ("changed_fields", VList [str "status"; str "metadata"]);
    ("context", VString context)]%string in
  let data := marshal_or_nil diff in
  mret (data, findAuditNonceOffset data).

(** ** The pools *)

Context (seed : Z → R).

(** The templates [0 .. templatePoolSize - 1], each with its own source. *)
Definition build_pool (build : rnd R (bytes * Z)) (first : Z) : option pool :=
  ts ← mapM (λ i, fst <$> build (seed (Z.of_nat i + first))) (seq 0 (Z.to_nat templatePoolSize));
  Some (mkPool ts.*1 ts.*2).

(** [init]: the pools that do not depend on the configuration; the event pool
    is still empty and [toastPct] is 100. *)
Definition init_payloads : option payloads :=
  session ← build_pool (buildTemplate 4 8) 0;
  audit ← build_pool buildAuditTemplate (2 * templatePoolSize);
  smallPayload ← build_pool buildSmallPayloadTemplate (3 * templatePoolSize);
  smallAudit ← build_pool buildSmallAuditTemplate (4 * templatePoolSize);
  Some (mkPayloads session
    (mkPool (replicate (Z.to_nat templatePoolSize) []) (replicate (Z.to_nat templatePoolSize) 0))
    audit smallPayload smallAudit 100).

Definition InitEventPool (minKB maxKB : Z) (p : payloads) : option payloads :=
  event ← build_pool (buildTemplate minKB maxKB) templatePoolSize;
  Some (mkPayloads p.(sessionPool) event p.(auditPool) p.(smallPayloadPool) p.(smallAuditPool)
          p.(toastPct)).
End build.
