(* ===== verification/PayloadTemplates.v ===== *)
(** * What the templates of payload.go look like

    Every builder succeeds from any source; every template is the text of a
    document with one mutable field, found at the recorded offset; and the
    sizes of the templates are bounded. *)

From S2P Require Export PayloadBuild.

(** ** Tokens

    The characters of the generated strings: plain, and no underscore, so no
    generated string is the key of a mutable field. *)

Definition token_char (c : ascii) : bool := plain_char c && negb (bool_decide (c = "_"%char)).

Notation token s := (Forall (λ c, token_char c = true) s).

Lemma token_plain s : token s → plain s.
Proof. intros Hs. eapply Forall_impl; [exact Hs|]. by intros c [Hc _]%andb_prop. Qed.

(** The keys of the mutable fields. *)
Notation field_key key := (key = "trace_id"%string ∨ key = "_nonce"%string).

Lemma field_key_good key : field_key key → good_key key.
Proof. intros [->| ->]; apply (bool_decide_unpack _); vm_compute; exact I. Qed.

Lemma token_not_key key s : field_key key → token s → s ≠ of_string key.
Proof.
  intros Hk Hs ->. assert ("_"%char ∈ of_string key) as Hin by (destruct Hk as [->| ->]; cbn; set_solver).
  rewrite Forall_forall in Hs. by specialize (Hs _ Hin).
Qed.

Lemma token_clear key s : field_key key → token s → clear key (VString s).
Proof. intros Hk Hs. constructor; [by apply token_plain|by apply token_not_key]. Qed.

Lemma charset_token c : c ∈ charset → token_char c = true.
Proof. revert c. apply Forall_forall. by repeat constructor. Qed.

Lemma base64_token n : token_char (base64_char n) = true.
Proof.
  unfold base64_char. destruct (base64_alphabet !! Z.to_nat n) as [c|] eqn:Hc; [|done].
  apply list_elem_of_lookup_2 in Hc. revert c Hc. apply Forall_forall. by repeat constructor.
Qed.

Lemma token_base64 b : token (base64 b).
Proof.
  assert (∀ n b, (length b ≤ n)%nat → token (base64 b)) as Hn; [|by eapply Hn].
  intros n. induction n as [|n IH]; intros [|x [|y [|z l]]] Hl; cbn [length] in Hl; try lia; cbn [base64].
  all: repeat (constructor; [by rewrite ?base64_token|]); try by constructor.
  apply IH. lia.
Qed.

Lemma length_base64 b : len (base64 b) = 4 * ((len b + 2) / 3).
Proof.
  assert (∀ n b, (length b ≤ n)%nat → len (base64 b) = 4 * ((len b + 2) / 3)) as Hn; [|by eapply Hn].
  clear b. intros n. induction n as [|n IH]; intros [|x [|y [|z l]]] Hl; cbn [length] in Hl; try lia; try done.
  cbn [base64 app length]. specialize (IH l ltac:(lia)).
  replace (Z.of_nat (S (S (S (length l)))) + 2) with (len l + 2 + 1 * 3) by lia.
  rewrite Z.div_add by lia. lia.
Qed.

Lemma hex_digit_token d : token_char (hex_digit d) = true.
Proof.
  unfold hex_digit. destruct (hexChars !! Z.to_nat d) as [c|] eqn:Hc; [|done].
  apply list_elem_of_lookup_2 in Hc. revert c Hc. apply Forall_forall. by repeat constructor.
Qed.

Lemma hex_digits_token n z acc :
  token (of_string acc) → token (of_string (hex_digits n z acc))
  ∧ length (of_string (hex_digits n z acc)) = (n + length (of_string acc))%nat.
Proof.
  revert z acc. induction n as [|n IH]; intros z acc Ha; [done|]. cbn [hex_digits].
  destruct (IH (Z.shiftr z 4) (String (hex_digit (Z.land z 15)) acc)) as [Ht Hl].
  { constructor; [apply hex_digit_token|done]. }
  split; [done|]. rewrite Hl. cbn [of_string length]. lia.
Qed.

Lemma fmt_016x_token z : token (of_string (fmt_016x z)) ∧ length (of_string (fmt_016x z)) = 16%nat.
Proof. unfold fmt_016x. destruct (hex_digits_token 16 z "") as [? ->]; [constructor|done]. Qed.

(** Small numbers in decimal. *)
Lemma fmt_d_small n : 0 ≤ n ≤ 500 → token (of_string (fmt_d n)) ∧ 1 ≤ len (of_string (fmt_d n)) ≤ 3.
Proof.
  intros Hn. assert (n ∈ seqZ 0 501) as Hin by (apply elem_of_seqZ; lia). revert n Hn Hin.
  assert (Forall (λ n, bool_decide (token (of_string (fmt_d n)))
    && (1 <=? len (of_string (fmt_d n))) && (len (of_string (fmt_d n)) <=? 3) = true) (seqZ 0 501)) as HF.
  { apply (bool_decide_unpack _). vm_compute. exact I. }
  rewrite Forall_forall in HF. intros n _ [[Ht%bool_decide_eq_true H1%Z.leb_le]%andb_prop H2%Z.leb_le]%HF%andb_prop.
  done.
Qed.

Lemma of_string_app s1 s2 : of_string (s1 +:+ s2) = of_string s1 ++ of_string s2.
Proof. induction s1 as [|c s1 IH]; [done|]. change (String c s1 +:+ s2) with (String c (s1 +:+ s2)). cbn [of_string app]. by rewrite IH. Qed.

(** A sum of bounded terms. *)
Lemma sum_list_Z_bounds lo hi l :
  Forall (λ z, lo ≤ z ≤ hi) l → lo * len l ≤ sum_list_Z l ≤ hi * len l.
Proof. induction 1 as [|z l Hz _ IH]; [cbn; lia|]. rewrite sum_list_Z_cons, length_cons. lia. Qed.

(** Takes a computation past a step with a known specification. *)
Tactic Notation "bind" uconstr(spec) := eapply rnd_ok_bind; [eapply spec|cbv beta].

(** ** Random strings *)

Section strings.
Context {R : Type} `{RandOk R}.

Lemma rnd_ok_make elem n :
  0 ≤ n → elem * n ≤ 2 ^ 48 → rnd_ok (R := R) (make elem n) (λ k, k = Z.to_nat n).
Proof.
  intros Hn He. unfold make. rewrite make_len_some by (unfold max_alloc; lia). by eapply rnd_ok_must.
Qed.

(** [n] elements drawn one after the other. *)
Lemma rnd_ok_each {A} (f : nat → rnd R A) (P : A → Prop) n :
  (∀ i, (i < n)%nat → rnd_ok (f i) P) → rnd_ok (mapM f (seq 0 n)) (λ l, len l = Z.of_nat n ∧ Forall P l).
Proof.
  intros Hf. eapply rnd_ok_mono; [apply (rnd_ok_mapM _ _ (λ _, P))|].
  - intros i [_ Hi]%elem_of_seq. by apply Hf.
  - intros l HF. split; [by rewrite <- (Forall2_length _ _ _ HF), length_seq|].
    eapply Forall2_Forall_r; [exact HF|]. by apply Forall_true.
Qed.

Lemma rnd_ok_repeat {A} (m : rnd R A) (P : A → Prop) n :
  rnd_ok m P → rnd_ok (mapM (λ _, m) (seq 0 n)) (λ l, len l = Z.of_nat n ∧ Forall P l).
Proof. intros Hm. by apply rnd_ok_each. Qed.

Lemma randomString_ok lo hi :
  0 ≤ lo ≤ hi → hi < 1000 →
  rnd_ok (R := R) (randomString lo hi) (λ s, token s ∧ lo ≤ len s ≤ hi).
Proof.
  intros Hlo Hhi. unfold randomString. rewrite (wrap64_small (hi - lo)), (wrap64_small (hi - lo + 1)) by lia.
  bind rnd_ok_draw; [lia|]. intros k Hk. rewrite wrap64_small by lia.
  bind rnd_ok_make; [lia|lia|]. intros n ->.
  eapply rnd_ok_mono; [apply rnd_ok_repeat, rnd_ok_draw_from; done|].
  intros s [Hl HF]. split; [|lia]. eapply Forall_impl; [exact HF|]. apply charset_token.
Qed.

Lemma randomBase64_ok n :
  0 ≤ n ≤ 2 ^ 47 → rnd_ok (R := R) (randomBase64 n) (λ s, token s ∧ len s = 4 * ((n + 2) / 3)).
Proof.
  intros Hn. unfold randomBase64. bind rnd_ok_make; [lia|lia|]. intros k ->.
  bind rnd_ok_repeat; [apply rnd_ok_draw; lia|]. intros b [Hb _].
  assert (0 ≤ encoded_len n ≤ 2 ^ 48) as He.
  { unfold encoded_len. rewrite (wrap64_small (n + 2)), Z.quot_div_nonneg by lia.
    pose proof (Z.div_mod (n + 2) 3 ltac:(lia)). pose proof (Z.mod_pos_bound (n + 2) 3 ltac:(lia)).
    rewrite wrap64_small; lia. }
  bind rnd_ok_make; [lia|lia|]. intros _ _.
  apply rnd_ok_ret. split; [apply token_base64|]. rewrite length_base64, Hb. do 3 f_equal. lia.
Qed.

(** A body of [kb] kilobytes has exactly that size. *)
Lemma body_ok kb :
  1 ≤ kb ≤ 2 ^ 36 →
  rnd_ok (R := R) (randomBase64 (Z.quot (kb *! 1024 *! 3) 4)) (λ s, token s ∧ len s = 1024 * kb).
Proof.
  intros Hkb. assert (kb *! 1024 *! 3 = 4 * (768 * kb)) as ->.
  { rewrite !wrap64_small; [lia|lia|rewrite wrap64_small; lia]. }
  rewrite Z.mul_comm, Z.quot_mul by done.
  eapply rnd_ok_mono; [apply randomBase64_ok; lia|]. intros s [Ht Hl]. split; [done|].
  rewrite Hl. replace (768 * kb + 2) with (2 + 256 * kb * 3) by lia. rewrite Z.div_add by lia.
  change (2 / 3) with 0. lia.
Qed.

Lemma randomBase64Exact_ok n :
  1 ≤ n ≤ 2 ^ 36 → rnd_ok (R := R) (randomBase64Exact n) (λ s, token s ∧ len s = n).
Proof.
  intros Hn. unfold randomBase64Exact. rewrite (proj2 (Z.leb_gt _ _)) by lia.
  rewrite (wrap64_small (n * 3)) by lia. rewrite Z.quot_div_nonneg by lia.
  pose proof (Z.div_mod (n * 3) 4 ltac:(lia)). pose proof (Z.mod_pos_bound (n * 3) 4 ltac:(lia)).
  rewrite wrap64_small by lia.
  bind randomBase64_ok; [lia|]. intros s [Ht Hl].
  pose proof (Z.div_mod (n * 3 / 4 + 3 + 2) 3 ltac:(lia)).
  pose proof (Z.mod_pos_bound (n * 3 / 4 + 3 + 2) 3 ltac:(lia)).
  unfold slice_to. rewrite (proj2 (Z.leb_le 0 n)), (proj2 (Z.leb_le n _)) by lia.
  eapply rnd_ok_must; [done|]. split; [by apply Forall_take|]. rewrite length_take. lia.
Qed.

Lemma hex63_ok : rnd_ok (R := R) hex63 (λ s, token s ∧ length s = 16%nat).
Proof. unfold hex63. rnd_step. apply rnd_ok_ret, fmt_016x_token. Qed.

Lemma trace_id_ok : rnd_ok (R := R) trace_id (λ s, token s ∧ length s = 32%nat).
Proof.
  unfold trace_id. bind hex63_ok. intros a [Ha Hla]. bind hex63_ok. intros b [Hb Hlb].
  apply rnd_ok_ret. split; [by apply Forall_app|]. rewrite length_app. lia.
Qed.
End strings.

(** ** The parts of a document *)

(** A value without the mutable field, with a text of a size in [lo, hi]. *)
Definition part (float_text : f64 → bytes) (key : string) (lo hi : Z) (v : value) : Prop :=
  clear key v ∧ lo ≤ text_size float_text v ≤ hi.

(** An entry of a map. *)
Definition part_entry (float_text : f64 → bytes) (key : string) (lo hi : Z) (kv : string * value) : Prop :=
  (plain (of_string kv.1) ∧ kv.1 ≠ key ∧ clear key kv.2) ∧ lo ≤ entry_size float_text kv ≤ hi.

Section parts.
Context (float_text : f64 → bytes) (key : string) (Hkey : field_key key).
Local Notation part := (part float_text key).
Local Notation part_entry := (part_entry float_text key).

Lemma part_string s lo hi : token s → lo ≤ len s + 2 ≤ hi → part lo hi (VString s).
Proof using Hkey. intros Hs Hl. split; [by apply token_clear|]. exact Hl. Qed.

Lemma part_list lo hi l n :
  Forall (part lo hi) l → len l = n → 1 ≤ n →
  part (lo * n + n + 1) (hi * n + n + 1) (VList l).
Proof using.
  intros HF Hn H1. split; [constructor; eapply Forall_impl; [exact HF|]; by intros v [? _]|].
  rewrite text_size_list.
  assert (Forall (λ z, lo ≤ z ≤ hi) (text_size float_text <$> l)) as Hs.
  { apply Forall_fmap. eapply Forall_impl; [exact HF|]. by intros v [_ ?]. }
  apply sum_list_Z_bounds in Hs. rewrite length_fmap in Hs. rewrite Hn in *. lia.
Qed.

Lemma part_map lo hi l n :
  Forall (part_entry lo hi) l → len l = n → 1 ≤ n →
  part (lo * n + n + 1) (hi * n + n + 1) (VMap l).
Proof using.
  intros HF Hn H1. split; [constructor; eapply Forall_impl; [exact HF|]; by intros v [? _]|].
  rewrite text_size_map.
  assert (Forall (λ z, lo ≤ z ≤ hi) (entry_size float_text <$> l)) as Hs.
  { apply Forall_fmap. eapply Forall_impl; [exact HF|]. by intros v [_ ?]. }
  apply sum_list_Z_bounds in Hs. rewrite length_fmap in Hs. rewrite Hn in *. lia.
Qed.

Lemma part_weaken lo hi lo' hi' v : part lo hi v → lo' ≤ lo → hi ≤ hi' → part lo' hi' v.
Proof using. intros [Hc Hs] ??. split; [done|lia]. Qed.

Lemma part_entry_intro k v lo hi :
  plain (of_string k) → k ≠ key → part lo hi v →
  part_entry (len (of_string k) + 3 + lo) (len (of_string k) + 3 + hi) (k, v).
Proof using. intros Hk Hne [Hc Hs]. split; [done|]. unfold entry_size. cbn [fst snd]. lia. Qed.
End parts.

(** ** Records of parts *)

(** The entries of a map literal and the sum of their sizes. *)
Definition fields (float_text : f64 → bytes) (key : string) (lo hi : Z) (l : list (string * value)) : Prop :=
  Forall (λ kv, plain (of_string kv.1) ∧ kv.1 ≠ key ∧ clear key kv.2) l
  ∧ lo ≤ sum_list_Z (entry_size float_text <$> l) ≤ hi.

Lemma fields_nil ft key : fields ft key 0 0 [].
Proof. split; [constructor|cbn; lia]. Qed.

Lemma fields_cons ft key k v l lo hi lo' hi' :
  plain (of_string k) → k ≠ key → part ft key lo hi v → fields ft key lo' hi' l →
  fields ft key (len (of_string k) + 3 + lo + lo') (len (of_string k) + 3 + hi + hi') ((k, v) :: l).
Proof.
  intros Hk Hne [Hc Hs] [HF Hs']. split; [by constructor|]. rewrite fmap_cons, sum_list_Z_cons.
  assert (entry_size ft (k, v) = len (of_string k) + 3 + text_size ft v) as -> by done. lia.
Qed.

Lemma fields_map ft key lo hi l :
  fields ft key lo hi l → l ≠ [] → part ft key (lo + len l + 1) (hi + len l + 1) (VMap l).
Proof.
  intros [HF Hs] Hne. split; [by constructor|]. rewrite text_size_map.
  assert (1 ≤ len l) by (destruct l; [done|]; cbn [length]; lia). lia.
Qed.

(** The bounds of a map literal from those of its values. *)
Ltac map_part :=
  eapply part_weaken;
    [apply fields_map; [|done];
     repeat (eapply fields_cons; [by repeat constructor|done|eassumption|]); apply fields_nil
    |cbn; lia|cbn; lia].

(** ** The parts of a large payload *)

Section large.
Context {R : Type} `{RandOk R}.
Context (ft : f64 → bytes) (Hft : ∀ f, len (ft f) ≤ 32).
Local Notation part := (part ft "trace_id").

Lemma key_trace : field_key "trace_id".
Proof using. by left. Qed.

(** A constant string, or one drawn from a list of constants. *)
Lemma str_part lo hi l s :
  Forall (λ s, token (of_string s) ∧ lo ≤ len (of_string s) + 2 ≤ hi) l → s ∈ l → part lo hi (str s).
Proof using.
  rewrite Forall_forall. intros HF Hs. destruct (HF s Hs) as [Ht Hl].
  by apply part_string; [apply key_trace|..].
Qed.

Lemma status_part n : n ∈ [200; 201; 400; 404; 500] → part 3 3 (VInt n).
Proof using.
  intros Hn. split; [constructor|]. cbn [text_size].
  assert (len (of_string (fmt_d n)) = 3) as ->; [|lia].
  revert n Hn. apply Forall_forall. by repeat constructor.
Qed.

Lemma header_ok prefix lo hi n :
  0 ≤ lo ≤ hi → hi < 1000 → (n ≤ 100)%nat → plain (of_string prefix) →
  (∀ s, prefix +:+ s ≠ "trace_id"%string) →
  let k := len (of_string prefix) in
  rnd_ok (R := R) (mapM (header prefix lo hi) (seq 0 n))
    (λ l, len l = Z.of_nat n ∧ Forall (part_entry ft "trace_id" (k + lo + 6) (k + hi + 8)) l).
Proof.
  intros Hlo Hhi Hn Hp Hne k. apply rnd_ok_each. intros i Hi. unfold header.
  bind randomString_ok; [lia|lia|]. intros s [Hs Hl]. apply rnd_ok_ret.
  destruct (fmt_d_small (Z.of_nat i)) as [Ht Hd]; [lia|].
  split; [split; [|split; [apply Hne|by apply token_clear, Hs; left]]|].
  - cbn [fst]. rewrite of_string_app. apply Forall_app. split; [done|by apply token_plain].
  - unfold entry_size. cbn [fst snd text_size]. rewrite of_string_app, length_app. lia.
Qed.

Lemma methods_part s : s ∈ methods → part 5 8 (str s).
Proof using. apply str_part. by repeat (constructor; [split; [by repeat constructor|cbn; lia]|]). Qed.

(** A request carries a body of exactly [kb] kilobytes. *)
Lemma buildRequest_ok kb :
  1 ≤ kb ≤ 2 ^ 36 → rnd_ok (R := R) (buildRequest kb) (part (1024 * kb + 961) (1024 * kb + 2019)).
Proof using All.
  intros Hkb. unfold buildRequest.
  bind header_ok; [lia|lia|lia|by repeat constructor|done|]. intros headers [Hlen Hheaders].
  bind rnd_ok_draw_from; [done|]. intros method Hm%methods_part.
  bind rnd_ok_draw_from; [done|]. intros path Hpath.
  apply (str_part 15 20) in Hpath;
    [|by repeat (constructor; [split; [by repeat constructor|cbn; lia]|])].
  bind body_ok; [done|]. intros body [Ht Hl]. apply rnd_ok_ret.
  apply part_map with (n := 25) in Hheaders; [|done|done].
  assert (part (1024 * kb + 2) (1024 * kb + 2) (VString body)) as Hbody
    by (apply part_string; [apply key_trace|done|lia]).
  map_part.
Qed.

Lemma buildResponse_ok kb :
  1 ≤ kb ≤ 2 ^ 36 → rnd_ok (R := R) (buildResponse kb) (part (1024 * kb + 501) (1024 * kb + 981)).
Proof using All.
  intros Hkb. unfold buildResponse.
  bind header_ok; [lia|lia|lia|by repeat constructor|done|]. intros headers [Hlen Hheaders].
  bind rnd_ok_draw_from; [done|]. intros status Hs%status_part.
  bind body_ok; [done|]. intros body [Ht Hl]. apply rnd_ok_ret.
  apply part_map with (n := 15) in Hheaders; [|done|done].
  assert (part (1024 * kb + 2) (1024 * kb + 2) (VString body)) as Hbody
    by (apply part_string; [apply key_trace|done|lia]).
  map_part.
Qed.

Lemma frame_ok : rnd_ok (R := R) frame (part 29 61).
Proof using All.
  unfold frame. bind randomString_ok; [lia|lia|]. intros a [Ha Hla].
  bind randomString_ok; [lia|lia|]. intros b [Hb Hlb]. bind randomString_ok; [lia|lia|]. intros c [Hc Hlc].
  bind rnd_ok_draw; [lia|]. intros n Hn. apply rnd_ok_ret. rewrite wrap64_small by lia.
  destruct (fmt_d_small (n + 1)) as [Hd Hld]; [lia|].
  apply part_string; [apply key_trace| |rewrite !length_app; cbn [of_string length]; lia].
  rewrite !Forall_app. split_and!; first [done|by repeat constructor].
Qed.

Lemma buildStackTrace_ok : rnd_ok (R := R) buildStackTrace (part 601 2481).
Proof using All.
  unfold buildStackTrace. bind rnd_ok_draw; [lia|]. intros k Hk. rewrite wrap64_small by lia.
  bind rnd_ok_make; [lia|lia|]. intros n ->. bind rnd_ok_repeat; [apply frame_ok|]. intros l [Hl HF].
  apply rnd_ok_ret. eapply part_weaken; [apply part_list with (n := 20 + k); [exact HF|lia|lia]|lia|lia].
Qed.

Lemma buildTags_ok : rnd_ok (R := R) buildTags (part 401 2301).
Proof using All.
  unfold buildTags. bind rnd_ok_draw; [lia|]. intros k Hk. rewrite wrap64_small by lia.
  bind rnd_ok_make; [lia|lia|]. intros n ->. bind rnd_ok_repeat; [by apply randomString_ok|].
  intros l [Hl HF]. apply rnd_ok_ret.
  eapply part_weaken; [apply part_list with (lo := 7) (hi := 22) (n := 50 + k)|lia|lia].
  - apply Forall_fmap. eapply Forall_impl; [exact HF|]. intros s [Hs Hls].
    apply part_string; [apply key_trace|done|lia].
  - rewrite length_fmap. lia.
  - lia.
Qed.

Lemma metric_ok i :
  (i < 40)%nat → rnd_ok (R := R) (metric i) (part_entry ft "trace_id" 11 44).
Proof using All.
  intros Hi. unfold metric. bind rnd_ok_draw_float. intros f (Hv & Hf0 & Hf1). apply rnd_ok_ret.
  destruct (fmt_d_small (Z.of_nat i)) as [Ht Hd]; [lia|].
  assert (len (of_string (fmt_d (Z.of_nat i))) ≤ 2) as Hd2.
  { assert (i ∈ seq 0 40) as Hin by (apply elem_of_seq; lia). clear -Hin. revert i Hin.
    apply Forall_forall. by repeat (constructor; [vm_compute; done|]). }
  split; [split; [|split; [done|]]|].
  - cbn [fst]. rewrite of_string_app. apply Forall_app. split; [by repeat constructor|by apply token_plain].
  - constructor. change (of_int 1000) with (S754_finite false 8796093022208000 (-43)).
    by apply fmul_unit_finite.
  - unfold entry_size. cbn [fst snd text_size]. rewrite of_string_app, length_app.
    specialize (Hft (fmul f (of_int 1000))). cbn [of_string length]. lia.
Qed.

Lemma buildMetrics_ok : rnd_ok (R := R) buildMetrics (part 481 1801).
Proof using All.
  unfold buildMetrics. bind rnd_ok_each; [intros i Hi; by apply metric_ok|]. intros l [Hl HF].
  apply rnd_ok_ret. by apply part_map with (n := 40) in HF.
Qed.

Lemma buildContext_ok : rnd_ok (R := R) buildContext (part 157 267).
Proof using All.
  unfold buildContext. bind randomString_ok; [lia|lia|]. intros v1 [T1 L1].
  bind randomString_ok; [lia|lia|]. intros v2 [T2 L2]. bind randomString_ok; [lia|lia|]. intros v3 [T3 L3].
  bind randomString_ok; [lia|lia|]. intros d [T4 L4]. apply rnd_ok_ret.
  assert (∀ s lo hi, token s → lo ≤ len s ≤ hi → part (lo + 2) (hi + 2) (VString s)) as Hs.
  { intros s lo hi Ht Hl. apply part_string; [apply key_trace|done|lia]. }
  apply (Hs _ 10 30 T1) in L1. apply (Hs _ 10 30 T2) in L2. apply (Hs _ 10 30 T3) in L3.
  apply (Hs _ 50 100 T4) in L4.
  assert (part 82 152 (VMap [("value", VString v3); ("data", VString d)]%string)) as P3 by map_part.
  assert (part 114 204 (VMap [("value", VString v2);
    ("level3", VMap [("value", VString v3); ("data", VString d)])]%string)) as P2 by map_part.
  assert (part 146 256 (VMap [("value", VString v1); ("level2", VMap [("value", VString v2);
    ("level3", VMap [("value", VString v3); ("data", VString d)])])]%string)) as P1 by map_part.
  map_part.
Qed.
End large.

(** ** Templates *)

(** A template with its field where the offset says, of a size in [lo, hi]. *)
Definition built (ft : f64 → bytes) (key : string) (lo hi : Z) (tb : bytes * Z) : Prop :=
  template_ok ft key tb.1 tb.2 ∧ lo ≤ len tb.1 ≤ hi.

(** What the program relies on of the text of a float in JSON. *)
Definition float_text_ok (ft : f64 → bytes) : Prop := ∀ f, plain (ft f) ∧ len (ft f) ≤ 32.

(** No plain string is a line feed. *)

Lemma plain_not_linefeed s : plain s → s ≠ of_string newline.
Proof. intros Hs ->. by inversion Hs. Qed.

Lemma clear_linefeed key v : clear key v → clear newline v.
Proof.
  induction v as [s|n|f|l IH|l IH] using value_ind'; intros Hv; inversion Hv as [|?|?|? HF|? HF]; subst;
    constructor; try done.
  - by apply plain_not_linefeed.
  - rewrite Forall_forall in IH, HF |- *. eauto.
  - rewrite Forall_forall in IH, HF |- *. intros kv Hkv. destruct (HF kv Hkv) as (Hp & _ & Hc).
    split; [done|]. split; [|eauto]. intros Heq. rewrite Heq in Hp. by apply plain_not_linefeed in Hp.
Qed.

Lemma template_built ft key l1 l2 field lo hi :
  float_text_ok ft → field_key key → NoDup (l1.*1 ++ key :: l2.*1) → fields ft key lo hi (l1 ++ l2) →
  token field → 16 ≤ len field →
  let fixed := len (of_string key) + len field + len (l1 ++ l2) + 7 in
  fixed + hi ≤ int64_max →
  let data := marshal_or_nil ft (document key l1 l2 field) in
  built ft key (fixed + lo) (fixed + hi) (data, find_marker (marker key) data).
Proof.
  intros Hft Hkey Hnd [HF Hs] Ht H16 fixed Hmax data.
  destruct (document_template ft key l1 l2 field) as (t & Hm & Hok).
  - intros f. apply Hft.
  - by apply field_key_good.
  - done.
  - eapply Forall_impl; [exact HF|]. by intros kv (? & _ & ?).
  - by apply token_plain.
  - lia.
  - assert (clear newline (document key l1 l2 field)) as Hcl.
    { assert (Forall (λ kv, plain (of_string kv.1) ∧ kv.1 ≠ newline ∧ clear newline kv.2) (l1 ++ l2)) as HF'.
      { eapply Forall_impl; [exact HF|]. intros kv (Hp & _ & Hc). split; [done|].
        split; [|by eapply clear_linefeed]. intros Heq. rewrite Heq in Hp. by apply plain_not_linefeed in Hp. }
      apply Forall_app in HF' as [H1 H2]. constructor. apply Forall_app. split; [done|].
      constructor; [|done]. cbn [fst snd]. apply token_plain in Ht. split_and!.
      - by apply field_key_good.
      - by destruct Hkey as [->| ->].
      - constructor; [done|by apply plain_not_linefeed]. }
    assert (data = t) as -> by (unfold data, marshal_or_nil; by rewrite Hm).
    assert (len t = fixed + sum_list_Z (entry_size ft <$> l1 ++ l2)) as Hlen.
    { rewrite (length_Marshal ft newline _ t Hcl Hm). unfold document. rewrite text_size_map.
      rewrite !fmap_app, fmap_cons, !sum_list_Z_app, sum_list_Z_cons.
      assert (entry_size ft (key, VString field) = len (of_string key) + 3 + (len field + 2)) as -> by done.
      unfold fixed. rewrite !length_app, length_cons. lia. }
    split; [apply Hok; lia|cbn [fst]; lia].
Qed.

Section builders.
Context {R : Type} `{RandOk R}.
Context (ft : f64 → bytes) (Hft : float_text_ok ft).

Lemma float_size f : len (ft f) ≤ 32.
Proof using Hft. apply Hft. Qed.

(** The two bodies share the target less 4 KB, at least 1 KB each. *)
Lemma body_budget_ok t :
  1 ≤ t ≤ 2 ^ 36 →
  let '(req, resp) := body_budget t in
  1 ≤ req ≤ 2 ^ 36 ∧ 1 ≤ resp ≤ 2 ^ 36 ∧ req + resp = Z.max 2 (t - 4).
Proof.
  intros Ht. unfold body_budget. rewrite (wrap64_small (t - 4)) by lia.
  set (b := if t - 4 <? 1 then 1 else t - 4).
  assert (1 ≤ b ≤ 2 ^ 36 ∧ b = Z.max 1 (t - 4)) as [Hb Hbt]
    by (unfold b; destruct (Z.ltb_spec (t - 4) 1); lia).
  clearbody b. rewrite (wrap64_small (b * 3)) by lia. rewrite Z.quot_div_nonneg by lia.
  pose proof (Z.div_mod (b * 3) 5 ltac:(lia)). pose proof (Z.mod_pos_bound (b * 3) 5 ltac:(lia)).
  set (q := if b * 3 / 5 <? 1 then 1 else b * 3 / 5).
  assert (q = Z.max 1 (b * 3 / 5)) as Hq by (unfold q; destruct (Z.ltb_spec (b * 3 / 5) 1); lia).
  clearbody q. rewrite (wrap64_small (b - q)) by lia. destruct (Z.ltb_spec (b - q) 1); lia.
Qed.

(** A large template for a target of [t] KB. *)
Lemma buildTemplate_ok minKB maxKB :
  1 ≤ minKB ≤ maxKB → maxKB ≤ 2 ^ 36 →
  rnd_ok (R := R) (buildTemplate ft minKB maxKB)
    (λ tb, ∃ t, minKB ≤ t ≤ maxKB
       ∧ built ft "trace_id" (1024 * Z.max 2 (t - 4) + 3217) (1024 * Z.max 2 (t - 4) + 9965) tb).
Proof using All.
  intros Hmin Hmax. unfold buildTemplate.
  rewrite (wrap64_small (maxKB - minKB)), (wrap64_small (maxKB - minKB + 1)) by lia.
  bind rnd_ok_draw; [lia|]. intros k Hk. rewrite wrap64_small by lia.
  pose proof (body_budget_ok (minKB + k) ltac:(lia)) as Hb.
  destruct (body_budget (minKB + k)) as [req resp]. destruct Hb as (Hreq & Hresp & Hsum).
  bind buildRequest_ok; [apply float_size|done|]. intros v1 P1.
  bind buildResponse_ok; [apply float_size|done|]. intros v2 P2.
  bind buildStackTrace_ok; [apply float_size|]. intros v3 P3.
  bind buildTags_ok; [apply float_size|]. intros v4 P4.
  bind buildMetrics_ok; [apply float_size|]. intros v5 P5.
  bind buildContext_ok; [apply float_size|]. intros v6 P6.
  bind trace_id_ok. intros id [Hid Hl]. apply rnd_ok_ret. exists (minKB + k). split; [lia|].
  pose (l := [("request", v1); ("response", v2); ("stack_trace", v3); ("tags", v4); ("metrics", v5);
    ("context", v6)]%string).
  assert (fields ft "trace_id" (1024 * Z.max 2 (minKB + k - 4) + 3164)
    (1024 * Z.max 2 (minKB + k - 4) + 9912) (l ++ [])) as Hf.
  { eassert (fields ft "trace_id" _ _ (l ++ [])) as [HF Hs].
    { repeat (eapply fields_cons; [by repeat constructor|done|eassumption|]). apply fields_nil. }
    split; [exact HF|]. cbn in Hs. cbn. lia. }
  destruct (template_built ft "trace_id" l [] id _ _ Hft ltac:(by left) ltac:(apply (bool_decide_unpack _); exact I)
    Hf Hid ltac:(lia)) as [Hok Hlen].
  { cbn. lia. }
  split; [exact Hok|]. cbn in Hlen |- *. lia.
Qed.

(** The entries [before] and [after] of an audit document. *)
Lemma state_part key status m :
  field_key key → len (of_string status) = 6 → token (of_string status) → token m → 50 ≤ len m ≤ 100 →
  part ft key 83 133 (VMap [("status", str status); ("metadata", VString m)]%string).
Proof using.
  intros Hk Hs Ht Hm Hl.
  assert (part ft key 8 8 (str status)) as P1 by (apply part_string; [done|done|lia]).
  assert (part ft key 52 102 (VString m)) as P2 by (apply part_string; [done|done|lia]).
  assert (∀ s, s = "status"%string ∨ s = "metadata"%string → s ≠ key) as Hne
    by (intros s [-> | ->]; by destruct Hk as [->| ->]).
  eapply part_weaken; [apply fields_map; [|done]| |].
  - eapply fields_cons; [by repeat constructor|apply Hne; auto|exact P1|].
    eapply fields_cons; [by repeat constructor|apply Hne; auto|exact P2|]. apply fields_nil.
  - cbn. lia.
  - cbn. lia.
Qed.

Lemma exact_fields key lo hi l :
  fields ft key lo hi l → let s := sum_list_Z (entry_size ft <$> l) in fields ft key s s l.
Proof using. intros [HF Hs] s. split; [done|]. lia. Qed.

Lemma fields_snoc key lo hi lo' hi' l k v :
  fields ft key lo hi l → plain (of_string k) → k ≠ key → part ft key lo' hi' v →
  fields ft key (lo + (len (of_string k) + 3 + lo')) (hi + (len (of_string k) + 3 + hi')) (l ++ [(k, v)]).
Proof using.
  intros [HF Hs] Hk Hne [Hc Hv]. split; [apply Forall_app; by repeat constructor|].
  rewrite fmap_app, sum_list_Z_app, fmap_cons, sum_list_Z_cons. unfold sum_list_Z at 2. cbn [fmap foldr].
  assert (entry_size ft (k, v) = len (of_string k) + 3 + text_size ft v) as -> by done.
  cbn. lia.
Qed.

(** The entries of a large audit document besides its nonce and its pad. *)
Definition audit_entries (m1 m2 ctx : bytes) : list (string * value) :=
  [("before", VMap [("status", str "active"); ("metadata", VString m1)]);
   ("after", VMap [("status", str "closed"); ("metadata", VString m2)]);
   ("changed_fields", VList [str "status"; str "metadata"; str "ended_at"]);
   ("context", VString ctx)]%string.

Lemma audit_entries_fields (m1 m2 ctx : bytes) :
  token m1 ∧ 50 ≤ len m1 ≤ 100 → token m2 ∧ 50 ≤ len m2 ≤ 100 → token ctx ∧ 100 ≤ len ctx ≤ 200 →
  ∃ s, 344 ≤ s ≤ 544 ∧ fields ft "_nonce" s s (audit_entries m1 m2 ctx).
Proof using All.
  intros [T1 L1] [T2 L2] [T3 L3]. assert (field_key "_nonce") as Hkey by (by right).
  assert (fields ft "_nonce" 344 544 (audit_entries m1 m2 ctx)) as Hf.
  { pose proof (state_part "_nonce" "active" m1 Hkey eq_refl ltac:(by repeat constructor) T1 L1) as P1.
    pose proof (state_part "_nonce" "closed" m2 Hkey eq_refl ltac:(by repeat constructor) T2 L2) as P2.
    assert (part ft "_nonce" 32 32 (VList [str "status"; str "metadata"; str "ended_at"])) as P3.
    { split; [|cbn; lia]. constructor. repeat (apply Forall_cons; split; [constructor; [by repeat constructor|done]|]).
      constructor. }
    assert (part ft "_nonce" 102 202 (VString ctx)) as P4 by (apply part_string; [done|done|lia]).
    eassert (fields ft "_nonce" _ _ (audit_entries m1 m2 ctx)) as [HF Hs].
    { repeat (eapply fields_cons; [by repeat constructor|done|eassumption|]). apply fields_nil. }
    split; [exact HF|]. cbn in Hs. cbn. lia. }
  eexists. split; [|by eapply exact_fields]. apply Hf.
Qed.

(** A large audit document is padded to two bytes less than 2, 3 or 4 KB. *)
Lemma buildAuditTemplate_ok :
  rnd_ok (R := R) (buildAuditTemplate ft)
    (λ tb, ∃ kb, 2 ≤ kb ≤ 4 ∧ built ft "_nonce" (1024 * kb - 2) (1024 * kb - 2) tb).
Proof using All.
  assert (field_key "_nonce") as Hkey by (by right).
  unfold buildAuditTemplate. bind hex63_ok. intros nonce [Hn Hnl].
  bind randomString_ok; [lia|lia|]. intros m1 [T1 L1]. bind randomString_ok; [lia|lia|]. intros m2 [T2 L2].
  bind randomString_ok; [lia|lia|]. intros ctx [T3 L3].
  bind rnd_ok_draw; [lia|]. intros k Hk.
  destruct (audit_entries_fields m1 m2 ctx) as (s & Hs & He); [done..|].
  set (l := audit_entries m1 m2 ctx) in *.
  destruct (template_built ft "_nonce" [] l nonce s s Hft Hkey
    ltac:(apply (bool_decide_unpack _); exact I) He Hn ltac:(lia)) as [_ Hlen].
  { cbn. lia. }
  change (VMap (("_nonce"%string, VString nonce) :: _)) with (document "_nonce" [] l nonce).
  cbn [fst] in Hlen. change (len (of_string "_nonce")) with 6 in Hlen. change (len ([] ++ l)) with 4 in Hlen.
  set (data := marshal_or_nil ft (document "_nonce" [] l nonce)) in *. clearbody data.
  rewrite (wrap64_small (2 + k)), (wrap64_small ((2 + k) * 1024)) by lia.
  rewrite (wrap64_small (_ - len data)) by lia. rewrite (wrap64_small (_ - 12)) by lia.
  set (padLen := (2 + k) * 1024 - len data - 12).
  assert (1 ≤ padLen ≤ 2 ^ 36) as Hpl by (unfold padLen; lia).
  destruct (Z.gtb_spec padLen 0); [|lia].
  bind randomBase64Exact_ok; [done|]. intros pad [Hpad Hpadl]. apply rnd_ok_ret.
  exists (2 + k). split; [lia|].
  change (VMap _) with (document "_nonce" [] (l ++ [("_pad"%string, VString pad)]) nonce).
  assert (part ft "_nonce" (padLen + 2) (padLen + 2) (VString pad)) as P5
    by (apply part_string; [done|done|lia]).
  pose proof (fields_snoc "_nonce" _ _ _ _ l "_pad" _ He ltac:(by repeat constructor) ltac:(done) P5) as Hf5.
  destruct (template_built ft "_nonce" [] (l ++ [("_pad"%string, VString pad)]) nonce _ _ Hft Hkey
    ltac:(apply (bool_decide_unpack _); exact I) Hf5 Hn ltac:(lia)) as [Hok Hlen5].
  { cbn. lia. }
  split; [exact Hok|]. cbn [fst] in Hlen5 |- *. change (len (of_string "_nonce")) with 6 in Hlen5.
  change (len (of_string "_pad")) with 4 in Hlen5. change (len ([] ++ l ++ _)) with 5 in Hlen5.
  unfold padLen in Hlen5. lia.
Qed.

(** The small templates stay well below 2 KB. *)
Lemma buildSmallPayloadTemplate_ok :
  rnd_ok (R := R) (buildSmallPayloadTemplate ft) (built ft "trace_id" 313 1388).
Proof using All.
  assert (field_key "trace_id") as Hkey by (by left).
  unfold buildSmallPayloadTemplate. bind rnd_ok_draw; [lia|]. intros k Hk. rewrite wrap64_small by lia.
  bind rnd_ok_draw_from; [done|]. intros method P1%(methods_part ft).
  bind rnd_ok_draw_from; [done|]. intros path P2.
  apply (str_part ft 15 18) in P2; [|by repeat (constructor; [split; [by repeat constructor|cbn; lia]|])].
  bind rnd_ok_draw_from; [done|]. intros status P3%(status_part ft).
  bind randomString_ok; [lia|lia|]. intros t1 [T1 L1]. bind randomString_ok; [lia|lia|]. intros t2 [T2 L2].
  bind randomString_ok; [lia|lia|]. intros t3 [T3 L3].
  bind randomBase64_ok; [lia|]. intros body [Tb Lb]. bind trace_id_ok. intros id [Hid Hidl].
  apply rnd_ok_ret.
  pose proof (Z.div_mod (128 + k + 2) 3 ltac:(lia)). pose proof (Z.mod_pos_bound (128 + k + 2) 3 ltac:(lia)).
  assert (part ft "trace_id" 174 1198 (VString body)) as P5 by (apply part_string; [done|done|lia]).
  assert (part ft "trace_id" 25 70 (VList [VString t1; VString t2; VString t3])) as P4.
  { split; [|cbn; lia]. constructor. by repeat (constructor; [by apply token_clear|]). }
  pose (l := [("method", str method); ("path", str path); ("status", VInt status);
    ("tags", VList [VString t1; VString t2; VString t3]); ("body", VString body)]%string).
  assert (fields ft "trace_id" 261 1336 (l ++ [])) as Hf.
  { eassert (fields ft "trace_id" _ _ (l ++ [])) as [HF Hs].
    { repeat (eapply fields_cons; [by repeat constructor|done|eassumption|]). apply fields_nil. }
    split; [exact HF|]. cbn in Hs. cbn. lia. }
  destruct (template_built ft "trace_id" l [] id _ _ Hft Hkey ltac:(apply (bool_decide_unpack _); exact I)
    Hf Hid ltac:(lia)) as [Hok Hlen].
  { cbn. lia. }
  split; [exact Hok|]. cbn in Hlen |- *. lia.
Qed.

Lemma buildSmallAuditTemplate_ok :
  rnd_ok (R := R) (buildSmallAuditTemplate ft) (built ft "_nonce" 438 1222).
Proof using All.
  assert (field_key "_nonce") as Hkey by (by right).
  unfold buildSmallAuditTemplate. bind hex63_ok. intros nonce [Hn Hnl].
  bind randomString_ok; [lia|lia|]. intros m1 [T1 L1]. bind randomString_ok; [lia|lia|]. intros m2 [T2 L2].
  bind rnd_ok_draw; [lia|]. intros k Hk. rewrite wrap64_small by lia.
  bind randomBase64_ok; [lia|]. intros ctx [T3 L3]. apply rnd_ok_ret.
  pose proof (Z.div_mod (128 + k + 2) 3 ltac:(lia)). pose proof (Z.mod_pos_bound (128 + k + 2) 3 ltac:(lia)).
  pose (l := [("before", VMap [("status", str "active"); ("metadata", VString m1)]);
    ("after", VMap [("status", str "closed"); ("metadata", VString m2)]);
    ("changed_fields", VList [str "status"; str "metadata"]); ("context", VString ctx)]%string).
  assert (fields ft "_nonce" 405 1189 l) as Hf.
  { pose proof (state_part "_nonce" "active" m1 Hkey eq_refl ltac:(by repeat constructor) T1 L1) as P1.
    pose proof (state_part "_nonce" "closed" m2 Hkey eq_refl ltac:(by repeat constructor) T2 L2) as P2.
    assert (part ft "_nonce" 21 21 (VList [str "status"; str "metadata"])) as P3.
    { split; [|cbn; lia]. constructor. repeat (apply Forall_cons; split; [constructor; [by repeat constructor|done]|]).
      constructor. }
    assert (part ft "_nonce" 174 858 (VString ctx)) as P4 by (apply part_string; [done|done|lia]).
    eassert (fields ft "_nonce" _ _ l) as [HF Hs].
    { repeat (eapply fields_cons; [by repeat constructor|done|eassumption|]). apply fields_nil. }
    split; [exact HF|]. cbn in Hs. cbn. lia. }
  destruct (template_built ft "_nonce" [] l nonce _ _ Hft Hkey ltac:(apply (bool_decide_unpack _); exact I)
    Hf Hn ltac:(lia)) as [Hok Hlen].
  { cbn. lia. }
  split; [exact Hok|]. cbn in Hlen |- *. lia.
Qed.
End builders.
