(* ===== verification/PayloadPools.v ===== *)
(** * The template pools after start-up

    What [init] and [InitEventPool] leave in the pools, and what the values
    written by the operations look like: JSON documents that differ from a
    template in 16 digits of one field, large or small as TOAST_PCT says. *)

From S2P Require Export PayloadTemplates.
From S2P Require Export Config.

(** ** Pools *)

(** 100 templates, each with [P]. *)
Record pool_built (P : bytes * Z → Prop) (p : pool) : Prop := {
  pb_templates : length p.(templates) = 100%nat;
  pb_offsets : length p.(offsets) = 100%nat;
  pb_each : ∀ i t o, p.(templates) !! i = Some t → p.(offsets) !! i = Some o → P (t, o);
}.

Lemma build_pool_ok {R} (seed : Z → R) (build : rnd R (bytes * Z)) first P :
  rnd_ok build P → ∃ p, build_pool seed build first = Some p ∧ pool_built P p.
Proof.
  intros Hb. unfold build_pool.
  assert (∀ l : list nat, ∃ ts, mapM (λ i, fst <$> build (seed (Z.of_nat i + first))) l = Some ts
    ∧ length ts = length l ∧ Forall P ts) as Hall.
  { induction l as [|i l (ts & Hts & Hl & HF)]; [by exists []|].
    destruct (Hb (seed (Z.of_nat i + first))) as (tb & r' & Hr & HP). exists (tb :: ts).
    cbn [mapM]. rewrite Hr, Hts. split; [done|]. split; [cbn; by f_equal|by constructor]. }
  destruct (Hall (seq 0 (Z.to_nat templatePoolSize))) as (ts & -> & Hl & HF).
  rewrite length_seq in Hl. eexists. split; [done|].
  split; cbn [templates offsets]; rewrite ?length_fmap; [done..|].
  intros i t o Ht Ho. rewrite list_lookup_fmap in Ht. rewrite list_lookup_fmap in Ho.
  destruct (ts !! i) as [[t' o']|] eqn:Hi; [|done]. injection Ht as <-. injection Ho as <-.
  by eapply Forall_lookup_1 in Hi.
Qed.

Lemma pool_built_mono (P Q : bytes * Z → Prop) p :
  (∀ tb, P tb → Q tb) → pool_built P p → pool_built Q p.
Proof. intros HPQ [Ht Ho He]. split; [done..|]. eauto. Qed.

(** The large templates for targets of [minKB] to [maxKB]. *)
Definition large (ft : f64 → bytes) (minKB maxKB : Z) (tb : bytes * Z) : Prop :=
  ∃ t, minKB ≤ t ≤ maxKB
    ∧ built ft "trace_id" (1024 * Z.max 2 (t - 4) + 3217) (1024 * Z.max 2 (t - 4) + 9965) tb.

Definition large_audit (ft : f64 → bytes) (tb : bytes * Z) : Prop :=
  ∃ kb, 2 ≤ kb ≤ 4 ∧ built ft "_nonce" (1024 * kb - 2) (1024 * kb - 2) tb.

(** The pools after start-up for event payloads of [minKB] to [maxKB]. *)
Record payloads_built (ft : f64 → bytes) (minKB maxKB : Z) (p : payloads) : Prop := {
  built_session : pool_built (large ft 4 8) p.(sessionPool);
  built_event : pool_built (large ft minKB maxKB) p.(eventPool);
  built_audit : pool_built (large_audit ft) p.(auditPool);
  built_smallPayload : pool_built (built ft "trace_id" 313 1388) p.(smallPayloadPool);
  built_smallAudit : pool_built (built ft "_nonce" 438 1222) p.(smallAuditPool);
}.

(** The field lies inside the template. *)
Lemma template_ok_field ft key tb :
  template_ok ft key tb.1 tb.2 → 0 ≤ tb.2 ∧ tb.2 + 16 ≤ len tb.1 ≤ int64_max.
Proof. intros [(l1 & l2 & field & _ & _ & H16 & Hle & _) Ho Hs]. lia. Qed.

Lemma pool_built_ok ft key P p :
  (∀ tb, P tb → template_ok ft key tb.1 tb.2) → pool_built P p → pool_ok p.
Proof.
  intros HP [Ht Ho He]. split; [done..|]. intros i t o Hi Hj.
  pose proof (template_ok_field ft key (t, o) (HP _ (He i t o Hi Hj))). cbn in *. lia.
Qed.

Lemma built_template ft key lo hi tb : built ft key lo hi tb → template_ok ft key tb.1 tb.2.
Proof. by intros [? _]. Qed.

Lemma large_template ft lo hi tb : large ft lo hi tb → template_ok ft "trace_id" tb.1 tb.2.
Proof. by intros (t & _ & ? & _). Qed.

Lemma large_audit_template ft tb : large_audit ft tb → template_ok ft "_nonce" tb.1 tb.2.
Proof. by intros (t & _ & ? & _). Qed.

(** The pools of the start-up satisfy what the operations need. *)
Lemma payloads_built_ok ft minKB maxKB p : payloads_built ft minKB maxKB p → payloads_ok p.
Proof.
  intros [? ? ? ? ?].
  split; eapply pool_built_ok; try eassumption;
    first [apply large_template|apply large_audit_template|apply built_template].
Qed.

Lemma SetToastPct_built ft minKB maxKB pct p :
  payloads_built ft minKB maxKB p → payloads_built ft minKB maxKB (SetToastPct pct p).
Proof. by intros []. Qed.

(** The start-up succeeds. *)
Lemma startup_pools {R} `{RandOk R} (ft : f64 → bytes) (seed : Z → R) minKB maxKB :
  float_text_ok ft → 1 ≤ minKB ≤ maxKB → maxKB ≤ 2 ^ 36 →
  ∃ p0 p, init_payloads ft seed = Some p0 ∧ InitEventPool ft seed minKB maxKB p0 = Some p
    ∧ payloads_built ft minKB maxKB p ∧ p.(toastPct) = 100.
Proof.
  intros Hft Hmin Hmax. unfold init_payloads, InitEventPool.
  destruct (build_pool_ok seed _ 0 _ (buildTemplate_ok ft Hft 4 8 ltac:(lia) ltac:(lia))) as (s & -> & Hs).
  destruct (build_pool_ok seed _ (2 * templatePoolSize) _ (buildAuditTemplate_ok ft Hft)) as (a & -> & Ha).
  destruct (build_pool_ok seed _ (3 * templatePoolSize) _ (buildSmallPayloadTemplate_ok ft Hft))
    as (sp & -> & Hsp).
  destruct (build_pool_ok seed _ (4 * templatePoolSize) _ (buildSmallAuditTemplate_ok ft Hft))
    as (sa & -> & Hsa).
  destruct (build_pool_ok seed _ templatePoolSize _ (buildTemplate_ok ft Hft minKB maxKB Hmin Hmax))
    as (e & He & Hev).
  eexists _, _. split; [done|]. rewrite He. split; [done|]. by split.
Qed.

(** ** The values written *)

(** [b] is a document whose field [key] starts with 16 fresh hex digits, and
    is a template of a pool otherwise. *)
Definition fresh_document (ft : f64 → bytes) (key : string) (p : pool) (lo hi : Z) (b : bytes) : Prop :=
  (∃ tmpl l1 l2 field digits, tmpl ∈ p.(templates)
    ∧ Marshal ft (document key l1 l2 field) = Some tmpl
    ∧ length digits = 16%nat ∧ Forall is_hex digits
    ∧ Marshal ft (document key l1 l2 (digits ++ drop 16 field)) = Some b)
  ∧ lo ≤ len b ≤ hi.

Lemma mutation_length tmpl o b : mutation_of tmpl o b → (o + 16 ≤ length tmpl)%nat → length b = length tmpl.
Proof. intros (d & Hd & _ & ->) Hle. rewrite !length_app, length_take, length_drop. lia. Qed.

Section written.
Context {R : Type} `{RandOk R} (ft : f64 → bytes).

Lemma mutatedPayload_fresh key P p (rng : R) :
  (∀ tb, P tb → template_ok ft key tb.1 tb.2) → pool_built P p →
  ∃ b rng' tb, mutatedPayload p rng = Some (b, rng') ∧ P tb ∧ fresh_document ft key p (len tb.1) (len tb.1) b.
Proof.
  intros HP Hb. pose proof (pool_built_ok ft key P p HP Hb) as Hok.
  destruct (mutatedPayload_ok p rng Hok) as (i & tmpl & o & b & rng' & Ht & Ho & -> & Hm & Hle).
  destruct Hb as [_ _ He]. pose proof (He i tmpl o Ht Ho) as HPt.
  exists b, rng', (tmpl, o). split; [done|]. split; [done|].
  split; [|cbn [fst]; rewrite (mutation_length _ _ _ Hm Hle); lia].
  destruct (mutation_document ft key tmpl o b (HP _ HPt) Hm) as (l1 & l2 & field & digits & ?).
  exists tmpl, l1, l2, field, digits. split; [|done]. by eapply list_elem_of_lookup_2.
Qed.

Lemma fresh_document_weaken key p lo hi lo' hi' b :
  fresh_document ft key p lo hi b → lo' ≤ lo → hi ≤ hi' → fresh_document ft key p lo' hi' b.
Proof. intros [Hd Hs] ??. split; [done|lia]. Qed.

(** The roll that makes a payload large. *)
Definition toast_roll (rng : R) : Z := (rand_Intn 100 rng).1.

Lemma isLarge_roll pl (rng : R) : ∃ rng', isLarge pl rng = Some (toast_roll rng <? pl.(toastPct), rng').
Proof.
  unfold isLarge, toast_roll, Intn. cbn [Z.leb]. destruct (rand_Intn 100 rng) as [i r]. by exists r.
Qed.

Lemma sized_payload_fresh key P pl big small lo hi (large_doc : bytes → Prop) (rng : R) :
  (∀ tb, P tb → template_ok ft key tb.1 tb.2) →
  (∀ tb b, P tb → fresh_document ft key big (len tb.1) (len tb.1) b → large_doc b) →
  pool_built P big → pool_built (built ft key lo hi) small →
  ∃ b rng', sized_payload pl big small rng = Some (b, rng')
    ∧ if toast_roll rng <? pl.(toastPct) then large_doc b else fresh_document ft key small lo hi b.
Proof.
  intros HP Hdoc Hbig Hsmall. unfold sized_payload. destruct (isLarge_roll pl rng) as [rng1 ->].
  cbn [mbind option_bind]. destruct (toast_roll rng <? toastPct pl).
  - destruct (mutatedPayload_fresh key P big rng1 HP Hbig) as (b & rng' & tb & -> & HPt & Hf). eauto.
  - destruct (mutatedPayload_fresh key _ small rng1 (built_template ft key lo hi) Hsmall)
      as (b & rng' & tb & -> & [_ Hl] & Hf).
    exists b, rng'. split; [done|]. eapply fresh_document_weaken; [exact Hf|lia..].
Qed.
End written.

(** ** Properties *)

(** C16: every payload written is a JSON document of the right size.  From any
    seeds, with any valid payload range up to 2^36 KB, the start-up builds its templates
    without a panic, and every later payload, for any TOAST_PCT and any state
    of the random source, is the text of a template's document in which only
    the first 16 digits of the mutable field are replaced, by hex digits: the
    in-place rewrite never hits another field and never breaks the syntax.
    The payload is large exactly when the roll is below TOAST_PCT; large
    session and event payloads carry their bodies of [max 2 (t - 4)] KB for a
    target of [t] KB plus 3.2 to 9.7 KB of other fields, a large audit diff has
    2, 3 or 4 KB less two bytes, and no small payload reaches 1.4 KB. *)
Theorem payload_documents {R} `{RandOk R} (ft : f64 → bytes) (seed : Z → R) (minKB maxKB : Z) :
  float_text_ok ft → 1 ≤ minKB ≤ maxKB → maxKB ≤ 2 ^ 36 →
  ∃ p0 p, init_payloads ft seed = Some p0 ∧ InitEventPool ft seed minKB maxKB p0 = Some p ∧
  ∀ pct (rng : R), let pl := SetToastPct pct p in
    (∃ b rng', GetSessionPayload pl rng = Some (b, rng') ∧
      if toast_roll rng <? pct
      then ∃ t, 4 ≤ t ≤ 8 ∧ fresh_document ft "trace_id" p.(sessionPool)
             (1024 * Z.max 2 (t - 4) + 3217) (1024 * Z.max 2 (t - 4) + 9965) b
      else fresh_document ft "trace_id" p.(smallPayloadPool) 313 1388 b)
    ∧ (∃ b rng', GetEventPayload pl rng = Some (b, rng') ∧
      if toast_roll rng <? pct
      then ∃ t, minKB ≤ t ≤ maxKB ∧ fresh_document ft "trace_id" p.(eventPool)
             (1024 * Z.max 2 (t - 4) + 3217) (1024 * Z.max 2 (t - 4) + 9965) b
      else fresh_document ft "trace_id" p.(smallPayloadPool) 313 1388 b)
    ∧ (∃ b rng', GetAuditDiff pl rng = Some (b, rng') ∧
      if toast_roll rng <? pct
      then ∃ kb, 2 ≤ kb ≤ 4 ∧ fresh_document ft "_nonce" p.(auditPool) (1024 * kb - 2) (1024 * kb - 2) b
      else fresh_document ft "_nonce" p.(smallAuditPool) 438 1222 b).
Proof.
  intros Hft Hmin Hmax.
  destruct (startup_pools ft seed minKB maxKB Hft Hmin Hmax) as (p0 & p & Hp0 & Hp1 & [Hs He Ha Hsp Hsa] & _).
  exists p0, p. split; [done|]. split; [done|]. intros pct rng pl.
  split; [|split].
  - eapply sized_payload_fresh; [apply large_template| |exact Hs|exact Hsp].
    intros tb b (t & Ht & [_ Hl]) Hf. exists t. split; [done|]. eapply fresh_document_weaken; [exact Hf|lia..].
  - eapply sized_payload_fresh; [apply large_template| |exact He|exact Hsp].
    intros tb b (t & Ht & [_ Hl]) Hf. exists t. split; [done|]. eapply fresh_document_weaken; [exact Hf|lia..].
  - eapply sized_payload_fresh; [apply large_audit_template| |exact Ha|exact Hsa].
    intros tb b (t & Ht & [_ Hl]) Hf. exists t. split; [done|]. eapply fresh_document_weaken; [exact Hf|lia..].
Qed.

Lemma payload_documents_witness :
  ∃ p0 p, init_payloads (λ _, of_string "0.5") (λ i, [i; 2 * i; 77] : script) = Some p0
    ∧ InitEventPool (λ _, of_string "0.5") (λ i, [i; 2 * i; 77] : script) 8 16 p0 = Some p
    ∧ ∀ rng : script, ∃ b rng', GetAuditDiff (SetToastPct 0 p) rng = Some (b, rng') ∧ len b ≤ 1222.
Proof.
  destruct (payload_documents (λ _, of_string "0.5") (λ i, [i; 2 * i; 77] : script) 8 16)
    as (p0 & p & Hp0 & Hp1 & Hall).
  - intros f. split; [by repeat constructor|cbn; lia].
  - lia.
  - lia.
  - exists p0, p. split; [done|]. split; [done|]. intros rng.
    destruct (Hall 0 rng) as (_ & _ & b & rng' & Hg & Hc). exists b, rng'. split; [done|].
    assert (0 ≤ toast_roll rng) as Hr by (apply (rand_Intn_range 100 rng); lia).
    rewrite (proj2 (Z.ltb_ge (toast_roll rng) 0)) in Hc by exact Hr. apply Hc.
Defined.

(** ** An unbounded setting *)

Definition rnd_panics {R A} (m : rnd R A) : Prop := ∀ r, m r = None.

Lemma rnd_panics_bind {R A B} (m : rnd R A) (f : A → rnd R B) P :
  rnd_ok m P → (∀ a, P a → rnd_panics (f a)) → rnd_panics (m ≫= f).
Proof.
  intros Hm Hf r. destruct (Hm r) as (a & r' & Hr & HP). unfold mbind, rnd_bind. rewrite Hr. by apply Hf.
Qed.

Lemma rnd_panics_first {R A B} (m : rnd R A) (f : A → rnd R B) : rnd_panics m → rnd_panics (m ≫= f).
Proof. intros Hm r. unfold mbind, rnd_bind. by rewrite Hm. Qed.

Lemma build_pool_panics {R} (seed : Z → R) (build : rnd R (bytes * Z)) first :
  rnd_panics build → build_pool seed build first = None.
Proof.
  intros Hp. unfold build_pool. change (seq 0 (Z.to_nat templatePoolSize)) with (0%nat :: seq 1 99).
  cbn [mapM]. by rewrite Hp.
Qed.

(** C40: MAX_PAYLOAD_KB has no upper bound: the configuration with both
    payload sizes at 2^62 KB is accepted, but the length of the response body
    wraps around to a negative number and the program panics in
    [InitEventPool] instead of rejecting the setting. *)
Theorem huge_payload_panics {R} `{RandOk R} (ft : f64 → bytes) (seed : Z → R) (p : payloads) :
  ∃ (env : Env) (cfg : Config), Load env = Ok cfg
    ∧ InitEventPool ft seed cfg.(MinPayloadKB) cfg.(MaxPayloadKB) p = None.
Proof.
  exists (λ k, if decide (k = "MIN_PAYLOAD_KB" ∨ k = "MAX_PAYLOAD_KB") then "4611686018427387904"
               else "")%string.
  eexists. split; [vm_compute; reflexivity|]. cbn [MinPayloadKB MaxPayloadKB].
  assert (rnd_panics (R := R) (buildTemplate ft 4611686018427387904 4611686018427387904)) as Hp.
  { unfold buildTemplate. change (_ -! _ +! 1) with 1.
    eapply rnd_panics_bind; [by apply rnd_ok_draw|]. cbv beta. intros k Hk. assert (k = 0) as -> by lia.
    change (body_budget _) with (1, 4611686018427387899).
    eapply rnd_panics_bind.
    { unfold buildRequest. eapply rnd_ok_bind; [apply (rnd_ok_each _ (λ _, True)); intros i _; unfold header|].
      - eapply rnd_ok_bind; [by apply randomString_ok|]. intros s _. by apply rnd_ok_ret.
      - intros hs _. eapply rnd_ok_bind; [by apply rnd_ok_draw_from|]. intros m _.
        eapply rnd_ok_bind; [by apply rnd_ok_draw_from|]. intros q _.
        eapply rnd_ok_bind; [apply body_ok; lia|]. intros b _. by apply (rnd_ok_ret _ (λ _, True)). }
    intros req _. apply rnd_panics_first. unfold buildResponse.
    eapply rnd_panics_bind; [apply (rnd_ok_each _ (λ _, True)); intros i _; unfold header|].
    { eapply rnd_ok_bind; [by apply randomString_ok|]. intros s _. by apply rnd_ok_ret. }
    intros hs _. eapply rnd_panics_bind; [by apply rnd_ok_draw_from|]. intros st _.
    apply rnd_panics_first. unfold randomBase64. apply rnd_panics_first. intros r. vm_compute. reflexivity. }
  unfold InitEventPool. by rewrite build_pool_panics.
Qed.

Lemma huge_payload_panics_witness :
  ∃ (env : Env) (cfg : Config), Load env = Ok cfg
    ∧ InitEventPool (λ _, of_string "0.5") (λ i, [i] : script) cfg.(MinPayloadKB) cfg.(MaxPayloadKB)
        (mkPayloads (mkPool [] []) (mkPool [] []) (mkPool [] []) (mkPool [] []) (mkPool [] []) 100) = None.
Proof. exact (huge_payload_panics (λ _, of_string "0.5") (λ i, [i] : script) _). Defined.
