(* ===== verification/Database.v ===== *)
(** * Programs that talk to the database

    An operation is a tree of calls: each node is one call to the driver (or
    to the shared ring, or to [uuid.New]), and it continues with the answer.
    A [handler] is any environment: it answers a call knowing all calls and
    answers before it, so it covers every database, every failure and every
    interleaving with other workers.  [wp] is the weakest precondition over
    all environments that keep the promises of [ok_answer]. *)

From S2P Require Export DbApi.
From S2P Require Export Ring.
From S2P Require Export Payload.

(** Arguments of a statement. *)
Inductive arg :=
  | AUUID (id : UUID)
  | AStr (s : string)
  | ABytes (b : bytes)
  | AInt (n : Z).

Inductive call :=
  | CBegin
  | CTxExec (sql : string) (args : list arg)
  | CTxQueryRow (sql : string) (args : list arg)
  | CCommit
  | CRollback
  | CPoolQuery (sql : string) (args : list arg)
  | CPoolExec (sql : string) (args : list arg)
  | CNewUUID
  | CRing
  | CPush (id : UUID).

(** What each call returns.  A statement returns its error; a query its rows,
    whose columns the operations scan and drop; [CRing] is the state of the
    shared ring when the operation samples it. *)
Definition answer (c : call) : Type :=
  match c with
  | CBegin | CTxExec _ _ | CTxQueryRow _ _ | CCommit | CPoolExec _ _ => option error
  | CPoolQuery _ _ => result (Rows unit)
  | CRollback | CPush _ => unit
  | CNewUUID => UUID
  | CRing => SessionRing
  end.

Inductive prog (A : Type) :=
  | Ret (a : A)
  | Vis (c : call) (k : answer c → prog A)
  | Panic.
Arguments Ret {A}.
Arguments Vis {A}.
Arguments Panic {A}.

#[export] Instance prog_ret : MRet prog := λ A, Ret.

#[export] Instance prog_bind : MBind prog := λ A B f,
  fix bind (p : prog A) : prog B :=
    match p with
    | Ret a => f a
    | Vis c k => Vis c (λ x, bind (k x))
    | Panic => Panic
    end.

Definition trigger (c : call) : prog (answer c) := Vis c Ret.

(** A partial computation: [None] is a panic. *)
Definition lift {A} (o : option A) : prog A := match o with Some a => Ret a | None => Panic end.

(** [defer tx.Rollback(ctx)]: runs when the rest returns and when it panics. *)
Fixpoint deferred_rollback {A} (p : prog A) : prog A :=
  match p with
  | Ret a => Vis CRollback (λ _, Ret a)
  | Vis c k => Vis c (λ x, deferred_rollback (k x))
  | Panic => Vis CRollback (λ _, Panic)
  end.

(** A call that was made, with its answer. *)
Notation io := {c : call & answer c}.

Definition handler : Type := list io → ∀ c, answer c.

(** Running a program: its result ([None] after a panic) and all calls. *)
Fixpoint interp {A} (h : handler) (tr : list io) (p : prog A) : option A * list io :=
  match p with
  | Ret a => (Some a, tr)
  | Vis c k => interp h (tr ++ [existT c (h tr c)]) (k (h tr c))
  | Panic => (None, tr)
  end.

(** The error a call reported, if any. *)
Definition error_of (e : io) : option error :=
  match e with
  | existT c x =>
      match c as c return answer c → option error with
      | CBegin | CTxExec _ _ | CTxQueryRow _ _ | CCommit | CPoolExec _ _ => λ err, err
      | CPoolQuery _ _ => λ res, match res with Err e => Some e | Ok rows => rows.(rows_Err) end
      | _ => λ _, None
      end x
  end.

(** What the program may rely on: the shared ring is well-formed, and no error
    of the driver wraps the program's own [errSkipped] sentinel. *)
Definition ok_answer (skipped : error) (e : io) : Prop :=
  match e with
  | existT c x =>
      match c as c return answer c → Prop with
      | CRing => ring_wf
      | _ => λ _, True
      end x
  end ∧ ∀ err, error_of e = Some err → errors_Is err skipped = false.

Section wp.
Context (skipped : error).

(** No run panics, and every run ends in [Q] with the calls it made. *)
Fixpoint wp {A} (p : prog A) (Q : A → list io → Prop) : Prop :=
  match p with
  | Ret a => Q a []
  | Vis c k => ∀ x, ok_answer skipped (existT c x) → wp (k x) (λ a l, Q a (existT c x :: l))
  | Panic => False
  end.

Lemma wp_mono {A} (p : prog A) (Q Q' : A → list io → Prop) :
  (∀ a l, Q a l → Q' a l) → wp p Q → wp p Q'.
Proof.
  revert Q Q'. induction p as [a|c k IH|]; intros Q Q' HQ Hp; [by apply HQ| |done].
  intros x Hx. eapply IH; [|by apply Hp]. intros a l. apply HQ.
Qed.

Lemma wp_bind {A B} (p : prog A) (f : A → prog B) (Q : B → list io → Prop) :
  wp p (λ a l, wp (f a) (λ b l', Q b (l ++ l'))) → wp (p ≫= f) Q.
Proof.
  revert Q. induction p as [a|c k IH|]; intros Q Hp; [done| |done].
  intros x Hx. apply IH. by apply Hp.
Qed.

Lemma wp_trigger c (Q : answer c → list io → Prop) :
  (∀ x, ok_answer skipped (existT c x) → Q x [existT c x]) → wp (trigger c) Q.
Proof. intros HQ x Hx. by apply HQ. Qed.

Lemma wp_lift {A} (o : option A) a (Q : A → list io → Prop) :
  o = Some a → Q a [] → wp (lift o) Q.
Proof. intros ->. done. Qed.

Lemma wp_deferred {A} (p : prog A) (Q : A → list io → Prop) :
  wp p (λ a l, Q a (l ++ [existT CRollback tt])) → wp (deferred_rollback p) Q.
Proof.
  revert Q. induction p as [a|c k IH|]; intros Q Hp; [|intros x Hx; apply IH; by apply Hp|done].
  intros [] _. exact Hp.
Qed.

(** Every environment that keeps its promises runs the program as [wp] says. *)
Lemma wp_sound {A} (h : handler) (p : prog A) (Q : A → list io → Prop) tr :
  (∀ tr c, ok_answer skipped (existT c (h tr c))) → wp p Q →
  ∃ a l, interp h tr p = (Some a, tr ++ l) ∧ Q a l.
Proof.
  intros Hh. revert tr Q. induction p as [a|c k IH|]; intros tr Q Hp; [|
    |done].
  - exists a, []. by rewrite app_nil_r.
  - destruct (IH (h tr c) (tr ++ [existT c (h tr c)]) _ (Hp _ (Hh tr c))) as (a & l & Hi & HQ).
    exists a, (existT c (h tr c) :: l). cbn [interp]. rewrite Hi, <- app_assoc. done.
Qed.
End wp.
