(* ===== verification/OpsSQL.v ===== *)
(** * workload/ops.go: the statements

    The text of every statement the operations send. *)

From S2P Require Export Prelude.

Definition readSimpleSQL : string :=
  "SELECT id, event_type, occurred_at, severity, trace_id
		 FROM events
		 WHERE session_id = $1
		 ORDER BY occurred_at DESC
		 LIMIT 20".

Definition readSimpleWithPayloadSQL : string :=
  "SELECT id, event_type, occurred_at, severity, trace_id, payload
		 FROM events
		 WHERE session_id = $1
		 ORDER BY occurred_at DESC
		 LIMIT 20".

Definition readByIPSQL : string :=
  "SELECT id, session_id, event_type, occurred_at, severity, trace_id
		 FROM events
		 WHERE source_ip >= $1::inet AND source_ip <= $2::inet
		 ORDER BY source_ip
		 LIMIT 50".

Definition readByIPWithPayloadSQL : string :=
  "SELECT id, session_id, event_type, occurred_at, severity, trace_id, payload
		 FROM events
		 WHERE source_ip >= $1::inet AND source_ip <= $2::inet
		 ORDER BY source_ip
		 LIMIT 50".

Definition insertSessionSQL : string :=
  "INSERT INTO sessions (id, user_id, started_at, region, metadata, status)
		 VALUES ($1, $2, now(), $3, $4, 'active')".

Definition insertEventSQL : string :=
  "INSERT INTO events (id, session_id, event_type, occurred_at, payload, severity, trace_id, source_ip)
			 VALUES ($1, $2, $3, now(), $4, $5, $6, $7)".

Definition insertAuditSQL : string :=
  "INSERT INTO audit_log (id, entity_type, entity_id, action, changed_by, diff, checksum)
		 VALUES ($1, 'session', $2, 'INSERT', $3, $4, $5)".

Definition readJoinSQL : string :=
  "SELECT
			s.id, s.user_id, s.region, s.status,
			e.id as event_id, e.event_type, e.severity, e.payload,
			al.action, al.changed_at
		 FROM sessions s
		 JOIN events e ON e.session_id = s.id
		 LEFT JOIN audit_log al ON al.entity_id = s.id
		 WHERE s.id = $1
		   AND e.severity = $2
		 ORDER BY e.occurred_at DESC
		 LIMIT 20".

Definition lockSessionSQL : string :=
  "SELECT id FROM sessions WHERE id = $1 FOR UPDATE SKIP LOCKED".

Definition updateSessionSQL : string :=
  "UPDATE sessions
		 SET status = 'closed', ended_at = now(), metadata = $2
		 WHERE id = $1".

Definition updateAuditSQL : string :=
  "INSERT INTO audit_log (id, entity_type, entity_id, action, changed_by, diff, checksum)
		 VALUES ($1, 'session', $2, 'UPDATE', $3, $4, $5)".

Definition deleteEventsSQL : string :=
  "DELETE FROM events
		 WHERE id IN (
			 SELECT id FROM events
			 WHERE session_id = $1
			 ORDER BY occurred_at ASC
			 LIMIT $2
		 )".
