(* ===== verification/Ops.v ===== *)
(** * workload/ops.go: the operations of the oltp profile

    Each operation as a program over the calls of Database.v, statement by
    statement.  A program returns the error of the operation and the worker's
    random source; scanning a row has no effect the operation uses. *)

From S2P Require Export Database.
From S2P Require Export Executor.
From S2P Require Export Actors.
From S2P Require Export Config.
From S2P Require Export OpsSQL.

Definition OpInsert : string := "insert".
Definition OpReadSimple : string := "read_simple".
Definition OpReadJoin : string := "read_join".
Definition OpUpdate : string := "update".
Definition OpDelete : string := "delete".
Definition OpReadByIP : string := "read_by_ip".

Definition regions : list string :=
  ["us-east-1"; "us-west-2"; "eu-west-1"; "ap-southeast-1"; "ap-northeast-1"]%string.
Definition severities : list string := ["info"; "warn"; "error"; "debug"]%string.
Definition eventTypes : list string :=
  ["request"; "response"; "error"; "auth"; "payment"; "audit"; "system"]%string.

(** [pgx.ErrNoRows] *)
Definition ErrNoRows : error := ErrNew "no rows in result set".

Section ops.
Context {R : Type} `{Rand R}.
Context (cfg : Config) (actors : actor_pools) (pl : payloads).

Definition randomIP (rng : R) : option (string * R) :=
  '(a, rng) ← Intn 256 rng;
  '(b, rng) ← Intn 256 rng;
  Some ("192.168." +:+ fmt_d a +:+ "." +:+ fmt_d b, rng).

Definition int63 (rng : R) : prog (Z * R) := Ret (rand_Int63 rng).

(** One event of [doInsert]. *)
Definition insert_event (sessionID : UUID) (rng : R) : prog (option error * R) :=
  eventID ← trigger CNewUUID;
  '(payload, rng) ← lift (GetEventPayload pl rng);
  '(n, rng) ← int63 rng;
  let traceID := fmt_016x n in
  '(severity, rng) ← lift (pick severities rng);
  '(evType, rng) ← lift (pick eventTypes rng);
  '(sourceIP, rng) ← lift (randomIP rng);
  err ← trigger (CTxExec insertEventSQL
    [AUUID eventID; AUUID sessionID; AStr evType; ABytes payload; AStr severity; AStr traceID;
     AStr sourceIP]);
  match err with
  | Some e => Ret (Some (wrapf "insert event" e), rng)
  | None => Ret (None, rng)
  end.

(** The loop over the events; it stops at the first error. *)
Fixpoint insert_events (n : nat) (sessionID : UUID) (rng : R) : prog (option error * R) :=
  match n with
  | O => Ret (None, rng)
  | S n =>
      '(err, rng) ← insert_event sessionID rng;
      match err with
      | Some e => Ret (Some e, rng)
      | None => insert_events n sessionID rng
      end
  end.

(** The audit record of an operation; [prefix] is the context of its error. *)
Definition write_audit (sql prefix : string) (sessionID : UUID) (rng : R) : prog (option error * R) :=
  auditID ← trigger CNewUUID;
  '(changedBy, rng) ← lift (pickActor actors rng);
  '(diff, rng) ← lift (GetAuditDiff pl rng);
  '(n, rng) ← int63 rng;
  let checksum := fmt_016x n in
  err ← trigger (CTxExec sql [AUUID auditID; AUUID sessionID; AUUID changedBy; ABytes diff; AStr checksum]);
  match err with
  | Some e => Ret (Some (wrapf prefix e), rng)
  | None => Ret (None, rng)
  end.

(** [doInsert] from the first statement of the transaction to the commit. *)
Definition insert_tx (sessionID userID : UUID) (region : string) (metadata : bytes) (numEvents : Z)
    (rng : R) : prog (option error * R) :=
  err ← trigger (CTxExec insertSessionSQL
    [AUUID sessionID; AUUID userID; AStr region; ABytes metadata]);
  match err with
  | Some e => Ret (Some (wrapf "insert session" e), rng)
  | None =>
      '(err, rng) ← insert_events (Z.to_nat numEvents) sessionID rng;
      match err with
      | Some e => Ret (Some e, rng)
      | None =>
          '(err, rng) ← write_audit insertAuditSQL "insert audit" sessionID rng;
          match err with
          | Some e => Ret (Some e, rng)
          | None =>
              err ← trigger CCommit;
              match err with
              | Some e => Ret (Some (wrapf "commit insert" e), rng)
              | None => _ ← trigger (CPush sessionID); Ret (None, rng)
              end
          end
      end
  end.

Definition doInsert (rng : R) : prog (option error * R) :=
  sessionID ← trigger CNewUUID;
  '(userID, rng) ← lift (pickUser actors rng);
  '(region, rng) ← lift (pick regions rng);
  '(metadata, rng) ← lift (GetSessionPayload pl rng);
  '(n, rng) ← lift (Intn 3 rng);
  let numEvents := 1 +! n in
  err ← trigger CBegin;
  match err with
  | Some e => Ret (Some e, rng)
  | None => deferred_rollback (insert_tx sessionID userID region metadata numEvents rng)
  end.

(** The sampled session, or the skip of an empty ring. *)
Definition with_session (rng : R) (body : UUID → R → prog (option error * R))
    : prog (option error * R) :=
  ring ← trigger CRing;
  '(sessionID, ok, rng) ← lift (Sample ring rng);
  if (ok : bool) then body sessionID rng else Ret (Some errSkipped, rng).

(** A query whose rows are scanned and dropped. *)
Definition run_query (prefix sql : string) (args : list arg) (rng : R) : prog (option error * R) :=
  res ← trigger (CPoolQuery sql args);
  match res with
  | Err e => Ret (Some (wrapf prefix e), rng)
  | Ok rows => Ret (rows.(rows_Err), rng)
  end.

Definition doReadSimple (rng : R) : prog (option error * R) :=
  with_session rng (λ sessionID rng,
    let query := if cfg.(ReadPayload) then readSimpleWithPayloadSQL else readSimpleSQL in
    run_query "read simple" query [AUUID sessionID] rng).

Definition doReadJoin (rng : R) : prog (option error * R) :=
  with_session rng (λ sessionID rng,
    '(severity, rng) ← lift (pick severities rng);
    run_query "read join" readJoinSQL [AUUID sessionID; AStr severity] rng).

(** [doUpdate] from the locking select to the commit. *)
Definition update_tx (sessionID : UUID) (metadata : bytes) (rng : R) : prog (option error * R) :=
  err ← trigger (CTxQueryRow lockSessionSQL [AUUID sessionID]);
  match err with
  | Some e =>
      if decide (e = ErrNoRows) then Ret (Some errSkipped, rng)
      else Ret (Some (wrapf "lock session" e), rng)
  | None =>
      err ← trigger (CTxExec updateSessionSQL [AUUID sessionID; ABytes metadata]);
      match err with
      | Some e => Ret (Some (wrapf "update session" e), rng)
      | None =>
          '(err, rng) ← write_audit updateAuditSQL "update audit" sessionID rng;
          match err with
          | Some e => Ret (Some e, rng)
          | None => err ← trigger CCommit; Ret (err, rng)
          end
      end
  end.

Definition doUpdate (rng : R) : prog (option error * R) :=
  with_session rng (λ sessionID rng,
    '(metadata, rng) ← lift (GetSessionPayload pl rng);
    err ← trigger CBegin;
    match err with
    | Some e => Ret (Some e, rng)
    | None => deferred_rollback (update_tx sessionID metadata rng)
    end).

Definition doDelete (rng : R) : prog (option error * R) :=
  with_session rng (λ sessionID rng,
    err ← trigger (CPoolExec deleteEventsSQL [AUUID sessionID; AInt cfg.(DeleteBatchSize)]);
    match err with
    | Some e => Ret (Some (wrapf "delete events" e), rng)
    | None => Ret (None, rng)
    end).

(** [int(sessionID[0])]: the first, most significant byte. *)
Definition first_byte (id : UUID) : Z := Z.land (Z.shiftr id 120) 255.

Definition subnet_lo (octet : Z) : string := "192.168." +:+ fmt_d octet +:+ ".0".
Definition subnet_hi (octet : Z) : string := "192.168." +:+ fmt_d octet +:+ ".255".

Definition doReadByIP (rng : R) : prog (option error * R) :=
  with_session rng (λ sessionID rng,
    let octet := first_byte sessionID in
    let query := if cfg.(ReadPayload) then readByIPWithPayloadSQL else readByIPSQL in
    run_query "read by ip" query [AStr (subnet_lo octet); AStr (subnet_hi octet)] rng).

(** [oltpExecutor.Execute] *)
Definition execute_op (op : string) (rng : R) : prog (option error * R) :=
  if decide (op = OpInsert) then doInsert rng
  else if decide (op = OpReadSimple) then doReadSimple rng
  else if decide (op = OpReadJoin) then doReadJoin rng
  else if decide (op = OpUpdate) then doUpdate rng
  else if decide (op = OpDelete) then doDelete rng
  else if decide (op = OpReadByIP) then doReadByIP rng
  else Ret (Some (Errorf ("unknown op: " +:+ op)), rng).
End ops.
