(* ===== verification/OpsSpec.v ===== *)
(** * What the operations promise

    For every environment: transactions are opened, used and closed in order
    and never nested, the first error ends the operation and reaches the
    caller with its cause, a skipped operation has changed nothing, and a
    session id enters the ring exactly when its transaction has committed. *)

From S2P Require Export Ops.

(** ** Observations on the calls of an operation *)

(** Where the operation stands with respect to its transaction. *)
Inductive phase := Idle | Open | Failed | Committed.

Definition phase_step (s : phase) (e : io) : option phase :=
  let failed := match error_of e with Some _ => true | None => false end in
  match projT1 e, s with
  | CBegin, Idle => Some (if failed then Idle else Open)
  | CTxExec _ _, Open | CTxQueryRow _ _, Open => Some (if failed then Failed else Open)
  | CCommit, Open => Some (if failed then Failed else Committed)
  | CRollback, Open | CRollback, Failed | CRollback, Committed => Some Idle
  | CPoolQuery _ _, Idle | CPoolExec _ _, Idle | CRing, Idle => Some Idle
  | CPush _, Committed => Some Committed
  | CNewUUID, s => Some s
  | _, _ => None
  end.

(** [None]: a call the transaction discipline forbids. *)
Fixpoint phases (s : phase) (l : list io) : option phase :=
  match l with
  | [] => Some s
  | e :: l => s' ← phase_step s e; phases s' l
  end.

Definition errors_in_calls (l : list io) : list error := omap error_of l.

(** The ids pushed into the ring. *)
Definition pushed (l : list io) : list UUID :=
  omap (λ e : io, match projT1 e with CPush id => Some id | _ => None end) l.

(** The ids of the sessions inserted. *)
Definition inserted (l : list io) : list UUID :=
  omap (λ e : io, match projT1 e with
    | CTxExec sql (AUUID id :: _) => if decide (sql = insertSessionSQL) then Some id else None
    | _ => None
    end) l.

(** The session a statement inserts. *)
Definition inserts (e : io) : list UUID := inserted [e].

(** Following the sessions of an operation: those the open transaction has
    inserted, and those committed but not yet in the ring.  A commit that
    succeeds moves the first to the second; a new transaction, a failed commit
    and a rollback forget the first. *)
Record sessions := mkSessions { uncommitted : list UUID; unpublished : list UUID }.

Definition publish_step (s : sessions) (e : io) : option sessions :=
  match projT1 e, error_of e with
  | CTxExec _ _, None => Some (mkSessions (s.(uncommitted) ++ inserts e) s.(unpublished))
  | CCommit, None => Some (mkSessions [] (s.(unpublished) ++ s.(uncommitted)))
  | CPush id, _ =>
      match s.(unpublished) with
      | id' :: rest => if decide (id = id') then Some (mkSessions s.(uncommitted) rest) else None
      | [] => None
      end
  | CBegin, _ | CCommit, Some _ | CRollback, _ => Some (mkSessions [] s.(unpublished))
  | _, _ => Some s
  end.

(** [None]: an id was pushed that no successful commit had made real. *)
Fixpoint publishes (s : sessions) (l : list io) : option sessions :=
  match l with
  | [] => Some s
  | e :: l => s' ← publish_step s e; publishes s' l
  end.

(** Calls that do database work or publish a session. *)
Definition is_work (e : io) : Prop :=
  match projT1 e with
  | CTxExec _ _ | CCommit | CPoolQuery _ _ | CPoolExec _ _ | CPush _ => True
  | _ => False
  end.

Lemma phases_app s l k : phases s (l ++ k) = s' ← phases s l; phases s' k.
Proof.
  revert s. induction l as [|e l IH]; intros s; [done|]. rewrite <- app_comm_cons. cbn [phases].
  destruct (phase_step s e) as [s'|]; [apply IH|done].
Qed.

Lemma publishes_app s l k : publishes s (l ++ k) = s' ← publishes s l; publishes s' k.
Proof.
  revert s. induction l as [|e l IH]; intros s; [done|]. rewrite <- app_comm_cons. cbn [publishes].
  destruct (publish_step s e) as [s'|]; [apply IH|done].
Qed.

Lemma errors_in_calls_app l k : errors_in_calls (l ++ k) = errors_in_calls l ++ errors_in_calls k.
Proof. apply omap_app. Qed.

Lemma pushed_app l k : pushed (l ++ k) = pushed l ++ pushed k.
Proof. apply omap_app. Qed.

Lemma inserted_app l k : inserted (l ++ k) = inserted l ++ inserted k.
Proof. apply omap_app. Qed.

(** ** Steps inside a transaction *)

(** The calls [l] made with the transaction open ended with [err]. *)
Record in_tx (err : option error) (l : list io) : Prop := {
  tx_phase : phases Open l = Some (match err with Some _ => Failed | None => Open end);
  tx_errors : match err with
              | None => errors_in_calls l = []
              | Some e => ∃ e0, errors_in_calls l = [e0] ∧ errors_Is e e0 = true
                              ∧ errors_Is e errSkipped = false
              end;
  tx_pushed : pushed l = [];
  tx_publish : ∀ p r, ∃ ids, publishes (mkSessions p r) l = Some (mkSessions (p ++ ids) r)
                           ∧ (err = None → ids = inserted l);
}.

Lemma wrapf_Is prefix e : errors_Is (wrapf prefix e) e = true.
Proof. unfold wrapf. cbn [errors_Is]. by rewrite errors_Is_refl, orb_true_r. Qed.

Lemma wrapf_skipped prefix e :
  errors_Is e errSkipped = false → errors_Is (wrapf prefix e) errSkipped = false.
Proof. unfold wrapf. cbn [errors_Is]. intros ->. by rewrite bool_decide_false. Qed.

Lemma in_tx_seq l k err : in_tx None l → in_tx err k → in_tx err (l ++ k).
Proof.
  intros [Hp He Hu Hs] [Hp' He' Hu' Hs']. split.
  - by rewrite phases_app, Hp.
  - rewrite errors_in_calls_app, He. by rewrite app_nil_l.
  - by rewrite pushed_app, Hu, Hu'.
  - intros p r. destruct (Hs p r) as (ids & Hids & Hi0). rewrite (Hi0 eq_refl) in Hids.
    destruct (Hs' (p ++ inserted l) r) as (ids' & Hids' & Hi).
    exists (inserted l ++ ids'). rewrite publishes_app, Hids. cbn [mbind option_bind].
    rewrite Hids', app_assoc. split; [done|]. intros Herr. by rewrite inserted_app, Hi.
Qed.

Lemma in_tx_nil : in_tx None [].
Proof. split; [done..|]. intros p r. exists []. by rewrite app_nil_r. Qed.

Lemma in_tx_uuid x : in_tx None [existT CNewUUID x].
Proof. split; [done..|]. intros p r. exists []. by rewrite app_nil_r. Qed.

(** One statement of the transaction. *)
Lemma in_tx_exec sql args : in_tx None [existT (CTxExec sql args) None].
Proof. split; [done..|]. intros p r. by eexists. Qed.

Lemma in_tx_query sql args : in_tx None [existT (CTxQueryRow sql args) None].
Proof. split; [done..|]. intros p r. exists []. by rewrite app_nil_r. Qed.

(** A statement that failed, with the error the operation returns. *)
Lemma in_tx_failed c (x : answer c) e e0 :
  error_of (existT c x) = Some e0 → (∃ sql args, c = CTxExec sql args ∨ c = CTxQueryRow sql args) →
  errors_Is e e0 = true → errors_Is e errSkipped = false → in_tx (Some e) [existT c x].
Proof.
  intros He (sql & args & Hc) Hi Hs.
  split; unfold errors_in_calls; cbn [omap list_omap]; rewrite ?He.
  - cbn [phases phase_step]. unfold phase_step. rewrite He. by destruct Hc as [-> | ->].
  - by exists e0.
  - by destruct Hc as [-> | ->].
  - intros p r. exists []. rewrite app_nil_r. split; [|done].
    cbn [publishes]. unfold publish_step. rewrite He. by destruct Hc as [-> | ->].
Qed.

Section spec.
Context {R : Type} `{RandOk R}.
Context (cfg : Config) (actors : actor_pools) (pl : payloads).
Context (Hactors : pools_ready actors) (Hpl : payloads_ok pl).

Notation WP := (wp errSkipped).

(** A statement of the transaction whose error, if any, is wrapped. *)
Lemma wp_tx_exec {A} sql args prefix (bad : error → A) (k : prog A)
    (Q : A → list io → Prop) :
  (∀ x e, x = Some e → in_tx (Some (wrapf prefix e)) [existT (CTxExec sql args) x] →
     Q (bad e) [existT (CTxExec sql args) x]) →
  (in_tx None [existT (CTxExec sql args) None] →
     WP k (λ a l, Q a (existT (CTxExec sql args) None :: l))) →
  WP (err ← trigger (CTxExec sql args);
      match err with Some e => Ret (bad e) | None => k end) Q.
Proof.
  intros Hbad Hok. apply wp_bind, wp_trigger. intros x [_ Hx]. cbn [error_of] in Hx.
  destruct x as [e|]; cbn [wp].
  - apply (Hbad (Some e) e eq_refl). apply (in_tx_failed _ _ _ e); [done|eauto|apply wrapf_Is|].
    apply wrapf_skipped. by apply Hx.
  - apply Hok, in_tx_exec.
Qed.

Lemma wp_pick_bind {A B} (l : list A) (rng : R) (f : A * R → prog B) Q :
  l ≠ [] → (∀ a rng', a ∈ l → WP (f (a, rng')) Q) → WP (x ← lift (pick l rng); f x) Q.
Proof.
  intros Hne Hf. destruct (pick_member l rng Hne) as (a & rng' & -> & Ha).
  apply wp_bind. cbn [lift wp]. eapply wp_mono; [|by apply Hf]. done.
Qed.

Lemma wp_payload_bind {B} large small (rng : R) (f : bytes * R → prog B) Q :
  pool_ok large → pool_ok small → (∀ b rng', WP (f (b, rng')) Q) →
  WP (x ← lift (sized_payload pl large small rng); f x) Q.
Proof.
  intros Hl Hs Hf. destruct (sized_payload_ok pl large small rng Hl Hs) as (tm & o & b & rng' & _ & -> & _).
  apply wp_bind. cbn [lift wp]. eapply wp_mono; [|apply Hf]. done.
Qed.

Lemma randomIP_ok (rng : R) : ∃ ip rng', randomIP rng = Some (ip, rng').
Proof.
  unfold randomIP. destruct (Intn_pos 256 rng ltac:(lia)) as (a & r1 & -> & _). cbn [mbind option_bind].
  destruct (Intn_pos 256 r1 ltac:(lia)) as (b & r2 & -> & _). cbn [mbind option_bind]. eauto.
Qed.

(** The calls [l] of a step inside the transaction, inserting no session. *)
Definition step_ok (a : option error * R) (l : list io) : Prop := in_tx a.1 l ∧ inserted l = [].

Lemma step_ok_seq l a k : step_ok (None, a.2) l → step_ok a k → step_ok a (l ++ k).
Proof.
  intros [Hl Hi] [Hk Hj]. split; [by apply in_tx_seq|]. by rewrite inserted_app, Hi, Hj.
Qed.

Lemma wp_insert_event sessionID (rng : R) : WP (insert_event pl sessionID rng) step_ok.
Proof.
  unfold insert_event. apply wp_bind, wp_trigger. intros eventID _.
  apply wp_payload_bind; [apply Hpl..|]. intros payload r1.
  unfold int63. cbn [mbind prog_bind]. destruct (rand_Int63 r1) as [n r2].
  apply wp_pick_bind; [done|]. intros severity r3 _.
  apply wp_pick_bind; [done|]. intros evType r4 _.
  destruct (randomIP_ok r4) as (ip & r5 & ->). cbn [lift mbind prog_bind].
  apply (wp_tx_exec _ _ "insert event").
  - intros x e -> Hx. apply (step_ok_seq [existT CNewUUID eventID]); [split; [apply in_tx_uuid|done]|]. by split.
  - intros Hx. cbn [wp]. apply (step_ok_seq [existT CNewUUID eventID]); [split; [apply in_tx_uuid|done]|]. by split.
Qed.

Lemma wp_insert_events n sessionID (rng : R) : WP (insert_events pl n sessionID rng) step_ok.
Proof.
  revert rng. induction n as [|n IH]; intros rng; cbn [insert_events].
  { split; [apply in_tx_nil|done]. }
  apply wp_bind. eapply wp_mono; [|apply wp_insert_event].
  intros [[e|] r1] l Hl; cbn [wp].
  - by rewrite app_nil_r.
  - eapply wp_mono; [|apply IH]. intros a k Hk. apply step_ok_seq; [|done]. exact Hl.
Qed.

Lemma wp_write_audit sql prefix sessionID (rng : R) :
  sql ≠ insertSessionSQL → WP (write_audit actors pl sql prefix sessionID rng) step_ok.
Proof.
  intros Hsql. unfold write_audit. apply wp_bind, wp_trigger. intros auditID _.
  unfold pickActor. apply wp_pick_bind; [apply Hactors|]. intros changedBy r1 _.
  apply wp_payload_bind; [apply Hpl..|]. intros diff r2.
  unfold int63. cbn [mbind prog_bind]. destruct (rand_Int63 r2) as [n r3].
  apply (wp_tx_exec _ _ prefix).
  - intros x e -> Hx. apply (step_ok_seq [existT CNewUUID auditID]); [split; [apply in_tx_uuid|done]|].
    split; [done|]. unfold inserted. simpl. by rewrite decide_False.
  - intros Hx. cbn [wp]. apply (step_ok_seq [existT CNewUUID auditID]); [split; [apply in_tx_uuid|done]|].
    split; [done|]. unfold inserted. simpl. by rewrite decide_False.
Qed.

(** ** What an operation leaves behind *)

(** The error returned against the errors of the calls, and the ids pushed. *)
Record outcome_ok (err : option error) (l : list io) : Prop := {
  out_error : match err with
              | None => errors_in_calls l = []
              | Some e => (∃ e0, errors_in_calls l = [e0] ∧ errors_Is e e0 = true
                                ∧ errors_Is e errSkipped = false)
                         ∨ (e = errSkipped ∧ (errors_in_calls l = [] ∨ errors_in_calls l = [ErrNoRows])
                            ∧ Forall (λ c, ¬ is_work c) l)
             end;
  out_pushed : pushed l = match err with None => inserted l | Some _ => [] end;
  out_publish : ∃ p, publishes (mkSessions [] []) l = Some (mkSessions p []);
}.

Definition op_good (err : option error) (l : list io) : Prop :=
  phases Idle l = Some Idle ∧ outcome_ok err l.

(** Calls that neither fail nor do work. *)
Definition silent (e : io) : Prop := error_of e = None ∧ ¬ is_work e.

Lemma silent_obs l :
  Forall silent l → errors_in_calls l = [] ∧ pushed l = [] ∧ inserted l = [] ∧ Forall (λ c, ¬ is_work c) l.
Proof.
  induction 1 as [|[c x] l [He Hw] _ (IH1 & IH2 & IH3 & IH4)]; [done|].
  unfold errors_in_calls, pushed, inserted in *. cbn [omap list_omap]. rewrite He.
  unfold is_work in Hw. cbn [projT1] in *.
  split; [done|]. split; [by destruct c|]. split; [by destruct c|]. by constructor.
Qed.

(** They publish nothing either, whatever the open transaction has inserted. *)
Lemma silent_publish p l :
  Forall silent l → ∃ p', publishes (mkSessions p []) l = Some (mkSessions p' []) ∧ (p = [] → p' = []).
Proof.
  intros Hl. revert p. induction Hl as [|[c x] l [He Hw] _ IH]; intros p; [by exists p|].
  cbn [publishes]. unfold publish_step. cbn [projT1 uncommitted unpublished]. rewrite He.
  unfold is_work in Hw. cbn [projT1] in Hw.
  destruct c; try (by destruct Hw); cbn [mbind option_bind];
    first [apply IH|destruct (IH []) as (p' & -> & Hp'); exists p'; auto].
Qed.

Lemma outcome_silent pre l post err :
  Forall silent pre → Forall silent post → outcome_ok err l → outcome_ok err (pre ++ l ++ post).
Proof.
  intros Hpre Hpost. destruct (silent_obs _ Hpre) as (He & Hp & Hi & Hw).
  destruct (silent_obs _ Hpost) as (He' & Hp' & Hi' & Hw'). intros [Hout Hpush [p Hpub]].
  destruct (silent_publish [] pre Hpre) as (p1 & Hp1 & Hnil). rewrite (Hnil eq_refl) in Hp1.
  destruct (silent_publish p post Hpost) as (p2 & Hp2 & _).
  split; [| |exists p2; rewrite !publishes_app, Hp1; cbn [mbind option_bind];
    by rewrite publishes_app, Hpub]; rewrite ?errors_in_calls_app, ?pushed_app, ?inserted_app, ?He, ?Hp, ?Hi, ?He', ?Hp', ?Hi',
    ?app_nil_l, ?app_nil_r; [|done].
  destruct err as [e|]; [|done]. destruct Hout as [Hout|(-> & Hout & Hl)]; [by left|].
  right. split; [done|]. split; [done|]. by rewrite !Forall_app.
Qed.

(** A transaction that was opened, went through [l] and was rolled back or
    had been committed. *)
Lemma tx_closed l err s :
  phases Open l = Some s → s ≠ Idle → outcome_ok err l →
  op_good err (existT CBegin None :: l ++ [existT CRollback tt]).
Proof.
  intros Hp Hs Hout. split.
  - change (existT CBegin None :: l ++ _) with ([existT CBegin None : io] ++ l ++ [existT CRollback tt]).
    rewrite phases_app. cbn [phases phase_step projT1 error_of mbind option_bind].
    rewrite phases_app, Hp. cbn [mbind option_bind]. by destruct s.
  - apply (outcome_silent [existT CBegin None] l [existT CRollback tt]); [..|done];
      constructor; try constructor; done || by intros [].
Qed.

(** A failed step of the transaction ends the operation. *)
Lemma in_tx_fails e l : in_tx (Some e) l → outcome_ok (Some e) l.
Proof.
  intros [_ (e0 & He & Hi & Hs) Hp Hpub]. split; [left; eauto|done|].
  destruct (Hpub [] []) as (ids & -> & _). by exists ids.
Qed.

Lemma wp_commit (bad : error → option error) (k : prog (option error * R)) (rng : R) Q :
  (∀ x e, x = Some e → errors_Is e errSkipped = false → Q (bad e, rng) [existT CCommit x]) →
  WP k (λ a l, Q a (existT CCommit None :: l)) →
  WP (err ← trigger CCommit; match err with Some e => Ret (bad e, rng) | None => k end) Q.
Proof.
  intros Hbad Hok. apply wp_bind, wp_trigger. intros x [_ Hx]. cbn [error_of] in Hx.
  destruct x as [e|]; cbn [wp]; [|done]. apply (Hbad (Some e)); [done|]. by apply Hx.
Qed.
(** The body of a transaction: what [tx_closed] needs, and which sessions a
    successful body inserted. *)
Definition body_ok (ids : list UUID) (a : option error * R) (l : list io) : Prop :=
  (∃ s, phases Open l = Some s ∧ s ≠ Idle) ∧ outcome_ok a.1 l ∧ (a.1 = None → inserted l = ids).

Lemma body_fails ids e (rng : R) l : in_tx (Some e) l → body_ok ids (Some e, rng) l.
Proof.
  intros Hl. split; [exists Failed; split; [apply Hl|done]|]. split; [by apply in_tx_fails|done].
Qed.

(** A commit after the statements [l], followed by [post]. *)
Lemma commit_fails ids l e' e (rng : R) :
  in_tx None l → errors_Is e' e = true → errors_Is e' errSkipped = false →
  body_ok ids (Some e', rng) (l ++ [existT CCommit (Some e)]).
Proof.
  intros [Hp He Hu Hpub] Hi Hs. split; [exists Failed; by rewrite phases_app, Hp|].
  split; [|done]. split; rewrite ?errors_in_calls_app, ?pushed_app, ?He, ?Hu; [|done|].
  - left. by exists e.
  - destruct (Hpub [] []) as (p & Hp' & _). exists []. by rewrite publishes_app, Hp'.
Qed.

Lemma commit_ok ids l post (rng : R) :
  in_tx None l → inserted l = ids → post = [] ∧ ids = [] ∨ (∃ id, post = [existT (CPush id) tt] ∧ ids = [id]) →
  body_ok ids (None, rng) (l ++ existT CCommit None :: post).
Proof.
  intros [Hp He Hu Hpub] Hi Hpost.
  assert (publishes (mkSessions [] []) (l ++ existT CCommit None :: post) = Some (mkSessions [] [])) as H5.
  { destruct (Hpub [] []) as (p & Hp' & Hi0). rewrite publishes_app, Hp', (Hi0 eq_refl), Hi.
    destruct Hpost as [[-> ->]|(id & -> & ->)]; cbn; [done|]. by rewrite decide_True. }
  assert (phases Open (l ++ existT CCommit None :: post) = Some Committed
    ∧ errors_in_calls (l ++ existT CCommit None :: post) = []
    ∧ pushed (l ++ existT CCommit None :: post) = ids
    ∧ inserted (l ++ existT CCommit None :: post) = ids) as (H1 & H2 & H3 & H4).
  { rewrite phases_app, errors_in_calls_app, pushed_app, inserted_app, Hp, He, Hu, Hi.
    destruct Hpost as [[-> ->]|(id & -> & ->)]; done. }
  split; [by exists Committed|]. split; [|done]. split; [done|cbn [fst]; congruence|by exists []].
Qed.

Lemma wp_insert_tx sessionID userID region metadata n (rng : R) :
  WP (insert_tx actors pl sessionID userID region metadata n rng) (body_ok [sessionID]).
Proof.
  unfold insert_tx. apply (wp_tx_exec _ _ "insert session").
  { intros x e -> Hx. by apply body_fails. }
  intros Hx. match type of Hx with in_tx None [?e] => set (e1 := e : io) in * end.
  assert (inserted [e1 : io] = [sessionID]) as Hins by done.
  apply wp_bind. eapply wp_mono; [|apply wp_insert_events].
  intros [[e|] r1] l1 [Hl1 Hi1]; cbn [wp fst] in *.
  { apply body_fails. rewrite app_nil_r. by apply (in_tx_seq [e1]). }
  apply wp_bind. eapply wp_mono; [|by apply wp_write_audit].
  intros [[e|] r2] l2 [Hl2 Hi2]; cbn [wp fst] in *.
  { apply body_fails. rewrite app_nil_r. apply (in_tx_seq [e1]); [done|]. by apply in_tx_seq. }
  assert (in_tx None (e1 :: l1 ++ l2)) as Hall.
  { apply (in_tx_seq [e1]); [done|]. by apply in_tx_seq. }
  assert (inserted (e1 :: l1 ++ l2) = [sessionID]) as Hinsall.
  { change (e1 :: l1 ++ l2) with ([e1 : io] ++ l1 ++ l2). by rewrite !inserted_app, Hins, Hi1, Hi2. }
  apply (wp_commit (λ e, Some (wrapf "commit insert" e))).
  - intros x e -> Hs. cbv beta. rewrite app_assoc. apply (commit_fails _ (e1 :: l1 ++ l2) _ e); [done|apply wrapf_Is|by apply wrapf_skipped].
  - intros [] _. cbn [wp prog_bind]. rewrite app_assoc. apply (commit_ok _ (e1 :: l1 ++ l2)); [done|done|].
    right. by exists sessionID.
Qed.

Lemma wp_update_tx sessionID metadata (rng : R) :
  WP (update_tx actors pl sessionID metadata rng) (body_ok []).
Proof.
  unfold update_tx. apply wp_bind, wp_trigger. intros x [_ Hx]. cbn [error_of] in Hx.
  set (e0 := existT (CTxQueryRow lockSessionSQL [AUUID sessionID]) x : io).
  destruct x as [e|].
  { specialize (Hx e eq_refl). case_decide as He; cbn [wp].
    - split; [by exists Failed|]. split; [|done]. split; [|done|by exists []]. right. split; [done|].
      split; [right; by subst e|]. repeat constructor. by intros [].
    - apply body_fails, (in_tx_failed _ _ _ e); [done|eauto|apply wrapf_Is|by apply wrapf_skipped]. }
  assert (in_tx None [e0 : io]) as H0' by apply in_tx_query.
  apply (wp_tx_exec _ _ "update session").
  { intros x e -> Hx1. apply body_fails. by apply (in_tx_seq [e0]). }
  intros Hx1. match type of Hx1 with in_tx None [?e] => set (e1 := e : io) in * end.
  apply wp_bind. eapply wp_mono; [|by apply wp_write_audit].
  intros [[e|] r2] l2 [Hl2 Hi2]; cbn [wp fst] in *.
  { apply body_fails. rewrite app_nil_r. apply (in_tx_seq [e0]); [done|]. by apply (in_tx_seq [e1]). }
  assert (in_tx None (e0 :: e1 :: l2)) as Hall.
  { apply (in_tx_seq [e0]); [done|]. by apply (in_tx_seq [e1]). }
  apply wp_bind, wp_trigger. intros x [_ Hx2]. cbn [error_of] in Hx2. cbn [wp].
  destruct x as [e|].
  - apply (commit_fails _ (e0 :: e1 :: l2) _ e); [done|apply errors_Is_refl|by apply Hx2].
  - apply (commit_ok _ (e0 :: e1 :: l2)); [done| |by left].
    change (inserted (e0 :: e1 :: l2)) with (inserted l2). done.
Qed.
(** ** The operations *)

(** An operation that inserts no session. *)
Definition quiet_op (a : option error * R) (l : list io) : Prop := op_good a.1 l ∧ pushed l = [].

Lemma body_quiet a l :
  body_ok [] a l → quiet_op a (existT CBegin None :: l ++ [existT CRollback tt]).
Proof.
  intros ((s & Hp & Hs) & Hout & Hi). split; [by eapply tx_closed|].
  change (existT CBegin None :: l ++ _) with ([existT CBegin None : io] ++ l ++ [existT CRollback tt]).
  rewrite !pushed_app. destruct Hout as [_ -> _]. destruct a as [[e|] r]; [done|].
  cbn [fst] in *. by rewrite Hi.
Qed.

(** A single statement outside a transaction that fails with [err]. *)
Lemma single_quiet (err : option error) (e : io) (rng : R) :
  phase_step Idle e = Some Idle → pushed [e] = [] → inserted [e] = [] →
  match err with
  | None => error_of e = None
  | Some e' => ∃ e0, error_of e = Some e0 ∧ errors_Is e' e0 = true ∧ errors_Is e' errSkipped = false
  end → quiet_op (err, rng) [e].
Proof.
  intros Hph Hpu Hin Herr. split; [|done]. split; [cbn [phases]; by rewrite Hph|].
  split; cbn [fst].
  - unfold errors_in_calls. cbn [omap list_omap]. destruct err as [e'|].
    + destruct Herr as (e0 & -> & Hi & Hs). left. eauto.
    + by rewrite Herr.
  - by destruct err; rewrite Hpu.
  - exists []. destruct e as [c x]. cbn [publishes]. unfold publish_step, phase_step, inserts in *.
    cbn [projT1] in *. destruct c, (error_of _); try done; cbn; by rewrite ?Hin.
Qed.

Lemma quiet_silent (a : option error * R) (e : io) l :
  phase_step Idle e = Some Idle → silent e → quiet_op a l → quiet_op a (e :: l).
Proof.
  intros Hph Hsil [[Hp Hout] Hpu]. split; [split|].
  - cbn [phases]. by rewrite Hph.
  - pose proof (outcome_silent [e] l [] a.1) as Ho. rewrite app_nil_r in Ho.
    apply Ho; [by constructor|constructor|done].
  - change (e :: l) with ([e] ++ l). rewrite pushed_app, Hpu.
    destruct (silent_obs [e]) as (_ & -> & _); [by constructor|done].
Qed.

Lemma wp_with_session (rng : R) body :
  (∀ id rng', WP (body id rng') quiet_op) → WP (with_session rng body) quiet_op.
Proof.
  intros Hbody. unfold with_session. apply wp_bind, wp_trigger. intros ring [Hwf _].
  assert (silent (existT CRing ring)) as Hsil by (split; [done|by intros []]).
  destruct (decide (ring.(fill) = 0)) as [Hz|Hnz].
  - unfold Sample. rewrite Hz. cbn [Z.eqb lift mbind prog_bind wp].
    apply (quiet_silent _ _ []); [done|done|]. split; [|done]. split; [done|].
    split; [|done|by exists []]. right. split; [done|]. split; [by left|constructor].
  - destruct (Sample_nonempty ring rng Hwf Hnz) as (idx & id & rng' & _ & _ & ->).
    cbn [lift mbind prog_bind]. eapply wp_mono; [|apply Hbody].
    intros a l Hq. by apply (quiet_silent _ (existT CRing ring)).
Qed.

Lemma wp_run_query prefix sql args (rng : R) : WP (run_query prefix sql args rng) quiet_op.
Proof.
  unfold run_query. apply wp_bind, wp_trigger. intros x [_ Hx]. cbn [error_of] in Hx.
  destruct x as [rows|e]; cbn [wp]; rewrite app_nil_r.
  - apply single_quiet; [done..|]. cbn [error_of]. destruct (rows_Err rows) as [e|]; [|done].
    exists e. split; [done|]. split; [apply errors_Is_refl|by apply Hx].
  - apply single_quiet; [done..|]. exists e. split; [done|]. split; [apply wrapf_Is|].
    apply wrapf_skipped. by apply Hx.
Qed.

Lemma wp_begin (body : prog (option error * R)) (rng : R) (Q : option error * R → list io → Prop) :
  (∀ e, errors_Is e errSkipped = false → Q (Some e, rng) [existT CBegin (Some e)]) →
  WP body (λ a l, Q a (existT CBegin None :: l ++ [existT CRollback tt])) →
  WP (err ← trigger CBegin;
      match err with Some e => Ret (Some e, rng) | None => deferred_rollback body end) Q.
Proof.
  intros Hbad Hbody. apply wp_bind, wp_trigger. intros x [_ Hx]. cbn [error_of] in Hx.
  destruct x as [e|]; cbn [wp]; [apply Hbad; by apply Hx|]. by apply wp_deferred.
Qed.

Lemma begin_fails e (rng : R) :
  errors_Is e errSkipped = false → quiet_op (Some e, rng) [existT CBegin (Some e)].
Proof.
  intros Hs. apply single_quiet; [done..|]. exists e. split; [done|]. split; [apply errors_Is_refl|done].
Qed.

Lemma wp_doInsert (rng : R) :
  WP (doInsert actors pl rng) (λ a l, op_good a.1 l ∧ (a.1 = None → ∃ id, inserted l = [id])).
Proof.
  unfold doInsert. apply wp_bind, wp_trigger. intros id _.
  assert (silent (existT CNewUUID id)) as Hsil by (split; [done|by intros []]).
  unfold pickUser. apply wp_pick_bind; [apply Hactors|]. intros userID r1 _.
  apply wp_pick_bind; [done|]. intros region r2 _.
  apply wp_payload_bind; [apply Hpl..|]. intros metadata r3.
  destruct (Intn_pos 3 r3 ltac:(lia)) as (n & r4 & -> & _). cbn [lift mbind prog_bind].
  apply wp_begin.
  - intros e He. destruct (begin_fails e r4 He) as [[Hp Hout] _]. split; [|done].
    split; [done|]. exact (outcome_silent [existT CNewUUID id] _ [] (Some e) ltac:(by constructor) ltac:(constructor) Hout).
  - eapply wp_mono; [|apply wp_insert_tx]. intros a l ((s & Hp & Hs) & Hout & Hi).
    destruct (tx_closed l a.1 s Hp Hs Hout) as [Hp' Hout']. split; [split; [exact Hp'|]|].
    + pose proof (outcome_silent [existT CNewUUID id] _ [] a.1 ltac:(by constructor) ltac:(constructor) Hout') as Ho.
      rewrite app_nil_r in Ho. exact Ho.
    + intros Ha. specialize (Hi Ha). exists id.
      trans (inserted (l ++ [existT CRollback tt])); [done|]. by rewrite inserted_app, Hi.
Qed.

(** The operations of the profile. *)
Definition op_names : list string :=
  [OpInsert; OpReadSimple; OpReadJoin; OpUpdate; OpDelete; OpReadByIP].

Lemma wp_execute op (rng : R) :
  op ∈ op_names →
  WP (execute_op cfg actors pl op rng) (λ a l, op_good a.1 l ∧
    (op = OpInsert → a.1 = None → ∃ id, inserted l = [id]) ∧ (op ≠ OpInsert → pushed l = [])).
Proof.
  intros Hin. assert (∀ (p : prog (option error * R)), op ≠ OpInsert → WP p quiet_op → WP p (λ a l, op_good a.1 l ∧
    (op = OpInsert → a.1 = None → ∃ id, inserted l = [id]) ∧ (op ≠ OpInsert → pushed l = []))) as Hq.
  { intros p Hne Hp. eapply wp_mono; [|exact Hp]. by intros a l [Hg Hpu]. }
  unfold execute_op. case_decide as Hop.
  { eapply wp_mono; [|apply wp_doInsert]. by intros a l [Hg Hi]. }
  repeat (case_decide; [apply (Hq _ Hop); apply wp_with_session; intros id rng'|]).
  - apply wp_run_query.
  - apply wp_pick_bind; [done|]. intros severity r1 _. apply wp_run_query.
  - apply wp_payload_bind; [apply Hpl..|]. intros metadata r1.
    apply wp_begin; [intros e He; by apply begin_fails|].
    eapply wp_mono; [|apply wp_update_tx]. intros a l. apply body_quiet.
  - apply wp_bind, wp_trigger. intros x [_ Hx]. cbn [error_of] in Hx.
    destruct x as [e|]; cbn [wp]; rewrite app_nil_r; (apply single_quiet; [done..|]); [|done].
    exists e. split; [done|]. split; [apply wrapf_Is|]. apply wrapf_skipped. by apply Hx.
  - apply wp_run_query.
  - unfold op_names in Hin. set_solver.
Qed.
End spec.

(** ** The claims *)

Section claims.
Context {R : Type} `{RandOk R}.
Context (cfg : Config) (actors : actor_pools) (pl : payloads).

(** An environment that keeps the promises of [ok_answer]. *)
Definition ok_handler (h : handler) : Prop := ∀ tr c, ok_answer errSkipped (existT c (h tr c)).

Lemma execute_run (h : handler) op (rng : R) :
  pools_ready actors → payloads_ok pl → ok_handler h → op ∈ op_names →
  ∃ err rng' l, interp h [] (execute_op cfg actors pl op rng) = (Some (err, rng'), l)
    ∧ op_good err l ∧ (op = OpInsert → err = None → ∃ id, inserted l = [id])
    ∧ (op ≠ OpInsert → pushed l = []).
Proof.
  intros Ha Hp Hh Hop.
  destruct (wp_sound errSkipped h _ _ [] Hh (wp_execute cfg actors pl Ha Hp op rng Hop))
    as ([err rng'] & l & Hi & Hg & Hins & Hpu).
  exists err, rng', l. done.
Qed.
End claims.

(** Environment and state for the witnesses: a database on which everything
    works, and one whose commit is refused. *)
Definition sample_ring : SessionRing := mkRing [14; 15; 13] 3 2 3.

Definition sample_answer (commit : option error) (tr : list io) (c : call) : answer c :=
  match c as c return answer c with
  | CBegin | CTxExec _ _ | CTxQueryRow _ _ | CPoolExec _ _ => None
  | CCommit => commit
  | CPoolQuery _ _ => Ok (mkRows [Ok tt; Ok tt] None)
  | CRollback | CPush _ => tt
  | CNewUUID => 1000 + Z.of_nat (length tr)
  | CRing => sample_ring
  end.

Definition calm : handler := sample_answer None.
Definition refusing : handler := sample_answer (Some (ErrNew "serialization failure")).

Lemma sample_handler_ok commit :
  (∀ e, commit = Some e → errors_Is e errSkipped = false) → ok_handler (sample_answer commit).
Proof.
  intros Hc tr c. split.
  - destruct c; first [done|split; simpl; lia].
  - by destruct c.
Qed.

Definition sample_template : bytes := of_string "{trace:0123456789abcdef}".

Definition sample_pool : pool := mkPool (replicate 100 sample_template) (replicate 100 7).

Definition sample_payloads : payloads :=
  mkPayloads sample_pool sample_pool sample_pool sample_pool sample_pool 40.

Lemma sample_payloads_ok : payloads_ok sample_payloads.
Proof.
  assert (pool_ok sample_pool) as Hp.
  { split; [done|done|]. intros i t o [-> _]%lookup_replicate [-> _]%lookup_replicate. cbn. lia. }
  by split.
Qed.

Definition sample_actors : actor_pools := mkActorPools [21; 22] [31].

Lemma sample_actors_ready : pools_ready sample_actors.
Proof. done. Qed.

(** C6: every operation, in every environment (any failures, any answers of
    the database, any interleaving with other workers on the ring), returns
    without a panic and keeps the transaction discipline: statements run only
    inside a transaction that was opened, nothing but the rollback follows a
    failed statement, a commit ends the statements, every opened transaction is
    closed before the operation returns, and no second connection is taken
    while one is held. *)
Theorem transaction_discipline {R} `{RandOk R} (cfg : Config) (actors : actor_pools)
    (pl : payloads) (h : handler) (op : string) (rng : R) :
  pools_ready actors → payloads_ok pl → ok_handler h → op ∈ op_names →
  ∃ err rng' l, interp h [] (execute_op cfg actors pl op rng) = (Some (err, rng'), l)
    ∧ phases Idle l = Some Idle.
Proof.
  intros Ha Hp Hh Hop.
  destruct (execute_run cfg actors pl h op rng Ha Hp Hh Hop) as (err & rng' & l & Hi & [Hph _] & _).
  by exists err, rng', l.
Qed.

Lemma transaction_discipline_witness :
  ∃ err rng' l, interp refusing [] (execute_op default_config sample_actors sample_payloads OpInsert [1; 2; 3])
      = (Some (err, rng'), l) ∧ phases Idle l = Some Idle.
Proof.
  apply transaction_discipline.
  - apply sample_actors_ready.
  - apply sample_payloads_ok.
  - apply sample_handler_ok. by intros e [= <-].
  - unfold op_names. set_solver.
Defined.

(** C10: what the error of an operation means.  No error: every call
    succeeded.  An error other than a skip: exactly one call failed and the
    error wraps its cause, so [errors.Is] finds a context error through it.  A skip: nothing failed except the row lock, and
    the operation did no database work, committed nothing and pushed nothing. *)
Theorem operation_errors {R} `{RandOk R} (cfg : Config) (actors : actor_pools)
    (pl : payloads) (h : handler) (op : string) (rng : R) :
  pools_ready actors → payloads_ok pl → ok_handler h → op ∈ op_names →
  ∃ err rng' l, interp h [] (execute_op cfg actors pl op rng) = (Some (err, rng'), l) ∧
  match err with
  | None => errors_in_calls l = []
  | Some e =>
      (∃ e0, errors_in_calls l = [e0] ∧ errors_Is e e0 = true ∧ errors_Is e errSkipped = false)
      ∨ (e = errSkipped ∧ (errors_in_calls l = [] ∨ errors_in_calls l = [ErrNoRows])
         ∧ Forall (λ c, ¬ is_work c) l)
  end.
Proof.
  intros Ha Hp Hh Hop.
  destruct (execute_run cfg actors pl h op rng Ha Hp Hh Hop) as (err & rng' & l & Hi & [_ [He _ _]] & _).
  by exists err, rng', l.
Qed.

Lemma operation_errors_witness :
  ∃ err rng' l, interp refusing [] (execute_op default_config sample_actors sample_payloads OpUpdate [1; 2; 3])
      = (Some (err, rng'), l) ∧
  match err with
  | None => errors_in_calls l = []
  | Some e =>
      (∃ e0, errors_in_calls l = [e0] ∧ errors_Is e e0 = true ∧ errors_Is e errSkipped = false)
      ∨ (e = errSkipped ∧ (errors_in_calls l = [] ∨ errors_in_calls l = [ErrNoRows])
         ∧ Forall (λ c, ¬ is_work c) l)
  end.
Proof.
  apply operation_errors.
  - apply sample_actors_ready.
  - apply sample_payloads_ok.
  - apply sample_handler_ok. by intros e [= <-].
  - unfold op_names. set_solver.
Defined.

(** C11: the ring holds only sessions that exist.  Whatever the environment
    answers, an id is pushed only after a successful commit of the transaction
    that inserted its session, each commit of an inserted session is followed
    by its push, and this is so also on the paths where the commit fails or the
    transaction is rolled back.  An operation pushes exactly when it is an
    insert that returned without error, and then the one session it inserted. *)
Theorem ring_publishes_committed {R} `{RandOk R} (cfg : Config) (actors : actor_pools)
    (pl : payloads) (h : handler) (op : string) (rng : R) :
  pools_ready actors → payloads_ok pl → ok_handler h → op ∈ op_names →
  ∃ err rng' l, interp h [] (execute_op cfg actors pl op rng) = (Some (err, rng'), l) ∧
  (∃ s, publishes (mkSessions [] []) l = Some s ∧ s.(unpublished) = []) ∧
  ((op = OpInsert ∧ err = None ∧ ∃ id, pushed l = [id] ∧ inserted l = [id] ∧ errors_in_calls l = [])
   ∨ ((op ≠ OpInsert ∨ err ≠ None) ∧ pushed l = [])).
Proof.
  intros Ha Hp Hh Hop.
  destruct (execute_run cfg actors pl h op rng Ha Hp Hh Hop)
    as (err & rng' & l & Hi & [_ [He Hpu Hpb]] & Hins & Hno).
  exists err, rng', l. split; [done|]. split.
  { destruct Hpb as [p ->]. by eexists. }
  destruct (decide (op = OpInsert)) as [Heq|Hne]; [|right; auto].
  destruct err as [e|]; [right; auto|]. left. destruct (Hins Heq eq_refl) as [id Hid].
  split; [done|]. split; [done|]. exists id. by rewrite Hpu, Hid.
Qed.

Lemma ring_publishes_committed_witness :
  ∃ err rng' l, interp calm [] (execute_op default_config sample_actors sample_payloads OpInsert [1; 2; 3])
      = (Some (err, rng'), l) ∧
  (∃ s, publishes (mkSessions [] []) l = Some s ∧ s.(unpublished) = []) ∧
  ((OpInsert = OpInsert ∧ err = None ∧ ∃ id, pushed l = [id] ∧ inserted l = [id] ∧ errors_in_calls l = [])
   ∨ ((OpInsert ≠ OpInsert ∨ err ≠ None) ∧ pushed l = [])).
Proof.
  apply ring_publishes_committed.
  - apply sample_actors_ready.
  - apply sample_payloads_ok.
  - by apply sample_handler_ok.
  - unfold op_names. set_solver.
Defined.
