(* ===== verification/Migrate.v ===== *)
(** * db/schema.go: schema set-up under an advisory lock

    One replica takes the lock and runs the DDL, the others poll until the
    schema is there.  The database's answers are arguments; the model records
    what is done on the migration connection and on the pool, in order. *)

From S2P Require Export DbApi.
From S2P Require Export Config.
From S2P Require Export GoTime.

Definition advisoryLockID : Z := 7654321.

Record Schema := mkSchema {
  Tables : list string;
  Indexes : list string;
  TrackedTables : list string;
  SentinelIndex : string;
}.

(** What the migration does, as seen by the database. *)
Inductive db_action :=
  | AAcquire
  | ATryLock (id : Z)
  | AExec (ddl : string)
  | AWait (interval : Duration)
  | AUnlock (id : Z)
  | ARelease.

(** One poll of the follower: whether the context was done instead, and what
    the two queries return. *)
Record poll := mkPoll {
  poll_done : option error;
  poll_tables : result (Rows string);
  poll_index : result bool;
}.

(** The answers of the database; [ans_exec] sees the statements run before. *)
Record db_answers := mkDbAnswers {
  ans_acquire : option error;
  ans_lock : result bool;
  ans_exec : list string → string → option error;
  ans_polls : list poll;
}.

(** The loop of [CreateTables] and [CreateIndexes]: the statements run (the
    failing one included) and the error; [before] are the earlier ones. *)
Fixpoint run_ddl (exec : list string → string → option error) (before : list string)
    (ddls : list string) : list string * option error :=
  match ddls with
  | [] => ([], None)
  | ddl :: rest =>
      match exec before ddl with
      | Some e => ([ddl], Some e)
      | None =>
          let '(ran, err) := run_ddl exec (before ++ [ddl]) rest in (ddl :: ran, err)
      end
  end.

Definition CreateTables (exec : list string → string → option error) (before : list string)
    (schema : Schema) : list string * option error := run_ddl exec before schema.(Tables).

Definition CreateIndexes (exec : list string → string → option error) (before : list string)
    (schema : Schema) : list string * option error := run_ddl exec before schema.(Indexes).

(** The names that were scanned; a failing scan is passed over. *)
Definition found_names (rows : Rows string) : list string :=
  omap (λ r, match r with Ok name => Some name | Err _ => None end) rows.(rows_scans).

Definition checkMissingTables (query : result (Rows string)) (required : list string) : list string :=
  match query with
  | Err _ => required
  | Ok rows => filter (λ t, t ∉ found_names rows) required
  end.

(** The error of the query leaves [exists] at its zero value. *)
Definition indexExists (query : result bool) : bool :=
  match query with Ok b => b | Err _ => false end.

Inductive wait_result :=
  | Ready
  | WaitFailed (e : error)
  | Waiting.

(** Whether a poll finds the schema complete. *)
Definition poll_ready (schema : Schema) (waitIndexes : bool) (p : poll) : bool :=
  match checkMissingTables p.(poll_tables) schema.(TrackedTables) with
  | _ :: _ => false
  | [] =>
      negb (waitIndexes && negb (bool_decide (schema.(SentinelIndex) = ""))
            && negb (indexExists p.(poll_index)))
  end.

(** [WaitForSchema]: the number of polls made and the outcome; [Waiting] when
    the list of polls ends first. *)
Fixpoint WaitForSchema (schema : Schema) (waitIndexes : bool) (polls : list poll)
    : nat * wait_result :=
  match polls with
  | [] => (0%nat, Waiting)
  | p :: rest =>
      match p.(poll_done) with
      | Some e => (0%nat, WaitFailed e)
      | None =>
          if poll_ready schema waitIndexes p then (1%nat, Ready)
          else let '(n, r) := WaitForSchema schema waitIndexes rest in (S n, r)
      end
  end.

Inductive migrate_result :=
  | Migrated
  | MigrateFailed (e : error)
  | StillWaiting.

(** The part of [MigrateWithLock] that holds the lock, without the deferred
    unlock. *)
Definition migrate_locked (a : db_answers) (cfg : Config) (schema : Schema)
    : list db_action * migrate_result :=
  match CreateTables a.(ans_exec) [] schema with
  | (ran, Some e) => (AExec <$> ran, MigrateFailed (wrapf "create tables" e))
  | (ran, None) =>
      if cfg.(Config.CreateIndexes) then
        match CreateIndexes a.(ans_exec) ran schema with
        | (ran', Some e) => (AExec <$> (ran ++ ran'), MigrateFailed (wrapf "create indexes" e))
        | (ran', None) => (AExec <$> (ran ++ ran'), Migrated)
        end
      else (AExec <$> ran, Migrated)
  end.

Definition migrate_follower (a : db_answers) (cfg : Config) (schema : Schema)
    : list db_action * migrate_result :=
  let pollInterval := cfg.(SchemaPollMs) *! Millisecond in
  let '(n, r) := WaitForSchema schema cfg.(Config.CreateIndexes) a.(ans_polls) in
  (replicate n (AWait pollInterval),
   match r with
   | Ready => Migrated
   | WaitFailed e => MigrateFailed (wrapf "wait for schema" e)
   | Waiting => StillWaiting
   end).

(** [MigrateWithLock] with its deferred calls in their order. *)
Definition MigrateWithLock (a : db_answers) (cfg : Config) (schema : Schema)
    : list db_action * migrate_result :=
  match a.(ans_acquire) with
  | Some e => ([AAcquire], MigrateFailed (wrapf "acquire connection for migration" e))
  | None =>
      match a.(ans_lock) with
      | Err e => ([AAcquire; ATryLock advisoryLockID; ARelease],
                  MigrateFailed (wrapf "try advisory lock" e))
      | Ok true =>
          let '(acts, r) := migrate_locked a cfg schema in
          (AAcquire :: ATryLock advisoryLockID :: acts ++ [AUnlock advisoryLockID; ARelease], r)
      | Ok false =>
          let '(acts, r) := migrate_follower a cfg schema in
          (AAcquire :: ATryLock advisoryLockID :: acts
             ++ match r with StillWaiting => [] | _ => [ARelease] end, r)
      end
  end.

(** ** Running the statements *)

Lemma run_ddl_app exec before l k :
  run_ddl exec before (l ++ k) =
  match run_ddl exec before l with
  | (ran, Some e) => (ran, Some e)
  | (ran, None) => let '(ran', err) := run_ddl exec (before ++ ran) k in (ran ++ ran', err)
  end.
Proof.
  revert before. induction l as [|d l IH]; intros before; cbn [app run_ddl].
  { rewrite app_nil_r. by destruct (run_ddl exec before k). }
  destruct (exec before d); [done|]. rewrite IH.
  destruct (run_ddl exec (before ++ [d]) l) as [ran [e|]]; [done|].
  rewrite <- app_assoc. cbn [app]. by destruct (run_ddl exec (before ++ d :: ran) k).
Qed.

(** The statements run are a prefix; the run stops at the first failure. *)
Lemma run_ddl_spec exec before ddls :
  match run_ddl exec before ddls with
  | (ran, None) => ran = ddls ∧ ∀ pre d post, ddls = pre ++ d :: post → exec (before ++ pre) d = None
  | (ran, Some e) => ∃ pre d post, ddls = pre ++ d :: post ∧ ran = pre ++ [d]
                       ∧ exec (before ++ pre) d = Some e
  end.
Proof.
  revert before. induction ddls as [|d ddls IH]; intros before; cbn [run_ddl].
  { split; [done|]. by intros [] ? ? [=]. }
  destruct (exec before d) as [e|] eqn:He.
  { exists [], d, ddls. by rewrite app_nil_r. }
  specialize (IH (before ++ [d])).
  destruct (run_ddl exec (before ++ [d]) ddls) as [ran [e|]].
  - destruct IH as (pre & d' & post & -> & -> & Hx). exists (d :: pre), d', post.
    rewrite <- app_assoc in Hx. done.
  - destruct IH as [-> Hall]. split; [done|]. intros [|x pre] d' post [= -> Heq].
    + by rewrite app_nil_r.
    + specialize (Hall pre d' post Heq). by rewrite <- app_assoc in Hall.
Qed.

(** All the statements a leader runs. *)
Definition all_ddl (cfg : Config) (schema : Schema) : list string :=
  schema.(Tables) ++ if cfg.(Config.CreateIndexes) then schema.(Indexes) else [].

Lemma migrate_locked_spec a cfg schema :
  ∃ ran r, migrate_locked a cfg schema = (AExec <$> ran, r) ∧
  match run_ddl a.(ans_exec) [] (all_ddl cfg schema) with
  | (ran', None) => ran = ran' ∧ r = Migrated
  | (ran', Some e) => ran = ran' ∧ ∃ msg, r = MigrateFailed (wrapf msg e)
  end.
Proof.
  unfold migrate_locked, CreateTables, CreateIndexes, all_ddl. rewrite run_ddl_app.
  destruct (run_ddl a.(ans_exec) [] schema.(Tables)) as [ran [e|]]; [eauto 6|].
  rewrite app_nil_l. destruct (Config.CreateIndexes cfg).
  - destruct (run_ddl a.(ans_exec) ran schema.(Indexes)) as [ran' [e|]]; eauto 6.
  - cbn [run_ddl]. rewrite app_nil_r. eauto.
Qed.

(** C23: the replica that gets the lock runs the table statements and, when
    indexes are wanted, the index statements, each on its own and in order, up
    to the first failure, whose error it returns; and on every path it releases
    the lock and then the connection it took. *)
Theorem leader_migration (a : db_answers) (cfg : Config) (schema : Schema) :
  a.(ans_acquire) = None → a.(ans_lock) = Ok true →
  ∃ ran r, MigrateWithLock a cfg schema
      = (AAcquire :: ATryLock advisoryLockID :: (AExec <$> ran)
           ++ [AUnlock advisoryLockID; ARelease], r)
  ∧ ((r = Migrated ∧ ran = all_ddl cfg schema
      ∧ ∀ pre d post, all_ddl cfg schema = pre ++ d :: post → a.(ans_exec) pre d = None)
     ∨ ∃ pre d post e msg, all_ddl cfg schema = pre ++ d :: post ∧ ran = pre ++ [d]
         ∧ a.(ans_exec) pre d = Some e ∧ r = MigrateFailed (wrapf msg e)).
Proof.
  intros Ha Hl. unfold MigrateWithLock. rewrite Ha, Hl.
  destruct (migrate_locked_spec a cfg schema) as (ran & r & -> & Hr).
  exists ran, r. split; [done|].
  pose proof (run_ddl_spec a.(ans_exec) [] (all_ddl cfg schema)) as Hs.
  destruct (run_ddl a.(ans_exec) [] (all_ddl cfg schema)) as [ran' [e|]].
  - right. destruct Hr as [-> [msg ->]]. destruct Hs as (pre & d & post & Heq & -> & Hx).
    by exists pre, d, post, e, msg.
  - left. destruct Hr as [-> ->]. destruct Hs as [-> Hall]. done.
Qed.

(** ** Waiting for the schema *)

(** The poll saw every tracked table, and the sentinel index when indexes are
    awaited. *)
Definition schema_seen (schema : Schema) (waitIndexes : bool) (p : poll) : Prop :=
  (schema.(TrackedTables) = [] ∨ ∃ rows, p.(poll_tables) = Ok rows
     ∧ ∀ t, t ∈ schema.(TrackedTables) → Ok t ∈ rows.(rows_scans))
  ∧ (waitIndexes = true → schema.(SentinelIndex) ≠ "" → p.(poll_index) = Ok true).

Lemma elem_of_found_names rows t : t ∈ found_names rows ↔ Ok t ∈ rows.(rows_scans).
Proof.
  unfold found_names. rewrite list_elem_of_omap. split.
  - by intros ([n|e] & Hin & [= ->]).
  - intros Hin. by exists (Ok t).
Qed.

Lemma no_missing query required :
  checkMissingTables query required = [] ↔
  required = [] ∨ ∃ rows, query = Ok rows ∧ ∀ t, t ∈ required → Ok t ∈ rows.(rows_scans).
Proof.
  destruct query as [rows|e]; cbn [checkMissingTables].
  - split.
    + intros Hf. right. exists rows. split; [done|]. intros t Ht.
      destruct (decide (t ∈ found_names rows)) as [Hin|Hout]; [by apply elem_of_found_names|].
      assert (t ∈ filter (λ t, t ∉ found_names rows) required) as Hin
        by (by apply list_elem_of_filter).
      rewrite Hf in Hin. by apply not_elem_of_nil in Hin.
    + intros [->|(rows' & [= <-] & Hall)]; [done|]. apply filter_none, Forall_forall.
      intros t Ht Hno. by apply Hno, elem_of_found_names, Hall.
  - split; [by left|]. by intros [->|(rows & [=] & _)].
Qed.

Lemma poll_ready_spec schema w p : poll_ready schema w p = true ↔ schema_seen schema w p.
Proof.
  unfold poll_ready, schema_seen. rewrite <- no_missing.
  destruct (checkMissingTables _ _) as [|t l]; [|split; [done|by intros [[=] _]]].
  unfold indexExists. case_bool_decide as Hs; destruct w, (poll_index p) as [[]|e]; cbn;
    (split; [intros Hx|intros [_ Hx]]); try done; try (split; [done|]; intros; done || congruence).
  - by specialize (Hx eq_refl Hs).
  - by specialize (Hx eq_refl Hs).
Qed.

Lemma WaitForSchema_ready schema w pre p post :
  Forall (λ q, q.(poll_done) = None ∧ ¬ schema_seen schema w q) pre →
  p.(poll_done) = None → schema_seen schema w p →
  WaitForSchema schema w (pre ++ p :: post) = (S (length pre), Ready).
Proof.
  intros Hpre Hd Hp. induction Hpre as [|q pre [Hq Hns] _ IH].
  - cbn [app WaitForSchema]. rewrite Hd. by rewrite (proj2 (poll_ready_spec schema w p) Hp).
  - cbn [app WaitForSchema length]. rewrite Hq.
    destruct (poll_ready schema w q) eqn:Hr; [by apply poll_ready_spec in Hr|]. by rewrite IH.
Qed.

Lemma WaitForSchema_inv schema w polls n :
  WaitForSchema schema w polls = (n, Ready) →
  ∃ pre p post, polls = pre ++ p :: post ∧ n = S (length pre)
    ∧ Forall (λ q, q.(poll_done) = None ∧ ¬ schema_seen schema w q) pre
    ∧ p.(poll_done) = None ∧ schema_seen schema w p.
Proof.
  revert n. induction polls as [|q polls IH]; intros n Hw; cbn [WaitForSchema] in Hw; [done|].
  destruct (poll_done q) as [e|] eqn:Hd; [done|].
  destruct (poll_ready schema w q) eqn:Hr.
  - injection Hw as <-. exists [], q, polls. split; [done|]. split; [done|]. split; [constructor|].
    split; [done|]. by apply poll_ready_spec.
  - destruct (WaitForSchema schema w polls) as [m r] eqn:Hm. injection Hw as <- ->.
    destruct (IH m eq_refl) as (pre & p & post & -> & -> & Hpre & Hp & Hs).
    exists (q :: pre), p, post. split; [done|]. split; [done|]. split; [|done].
    constructor; [|done]. split; [done|]. intros Hs'%poll_ready_spec. congruence.
Qed.

(** C24: a replica that does not get the lock runs no DDL and proceeds exactly
    when some poll has seen every tracked table and, if indexes are wanted, the
    sentinel index: it returns at the first such poll, having waited the poll
    interval before each, and releases its connection. *)
Theorem follower_waits (a : db_answers) (cfg : Config) (schema : Schema) :
  a.(ans_acquire) = None → a.(ans_lock) = Ok false →
  (MigrateWithLock a cfg schema).2 = Migrated ↔
  ∃ pre p post, a.(ans_polls) = pre ++ p :: post
    ∧ Forall (λ q, q.(poll_done) = None ∧ ¬ schema_seen schema cfg.(Config.CreateIndexes) q) pre
    ∧ p.(poll_done) = None ∧ schema_seen schema cfg.(Config.CreateIndexes) p
    ∧ MigrateWithLock a cfg schema
      = (AAcquire :: ATryLock advisoryLockID
           :: replicate (S (length pre)) (AWait (cfg.(SchemaPollMs) *! Millisecond)) ++ [ARelease],
         Migrated).
Proof.
  intros Ha Hl. unfold MigrateWithLock. rewrite Ha, Hl. unfold migrate_follower. split.
  - destruct (WaitForSchema _ _ _) as [n [|e|]] eqn:Hw; cbn [snd]; try done. intros _.
    destruct (WaitForSchema_inv _ _ _ _ Hw) as (pre & p & post & Heq & -> & Hpre & Hd & Hs).
    exists pre, p, post. done.
  - intros (pre & p & post & Heq & Hpre & Hd & Hs & _).
    by rewrite Heq, (WaitForSchema_ready _ _ _ _ _ Hpre Hd Hs).
Qed.

Definition two_tables : Schema :=
  mkSchema ["CREATE TABLE a"; "CREATE TABLE b"] ["CREATE INDEX i"] ["a"; "b"] "i".

Definition sample_db (locked : bool) : db_answers :=
  mkDbAnswers None (Ok locked)
    (λ before ddl, if decide (ddl = "CREATE TABLE b"%string) then Some (ErrNew "out of disk") else None)
    [mkPoll None (Ok (mkRows [Ok "a"%string] None)) (Ok false);
     mkPoll None (Ok (mkRows [Ok "b"%string; Ok "a"%string] None)) (Err (ErrNew "closed"))].

Lemma leader_migration_witness :
  ∃ ran r, MigrateWithLock (sample_db true) default_config two_tables
      = (AAcquire :: ATryLock advisoryLockID :: (AExec <$> ran)
           ++ [AUnlock advisoryLockID; ARelease], r)
  ∧ ((r = Migrated ∧ ran = all_ddl default_config two_tables
      ∧ ∀ pre d post, all_ddl default_config two_tables = pre ++ d :: post →
          (sample_db true).(ans_exec) pre d = None)
     ∨ ∃ pre d post e msg, all_ddl default_config two_tables = pre ++ d :: post ∧ ran = pre ++ [d]
         ∧ (sample_db true).(ans_exec) pre d = Some e ∧ r = MigrateFailed (wrapf msg e)).
Proof. apply leader_migration; reflexivity. Defined.

Lemma follower_waits_witness :
  ∃ pre p post, (sample_db false).(ans_polls) = pre ++ p :: post
    ∧ Forall (λ q, q.(poll_done) = None ∧ ¬ schema_seen two_tables false q) pre
    ∧ p.(poll_done) = None ∧ schema_seen two_tables false p
    ∧ MigrateWithLock (sample_db false) default_config two_tables
      = (AAcquire :: ATryLock advisoryLockID
           :: replicate (S (length pre)) (AWait (500 *! Millisecond)) ++ [ARelease], Migrated).
Proof. apply (follower_waits (sample_db false) default_config two_tables); reflexivity. Defined.
