(* ===== verification/Oltp.v ===== *)
(** * workload/profile.go and oltp.go: the registry and the default profile

    Profiles by name, the operations of the oltp profile with their default
    weights, its schema, and its executor as an instance of the interface the
    worker is written against. *)

From S2P Require Export OpsSpec.
From S2P Require Export PayloadPools.
From S2P Require Export Migrate.
From S2P Require Export Worker.

(** ** The registry *)

(** A profile as the registry and [main] see it. *)
Record Profile := mkProfile {
  Name : string;
  Ops : list OpDef;
  ProfileSchema : Schema;
}.

(** [profileFactories]: each entry constructs a profile. *)
Notation factories := (gmap string Profile).

Definition RegisterProfile (name : string) (factory : Profile) (m : factories) : factories :=
  <[name := factory]> m.

(** The registered names in ascending order. *)
Definition ProfileNames (m : factories) : list string :=
  merge_sort String.le (map_to_list m).*1.

(** [fmt.Errorf("unknown profile %q (valid: %v)", ...)]; [quote] is [%q]. *)
Definition GetProfile (quote : string → string) (name : string) (m : factories) : result Profile :=
  match m !! name with
  | None => Err (Errorf ("unknown profile " +:+ quote name +:+ " (valid: ["
                          +:+ String.concat " " (ProfileNames m) +:+ "])"))
  | Some p => Ok p
  end.

(** ** The oltp profile *)

Definition ProfileOLTP : string := "oltp-jsonb".

Definition oltp_ops : list OpDef :=
  [mkOpDef OpInsert "WRITE_PCT" 35;
   mkOpDef OpReadSimple "READ_SIMPLE_PCT" 15;
   mkOpDef OpReadJoin "READ_JOIN_PCT" 20;
   mkOpDef OpUpdate "UPDATE_PCT" 15;
   mkOpDef OpDelete "DELETE_PCT" 10;
   mkOpDef OpReadByIP "READ_IP_PCT" 5].

Definition sessionsDDL : string :=
  "CREATE TABLE IF NOT EXISTS sessions (
			id          UUID PRIMARY KEY DEFAULT gen_random_uuid(),
			user_id     UUID NOT NULL,
			started_at  TIMESTAMPTZ NOT NULL DEFAULT now(),
			ended_at    TIMESTAMPTZ,
			region      TEXT NOT NULL,
			metadata    JSONB NOT NULL,
			status      TEXT NOT NULL DEFAULT 'active',
			created_at  TIMESTAMPTZ NOT NULL DEFAULT now()
		)".

Definition eventsDDL : string :=
  "CREATE TABLE IF NOT EXISTS events (
			id            UUID PRIMARY KEY DEFAULT gen_random_uuid(),
			session_id    UUID NOT NULL REFERENCES sessions(id),
			event_type    TEXT NOT NULL,
			occurred_at   TIMESTAMPTZ NOT NULL DEFAULT now(),
			payload       JSONB NOT NULL,
			severity      TEXT NOT NULL DEFAULT 'info',
			trace_id      TEXT NOT NULL,
			source_ip     INET,
			created_at    TIMESTAMPTZ NOT NULL DEFAULT now()
		)".

Definition auditLogDDL : string :=
  "CREATE TABLE IF NOT EXISTS audit_log (
			id            UUID PRIMARY KEY DEFAULT gen_random_uuid(),
			entity_type   TEXT NOT NULL,
			entity_id     UUID NOT NULL,
			action        TEXT NOT NULL,
			changed_by    UUID NOT NULL,
			changed_at    TIMESTAMPTZ NOT NULL DEFAULT now(),
			diff          JSONB NOT NULL,
			checksum      TEXT NOT NULL
		)".

Definition oltp_indexes : list string :=
  ["CREATE INDEX CONCURRENTLY IF NOT EXISTS idx_sessions_user_id        ON sessions (user_id)";
   "CREATE INDEX CONCURRENTLY IF NOT EXISTS idx_sessions_status_created ON sessions (status, created_at DESC)";
   "CREATE INDEX CONCURRENTLY IF NOT EXISTS idx_events_session_id          ON events (session_id)";
   "CREATE INDEX CONCURRENTLY IF NOT EXISTS idx_events_occurred_at         ON events (occurred_at DESC)";
   "CREATE INDEX CONCURRENTLY IF NOT EXISTS idx_events_severity_occurred   ON events (severity, occurred_at DESC)";
   "CREATE INDEX CONCURRENTLY IF NOT EXISTS idx_events_source_ip           ON events (source_ip)";
   "CREATE INDEX CONCURRENTLY IF NOT EXISTS idx_audit_log_entity_id  ON audit_log (entity_id, changed_at DESC)";
   "CREATE INDEX CONCURRENTLY IF NOT EXISTS idx_audit_log_changed_at ON audit_log (changed_at DESC)"]%string.

Definition oltpSchema : Schema :=
  mkSchema [sessionsDDL; eventsDDL; auditLogDDL] oltp_indexes
    ["sessions"; "events"; "audit_log"]%string "idx_audit_log_changed_at".

Definition OLTPProfile : Profile := mkProfile ProfileOLTP oltp_ops oltpSchema.

(** The registry after the [init] functions. *)
Definition registered : factories := RegisterProfile ProfileOLTP OLTPProfile ∅.

(** ** Its executor *)

(** [oltpExecutor.Execute] in an environment [h]; the state is what was called
    so far. *)
Definition oltp_executor {R} `{Rand R} (h : handler) (cfg : Config) (actors : actor_pools)
    (pl : payloads) : Executor (list io) R := λ tr rng op,
  match interp h tr (execute_op cfg actors pl op rng) with
  | (Some (err, rng'), tr') => (Returned err, tr', rng')
  | (None, tr') => (Panicked, tr', rng)
  end.

Lemma oltp_executor_ok {R} `{RandOk R} (h : handler) (cfg : Config) (actors : actor_pools)
    (pl : payloads) (names : list string) :
  pools_ready actors → payloads_ok pl → ok_handler h → (∀ op, op ∈ names → op ∈ op_names) →
  @ExecutorOk (list io) R (oltp_executor h cfg actors pl) names (λ _, True).
Proof.
  intros Ha Hp Hh Hn. split. intros tr rng op _ Hop. unfold Execute, oltp_executor.
  destruct (wp_sound errSkipped h _ _ tr Hh (wp_execute cfg actors pl Ha Hp op rng (Hn op Hop)))
    as ([err rng'] & l & -> & _).
  by eexists _, _, _.
Qed.

Lemma oltp_op_names env ops :
  (ResolveWeights env oltp_ops).2 = Ok ops → OpNames ops = op_names.
Proof. intros (_ & _ & ->)%(resolve_loop_ok env oltp_ops 0 [] []). reflexivity. Qed.

(** ** The schema agrees with itself *)

(** The text up to the first blank. *)
Fixpoint word (s : string) : string :=
  match s with
  | EmptyString => ""
  | String c s => if decide (c = " "%char) then "" else String c (word s)
  end.

(** What follows [prefix], if the statement starts with it. *)
Definition after (prefix s : string) : option string :=
  if String.prefix prefix s
  then Some (String.substring (String.length prefix) (String.length s) s) else None.

Definition created_table (ddl : string) : option string :=
  word <$> after "CREATE TABLE IF NOT EXISTS " ddl.

Definition created_index (ddl : string) : option string :=
  word <$> after "CREATE INDEX CONCURRENTLY IF NOT EXISTS " ddl.

(** The schema of the oltp profile is consistent with what followers wait
    for: every table statement is an idempotent CREATE TABLE and the tables
    created are exactly the tracked tables, in order; every index statement is
    an idempotent CREATE INDEX CONCURRENTLY of a distinct index, and the
    sentinel is the index of the last statement. *)
Theorem oltp_schema_consistent :
  created_table <$> oltpSchema.(Tables) = Some <$> oltpSchema.(TrackedTables)
  ∧ Forall (λ ddl, is_Some (created_index ddl)) oltpSchema.(Indexes)
  ∧ NoDup (created_index <$> oltpSchema.(Indexes))
  ∧ last (created_index <$> oltpSchema.(Indexes)) = Some (Some oltpSchema.(SentinelIndex)).
Proof.
  split; [vm_compute; reflexivity|]. split; [|split; [|vm_compute; reflexivity]].
  - apply (bool_decide_unpack _). vm_compute. exact I.
  - apply (bool_decide_unpack _). vm_compute. exact I.
Qed.

(** The program starts as shipped: with nothing set the configuration
    loads, its profile is registered, and the profile's default weights form a
    valid mix over the operations the executor knows. *)
Theorem default_startup (quote : string → string) :
  let env : Env := λ _, ""%string in
  ∃ cfg p ops, Load env = Ok cfg ∧ GetProfile quote cfg.(Config.Profile) registered = Ok p
    ∧ ResolveWeights env p.(Ops) = ([], Ok ops) ∧ good_mix ops ∧ OpNames ops = op_names.
Proof.
  intros env. eexists _, OLTPProfile, _. split; [vm_compute; reflexivity|].
  split; [vm_compute; reflexivity|]. split; [vm_compute; reflexivity|].
  split; [|vm_compute; reflexivity].
  split; [repeat constructor; simpl; lia|vm_compute; reflexivity].
Qed.

(** A worker over pools in good order runs until the first pass that finds
    the context done, and its window then holds exactly the operations it
    reported to Prometheus. *)
Lemma oltp_worker_runs {R} `{RandOk R} (env : Env) (cfg : Config) (ops : list WeightedOp)
    (actors : actor_pools) (pl : payloads) (h : handler)
    (pre : list iteration) (it : iteration) (post : list iteration) (rng : R) :
  (ResolveWeights env oltp_ops).2 = Ok ops →
  pools_ready actors → payloads_ok pl → ok_handler h →
  it.(it_done) = true → Z.of_nat (length (pre ++ it :: post)) < int64_max →
  ∃ w, @RunWorker _ _ (oltp_executor h cfg actors pl) _ cfg ops (pre ++ it :: post) [] rng
         (newWorkerStats (OpNames ops)) = Finished w
    ∧ w.(w_stats) = mkWorkerStats (by_op op_names (call_events w.(w_calls))).
Proof.
  intros Hops Ha Hp Hh Hd Hb. pose proof (oltp_op_names env ops Hops) as Hnames.
  assert (ops ≠ []) as Hne by (by intros ->).
  unfold RunWorker. set (thinkTime := cfg.(ThinkTimeMs) *! Millisecond).
  set (Ex := oltp_executor h cfg actors pl).
  assert (@ExecutorOk _ R Ex (OpNames ops) (λ _, True)) as Hok.
  { apply oltp_executor_ok; [done..|]. by rewrite Hnames. }
  pose proof (worker_loop_no_crash thinkTime ops Hne (λ _, True) (pre ++ it :: post) [] rng []
    _ I (fresh_worker_ok ops) Hb) as Hnc.
  destruct (worker_loop_stops thinkTime ops pre it post post ([] : list io) rng (fresh_worker ops) Hd)
    as [_ Hnr].
  pose proof (worker_loop_ok thinkTime ops Hne (pre ++ it :: post) ([] : list io) rng [] _
    (fresh_worker_ok ops) Hb) as [Hs _].
  unfold fresh_worker in *.
  destruct (worker_loop thinkTime ops (pre ++ it :: post) [] rng _) as [w|w|w e r].
  - exists w. split; [done|]. cbn [result_worker] in Hs. by rewrite Hs, Hnames.
  - by destruct (Hnc w).
  - by destruct (Hnr w e r).
Qed.

(** ** Init *)

(** The shared state of the profile: its ring, and the template and actor
    pools of the package.  Its configuration and connection pool are arguments
    of the operations. *)
Record oltp_state := mkOltpState {
  os_ring : SessionRing;
  os_payloads : payloads;
  os_actors : actor_pools;
}.

(** [OLTPProfile.Init]; [p0] are the pools the package's [init] left, [fresh]
    the results of [uuid.New]. *)
Definition Init {R} `{Rand R} (float_text : f64 → bytes) (seed : Z → R) (fresh : nat → UUID)
    (cfg : Config) (p0 : payloads) : option oltp_state :=
  ring ← NewSessionRing cfg.(RingSize);
  p ← InitEventPool float_text seed cfg.(MinPayloadKB) cfg.(MaxPayloadKB) p0;
  actors ← InitActorPools cfg.(UserPoolSize) cfg.(ActorPoolSize) fresh;
  Some (mkOltpState ring (SetToastPct cfg.(ToastPct) p) actors).

(** Settings whose pools and templates can be allocated: [Load] has no upper
    bounds for them, [make] has. *)
Record allocatable (cfg : Config) : Prop := {
  al_payload : cfg.(MaxPayloadKB) ≤ 2 ^ 36;
  al_ring : cfg.(RingSize) ≤ 2 ^ 44;
  al_users : cfg.(UserPoolSize) ≤ 2 ^ 44;
  al_actors : cfg.(ActorPoolSize) ≤ 2 ^ 44;
}.

Lemma Init_ok {R} `{RandOk R} (ft : f64 → bytes) (seed : Z → R) (fresh : nat → UUID) (env : Env) (cfg : Config) :
  float_text_ok ft → Load env = Ok cfg → allocatable cfg →
  ∃ p0 st, init_payloads ft seed = Some p0 ∧ Init ft seed fresh cfg p0 = Some st
    ∧ ring_wf st.(os_ring) ∧ contents st.(os_ring) = [] ∧ st.(os_ring).(Ring.size) = cfg.(RingSize)
    ∧ payloads_ok st.(os_payloads) ∧ st.(os_payloads).(toastPct) = cfg.(ToastPct)
    ∧ pools_ready st.(os_actors).
Proof.
  intros Hft Hload [Hmax Hring Husers Hactors]. apply Load_valid in Hload as [Hv Hr].
  destruct (startup_pools ft seed cfg.(MinPayloadKB) cfg.(MaxPayloadKB) Hft (valid_payload _ Hv) Hmax)
    as (p0 & p & Hp0 & Hp & Hb & _).
  destruct (NewSessionRing_wf cfg.(RingSize)) as (ring & Hnew & Hwf & Hc & Hs).
  { pose proof (valid_ring _ Hv). lia. }
  destruct (InitActorPools_ready cfg.(UserPoolSize) cfg.(ActorPoolSize) fresh
    (conj (valid_users _ Hv) Husers) (conj (valid_actors _ Hv) Hactors)) as (actors & Ha & Hready & _).
  exists p0. eexists. split; [done|]. unfold Init. rewrite Hnew. cbn [mbind option_bind].
  rewrite Hp. cbn [mbind option_bind]. rewrite Ha. split; [done|].
  cbn [os_ring os_payloads os_actors]. split; [done|]. split; [done|]. split; [done|].
  split; [by eapply payloads_built_ok, SetToastPct_built|]. done.
Qed.

(** C13: from start-up to the end of a worker.  For every configuration
    that loads and whose pools can be allocated (a ring and populations of at
    most 2^44 ids, payloads of at most 2^36 KB), every weights accepted, every
    seeds and every [uuid.New], the profile initialises without a panic, its ring is empty with the configured capacity, and a
    worker over the profile, sharing its random source with its executor,
    runs until the first pass that finds the context done, whatever the
    database does and however other workers use the ring, without a crash;
    its window then holds exactly the operations it reported to Prometheus. *)
Theorem startup_worker_runs {R} `{RandOk R} (ft : f64 → bytes) (seed : Z → R) (fresh : nat → UUID)
    (env : Env) (cfg : Config) (ops : list WeightedOp) (h : handler)
    (pre : list iteration) (it : iteration) (post : list iteration) (rng : R) :
  float_text_ok ft → Load env = Ok cfg → allocatable cfg →
  (ResolveWeights env oltp_ops).2 = Ok ops → ok_handler h →
  it.(it_done) = true → Z.of_nat (length (pre ++ it :: post)) < int64_max →
  ∃ p0 st w, init_payloads ft seed = Some p0 ∧ Init ft seed fresh cfg p0 = Some st
    ∧ contents st.(os_ring) = [] ∧ st.(os_ring).(Ring.size) = cfg.(RingSize)
    ∧ @RunWorker _ _ (oltp_executor h cfg st.(os_actors) st.(os_payloads)) _ cfg ops
        (pre ++ it :: post) [] rng (newWorkerStats (OpNames ops)) = Finished w
    ∧ w.(w_stats) = mkWorkerStats (by_op op_names (call_events w.(w_calls))).
Proof.
  intros Hft Hload Hmax Hops Hh Hd Hb.
  destruct (Init_ok ft seed fresh env cfg Hft Hload Hmax)
    as (p0 & st & Hp0 & Hst & _ & Hc & Hs & Hpl & _ & Ha).
  destruct (oltp_worker_runs env cfg ops st.(os_actors) st.(os_payloads) h pre it post rng)
    as (w & Hw & Hws); [done..|].
  by exists p0, st, w.
Qed.

Lemma startup_worker_runs_witness :
  ∃ p0 st w, init_payloads (λ _, of_string "0.5") (λ i, [i] : script) = Some p0
    ∧ Init (λ _, of_string "0.5") (λ i, [i] : script) Z.of_nat default_config p0 = Some st
    ∧ st.(os_ring).(Ring.size) = 10000
    ∧ w.(w_stats) = mkWorkerStats (by_op op_names (call_events w.(w_calls))).
Proof.
  destruct (startup_worker_runs (λ _, of_string "0.5") (λ i, [i] : script) Z.of_nat (λ _, ""%string)
    default_config (default [] (match (ResolveWeights (λ _, ""%string) oltp_ops).2 with Ok o => Some o | Err _ => None end))
    calm (take 4 sample_its) (mkIteration true 0 true true) [] [10; 40; 60; 99])
    as (p0 & st & w & Hp0 & Hst & _ & Hs & _ & Hw).
  - intros f. split; [by repeat constructor|cbn; lia].
  - vm_compute. reflexivity.
  - split; vm_compute; discriminate.
  - vm_compute. reflexivity.
  - by apply sample_handler_ok.
  - reflexivity.
  - vm_compute. reflexivity.
  - exists p0, st, w. split; [exact Hp0|]. split; [exact Hst|]. split; [|exact Hw]. rewrite Hs. vm_compute. reflexivity.
Defined.
