(* ===== verification/Schedule.v ===== *)
(** * main.go: the workers of a run and the collector they share

    Each worker is a run of [RunWorker] over the oltp executor, in its own
    environment; what it tells the collector are the calls of [ws.Record] that
    run makes.  The scheduler decides how these calls interleave with each
    other, with the launching of the workers and with the drains of the summary
    loop: the actions on the collector are computed from the workers' runs and
    the scheduler's turns. *)

From S2P Require Export Oltp.
From S2P Require Export CollectorRun.

(** ** One worker *)

(** What the outside world decides for a worker: its database and the ring as
    it sees them, its random source, the operations it begins while the context
    is not done, and the one in flight when the context becomes done, if any:
    how long each takes and, for the last, whether the context is done when
    its outcome is looked at, and whether the wait after it sees it. *)
Record worker_world (R : Type) := mkWorkerWorld {
  ww_handler : handler;
  ww_rng : R;
  ww_passes : list Duration;
  ww_last : option (Duration * bool * bool);
}.
Arguments mkWorkerWorld {R}.
Arguments ww_handler {R}.
Arguments ww_rng {R}.
Arguments ww_passes {R}.
Arguments ww_last {R}.

(** The passes of the worker's loop when the context gets done ([done]), and
    when it never does. *)
Definition worker_its {R} (done : bool) (ww : worker_world R) : list iteration :=
  ((λ d, mkIteration false d false false) <$> ww.(ww_passes))
  ++ if done then
       match ww.(ww_last) with Some (d, e, t) => [mkIteration false d e t] | None => [] end
       ++ [mkIteration true 0 true true]
     else [].

Definition returned {E R} (r : @worker_result E R) : bool :=
  match r with Running _ _ _ => false | _ => true end.

Definition panicked {E R} (r : @worker_result E R) : bool :=
  match r with Crashed _ => true | _ => false end.

Section run.
Context {R : Type} `{Rand R}.

(** The goroutine [main] starts for a worker; its executor is
    [profile.NewExecutor(rng)]. *)
Definition worker_run (cfg : Config) (ops : list WeightedOp) (st : oltp_state) (done : bool)
    (ww : worker_world R) : @worker_result (list io) R :=
  @RunWorker _ _ (oltp_executor ww.(ww_handler) cfg st.(os_actors) st.(os_payloads)) _ cfg ops
    (worker_its done ww) [] ww.(ww_rng) (newWorkerStats (OpNames ops)).

(** What a worker whose context gets done has told, at the end. *)
Definition final_worker cfg ops st (ww : worker_world R) : worker :=
  result_worker (worker_run cfg ops st true ww).
End run.

(** ** The scheduler *)

(** The next [ws.Record] of a worker, or a drain. *)
Inductive turn :=
  | TRecord (i : nat)
  | TDrain (now : Time).

Definition observe (i : nat) (r : recording) : action := Observe i r.1.1 r.1.2 r.2.

(** The actions of some turns, and what the workers have still to record; a
    turn of a worker with nothing to record is void. *)
Fixpoint play_turns (turns : list turn) (pending : list (list recording))
    : list action * list (list recording) :=
  match turns with
  | [] => ([], pending)
  | TDrain now :: turns =>
      let '(acts, pending) := play_turns turns pending in (Drain now :: acts, pending)
  | TRecord i :: turns =>
      match pending !! i with
      | Some (r :: rs) =>
          let '(acts, pending) := play_turns turns (<[i := rs]> pending) in
          (observe i r :: acts, pending)
      | _ => play_turns turns pending
      end
  end.

(** The loop that launches the workers: after each [NewWorkerStats], some
    turns of the workers there are. *)
Fixpoint launch_acts (recs : list (list recording)) (i : nat) (launching : nat → list turn)
    (pending : list (list recording)) : list action * list (list recording) :=
  match recs with
  | [] => ([], pending)
  | r :: recs =>
      let '(acts, pending) := play_turns (launching i) (pending ++ [r]) in
      let '(acts', pending) := launch_acts recs (S i) launching pending in
      (Register :: acts ++ acts', pending)
  end.

(** What is left, worker by worker: nobody records after [wg.Wait]. *)
Fixpoint flush (i : nat) (pending : list (list recording)) : list action :=
  match pending with
  | [] => []
  | rs :: pending => (observe i <$> rs) ++ flush (S i) pending
  end.

(** The actions up to the end of the run, and until the last worker is back. *)
Definition schedule (recs : list (list recording)) (launching : nat → list turn)
    (running stopping : list turn) : list action * list action :=
  let '(acts1, pending) := launch_acts recs 0 launching [] in
  let '(acts2, pending) := play_turns running pending in
  let '(acts3, pending) := play_turns stopping pending in
  (acts1 ++ acts2, acts3 ++ flush 0 pending).

(** ** Every schedule records what the workers record *)

Definition all_tracked (names : list string) (pending : list (list recording)) : Prop :=
  Forall (Forall (λ r : recording, r.1.1 ∈ names)) pending.

(** The events of some workers. *)
Definition all_events (pending : list (list recording)) : list event :=
  recorded_event <$> mjoin pending.

Lemma all_events_insert pending i r rs :
  pending !! i = Some (r :: rs) →
  recorded_event r :: all_events (<[i := rs]> pending) ≡ₚ all_events pending.
Proof.
  intros Hi. unfold all_events. rewrite <- (take_drop_middle pending i _ Hi) at 2.
  rewrite insert_take_drop by (by eapply lookup_lt_Some).
  rewrite !join_app. cbn [mjoin list_join]. rewrite !fmap_app. cbn [fmap list_fmap app].
  by rewrite <- Permutation_middle.
Qed.

(** Some actions that record, of what is pending, all but [pending']; they
    register [new] workers. *)
Record plays (names : list string) (new : nat) (recs pending : list (list recording))
    (acts : list action) (pending' : list (list recording)) : Prop := {
  pl_events : events acts ++ all_events pending' ≡ₚ all_events (pending ++ recs);
  pl_ok : ∀ k, acts_ok names (length pending) (acts ++ k) = acts_ok names (length pending + new) k;
  pl_length : length pending' = (length pending + new)%nat;
  pl_tracked : all_tracked names pending';
}.

Lemma plays_nil names pending : all_tracked names pending → plays names 0 [] pending [] pending.
Proof. intros Ht. split; [by rewrite app_nil_r|intros k; by rewrite Nat.add_0_r|lia|done]. Qed.

Lemma all_events_app p q : all_events (p ++ q) = all_events p ++ all_events q.
Proof. unfold all_events. by rewrite join_app, fmap_app. Qed.

Lemma plays_app names n1 n2 r1 r2 p p1 p2 acts1 acts2 :
  plays names n1 r1 p acts1 p1 → plays names n2 r2 p1 acts2 p2 →
  plays names (n1 + n2) (r1 ++ r2) p (acts1 ++ acts2) p2.
Proof.
  intros [He1 Ho1 Hl1 _] [He2 Ho2 Hl2 Ht2]. split.
  - rewrite events_app, <- app_assoc, He2, all_events_app, app_assoc, He1.
    by rewrite app_assoc, <- all_events_app.
  - intros k. rewrite <- app_assoc, Ho1, <- Hl1, Ho2. f_equal. lia.
  - lia.
  - done.
Qed.

Lemma play_turns_plays names turns pending :
  all_tracked names pending →
  plays names 0 [] pending (play_turns turns pending).1 (play_turns turns pending).2.
Proof.
  revert pending. induction turns as [|[i|now] turns IH]; intros pending Ht; cbn [play_turns].
  - by apply plays_nil.
  - destruct (pending !! i) as [[|r rs]|] eqn:Hi; [by apply IH| |by apply IH].
    pose proof (Forall_lookup_1 _ _ _ _ Ht Hi) as [Hr Hrs]%Forall_cons.
    assert (all_tracked names (<[i := rs]> pending)) as Ht' by (by apply Forall_insert).
    pose proof (lookup_lt_Some _ _ _ Hi) as Hlt.
    destruct (play_turns turns (<[i := rs]> pending)) as [acts p] eqn:Hp.
    specialize (IH _ Ht'). rewrite Hp in IH. cbn [fst snd] in *. destruct IH as [He Ho Hl Htp].
    rewrite app_nil_r in He. rewrite length_insert in *. split; [| |done|done].
    + rewrite app_nil_r. change (events (observe i r :: acts)) with (recorded_event r :: events acts).
      rewrite <- app_comm_cons, He. by apply all_events_insert.
    + intros k. rewrite <- app_comm_cons. cbn [acts_ok observe].
      rewrite (proj2 (Nat.ltb_lt _ _)) by done. rewrite bool_decide_true by done. apply Ho.
  - specialize (IH _ Ht). destruct (play_turns turns pending) as [acts p].
    cbn [fst snd] in *. destruct IH as [He Ho Hl Htp]. by split.
Qed.

Lemma launch_plays names recs i launching pending :
  all_tracked names recs → all_tracked names pending →
  plays names (length recs) recs pending
    (launch_acts recs i launching pending).1 (launch_acts recs i launching pending).2.
Proof.
  revert i pending. induction recs as [|r recs IH]; intros i pending Hr Ht; cbn [launch_acts].
  { by apply plays_nil. }
  apply Forall_cons in Hr as [Hr Hrecs].
  assert (all_tracked names (pending ++ [r])) as Ht1 by (apply Forall_app; by rewrite Forall_singleton).
  pose proof (play_turns_plays names (launching i) _ Ht1) as Hp.
  destruct (play_turns (launching i) (pending ++ [r])) as [acts1 p1]. cbn [fst snd] in Hp.
  specialize (IH (S i) p1 Hrecs (pl_tracked _ _ _ _ _ _ Hp)).
  destruct (launch_acts recs (S i) launching p1) as [acts2 p2]. cbn [fst snd] in *.
  destruct (plays_app _ _ _ _ _ _ _ _ _ _ Hp IH) as [He Ho Hl Htp].
  rewrite length_app in Ho, Hl. cbn [length] in *. split.
  - change (events (Register :: acts1 ++ acts2)) with (events (acts1 ++ acts2)).
    rewrite He. by rewrite <- app_assoc.
  - intros k. rewrite <- app_comm_cons. cbn [acts_ok]. rewrite <- Nat.add_1_r, Ho. f_equal. lia.
  - lia.
  - done.
Qed.

Lemma flush_spec names n i pending :
  all_tracked names pending → (i + length pending ≤ n)%nat →
  events (flush i pending) = all_events pending ∧ acts_ok names n (flush i pending) = true.
Proof.
  revert i. induction pending as [|rs pending IH]; intros i Ht Hn; [done|].
  apply Forall_cons in Ht as [Hrs Ht]. cbn [length flush] in *. destruct (IH (S i) Ht) as [He Ho]; [lia|].
  change (rs :: pending) with ([rs] ++ pending). rewrite all_events_app, events_app, He.
  unfold all_events at 2. cbn [mjoin list_join]. rewrite app_nil_r.
  clear IH He. induction Hrs as [|r rs Hr _ IHr]; [done|]. destruct IHr as [He' Ho'].
  cbn [fmap list_fmap]. split.
  - apply (f_equal (cons (recorded_event r))) in He'. exact He'.
  - cbn [app acts_ok observe]. rewrite (proj2 (Nat.ltb_lt _ _)) by lia. by rewrite bool_decide_true.
Qed.

(** Whatever the scheduler does, the collector is told of all that the workers
    record, each recording on a window that has been registered. *)
Lemma schedule_spec names recs launching running stopping :
  all_tracked names recs →
  let s := schedule recs launching running stopping in
  events (s.1 ++ s.2) ≡ₚ all_events recs ∧ acts_ok names 0 (s.1 ++ s.2) = true.
Proof.
  intros Hr. unfold schedule.
  pose proof (launch_plays names recs 0 launching [] Hr (Forall_nil_2 _)) as H1.
  destruct (launch_acts recs 0 launching []) as [acts1 p1]. cbn [fst snd] in H1.
  pose proof (play_turns_plays names running p1 (pl_tracked _ _ _ _ _ _ H1)) as H2.
  destruct (play_turns running p1) as [acts2 p2]. cbn [fst snd] in H2.
  pose proof (play_turns_plays names stopping p2 (pl_tracked _ _ _ _ _ _ H2)) as H3.
  destruct (play_turns stopping p2) as [acts3 p3]. cbn [fst snd] in H3 |- *.
  pose proof (plays_app _ _ _ _ _ _ _ _ _ _ (plays_app _ _ _ _ _ _ _ _ _ _ H1 H2) H3)
    as [He Ho Hl Ht].
  rewrite !app_nil_r in He. cbn [length app] in *.
  destruct (flush_spec names (length p3) 0 p3 Ht) as [Hfe Hfo]; [lia|].
  rewrite (app_assoc (acts1 ++ acts2)). split.
  - by rewrite events_app, Hfe, He.
  - rewrite Ho, <- Hl. exact Hfo.
Qed.

(** ** What a worker's run is *)

Section worker.
Context {R : Type} `{Rand R}.
Context (cfg : Config) (ops : list WeightedOp) (st : oltp_state).

Lemma worker_its_done (ww : worker_world R) :
  ∃ pre, worker_its true ww = pre ++ [mkIteration true 0 true true].
Proof. unfold worker_its. rewrite app_assoc. by eexists. Qed.

(** Once the context is done the worker returns, or has panicked. *)
Lemma worker_run_returned (ww : worker_world R) : returned (worker_run cfg ops st true ww) = true.
Proof.
  unfold worker_run, RunWorker. destruct (worker_its_done ww) as [pre ->].
  unshelve epose proof (@worker_loop_stops _ _ (oltp_executor ww.(ww_handler) cfg st.(os_actors) st.(os_payloads)) _
    (cfg.(ThinkTimeMs) *! Millisecond) ops pre (mkIteration true 0 true true) [] [] [] ww.(ww_rng)
    (mkWorker (newWorkerStats (OpNames ops)) [] [] []) eq_refl) as [_ Hnr].
  destruct (worker_loop _ _ _ _ _ _) as [w|w|w e r]; [done..|]. by destruct (Hnr w e r).
Qed.

Lemma final_worker_alike (ww : worker_world R) :
  ops ≠ [] → told_alike (OpNames ops) (final_worker cfg ops st ww).
Proof. intros Hne. unfold final_worker, worker_run, RunWorker. by apply worker_loop_alike. Qed.

Lemma worker_loop_records {E} `{Executor E R} thinkTime its (exec : E) (rng : R) w :
  (length (result_worker (worker_loop thinkTime ops its exec rng w)).(w_records)
   ≤ length w.(w_records) + length its)%nat.
Proof.
  revert exec rng w. induction its as [|it its IH]; intros exec rng w; [cbn; lia|].
  cbn [worker_loop]. case_match; [cbn [result_worker]; lia|].
  destruct (Intn 100 rng) as [[roll rng']|]; [|cbn [result_worker]; lia].
  destruct (runOp exec rng' (SelectOp roll ops)) as [[[outcome exec'] rng''] g].
  destruct outcome as [err|]; [|cbn [result_worker add_calls w_records]; lia].
  destruct (account _ _ _ _ _) as [w'|] eqn:Ha; [|cbn [result_worker add_calls w_records]; lia].
  assert (length w'.(w_records) ≤ S (length w.(w_records)))%nat as Hw'.
  { apply account_cases in Ha as [->|[->|[_ ->]]]; rewrite ?length_app; cbn; lia. }
  case_match; [cbn [result_worker length]; lia|]. specialize (IH exec' rng'' w'). cbn [length]. lia.
Qed.

Lemma final_worker_records (ww : worker_world R) :
  (length (final_worker cfg ops st ww).(w_records) ≤ length (worker_its true ww))%nat.
Proof.
  unfold final_worker, worker_run, RunWorker.
  etrans; [apply worker_loop_records|]. cbn [w_records length]. lia.
Qed.
End worker.

(** Over a profile in good order and any environment, it does not panic. *)
Lemma worker_run_finishes {R} `{RandOk R} (cfg : Config) (ops : list WeightedOp) (st : oltp_state)
    (env : Env) (ww : worker_world R) :
  (ResolveWeights env oltp_ops).2 = Ok ops → pools_ready st.(os_actors) → payloads_ok st.(os_payloads) →
  ok_handler ww.(ww_handler) → Z.of_nat (length (worker_its true ww)) < int64_max →
  ∃ wk, worker_run cfg ops st true ww = Finished wk.
Proof.
  intros Hops Ha Hp Hh Hb. unfold worker_run. destruct (worker_its_done ww) as [pre Hpre].
  rewrite Hpre in *.
  destruct (oltp_worker_runs env cfg ops st.(os_actors) st.(os_payloads) ww.(ww_handler) pre
    (mkIteration true 0 true true) [] ww.(ww_rng)) as (wk & Hw & _); [done..|].
  by exists wk.
Qed.
