(* ===== verification/Main.v ===== *)
(** * main.go: from start-up to the last line

    [main] as a program over the answers of its environment: it emits the
    effects it has, in order, and ends in one of the ways a Go process ends.
    The goroutines of the workers are their runs (Schedule). *)

From S2P Require Export Pool.
From S2P Require Export Schedule.
From S2P Require Export ResultFile.
From S2P Require Export MetricsTypes.
From S2P Require Export Summary.

(** ** Effects and ways to end *)

(** The goroutines started next to the workers. *)
Inductive background := SummaryLoop | TableStatsLoop | PGStatsLoop | IndexStatsLoop.

Inductive effect :=
  | EPool (a : pool_action)
  | EMigrate (a : db_action)
  | EInit
  | ERegister (ms : list Metric)
  | ERegisterPool (c : PoolCollector)
  | EListen (addr : string)
  | EDatasetStart (tables : list string)
  | EServerInfo
  | EStartLoop (b : background) (interval : Duration)
  | EStartWorker (id : nat)
  | EReady
  | ECancel
  | EWaitWorkers
  | EFinalize
  | EDatasetEnd (tables : list string)
  | EWriteResult (path : string)
  | EShutdown (timeout : Duration)
  | EClosePool.

(** [log.Fatalf] exits without running the deferred calls, and so does a panic
    of another goroutine; a panic of [main] itself runs them, which closes the
    pool, before the process dies. *)
Inductive halt :=
  | Fatal (text : string)
  | MainPanic
  | GoroutinePanic
  | WaitingForSchema
  | RunningForever
  | WaitingForWorkers.

Inductive outcome (A : Type) :=
  | Go (a : A)
  | Halt (h : halt).
Arguments Go {A}.
Arguments Halt {A}.

(** The effects so far and what comes next. *)
Definition prog (A : Type) : Type := list effect * outcome A.

#[export] Instance prog_ret : MRet prog := λ A a, ([], Go a).

#[export] Instance prog_bind : MBind prog := λ A B f p,
  match p.2 with
  | Go a => (p.1 ++ (f a).1, (f a).2)
  | Halt h => (p.1, Halt h)
  end.

Definition emit (l : list effect) : prog () := (l, Go ()).
Definition halt_with {A} (h : halt) : prog A := ([], Halt h).

(** [log.Fatalf("msg: %v", err)]. *)
Definition fatal {A} (msg : string) (e : error) : prog A :=
  halt_with (Fatal (msg +:+ ": " +:+ Error e)).

Definition or_fatal {A} (msg : string) (r : result A) : prog A :=
  match r with Ok a => mret a | Err e => fatal msg e end.

(** A panic that nothing recovers. *)
Definition or_panic {A} (h : halt) (o : option A) : prog A :=
  match o with Some a => mret a | None => halt_with h end.

(** [defer pool.Close()] when [main] panics, which happens only after there is
    a pool; when it returns, the call is its last effect. *)
Definition closing {A} (p : prog A) : prog A :=
  match p.2 with Halt MainPanic => (p.1 ++ [EClosePool], Halt MainPanic) | _ => p end.

(** ** The environment *)

Record clock := mkClock {
  ck_collector : Time;  (* NewStatsCollector *)
  ck_run : Time;        (* the run context *)
  ck_select : Time;     (* main starts waiting for the end *)
  ck_finalize : Time;   (* Finalize drains *)
  ck_ended : Time;      (* Finalize returns *)
}.

Record world (R : Type) := mkWorld {
  wd_env : Env;
  wd_pool : pool_answers;
  wd_migrate : db_answers;
  wd_seed : Z → R;
  wd_fresh : nat → UUID;
  wd_dataset_start : result (Rows (string * Z * Z));
  wd_server : result (Rows (string * string * string));
  wd_clock : clock;
  wd_workers : nat → worker_world R;
  wd_launching : nat → list turn;
  wd_running : list turn;
  wd_stopping : list turn;
  wd_delay : nat;
  wd_signal : option Time;
  wd_pick : bool;
  wd_dataset_end : result (Rows (string * Z * Z));
  wd_os : os_answers;
  wd_files : fs;
}.
Arguments wd_env {R}.
Arguments wd_pool {R}.
Arguments wd_migrate {R}.
Arguments wd_seed {R}.
Arguments wd_fresh {R}.
Arguments wd_dataset_start {R}.
Arguments wd_server {R}.
Arguments wd_clock {R}.
Arguments wd_workers {R}.
Arguments wd_launching {R}.
Arguments wd_running {R}.
Arguments wd_delay {R}.
Arguments wd_stopping {R}.
Arguments wd_signal {R}.
Arguments wd_pick {R}.
Arguments wd_dataset_end {R}.
Arguments wd_os {R}.
Arguments wd_files {R}.

(** ** The HTTP handlers *)

Definition StatusOK : Z := 200.
Definition StatusServiceUnavailable : Z := 503.

Definition healthz : Z := StatusOK.
Definition readyz (ready : bool) : Z := if ready then StatusOK else StatusServiceUnavailable.

(** The flag after some effects. *)
Definition ready_after (l : list effect) : bool :=
  existsb (λ e, match e with EReady => true | _ => false end) l.

(** ** The end of the run *)

Inductive stop := BySignal | ByDuration.

(** When the run context expires: never without a duration. *)
Definition run_deadline (cfg : Config) (now : Time) : option Time :=
  if cfg.(RunDurationSecs) >? 0 then Some (now + (cfg.(RunDurationSecs) *! Second)) else None.

(** The [select] on the signal and the run context, entered at [now]: the
    first to be ready, and either one ([pick]) when both are. *)
Definition select_stop (now : Time) (deadline signal : option Time) (pick : bool) : option stop :=
  match deadline, signal with
  | None, None => None
  | Some _, None => Some ByDuration
  | None, Some _ => Some BySignal
  | Some d, Some s =>
      let d := Z.max now d in
      let s := Z.max now s in
      if d <? s then Some ByDuration
      else if s <? d then Some BySignal
      else Some (if pick then BySignal else ByDuration)
  end.

Definition stopped_by (s : stop) : string :=
  match s with BySignal => StoppedBySignal | ByDuration => StoppedByDuration end.

(** ** The program *)

Section main.
Context {R : Type} `{Rand R}.
(** [%q], the float formats of the payload and of the result encoders, the
    other texts of the result encoder, [filepath.Dir]. *)
Context (quote_name : string → string) (payload_float : f64 → bytes).
Context (quote : string → string) (float_text : f64 → string) (time_text : Time → option string).
Context (Dir : string → string).

(** Everything up to the registration of the metrics; the payload package was
    initialised before [main], [p0] being its pools. *)
Definition startup (w : world R) (p0 : payloads)
    : prog (Config * Oltp.Profile * list WeightedOp * oltp_state) :=
  cfg ← or_fatal "load config" (Load w.(wd_env));
  profile ← or_fatal "select profile" (GetProfile quote_name cfg.(Config.Profile) registered);
  ops ← or_fatal "resolve op weights" (ResolveWeights w.(wd_env) profile.(Ops)).2;
  let '(acts, err) := NewPool w.(wd_pool) cfg in
  _ ← emit (EPool <$> acts);
  _ ← match err with Some e => fatal "create pool" e | None => mret () end;
  let '(acts, r) := MigrateWithLock w.(wd_migrate) cfg profile.(ProfileSchema) in
  _ ← emit (EMigrate <$> acts);
  _ ← match r with
      | Migrated => mret ()
      | MigrateFailed e => fatal "migrate" e
      | StillWaiting => halt_with WaitingForSchema
      end;
  _ ← emit [EInit];
  st ← or_panic MainPanic (Init payload_float w.(wd_seed) w.(wd_fresh) cfg p0);
  _ ← emit ([ERegister Registry.Register; ERegisterPool newPoolCollectorWith;
             ERegister RegisterTableStats; ERegister RegisterPGStats]
            ++ if cfg.(Config.CreateIndexes) then [ERegister RegisterIndexStats] else []);
  _ ← emit [EListen (":" +:+ fmt_d cfg.(MetricsPort))];
  mret (cfg, profile, ops, st).

(** The dataset and the server before the run, when a result is wanted. *)
Definition measure_start (w : world R) (cfg : Config) (profile : Oltp.Profile)
    : prog (option DatasetSize * option ServerInfo) :=
  if decide (cfg.(ResultJSONPath) = "") then mret (None, None)
  else
    _ ← emit [EDatasetStart profile.(ProfileSchema).(TrackedTables)];
    let datasetStart :=
      match SnapshotDataset w.(wd_dataset_start) with Ok d => Some d | Err _ => None end in
    _ ← emit [EServerInfo];
    let server := match SnapshotServerInfo w.(wd_server) with Ok i => Some i | Err _ => None end in
    mret (datasetStart, server).

(** The loops started before the workers, with the intervals of their tickers. *)
Definition main_loops (cfg : Config) : list (background * Duration) :=
  let summaryInterval := cfg.(SummaryIntervalSecs) *! Second in
  let indexStatsInterval := cfg.(IndexStatsIntervalSecs) *! Second in
  [(SummaryLoop, summaryInterval); (TableStatsLoop, indexStatsInterval);
   (PGStatsLoop, indexStatsInterval)]
  ++ if cfg.(Config.CreateIndexes) then [(IndexStatsLoop, indexStatsInterval)] else [].

(** What each of the workers is in. *)
Definition crew (w : world R) (cfg : Config) : list (worker_world R) :=
  w.(wd_workers) <$> seq 0 (Z.to_nat cfg.(Workers)).

(** What the collector is told, up to the end of the run and until the last
    worker has returned. *)
Definition run_acts (w : world R) (cfg : Config) (ops : list WeightedOp) (st : oltp_state)
    : list action * list action :=
  schedule ((λ ww, (final_worker cfg ops st ww).(w_records)) <$> crew w cfg)
    w.(wd_launching) w.(wd_running) w.(wd_stopping).

(** How the run ends, if it does. *)
Definition end_of_run (w : world R) (cfg : Config) : option stop :=
  select_stop w.(wd_clock).(ck_select) (run_deadline cfg w.(wd_clock).(ck_run)) w.(wd_signal) w.(wd_pick).

(** The effects that start a goroutine which panics: a loop whose ticker
    does, a worker that does. *)
Definition panics (w : world R) (cfg : Config) (ops : list WeightedOp) (st : oltp_state) (e : effect) : bool :=
  match e with
  | EStartLoop _ interval => ticker_panics interval
  | EStartWorker i =>
      panicked (worker_run cfg ops st (bool_decide (is_Some (end_of_run w cfg))) (w.(wd_workers) i))
  | _ => false
  end.

(** A goroutine that panics takes the process down at some point after it
    was started, [delay] effects later: in the middle of what [main] does, or
    while [main] waits for something that never comes, unless [main] has
    returned by then. *)
Definition crash {A} (panics : effect → bool) (delay : nat) (p : prog A) : prog A :=
  match list_find (λ e, panics e = true) p.1 with
  | None => p
  | Some (started, _) =>
      let n := (S started + delay)%nat in
      match p.2 with
      | Go _ => if (n <? length p.1)%nat then (take n p.1, Halt GoroutinePanic) else p
      | Halt _ => (take n p.1, Halt GoroutinePanic)
      end
  end.

(** The loops, the workers, and then readiness. *)
Definition launch (cfg : Config) : prog () :=
  _ ← emit ((λ b, EStartLoop b.1 b.2) <$> main_loops cfg);
  _ ← emit (EStartWorker <$> seq 0 (Z.to_nat cfg.(Workers)));
  emit [EReady].

(** [cancel()]; its result is that the context, and the run context below it,
    are done. *)
Definition cancel : prog bool := _ ← emit [ECancel]; mret true.

(** The run context is done when its parent is, and when it has expired. *)
Definition run_ctx_done (s : stop) (cancelled : bool) : bool :=
  match s with ByDuration => true | BySignal => cancelled end.

(** [wg.Wait()] returns when the goroutines of all workers have. *)
Definition wait_workers (w : world R) (cfg : Config) (ops : list WeightedOp) (st : oltp_state)
    (done : bool) : prog () :=
  if forallb (λ ww, returned (worker_run cfg ops st done ww)) (crew w cfg) then emit [EWaitWorkers]
  else halt_with WaitingForWorkers.

(** What a run that wrote a result leaves: the document, the states of the
    file system and the error of writing. *)
Record report := mkReport {
  rp_result : RunResult; rp_states : list fs; rp_error : option error;
}.

(** The closing measurement, only when there is an opening one. *)
Definition measure_end (w : world R) (profile : Oltp.Profile) (datasetStart : option DatasetSize)
    : prog (option DatasetSnapshot) :=
  match datasetStart with
  | None => mret None
  | Some start =>
      _ ← emit [EDatasetEnd profile.(ProfileSchema).(TrackedTables)];
      mret match SnapshotDataset w.(wd_dataset_end) with
           | Ok d => Some (mkDatasetSnapshot start d (d.(TotalBytes) -! start.(TotalBytes)))
           | Err _ => None
           end
  end.

(** Finalising the collector and writing the result. *)
Definition write_report (w : world R) (cfg : Config) (profile : Oltp.Profile) (ops : list WeightedOp)
    (datasetStart : option DatasetSize) (server : option ServerInfo) (s : stop)
    (c : StatsCollector) : prog (option report) :=
  if decide (cfg.(ResultJSONPath) = "") then mret None
  else
    _ ← emit [EFinalize];
    let '(totals, intervals, started, ended, _) :=
      Finalize c w.(wd_clock).(ck_finalize) w.(wd_clock).(ck_ended) in
    dataset ← measure_end w profile datasetStart;
    let result := BuildRunResult totals started ended cfg ops
                    (mkRunMeta dataset server (stopped_by s) intervals) in
    _ ← emit [EWriteResult cfg.(ResultJSONPath)];
    let '(states, err) :=
      WriteRunResult quote float_text time_text Dir w.(wd_os) cfg.(ResultJSONPath) result w.(wd_files) in
    mret (Some (mkReport result states err)).

(** From the first goroutine to the last line. *)
Definition run_main (w : world R) (cfg : Config) (profile : Oltp.Profile) (ops : list WeightedOp)
    (st : oltp_state) (datasetStart : option DatasetSize) (server : option ServerInfo)
    : prog (option report) :=
  let '(running, stopping) := run_acts w cfg ops st in
  _ ← launch cfg;
  c ← or_panic GoroutinePanic
        (run (NewStatsCollector (OpNames ops) w.(wd_clock).(ck_collector)) running);
  s ← match end_of_run w cfg with
      | Some s => mret s
      | None => halt_with RunningForever
      end;
  cancelled ← cancel;
  _ ← wait_workers w cfg ops st (run_ctx_done s cancelled);
  c ← or_panic GoroutinePanic (run c stopping);
  rep ← write_report w cfg profile ops datasetStart server s c;
  _ ← emit [EShutdown (cfg.(ShutdownTimeoutSecs) *! Second); EClosePool];
  mret rep.

(** The same among the goroutines it starts. *)
Definition run_workload (w : world R) (cfg : Config) (profile : Oltp.Profile) (ops : list WeightedOp)
    (st : oltp_state) (datasetStart : option DatasetSize) (server : option ServerInfo)
    : prog (option report) :=
  crash (panics w cfg ops st) w.(wd_delay) (run_main w cfg profile ops st datasetStart server).

Definition main (w : world R) (p0 : payloads) : prog (option report) :=
  x ← closing (startup w p0);
  let '(cfg, profile, ops, st) := x in
  m ← measure_start w cfg profile;
  run_workload w cfg profile ops st m.1 m.2.
End main.
