(* ===== verification/MainSpec.v ===== *)
(** * main.go: what the program promises

    The order of its effects, readiness, what the written result reports, and
    that a healthy run comes to its end. *)

From S2P Require Export Main.

(** ** Programs and their effects *)

Lemma bind_go {A B} (p : prog A) (f : A → prog B) b :
  (p ≫= f).2 = Go b ↔ ∃ a, p.2 = Go a ∧ (f a).2 = Go b.
Proof.
  destruct p as [l [a|h]]; cbn; [|naive_solver]. split; [by exists a|].
  by intros (? & [= <-] & ?).
Qed.

Lemma bind_eff {A B} (p : prog A) (f : A → prog B) e :
  e ∈ (p ≫= f).1 ↔ e ∈ p.1 ∨ ∃ a, p.2 = Go a ∧ e ∈ (f a).1.
Proof.
  destruct p as [l [a|h]]; cbn; [|naive_solver]. rewrite elem_of_app. naive_solver.
Qed.

Lemma bind_through {A B} (p : prog A) (f : A → prog B) a : p.2 = Go a → (p ≫= f).2 = (f a).2.
Proof. destruct p as [l r]. cbn. by intros ->. Qed.

Lemma bind_eff_through {A B} (p : prog A) (f : A → prog B) a :
  p.2 = Go a → (p ≫= f).1 = p.1 ++ (f a).1.
Proof. destruct p as [l r]. cbn. by intros ->. Qed.

Lemma bind_halt {A B} (p : prog A) (f : A → prog B) h : p.2 = Halt h → (p ≫= f).2 = Halt h.
Proof. destruct p as [l r]. cbn. by intros ->. Qed.

Lemma bind_halt_eff {A B} (p : prog A) (f : A → prog B) h : p.2 = Halt h → (p ≫= f).1 = p.1.
Proof. destruct p as [l r]. cbn. by intros ->. Qed.

Lemma bind_halted {A B} (p : prog A) (f : A → prog B) h :
  (p ≫= f).2 = Halt h ↔ p.2 = Halt h ∨ ∃ a, p.2 = Go a ∧ (f a).2 = Halt h.
Proof. destruct p as [l [a|h']]; cbn; naive_solver. Qed.

Lemma bind_emit {B} l (f : () → prog B) : (emit l ≫= f).2 = (f ()).2.
Proof. done. Qed.

Lemma or_fatal_go {A} msg (r : result A) a : (or_fatal msg r).2 = Go a ↔ r = Ok a.
Proof. destruct r; cbn; naive_solver. Qed.

Lemma or_panic_go {A} h (o : option A) a : (or_panic h o).2 = Go a ↔ o = Some a.
Proof. destruct o; cbn; naive_solver. Qed.

(** ** Order *)

Definition phase (e : effect) : nat :=
  match e with
  | EPool _ => 1 | EMigrate _ => 2 | EInit => 3 | ERegister _ | ERegisterPool _ => 4
  | EListen _ => 5 | EDatasetStart _ => 6 | EServerInfo => 7 | EStartLoop _ _ => 8
  | EStartWorker _ => 9 | EReady => 10 | ECancel => 11 | EWaitWorkers => 12 | EFinalize => 13
  | EDatasetEnd _ => 14 | EWriteResult _ => 15 | EShutdown _ => 16 | EClosePool => 17
  end.

(** The effects go through the phases from [lo] to [hi] without going back. *)
Record ordered (lo hi : nat) (l : list effect) : Prop := {
  ordered_sorted : StronglySorted (≤)%nat (phase <$> l);
  ordered_bounds : Forall (λ e, lo ≤ phase e ≤ hi)%nat l;
}.

Lemma ordered_nil lo hi : ordered lo hi [].
Proof. by repeat constructor. Qed.

Lemma ordered_app lo mid hi l k :
  (lo ≤ mid ≤ hi)%nat → ordered lo mid l → ordered mid hi k → ordered lo hi (l ++ k).
Proof.
  intros Hm [Hs1 Hb1] [Hs2 Hb2]. split.
  - rewrite fmap_app. apply StronglySorted_app_2; [|done|done].
    intros ? ? (x & -> & Hx)%list_elem_of_fmap (y & -> & Hy)%list_elem_of_fmap.
    rewrite Forall_forall in Hb1, Hb2. specialize (Hb1 _ Hx). specialize (Hb2 _ Hy). lia.
  - apply Forall_app. split; eapply Forall_impl; eauto; simpl; lia.
Qed.

Lemma ordered_take lo hi k l : ordered lo hi l → ordered lo hi (take k l).
Proof.
  rewrite <- (take_drop k l) at 1. intros [Hs Hb]. rewrite fmap_app in Hs. split.
  - by apply StronglySorted_app_1_l in Hs.
  - by apply Forall_app in Hb as [Hb _].
Qed.

(** All effects are in one phase. *)
Lemma ordered_const lo hi n l :
  (lo ≤ n ≤ hi)%nat → Forall (λ e, phase e = n) l → ordered lo hi l.
Proof.
  intros Hn Hl. split; [|by eapply Forall_impl; [done|]; simpl; lia].
  induction Hl as [|e l He Hl IH]; [constructor|]. rewrite fmap_cons. constructor; [done|].
  apply Forall_fmap. eapply Forall_impl; [done|]. simpl. lia.
Qed.

Lemma ordered_bind {A B} lo mid hi (p : prog A) (f : A → prog B) :
  (lo ≤ mid ≤ hi)%nat → ordered lo mid p.1 → (∀ a, ordered mid hi (f a).1) →
  ordered lo hi (p ≫= f).1.
Proof.
  intros Hm Hp Hf. destruct p as [l [a|h]]; cbn [fst snd mbind prog_bind] in *.
  - by apply (ordered_app lo mid hi).
  - destruct Hp as [Hs Hb]. split; [done|]. eapply Forall_impl; [done|]. simpl. lia.
Qed.

Lemma ordered_emit lo hi l : ordered lo hi l → ordered lo hi (emit l).1.
Proof. done. Qed.

Create HintDb phases discriminated.
#[export] Hint Resolve ordered_nil ordered_emit : phases.

(** Nothing emitted, whatever the case. *)
Ltac no_effect := repeat case_match; apply ordered_nil.

(** One bind: the first part stays in phases up to [mid]. *)
Ltac step_to mid := apply (ordered_bind _ mid); [lia| |intros ?].

(** A block of effects of phase [n]. *)
Ltac block n :=
  cbn [emit fst]; apply (ordered_const _ _ n); [lia|];
  rewrite ?Forall_app, ?Forall_fmap, ?Forall_cons, ?Forall_nil;
  rewrite ?Forall_forall; repeat split; intros; done.

Section main.
Context {R : Type} `{RandOk R}.
Context (quote_name : string → string) (payload_float : f64 → bytes).
Context (quote : string → string) (float_text : f64 → string) (time_text : Time → option string).
Context (Dir : string → string).

Notation startup := (Main.startup (R:=R) quote_name payload_float).
Notation main := (Main.main (R:=R) quote_name payload_float quote float_text time_text Dir).
Notation write_report := (Main.write_report (R:=R) quote float_text time_text Dir).
Notation run_main := (Main.run_main (R:=R) quote float_text time_text Dir).
Notation run_workload := (Main.run_workload (R:=R) quote float_text time_text Dir).

Lemma ordered_or_fatal {A} lo hi msg (r : result A) : ordered lo hi (or_fatal msg r).1.
Proof. destruct r; apply ordered_nil. Qed.

Lemma ordered_or_panic {A} lo hi h (o : option A) : ordered lo hi (or_panic h o).1.
Proof. destruct o; apply ordered_nil. Qed.

Lemma startup_ordered w p0 : ordered 1 5 (startup w p0).1.
Proof.
  unfold Main.startup. do 3 (step_to 1%nat; [apply ordered_or_fatal|]).
  destruct (NewPool _ _) as [acts err]. step_to 1%nat; [block 1%nat|].
  step_to 2%nat; [no_effect|]. destruct (MigrateWithLock _ _ _) as [dacts r].
  step_to 2%nat; [block 2%nat|]. step_to 3%nat; [no_effect|].
  step_to 3%nat; [block 3%nat|]. step_to 4%nat; [apply ordered_or_panic|].
  step_to 4%nat; [|step_to 5%nat; [block 5%nat|no_effect]].
  case_match; block 4%nat.
Qed.

Lemma measure_start_ordered (w : world R) cfg profile : ordered 6 7 (measure_start w cfg profile).1.
Proof.
  unfold measure_start. case_decide; [no_effect|].
  step_to 6%nat; [block 6%nat|]. step_to 7%nat; [block 7%nat|no_effect].
Qed.

Lemma write_report_ordered w cfg profile ops ds server s c :
  ordered 13 15 (write_report w cfg profile ops ds server s c).1.
Proof.
  unfold Main.write_report. case_decide; [no_effect|]. step_to 13%nat; [block 13%nat|].
  destruct (Finalize _ _ _) as [[[[totals intervals] started] ended] c'].
  step_to 14%nat; [unfold measure_end; case_match; [|no_effect]|].
  - step_to 14%nat; [block 14%nat|no_effect].
  - step_to 15%nat; [block 15%nat|]. destruct (WriteRunResult _ _ _ _ _ _ _ _). no_effect.
Qed.

Lemma launch_trace cfg :
  (launch cfg).1 = ((λ b, EStartLoop b.1 b.2) <$> main_loops cfg)
                   ++ (EStartWorker <$> seq 0 (Z.to_nat cfg.(Workers))) ++ [EReady].
Proof. reflexivity. Qed.

Lemma launch_ordered cfg : ordered 8 10 (launch cfg).1.
Proof.
  unfold launch. step_to 8%nat; [block 8%nat|]. step_to 9%nat; [block 9%nat|block 10%nat].
Qed.

Lemma wait_workers_ordered (w : world R) cfg ops st done :
  ordered 12 12 (wait_workers w cfg ops st done).1.
Proof. unfold wait_workers. case_match; [block 12%nat|no_effect]. Qed.

Lemma run_main_ordered w cfg profile ops st ds server :
  ordered 8 17 (run_main w cfg profile ops st ds server).1.
Proof.
  unfold Main.run_main. destruct (run_acts w cfg ops st) as [running stopping].
  step_to 10%nat; [apply launch_ordered|]. step_to 10%nat; [apply ordered_or_panic|].
  step_to 11%nat; [no_effect|]. step_to 11%nat; [step_to 11%nat; [block 11%nat|no_effect]|].
  step_to 12%nat; [apply (ordered_app 11 12 12 []); [lia|apply ordered_nil|apply wait_workers_ordered]|].
  step_to 12%nat; [apply ordered_or_panic|]. step_to 15%nat.
  { apply (ordered_app 12 13 15 []); [lia|apply ordered_nil|apply write_report_ordered]. }
  step_to 17%nat; [|no_effect].
  apply (ordered_app 15 16 17 [EShutdown _] [EClosePool]); [lia|block 16%nat|block 17%nat].
Qed.

(** ** Panics of other goroutines *)

(** What is left of a program another goroutine may take down. *)
Lemma crash_prefix {A} panics k (p : prog A) : ∃ n, (crash panics k p).1 = take n p.1.
Proof.
  unfold crash. assert (∃ n, p.1 = take n p.1) as Hall by (exists (length p.1); by rewrite take_ge).
  destruct (list_find _ _) as [[started e]|]; [|done]. destruct p.2; [case_match|]; eauto.
Qed.

Lemma crash_go {A} panics k (p : prog A) a :
  (crash panics k p).2 = Go a → p.2 = Go a ∧ (crash panics k p).1 = p.1.
Proof.
  unfold crash. destruct (list_find _ _) as [[started e]|]; [|done].
  destruct p.2 eqn:Hp; [case_match|]; [done|by rewrite Hp|done].
Qed.

(** Nothing panics. *)
Lemma crash_none {A} panics k (p : prog A) :
  Forall (λ e, panics e = false) p.1 → crash panics k p = p.
Proof.
  intros Hp. unfold crash. destruct (list_find _ _) as [[started e]|] eqn:Hf; [|done].
  apply list_find_Some in Hf as (He & Hpe & _). apply (Forall_lookup_1 _ _ _ _ Hp) in He. congruence.
Qed.

Lemma run_workload_ordered w cfg profile ops st ds server :
  ordered 8 17 (run_workload w cfg profile ops st ds server).1.
Proof.
  unfold Main.run_workload. edestruct @crash_prefix as [n ->]. apply ordered_take, run_main_ordered.
Qed.

(** Where [startup] gets to when it returns. *)
Lemma startup_go w p0 cfg profile ops st :
  (startup w p0).2 = Go (cfg, profile, ops, st) ↔
  Load w.(wd_env) = Ok cfg
  ∧ GetProfile quote_name cfg.(Config.Profile) Oltp.registered = Ok profile
  ∧ (ResolveWeights w.(wd_env) profile.(Ops)).2 = Ok ops
  ∧ (NewPool w.(wd_pool) cfg).2 = None
  ∧ (MigrateWithLock w.(wd_migrate) cfg profile.(ProfileSchema)).2 = Migrated
  ∧ Init payload_float w.(wd_seed) w.(wd_fresh) cfg p0 = Some st.
Proof.
  unfold Main.startup. rewrite bind_go. setoid_rewrite or_fatal_go.
  setoid_rewrite bind_go. setoid_rewrite or_fatal_go. setoid_rewrite bind_go. setoid_rewrite or_fatal_go.
  split.
  - intros (cfg' & Hl & profile' & Hp & ops' & Ho & Hrest).
    destruct (NewPool w.(wd_pool) cfg') as [acts [e|]] eqn:Hpool;
      [by repeat (apply bind_go in Hrest as (? & ? & Hrest))|].
    apply bind_go in Hrest as (? & _ & (? & _ & Hrest)%bind_go).
    destruct (MigrateWithLock w.(wd_migrate) cfg' profile'.(ProfileSchema)) as [dacts r] eqn:Hm.
    apply bind_go in Hrest as (? & _ & (? & Hr & Hrest)%bind_go).
    apply bind_go in Hrest as (? & _ & (st' & Hi%or_panic_go & Hrest)%bind_go).
    apply bind_go in Hrest as (? & _ & (? & _ & [= <- <- <- <-])%bind_go).
    rewrite Hpool, Hm. destruct r; try done.
  - intros (Hl & Hp & Ho & Hpool & Hm & Hi). exists cfg. split; [done|]. exists profile. split; [done|].
    exists ops. split; [done|].
    destruct (NewPool w.(wd_pool) cfg) as [acts err]. cbn [snd] in Hpool. subst err.
    destruct (MigrateWithLock w.(wd_migrate) cfg profile.(ProfileSchema)) as [dacts r].
    cbn [snd] in Hm. subst r. rewrite Hi. done.
Qed.

Lemma startup_init w p0 x : (startup w p0).2 = Go x → EInit ∈ (startup w p0).1.
Proof.
  destruct x as [[[cfg profile] ops] st]. intros (Hl & Hp & Ho & Hpool & Hm & Hi)%startup_go.
  unfold Main.startup. rewrite Hl. cbn [or_fatal]. apply bind_eff. right. exists cfg. split; [done|].
  rewrite Hp. apply bind_eff. right. exists profile. split; [done|].
  rewrite Ho. apply bind_eff. right. exists ops. split; [done|].
  destruct (NewPool _ _) as [acts err]. cbn [snd] in Hpool. subst err.
  apply bind_eff. right. eexists. split; [done|]. apply bind_eff. right. eexists. split; [done|].
  destruct (MigrateWithLock _ _ _) as [dacts r]. cbn [snd] in Hm. subst r.
  apply bind_eff. right. eexists. split; [done|]. apply bind_eff. right. eexists. split; [done|].
  apply bind_eff. left. by constructor.
Qed.

(** [main] after a start-up that returned, and after one that did not. *)
Lemma main_started w p0 cfg profile ops st :
  (startup w p0).2 = Go (cfg, profile, ops, st) →
  ∃ m, (measure_start w cfg profile).2 = Go m
    ∧ (main w p0).1 = (startup w p0).1 ++ (measure_start w cfg profile).1
                      ++ (run_workload w cfg profile ops st m.1 m.2).1
    ∧ (main w p0).2 = (run_workload w cfg profile ops st m.1 m.2).2.
Proof.
  intros Hs. assert (∃ m, (measure_start w cfg profile).2 = Go m) as [m Hm].
  { unfold measure_start. case_decide; by eexists. }
  exists m. split; [done|]. unfold Main.main. assert (closing (startup w p0) = startup w p0) as ->.
  { unfold closing. by rewrite Hs. }
  rewrite (bind_through _ _ _ Hs), (bind_eff_through _ _ _ Hs). cbn [fst snd].
  by rewrite (bind_through _ _ _ Hm), (bind_eff_through _ _ _ Hm).
Qed.

Lemma main_not_started w p0 h :
  (startup w p0).2 = Halt h → main w p0 = ((closing (startup w p0)).1, Halt h).
Proof.
  intros Hs. unfold Main.main. assert ((closing (startup w p0)).2 = Halt h) as Hc.
  { unfold closing. rewrite Hs. by destruct h. }
  destruct (closing (startup w p0)) as [l o]. cbn [snd] in Hc. by subst o.
Qed.

Lemma main_go w p0 rep :
  (main w p0).2 = Go rep → ∃ cfg profile ops st m,
    (startup w p0).2 = Go (cfg, profile, ops, st) ∧ (measure_start w cfg profile).2 = Go m
    ∧ (run_workload w cfg profile ops st m.1 m.2).2 = Go rep.
Proof.
  intros Hgo. destruct (startup w p0).2 as [[[[cfg profile] ops] st]|h] eqn:Hs.
  - destruct (main_started _ _ _ _ _ _ Hs) as (m & Hm & _ & Hr). rewrite Hr in Hgo. eauto 10.
  - by rewrite (main_not_started _ _ _ Hs) in Hgo.
Qed.

(** What has succeeded before an effect of phase [n]. *)
Definition reached (w : world R) (n : nat) (cfg : Config) : Prop :=
  Load w.(wd_env) = Ok cfg ∧ ∃ profile ops,
    GetProfile quote_name cfg.(Config.Profile) Oltp.registered = Ok profile
    ∧ (ResolveWeights w.(wd_env) profile.(Ops)).2 = Ok ops
    ∧ (2 ≤ n → (NewPool w.(wd_pool) cfg).2 = None)%nat
    ∧ (3 ≤ n → (MigrateWithLock w.(wd_migrate) cfg profile.(ProfileSchema)).2 = Migrated)%nat.

Lemma startup_reached w p0 e :
  e ∈ (startup w p0).1 → ∃ cfg, reached w (phase e) cfg.
Proof.
  unfold Main.startup. intros [Hf|(cfg & Hl%or_fatal_go & He)]%bind_eff.
  { destruct (Load w.(wd_env)); by apply elem_of_nil in Hf. }
  apply bind_eff in He as [Hf|(profile & Hp%or_fatal_go & He)].
  { destruct (GetProfile _ _ _); by apply elem_of_nil in Hf. }
  apply bind_eff in He as [Hf|(ops & Ho%or_fatal_go & He)].
  { destruct (ResolveWeights _ _).2; by apply elem_of_nil in Hf. }
  exists cfg. split; [done|]. exists profile, ops. split; [done|]. split; [done|].
  destruct (NewPool w.(wd_pool) cfg) as [acts err].
  apply bind_eff in He as [(a & -> & _)%list_elem_of_fmap|(? & _ & He)]; [cbn; lia|].
  apply bind_eff in He as [Hf|(? & Herr & He)].
  { destruct err; by apply elem_of_nil in Hf. }
  destruct err; [done|]. split; [done|].
  destruct (MigrateWithLock w.(wd_migrate) cfg profile.(ProfileSchema)) as [dacts r].
  apply bind_eff in He as [(a & -> & _)%list_elem_of_fmap|(? & _ & He)]; [cbn; lia|].
  apply bind_eff in He as [Hf|(? & Hr & He)].
  { destruct r; by apply elem_of_nil in Hf. }
  by destruct r.
Qed.

(** A start-up that panics has called [Init]. *)
Lemma startup_panics w p0 : (startup w p0).2 = Halt MainPanic → EInit ∈ (startup w p0).1.
Proof.
  unfold Main.startup. intros [Hf|(cfg & Hl & He)]%bind_halted; [by destruct (Load _)|].
  apply bind_halted in He as [Hf|(profile & Hp & He)]; [by destruct (GetProfile _ _ _)|].
  apply bind_halted in He as [Hf|(ops & Ho & He)]; [by destruct (ResolveWeights _ _).2|].
  apply bind_eff. right. exists cfg. split; [done|]. apply bind_eff. right. exists profile. split; [done|].
  apply bind_eff. right. exists ops. split; [done|].
  destruct (NewPool _ _) as [acts err]. apply bind_halted in He as [Hf|([] & Hu & He)]; [done|].
  apply bind_eff. right. exists (). split; [done|].
  apply bind_halted in He as [Hf|([] & Hu' & He)]; [by destruct err|].
  apply bind_eff. right. exists (). split; [done|].
  destruct (MigrateWithLock _ _ _) as [dacts r]. apply bind_halted in He as [Hf|([] & _ & He)]; [done|].
  apply bind_eff. right. exists (). split; [done|].
  apply bind_halted in He as [Hf|([] & Hr & He)]; [by destruct r|].
  apply bind_eff. right. exists (). split; [done|]. apply bind_eff. left. by constructor.
Qed.

Lemma reached_late w cfg n : reached w 3 cfg → reached w n cfg.
Proof.
  intros (Hl & profile & ops & Hp & Ho & Hpool & Hmig). split; [done|]. exists profile, ops.
  split; [done|]. split; [done|]. split; intros _; [apply Hpool|apply Hmig]; lia.
Qed.

Lemma main_reached w p0 e :
  e ∈ (main w p0).1 → ∃ cfg, reached w (phase e) cfg.
Proof.
  destruct (startup w p0).2 as [[[[cfg profile] ops] st]|h] eqn:Hs.
  - intros _. apply startup_go in Hs as (Hl & Hp & Ho & Hpool & Hm & _). exists cfg. split; [done|].
    exists profile, ops. done.
  - rewrite (main_not_started _ _ _ Hs). unfold closing. rewrite Hs. cbn [fst].
    destruct h; try apply startup_reached. intros [He| ->%list_elem_of_singleton]%elem_of_app;
      [by apply (startup_reached _ p0)|].
    destruct (startup_reached w p0 EInit) as [cfg Hcfg]; [by apply startup_panics|].
    exists cfg. by apply reached_late.
Qed.

Lemma main_ordered w p0 : ordered 1 17 (main w p0).1.
Proof.
  pose proof (startup_ordered w p0) as Hord.
  destruct (startup w p0).2 as [[[[cfg profile] ops] st]|h] eqn:Hs.
  - destruct (main_started _ _ _ _ _ _ Hs) as (m & _ & -> & _).
    apply (ordered_app 1 5 17); [lia|done|]. apply (ordered_app 5 7 17); [lia| |].
    + apply (ordered_app 5 6 7 []); [lia|apply ordered_nil|apply measure_start_ordered].
    + apply (ordered_app 7 8 17 []); [lia|apply ordered_nil|apply run_workload_ordered].
  - rewrite (main_not_started _ _ _ Hs). unfold closing. rewrite Hs. cbn [fst].
    assert (ordered 5 17 [EClosePool]) as Hclose by block 17%nat.
    assert (ordered 5 17 []) as Hnone by apply ordered_nil.
    destruct h;
      first [apply (ordered_app 1 5 17 _ [EClosePool]); [lia|done|done]
            |rewrite <- (app_nil_r (startup w p0).1); apply (ordered_app 1 5 17); [lia|done|done]].
Qed.

(** C14: the order of the program.  In every environment the effects of [main]
    follow its phases without going back: the pool, the migration, the
    profile, the metrics, the server, the opening measurements, the loops, the
    workers, readiness, the end of the run, the closing measurement, the
    result, the shutdown.  Nothing at all happens unless configuration,
    profile and mix are valid; the database is migrated only over a pool that
    answered; and nothing after the migration happens unless it succeeded. *)
Theorem main_order (w : world R) (p0 : payloads) :
  StronglySorted (≤)%nat (phase <$> (main w p0).1)
  ∧ ∀ e, e ∈ (main w p0).1 → ∃ cfg, reached w (phase e) cfg.
Proof. split; [apply main_ordered|]. intros e. apply main_reached. Qed.

(** ** Readiness *)

(** In an ordered trace, what comes before an effect is what has a smaller
    phase. *)
Lemma ordered_before lo hi pre x post e :
  ordered lo hi (pre ++ x :: post) → e ∈ pre ++ x :: post → (phase e < phase x)%nat → e ∈ pre.
Proof.
  intros [Hs _] [He|He]%elem_of_app Hlt; [done|]. exfalso.
  rewrite fmap_app, fmap_cons in Hs. apply StronglySorted_app_1_r in Hs.
  apply StronglySorted_inv in Hs as [_ Hx]. apply elem_of_cons in He as [->|He]; [lia|].
  rewrite Forall_fmap, Forall_forall in Hx. specialize (Hx _ He). cbn in Hx. lia.
Qed.

Lemma ordered_take_before lo hi n l x e :
  ordered lo hi l → x ∈ take n l → e ∈ l → (phase e < phase x)%nat → e ∈ take n l.
Proof.
  intros Hord Hx He Hlt. apply list_elem_of_split in Hx as (pre & post & Hx).
  rewrite <- (take_drop n l), Hx, <- app_assoc, <- app_comm_cons in Hord, He.
  rewrite Hx. apply elem_of_app. left. by eapply ordered_before.
Qed.

(** What [launch] does, [run_main] does. *)
Lemma run_main_launches w cfg profile ops st ds server e :
  e ∈ (launch cfg).1 → e ∈ (run_main w cfg profile ops st ds server).1.
Proof.
  intros He. unfold Main.run_main. destruct (run_acts w cfg ops st). apply bind_eff. by left.
Qed.

Lemma launch_workers cfg i : (i < Z.to_nat cfg.(Workers))%nat → EStartWorker i ∈ (launch cfg).1.
Proof.
  intros Hi. unfold launch. cbn [mbind prog_bind emit fst snd]. apply elem_of_app. right.
  apply elem_of_app. left. apply list_elem_of_fmap. exists i. split; [done|]. apply elem_of_seq. lia.
Qed.

Lemma run_workload_ready w cfg profile ops st ds server i :
  EReady ∈ (run_workload w cfg profile ops st ds server).1 → (i < Z.to_nat cfg.(Workers))%nat →
  EStartWorker i ∈ (run_workload w cfg profile ops st ds server).1.
Proof.
  unfold Main.run_workload. edestruct @crash_prefix as [n ->]. intros Hr Hi.
  eapply ordered_take_before; [apply run_main_ordered|exact Hr| |cbn; lia].
  by apply run_main_launches, launch_workers.
Qed.

(** An effect outside of the phases of a program is not one of its. *)
Lemma ordered_absent lo hi l e : ordered lo hi l → (phase e < lo ∨ hi < phase e)%nat → e ∉ l.
Proof. intros [_ Hb] He Hin. rewrite Forall_forall in Hb. specialize (Hb _ Hin). lia. Qed.

Lemma main_ready w p0 :
  EReady ∈ (main w p0).1 → ∃ cfg, reached w 10 cfg ∧ EInit ∈ (main w p0).1
    ∧ ∀ i, (i < Z.to_nat cfg.(Workers))%nat → EStartWorker i ∈ (main w p0).1.
Proof.
  assert (EReady ∉ (startup w p0).1) as Hno
    by (eapply ordered_absent; [apply startup_ordered|cbn; lia]).
  destruct (startup w p0).2 as [[[[cfg profile] ops] st]|h] eqn:Hs.
  - destruct (main_started _ _ _ _ _ _ Hs) as (m & _ & Heff & _). rewrite Heff.
    assert (EReady ∉ (measure_start w cfg profile).1) as Hno'
      by (eapply ordered_absent; [apply measure_start_ordered|cbn; lia]).
    intros He. exists cfg. split; [|split].
    + pose proof Hs as (Hl & Hp & Ho & Hpool & Hmig & Hi)%startup_go. split; [done|]. by exists profile, ops.
    + apply elem_of_app. left. by eapply startup_init.
    + intros i Hi. apply elem_of_app. right. apply elem_of_app. right.
      apply run_workload_ready; [|done]. set_solver.
  - rewrite (main_not_started _ _ _ Hs). unfold closing. rewrite Hs. cbn [fst].
    intros He. exfalso. destruct h; try done.
    apply elem_of_app in He as [He|[=]%list_elem_of_singleton]. done.
Qed.


(** ** What is reported *)

Lemma registered_profile name profile :
  GetProfile quote_name name Oltp.registered = Ok profile → name = ProfileOLTP ∧ profile = OLTPProfile.
Proof.
  unfold GetProfile, Oltp.registered, RegisterProfile. rewrite insert_empty, lookup_singleton.
  by case_decide; [subst; intros [= <-]|].
Qed.

Lemma op_names_nodup : NoDup op_names.
Proof. apply (bool_decide_unpack (NoDup op_names)). vm_compute. exact I. Qed.

(** What the snapshots around a run give the result. *)
Definition dataset_outcome (w : world R) : option DatasetSnapshot :=
  match SnapshotDataset w.(wd_dataset_start), SnapshotDataset w.(wd_dataset_end) with
  | Ok a, Ok b => Some (mkDatasetSnapshot a b (b.(TotalBytes) -! a.(TotalBytes)))
  | _, _ => None
  end.

Definition server_outcome (w : world R) : option ServerInfo :=
  match SnapshotServerInfo w.(wd_server) with Ok i => Some i | Err _ => None end.

Lemma measure_start_go (w : world R) cfg profile m :
  (measure_start w cfg profile).2 = Go m → cfg.(ResultJSONPath) ≠ "" →
  m.1 = (match SnapshotDataset w.(wd_dataset_start) with Ok d => Some d | Err _ => None end)
  ∧ m.2 = server_outcome w.
Proof.
  unfold measure_start. intros Hm Hp. rewrite decide_False in Hm by done.
  by apply bind_go in Hm as (? & _ & (? & _ & [= <-])%bind_go).
Qed.

Lemma measure_end_go (w : world R) profile :
  (measure_end w profile (match SnapshotDataset w.(wd_dataset_start) with Ok d => Some d | Err _ => None end)).2
  = Go (dataset_outcome w).
Proof. unfold measure_end, dataset_outcome. by destruct (SnapshotDataset w.(wd_dataset_start)). Qed.

(** Where [run_main] gets to. *)
Lemma run_main_go w cfg profile ops st ds server rep :
  (run_main w cfg profile ops st ds server).2 = Go rep ↔ ∃ c1 s c2,
    run (NewStatsCollector (OpNames ops) w.(wd_clock).(ck_collector)) (run_acts w cfg ops st).1 = Some c1
    ∧ end_of_run w cfg = Some s
    ∧ forallb (λ ww, returned (worker_run cfg ops st true ww)) (crew w cfg) = true
    ∧ run c1 (run_acts w cfg ops st).2 = Some c2
    ∧ (write_report w cfg profile ops ds server s c2).2 = Go rep.
Proof.
  unfold Main.run_main. destruct (run_acts w cfg ops st) as [running stopping]. cbn [fst snd].
  split.
  - intros (u & Hu & (c1 & Hc1%or_panic_go & Hrest)%bind_go)%bind_go.
    apply bind_go in Hrest as (s & Hs & (b & [= <-] & (v & Hv & (c2 & Hc2%or_panic_go & Hrest)%bind_go)%bind_go)%bind_go).
    apply bind_go in Hrest as (r & Hr & (? & _ & [= <-])%bind_go).
    exists c1, s, c2. split; [done|].
    assert (end_of_run w cfg = Some s) as Hend
      by (clear -Hs; destruct (end_of_run w cfg); [by injection Hs as ->|done]).
    split; [done|]. split; [|done]. unfold wait_workers in Hv.
    assert (run_ctx_done s true = true) as Hd by (by destruct s). rewrite Hd in Hv.
    revert Hv. by destruct (forallb _ _).
  - intros (c1 & s & c2 & Hc1 & Hs & Hw & Hc2 & Hr). apply bind_go.
    exists (). split; [done|]. apply bind_go. exists c1. split; [by apply or_panic_go|].
    apply bind_go. exists s. rewrite Hs. split; [done|].
    apply bind_go. exists true. split; [done|]. apply bind_go. exists (). split.
    { unfold wait_workers. assert (run_ctx_done s true = true) as -> by (by destruct s). by rewrite Hw. }
    apply bind_go. exists c2. rewrite Hc2. split; [done|].
    apply bind_go. exists rep. split; [done|]. apply bind_go. by exists ().
Qed.

Lemma run_workload_go w cfg profile ops st ds server rep :
  (run_workload w cfg profile ops st ds server).2 = Go rep →
  (run_main w cfg profile ops st ds server).2 = Go rep.
Proof. by intros [? _]%crash_go. Qed.

Lemma write_report_go w cfg profile ops server s c rep :
  (write_report w cfg profile ops
     (match SnapshotDataset w.(wd_dataset_start) with Ok d => Some d | Err _ => None end) server s c).2 = Go rep ↔
  rep = if decide (cfg.(ResultJSONPath) = "") then None
        else
          let '(totals, intervals, started, ended, _) :=
            Finalize c w.(wd_clock).(ck_finalize) w.(wd_clock).(ck_ended) in
          let r := BuildRunResult totals started ended cfg ops
                     (mkRunMeta (dataset_outcome w) server (stopped_by s) intervals) in
          let '(states, err) :=
            WriteRunResult quote float_text time_text Dir w.(wd_os) cfg.(ResultJSONPath) r w.(wd_files) in
          Some (mkReport r states err).
Proof.
  unfold Main.write_report. case_decide.
  { cbn. split; [by intros [= <-]|by intros ->]. }
  rewrite bind_emit. destruct (Finalize _ _ _) as [[[[totals intervals] started] ended] c'].
  rewrite (bind_through _ _ _ (measure_end_go w profile)), bind_emit.
  destruct (WriteRunResult _ _ _ _ _ _ _ _) as [states err]. cbn.
  split; [by intros [= <-]|by intros ->].
Qed.

(** What the workers of a run have recorded in the end. *)
Definition recorded (w : world R) (cfg : Config) (ops : list WeightedOp) (st : oltp_state) : list event :=
  all_events ((λ ww, (final_worker cfg ops st ww).(w_records)) <$> crew w cfg).

Lemma started_profile w p0 cfg profile ops st :
  (startup w p0).2 = Go (cfg, profile, ops, st) →
  profile = OLTPProfile ∧ ops ≠ [] ∧ OpNames ops = op_names.
Proof.
  intros (_ & [_ ->]%registered_profile & Ho%oltp_op_names & _)%startup_go.
  split; [done|]. split; [|done]. intros ->. done.
Qed.

(** The collector is told of exactly what the workers record. *)
Lemma run_acts_spec w cfg ops st :
  ops ≠ [] → let acts := run_acts w cfg ops st in
  events (acts.1 ++ acts.2) ≡ₚ recorded w cfg ops st
  ∧ acts_ok (OpNames ops) 0 (acts.1 ++ acts.2) = true.
Proof.
  intros Hne. apply schedule_spec. apply Forall_fmap, Forall_true. intros ww.
  apply (alike_tracked _ _ (final_worker_alike cfg ops st ww Hne)).
Qed.

(** How the result of a run came about. *)
Lemma main_built (w : world R) (p0 : payloads) cfg profile ops st (rep : report) :
  (startup w p0).2 = Go (cfg, profile, ops, st) → (main w p0).2 = Go (Some rep) →
  cfg.(ResultJSONPath) ≠ "" ∧ ∃ s c,
    end_of_run w cfg = Some s
    ∧ run (NewStatsCollector op_names w.(wd_clock).(ck_collector))
        ((run_acts w cfg ops st).1 ++ (run_acts w cfg ops st).2) = Some c
    ∧ let '(totals, series, started, ended, _) :=
        Finalize c w.(wd_clock).(ck_finalize) w.(wd_clock).(ck_ended) in
      rep.(rp_result) = BuildRunResult totals started ended cfg ops
        (mkRunMeta (dataset_outcome w) (server_outcome w) (stopped_by s) series)
      ∧ (rep.(rp_states), rep.(rp_error))
          = WriteRunResult quote float_text time_text Dir w.(wd_os) cfg.(ResultJSONPath)
              rep.(rp_result) w.(wd_files).
Proof.
  intros Hs Hgo. destruct (started_profile _ _ _ _ _ _ Hs) as (-> & _ & Hnames).
  destruct (main_started _ _ _ _ _ _ Hs) as (m & Hm & _ & Hmain). rewrite Hmain in Hgo.
  apply run_workload_go, run_main_go in Hgo as (c1 & s & c2 & Hc1 & Hstop & _ & Hc2 & Hw).
  destruct (decide (cfg.(ResultJSONPath) = "")) as [Hpath|Hpath].
  { unfold Main.write_report in Hw. by rewrite decide_True in Hw. }
  split; [done|]. exists s, c2. split; [done|].
  rewrite Hnames in Hc1. split; [by rewrite run_app, Hc1|].
  destruct (measure_start_go w cfg _ m Hm Hpath) as [H1 H2]. rewrite H1, H2 in Hw.
  apply write_report_go in Hw. rewrite decide_False in Hw by done.
  destruct (Finalize c2 _ _) as [[[[totals intervals] started] ended] c'].
  cbv zeta in Hw. destruct (WriteRunResult quote float_text time_text Dir _ _ _ _) as [states err] eqn:Hwr.
  injection Hw as ->. cbn [rp_result rp_states rp_error]. split; [done|]. by rewrite Hwr.
Qed.

(** The figures of the document, from what the workers recorded. *)
Lemma main_figures (w : world R) (p0 : payloads) cfg profile ops st (rep : report) :
  (startup w p0).2 = Go (cfg, profile, ops, st) →
  Z.of_nat (length (recorded w cfg ops st)) ≤ int64_max →
  (main w p0).2 = Go (Some rep) →
  let r := rep.(rp_result) in
  let h := recorded w cfg ops st in
  r.(rr_Totals).(rt_Ops) = Z.of_nat (length h)
  ∧ r.(rr_Totals).(rt_Errors) = errors_in h
  ∧ sum_list_Z (or_Count <$> r.(rr_Operations)) = r.(rr_Totals).(rt_Ops)
  ∧ sum_list_Z (is_Ops <$> r.(rr_Timeseries)) = r.(rr_Totals).(rt_Ops)
  ∧ Forall (λ o, let l := obs_for o.(or_Op) h in
      o.(or_Count) = Z.of_nat (length l) ∧ o.(or_Errors) = Z.of_nat (length (failures l)))
      r.(rr_Operations).
Proof.
  intros Hs Hb Hgo. destruct (main_built w p0 _ _ _ _ rep Hs Hgo) as (_ & s & c & _ & Hrun & Hbuilt).
  destruct (started_profile _ _ _ _ _ _ Hs) as (-> & Hne & Hnames).
  destruct (run_acts_spec w cfg ops st Hne) as [Hperm Hok]. rewrite Hnames in Hok.
  set (acts := (run_acts w cfg ops st).1 ++ (run_acts w cfg ops st).2) in *.
  assert (Z.of_nat (length (events acts)) ≤ int64_max) as Hb' by (by rewrite Hperm).
  destruct (document_figures op_names w.(wd_clock).(ck_collector) _ w.(wd_clock).(ck_finalize)
    w.(wd_clock).(ck_ended) cfg ops (dataset_outcome w) (server_outcome w) (stopped_by s)
    op_names_nodup Hok Hb') as (c' & Hrun' & Hdoc).
  rewrite Hrun in Hrun'. injection Hrun' as <-.
  destruct (Finalize c _ _) as [[[[totals intervals] started] ended] c'].
  destruct Hbuilt as [-> _]. destruct Hdoc as (Hops & Herr & Hsum & Hser & _ & Hall).
  cbv zeta. split; [by rewrite Hops, Hperm|]. split; [by rewrite Herr; apply errors_in_perm|].
  split; [done|]. split; [done|]. eapply Forall_impl; [exact Hall|]. intros o (Hc & He & _).
  assert (obs_for o.(or_Op) (events acts) ≡ₚ obs_for o.(or_Op) (recorded w cfg ops st)) as Hobs
    by (by apply obs_for_perm).
  by rewrite Hc, He, Hobs.
Qed.

(** C4: what a run reports.  Whatever the environment answers, whatever the
    workers run into and however the scheduler interleaves them with the
    summaries, a run that gets as far as writing a result wrote the document
    of that run: its totals, its operations and its series are exactly the
    operations and failures that its workers recorded, from the first to the
    last; it says truthfully how the run was stopped; its dataset and server
    parts are there exactly when the measurements were all successful, with the
    growth between them; and the file system went through the states of one
    [WriteRunResult] of that document. *)
Theorem main_report (w : world R) (p0 : payloads) (cfg : Config) profile (ops : list WeightedOp) st
    (rep : report) :
  (startup w p0).2 = Go (cfg, profile, ops, st) →
  Z.of_nat (length (recorded w cfg ops st)) ≤ int64_max →
  (main w p0).2 = Go (Some rep) →
  let r := rep.(rp_result) in
  let h := recorded w cfg ops st in
  cfg.(ResultJSONPath) ≠ ""
  ∧ (∃ s, end_of_run w cfg = Some s ∧ r.(rr_StoppedBy) = stopped_by s)
  ∧ r.(rr_Totals).(rt_Ops) = Z.of_nat (length h)
  ∧ r.(rr_Totals).(rt_Errors) = errors_in h
  ∧ sum_list_Z (or_Count <$> r.(rr_Operations)) = r.(rr_Totals).(rt_Ops)
  ∧ sum_list_Z (is_Ops <$> r.(rr_Timeseries)) = r.(rr_Totals).(rt_Ops)
  ∧ r.(rr_Dataset) = dataset_outcome w ∧ r.(rr_Server) = server_outcome w
  ∧ (rep.(rp_states), rep.(rp_error))
      = WriteRunResult quote float_text time_text Dir w.(wd_os) cfg.(ResultJSONPath) r w.(wd_files).
Proof.
  intros Hs Hb Hgo. destruct (main_figures w p0 _ _ _ _ rep Hs Hb Hgo) as (Hops & Herr & Hsum & Hser & _).
  destruct (main_built w p0 _ _ _ _ rep Hs Hgo) as (Hpath & s & c & Hstop & _ & Hbuilt).
  destruct (Finalize c _ _) as [[[[totals intervals] started] ended] c'].
  destruct Hbuilt as [Hres Hfiles]. cbv zeta in *. rewrite Hfiles.
  split; [done|]. split; [exists s; by rewrite Hres|]. split; [done|]. split; [done|].
  split; [done|]. split; [done|]. by rewrite Hres.
Qed.

(** ** Coming to the end *)

(** The effects of a run that returns: the goroutines are started and the
    readiness flag set, then the context is cancelled, the workers awaited, the
    result written, the server shut down and the pool closed. *)
Lemma run_main_trace w cfg profile ops st ds server rep :
  (run_main w cfg profile ops st ds server).2 = Go rep →
  ∃ mid, ordered 13 15 mid ∧ (run_main w cfg profile ops st ds server).1
    = (launch cfg).1 ++ ECancel :: EWaitWorkers :: mid
      ++ [EShutdown (cfg.(ShutdownTimeoutSecs) *! Second); EClosePool].
Proof.
  intros (c1 & s & c2 & Hc1 & Hs & Hw & Hc2 & Hr)%run_main_go. unfold Main.run_main.
  destruct (run_acts w cfg ops st) as [running stopping]. cbn [fst snd] in *.
  exists (write_report w cfg profile ops ds server s c2).1. split; [apply write_report_ordered|].
  rewrite (bind_eff_through _ _ ()) by done. f_equal.
  rewrite (bind_eff_through _ _ c1) by (by apply or_panic_go). rewrite Hc1, Hs. cbn [or_panic].
  change ((mret c1 : prog _).1) with (@nil effect). rewrite app_nil_l.
  rewrite (bind_eff_through _ _ s) by done. change ((mret s : prog _).1) with (@nil effect).
  rewrite app_nil_l, (bind_eff_through _ _ true) by done. change (cancel.1) with [ECancel].
  cbn [app]. f_equal. assert (run_ctx_done s true = true) as -> by (by destruct s).
  assert (wait_workers w cfg ops st true = emit [EWaitWorkers]) as ->
    by (unfold wait_workers; by rewrite Hw).
  rewrite (bind_eff_through _ _ ()) by done. cbn [emit fst app]. f_equal.
  rewrite (bind_eff_through _ _ c2) by (by apply or_panic_go). rewrite Hc2. cbn [or_panic].
  change ((mret c2 : prog _).1) with (@nil effect). rewrite app_nil_l.
  by rewrite (bind_eff_through _ _ _ Hr).
Qed.

Lemma tickers_fine cfg :
  1 ≤ cfg.(SummaryIntervalSecs) ≤ 9223372036 → 1 ≤ cfg.(IndexStatsIntervalSecs) ≤ 9223372036 →
  Forall (λ b, ticker_panics b.2 = false) (main_loops cfg).
Proof.
  intros Hs Hi. unfold main_loops, ticker_panics, Second. rewrite !wrap64_small by lia.
  destruct (Config.CreateIndexes cfg); repeat constructor; cbn [snd];
    by rewrite (proj2 (Z.leb_gt _ _)) by lia.
Qed.

Lemma write_report_total w cfg profile ops ds server s c :
  ∃ rep, (write_report w cfg profile ops ds server s c).2 = Go rep
    ∧ (rep = None ↔ cfg.(ResultJSONPath) = "").
Proof.
  unfold Main.write_report. case_decide; [by exists None|]. rewrite bind_emit.
  destruct (Finalize _ _ _) as [[[[totals intervals] started] ended] c'].
  assert (∃ d, (measure_end w profile ds).2 = Go d) as [d Hd].
  { unfold measure_end. destruct ds; by eexists. }
  rewrite (bind_through _ _ _ Hd), bind_emit. destruct (WriteRunResult _ _ _ _ _ _ _ _).
  by eexists.
Qed.

Lemma end_of_run_some (w : world R) cfg :
  0 < cfg.(RunDurationSecs) ∨ is_Some w.(wd_signal) → is_Some (end_of_run w cfg).
Proof.
  unfold end_of_run, select_stop, run_deadline. rewrite Z.gtb_ltb. intros [Hd|[sig ->]].
  - rewrite (proj2 (Z.ltb_lt _ _)) by done. repeat case_match; eauto.
  - repeat case_match; eauto.
Qed.

(** Start-up succeeds once everything it asks for does, and leaves the
    profile in good order. *)
Lemma healthy_startup (w : world R) (p0 : payloads) (cfg : Config) (ops : list WeightedOp) :
  float_text_ok payload_float → init_payloads payload_float w.(wd_seed) = Some p0 →
  Load w.(wd_env) = Ok cfg → cfg.(Config.Profile) = ProfileOLTP → allocatable cfg →
  (ResolveWeights w.(wd_env) oltp_ops).2 = Ok ops →
  (NewPool w.(wd_pool) cfg).2 = None →
  (MigrateWithLock w.(wd_migrate) cfg oltpSchema).2 = Migrated →
  ∃ st, (startup w p0).2 = Go (cfg, OLTPProfile, ops, st)
    ∧ pools_ready st.(os_actors) ∧ payloads_ok st.(os_payloads).
Proof.
  intros Hft Hp0 Hload Hprof Hmax Hops Hpool Hmig.
  destruct (Init_ok payload_float w.(wd_seed) w.(wd_fresh) _ _ Hft Hload Hmax)
    as (p0' & st & Hp0' & Hinit & _ & _ & _ & Hpl & _ & Ha). rewrite Hp0 in Hp0'. injection Hp0' as <-.
  exists st. split; [|done]. apply startup_go. split; [done|]. rewrite Hprof. done.
Qed.

Lemma list_sum_cons n l : list_sum (n :: l) = (n + list_sum l)%nat.
Proof. done. Qed.

(** All the passes of the workers' loops. *)
Definition all_passes (w : world R) (cfg : Config) : nat :=
  list_sum ((λ ww, length (worker_its true ww)) <$> crew w cfg).

Lemma crew_passes (w : world R) cfg ww :
  ww ∈ crew w cfg → (length (worker_its true ww) ≤ all_passes w cfg)%nat.
Proof.
  unfold all_passes. induction (crew w cfg) as [|x l IH]; [by intros ?%elem_of_nil|].
  rewrite fmap_cons, list_sum_cons. intros [->|Hin%IH]%elem_of_cons; lia.
Qed.

Lemma recorded_passes (w : world R) cfg ops st :
  (length (recorded w cfg ops st) ≤ all_passes w cfg)%nat.
Proof.
  unfold recorded, all_passes, all_events. rewrite length_fmap.
  induction (crew w cfg) as [|ww l IH]; [cbn; lia|].
  rewrite !fmap_cons, mjoin_cons, length_app. pose proof (final_worker_records cfg ops st ww).
  rewrite list_sum_cons. lia.
Qed.

(** Every worker of a healthy run returns without a panic. *)
Lemma healthy_workers (w : world R) (p0 : payloads) cfg profile ops st :
  (startup w p0).2 = Go (cfg, profile, ops, st) →
  pools_ready st.(os_actors) → payloads_ok st.(os_payloads) →
  (∀ i, ok_handler (w.(wd_workers) i).(ww_handler)) → Z.of_nat (all_passes w cfg) < int64_max →
  ∀ i, (i < Z.to_nat cfg.(Workers))%nat →
    ∃ wk, worker_run cfg ops st true (w.(wd_workers) i) = Finished wk.
Proof.
  intros Hs Ha Hpl Hh Hb i Hi. pose proof Hs as (_ & Hp & Hops & _)%startup_go.
  apply registered_profile in Hp as [_ ->].
  assert (w.(wd_workers) i ∈ crew w cfg) as Hin%crew_passes.
  { apply list_elem_of_fmap. exists i. split; [done|]. apply elem_of_seq. lia. }
  eapply worker_run_finishes; [exact Hops|done..|apply Hh|lia].
Qed.

(** After a start-up, a run that is stopped and whose workers behave returns,
    and no goroutine interferes. *)
Lemma healthy_run (w : world R) (p0 : payloads) (cfg : Config) (ops : list WeightedOp) st :
  (startup w p0).2 = Go (cfg, OLTPProfile, ops, st) →
  cfg.(SummaryIntervalSecs) ≤ 9223372036 → cfg.(IndexStatsIntervalSecs) ≤ 9223372036 →
  (∀ i, (i < Z.to_nat cfg.(Workers))%nat →
     ∃ wk, worker_run cfg ops st true (w.(wd_workers) i) = Finished wk) →
  Z.of_nat (all_passes w cfg) < int64_max → 0 < cfg.(RunDurationSecs) ∨ is_Some w.(wd_signal) →
  ∃ rep pre mid, (main w p0).2 = Go rep ∧ (rep = None ↔ cfg.(ResultJSONPath) = "")
    ∧ (main w p0).1 = pre ++ EReady :: ECancel :: EWaitWorkers :: mid
                      ++ [EShutdown (cfg.(ShutdownTimeoutSecs) *! Second); EClosePool].
Proof.
  intros Hs Hsum Hidx Hfin Hb Hend.
  pose proof Hs as (Hload & _ & Hops & _)%startup_go. pose proof (Load_valid _ _ Hload) as [Hv _].
  pose proof (valid_summary _ Hv). pose proof (valid_index_stats _ Hv).
  destruct (started_profile _ _ _ _ _ _ Hs) as (_ & Hne & Hnames).
  destruct (run_acts_spec w cfg ops st Hne) as [Hperm Hok].
  pose proof (recorded_passes w cfg ops st).
  destruct (run_rep _ _ _ _ (rep_new (OpNames ops) w.(wd_clock).(ck_collector)) Hok) as (c2 & _ & Hrun & _).
  { cbn [drained groups current mjoin list_join app]. rewrite Hperm. cbn. lia. }
  rewrite run_app in Hrun. apply bind_Some in Hrun as (c1 & Hc1 & Hc2).
  destruct (end_of_run_some w cfg Hend) as [s Hstop].
  destruct (main_started _ _ _ _ _ _ Hs) as (m & _ & Heff & Hout).
  destruct (write_report_total w cfg OLTPProfile ops m.1 m.2 s c2) as (rep & Hr & Hn).
  assert ((run_main w cfg OLTPProfile ops st m.1 m.2).2 = Go rep) as Hgo.
  { apply run_main_go. exists c1, s, c2. split; [done|]. split; [done|]. split; [|done].
    apply forallb_forall. intros ww _. apply worker_run_returned. }
  destruct (run_main_trace _ _ _ _ _ _ _ _ Hgo) as (mid & Hmid & Htrace).
  assert (run_workload w cfg OLTPProfile ops st m.1 m.2 = run_main w cfg OLTPProfile ops st m.1 m.2) as Hrw.
  { apply crash_none. rewrite Htrace. unfold launch. cbn [mbind prog_bind emit fst snd].
    rewrite !Forall_app, !Forall_fmap, !Forall_cons, !Forall_nil.
    repeat split; [by apply tickers_fine| |].
    - apply Forall_forall. intros i Hi%elem_of_seq. cbn.
      destruct (Hfin i) as [wk Hwk]; [lia|]. rewrite Hstop, bool_decide_true by eauto. by rewrite Hwk.
    - apply Forall_app. split; [|by repeat constructor].
      eapply Forall_impl; [apply Hmid|]. intros e He. by destruct e; try (cbn in He; lia). }
  exists rep, ((startup w p0).1 ++ (measure_start w cfg OLTPProfile).1
               ++ ((λ b, EStartLoop b.1 b.2) <$> main_loops cfg)
               ++ (EStartWorker <$> seq 0 (Z.to_nat cfg.(Workers)))), mid.
  split; [by rewrite Hout, Hrw|]. split; [done|].
  rewrite Heff, Hrw, Htrace, launch_trace, <- !app_assoc. reflexivity.
Qed.

(** C15: a healthy run comes to its end.  With a valid configuration for the
    registered profile whose pools can be allocated, intervals that fit a
    [time.Duration], a valid mix, a pool, a migrated schema, drivers that keep
    their promises, and either a duration or a signal, [main] starts its
    workers, announces readiness, cancels the context and only then waits for
    the workers; every one of them returns, without a panic; and [main] returns,
    its last effects being to shut the server down and close the pool, whether
    or not the measurements and the writing of the result succeeded.  It
    reports exactly when a result path is configured. *)
Theorem main_completes (w : world R) (p0 : payloads) (cfg : Config) (ops : list WeightedOp) :
  float_text_ok payload_float → init_payloads payload_float w.(wd_seed) = Some p0 →
  Load w.(wd_env) = Ok cfg → cfg.(Config.Profile) = ProfileOLTP → allocatable cfg →
  cfg.(SummaryIntervalSecs) ≤ 9223372036 → cfg.(IndexStatsIntervalSecs) ≤ 9223372036 →
  (ResolveWeights w.(wd_env) oltp_ops).2 = Ok ops →
  (NewPool w.(wd_pool) cfg).2 = None →
  (MigrateWithLock w.(wd_migrate) cfg oltpSchema).2 = Migrated →
  (∀ i, ok_handler (w.(wd_workers) i).(ww_handler)) → Z.of_nat (all_passes w cfg) < int64_max →
  0 < cfg.(RunDurationSecs) ∨ is_Some w.(wd_signal) →
  ∃ st rep pre mid, (startup w p0).2 = Go (cfg, OLTPProfile, ops, st)
    ∧ (main w p0).2 = Go rep ∧ (rep = None ↔ cfg.(ResultJSONPath) = "")
    ∧ (main w p0).1 = pre ++ EReady :: ECancel :: EWaitWorkers :: mid
                      ++ [EShutdown (cfg.(ShutdownTimeoutSecs) *! Second); EClosePool]
    ∧ ∀ i, (i < Z.to_nat cfg.(Workers))%nat →
        EStartWorker i ∈ pre ∧ ∃ wk, worker_run cfg ops st true (w.(wd_workers) i) = Finished wk.
Proof.
  intros Hft Hp0 Hload Hprof Hmax Hsum Hidx Hops Hpool Hmig Hh Hb Hend.
  destruct (healthy_startup w p0 cfg ops) as (st & Hs & Ha & Hpl); [done..|].
  pose proof (healthy_workers w p0 _ _ _ _ Hs Ha Hpl Hh Hb) as Hfin.
  destruct (healthy_run w p0 cfg ops st) as (rep & pre & mid & Hgo & Hnone & Htrace); [done..|].
  exists st, rep, pre, mid. split; [done|]. split; [done|]. split; [done|]. split; [done|].
  intros i Hi. split; [|by apply Hfin].
  pose proof (main_ordered w p0) as Hord. rewrite Htrace in Hord.
  destruct (main_ready w p0) as (cfg' & (Hl & _) & _ & Hw); [rewrite Htrace; set_solver|].
  rewrite Hload in Hl. injection Hl as <-.
  eapply ordered_before; [exact Hord|rewrite <- Htrace; by apply Hw|cbn; lia].
Qed.

(** ** Settings in seconds *)

Lemma seconds_wrap n :
  9223372036 < n ≤ 18446744073 → n *! Second < 0.
Proof.
  intros Hn. replace (n *! Second) with (n * Second - 2 ^ 64); [unfold Second; lia|].
  rewrite <- (wrap64_small (n * Second - 2 ^ 64)) by (unfold Second; lia).
  apply eq64_divide. exists (-1). lia.
Qed.

(** C38: the duration of the run.  Up to 9223372036 seconds the run context
    expires exactly that long after its creation, and never for a duration of
    zero.  Every larger duration, which [Load] accepts too, is cut short: the
    context expires earlier than configured.  Where the conversion to
    nanoseconds is not positive, as from 9223372037 to 18446744073 seconds, it
    has expired before [main] waits for it, and the run ends at once, reported
    as having run its duration, unless a signal is already there; 18446744074
    seconds are 290 milliseconds. *)
Theorem run_duration_bounds (env : Env) (cfg : Config) (now sel : Time) (signal : option Time)
    (pick : bool) :
  Load env = Ok cfg →
  (cfg.(RunDurationSecs) ≤ 9223372036 →
     run_deadline cfg now = if decide (cfg.(RunDurationSecs) = 0) then None
                            else Some (now + cfg.(RunDurationSecs) * Second))
  ∧ (9223372036 < cfg.(RunDurationSecs) →
       ∃ d, run_deadline cfg now = Some d ∧ d < now + cfg.(RunDurationSecs) * Second)
  ∧ (9223372036 < cfg.(RunDurationSecs) ≤ 18446744073 → cfg.(RunDurationSecs) *! Second < 0)
  ∧ (0 < cfg.(RunDurationSecs) → cfg.(RunDurationSecs) *! Second ≤ 0 → now ≤ sel →
     (∀ s, signal = Some s → sel < s) →
     select_stop sel (run_deadline cfg now) signal pick = Some ByDuration)
  ∧ (cfg.(RunDurationSecs) = 18446744074 → run_deadline cfg now = Some (now + 290448384)).
Proof.
  intros [Hv _]%Load_valid. pose proof (valid_duration _ Hv). unfold run_deadline. split_and!.
  - intros Hle. rewrite Z.gtb_ltb. case_decide as Hz; [by rewrite Hz|].
    rewrite (proj2 (Z.ltb_lt _ _)), wrap64_small by (unfold Second; lia). done.
  - intros Hd. rewrite Z.gtb_ltb, (proj2 (Z.ltb_lt _ _)) by lia. eexists. split; [done|].
    pose proof (wrap64_range (cfg.(RunDurationSecs) * Second)). unfold Second in *. lia.
  - apply seconds_wrap.
  - intros Hd Hneg Hsel Hsig. rewrite Z.gtb_ltb, (proj2 (Z.ltb_lt _ _)) by lia. unfold select_stop.
    destruct signal as [s|]; [|done]. specialize (Hsig s eq_refl).
    by rewrite (proj2 (Z.ltb_lt _ _)) by lia.
  - by intros ->.
Qed.

(** The trace of a doomed program up to the goroutine that panics. *)
Lemma crash_first {A} panics k (p : prog A) e l :
  p.1 = e :: l → panics e = true →
  (crash panics k p).2 = Halt GoroutinePanic
  ∨ crash panics k p = p ∧ (length l ≤ k)%nat ∧ ∃ a, p.2 = Go a.
Proof.
  intros Hp He. unfold crash. rewrite Hp. cbn [list_find]. rewrite decide_True by done.
  destruct p.2 as [a|h]; [|by left]. destruct (Nat.ltb_spec (1 + k) (length (e :: l))); [by left|].
  right. split; [done|]. cbn [length] in *. split; [lia|by exists a].
Qed.

(** A run nothing ends gets no further than starting its goroutines. *)
Lemma run_main_endless w cfg profile ops st ds server :
  end_of_run w cfg = None →
  (run_main w cfg profile ops st ds server).1 = (launch cfg).1
  ∧ ∀ rep, (run_main w cfg profile ops st ds server).2 ≠ Go rep.
Proof.
  intros Hend. split; [|intros rep (? & s & ? & _ & Hs & _)%run_main_go; congruence].
  unfold Main.run_main. destruct (run_acts w cfg ops st). rewrite (bind_eff_through _ _ ()) by done.
  destruct (run _ _); rewrite ?Hend; cbn; by rewrite app_nil_r.
Qed.

Lemma first_loop w cfg profile ops st ds server :
  ∃ l, (run_main w cfg profile ops st ds server).1
    = EStartLoop SummaryLoop (cfg.(SummaryIntervalSecs) *! Second) :: l.
Proof.
  unfold Main.run_main. destruct (run_acts w cfg ops st).
  rewrite (bind_eff_through _ _ ()) by done. rewrite launch_trace. by eexists.
Qed.

(** C39: an interval that does not fit.  A summary interval whose conversion to
    nanoseconds is not positive, such as every one from 9223372037 to
    18446744073 seconds, is accepted by [Load], but the ticker of the summary
    loop panics.  The process is then taken down whatever else happens, unless
    the whole run, its result and its shutdown are over before the goroutine of
    the loop is scheduled; in particular a run without a duration and without
    a signal, which would go on for ever, dies, without having stopped its
    workers or written a result. *)
Theorem summary_interval_panics (w : world R) (p0 : payloads) (cfg : Config) profile ops st :
  (startup w p0).2 = Go (cfg, profile, ops, st) →
  (9223372036 < cfg.(SummaryIntervalSecs) ≤ 18446744073 → cfg.(SummaryIntervalSecs) *! Second < 0)
  ∧ (cfg.(SummaryIntervalSecs) *! Second ≤ 0 →
     ((main w p0).2 = Halt GoroutinePanic
      ∨ ∃ rep pre post, (main w p0).2 = Go rep ∧ (length post ≤ w.(wd_delay))%nat
          ∧ (main w p0).1 = pre ++ EStartLoop SummaryLoop (cfg.(SummaryIntervalSecs) *! Second) :: post)
     ∧ (cfg.(RunDurationSecs) = 0 → w.(wd_signal) = None →
        (main w p0).2 = Halt GoroutinePanic
        ∧ ∀ e, e ∈ (main w p0).1 → e ≠ ECancel ∧ ∀ path, e ≠ EWriteResult path)).
Proof.
  intros Hs. split; [apply seconds_wrap|]. intros Hneg.
  destruct (main_started _ _ _ _ _ _ Hs) as (m & _ & Heff & Hout).
  destruct (first_loop w cfg profile ops st m.1 m.2) as [l Hl].
  assert (panics w cfg ops st (EStartLoop SummaryLoop (cfg.(SummaryIntervalSecs) *! Second)) = true) as Hpanic
    by (by apply Z.leb_le).
  pose proof (crash_first _ w.(wd_delay) _ _ _ Hl Hpanic) as Hcr. fold (run_workload w cfg profile ops st m.1 m.2) in Hcr.
  rewrite Heff, Hout. split.
  - destruct Hcr as [Hcr|(Hcr & Hlen & rep & Hgo)]; [by left|]. right. rewrite Hcr, Hl.
    eexists rep, (_ ++ _), l. by rewrite app_assoc.
  - intros Hdur Hsig. assert (end_of_run w cfg = None) as Hend.
    { unfold end_of_run, run_deadline. by rewrite Hdur, Hsig. }
    destruct (run_main_endless w cfg profile ops st m.1 m.2 Hend) as [Htr Hno].
    split; [destruct Hcr as [Hcr|(_ & _ & rep & Hgo)]; [done|by destruct (Hno rep)]|].
    assert (∃ n, (run_workload w cfg profile ops st m.1 m.2).1
      = take n (run_main w cfg profile ops st m.1 m.2).1) as [n Hn] by apply crash_prefix.
    assert (ordered 8 10 (run_workload w cfg profile ops st m.1 m.2).1) as Hrw
      by (rewrite Hn, Htr; apply ordered_take, launch_ordered).
    assert (ordered 1 10 ((startup w p0).1 ++ (measure_start w cfg profile).1
      ++ (run_workload w cfg profile ops st m.1 m.2).1)) as Hord.
    { apply (ordered_app 1 5 10); [lia|apply startup_ordered|].
      apply (ordered_app 5 7 10); [lia| |].
      - apply (ordered_app 5 6 7 []); [lia|apply ordered_nil|apply measure_start_ordered].
      - apply (ordered_app 7 8 10 []); [lia|apply ordered_nil|exact Hrw]. }
    intros e He. split; [intros ->|intros path ->];
      (eapply ordered_absent; [exact Hord| |exact He]); cbn; lia.
Qed.
End main.

(** ** Witnesses

    Two workers for a minute on an empty database, with a result file.  The
    first reads twice; the second fails to read and is then interrupted in the
    middle of an operation. *)

Definition sample_env (extra : string → string) : Env := λ key,
  if decide (extra key = "") then
    if decide (key = "WORKERS") then "2"
    else if decide (key = "RUN_DURATION_SECS") then "60"
    else if decide (key = "RESULT_JSON_PATH") then "out/result.json"
    else ""
  else extra key.

Definition sample_rows (bytes : Z) : result (Rows (string * Z * Z)) :=
  Ok (mkRows [Ok ("sessions", bytes, 10); Ok ("events", 2 * bytes, 20)]%string None).

(** A database whose first query fails, and which is then cut off. *)
Definition struggling : handler := λ tr c,
  match c as c return answer c with
  | CPoolQuery _ _ => Err (if decide (length tr < 2)%nat then ErrNew "deadlock" else context_Canceled)
  | c => calm tr c
  end.

Lemma struggling_ok : ok_handler struggling.
Proof.
  intros tr c. split; [destruct c; first [done|split; simpl; lia]|].
  destruct c; cbn; try done. case_decide; by intros e [= <-].
Qed.

Definition sample_worker (i : nat) : worker_world script :=
  if decide (i = 0%nat) then mkWorkerWorld calm [40; 0; 40; 0] [3 * Millisecond; 2 * Millisecond] None
  else mkWorkerWorld struggling [40; 0; 40; 0] [Millisecond] (Some (Millisecond, true, false)).

Lemma sample_worker_ok i : ok_handler (sample_worker i).(ww_handler).
Proof.
  unfold sample_worker. case_decide; cbn [ww_handler]; [by apply sample_handler_ok|apply struggling_ok].
Qed.

Definition sample_world (extra : string → string) : world script := {|
  wd_env := sample_env extra;
  wd_pool := mkPoolAnswers None (λ _ _, None) None;
  wd_migrate := sample_db true;
  wd_seed := λ i, [i];
  wd_fresh := Z.of_nat;
  wd_dataset_start := sample_rows 1000;
  wd_server := Ok (mkRows [Ok ("server_version", "16.2", "")]%string None);
  wd_clock := mkClock 0 1000 2000 (60 * Second + 5000) (60 * Second + 6000);
  wd_workers := sample_worker;
  wd_launching := λ i, if decide (i = 1%nat) then [TRecord 0] else [];
  wd_running := [TRecord 1; TRecord 1; TDrain (30 * Second)];
  wd_stopping := [];
  wd_delay := 1;
  wd_signal := None;
  wd_pick := true;
  wd_dataset_end := sample_rows 4000;
  wd_os := all_well;
  wd_files := old_files;
|}.

Definition sample_config (extra : string → string) : Config := read_config (sample_env extra).

Notation sample_main :=
  (main (λ s, s) (λ _, of_string "0.5") id (λ _, "0"%string) (λ _, Some "t"%string) (λ _, "out"%string)).

Notation sample_startup := (startup (λ s, s) (λ _, of_string "0.5")).

Lemma sample_float : float_text_ok (λ _, of_string "0.5").
Proof. intros f. split; [by repeat constructor|cbn; lia]. Qed.

Definition no_more : string → string := λ _, ""%string.

(** The same with a summary interval beyond what a duration can hold and no end
    of the run. *)
Definition long_summary : string → string := λ key,
  if decide (key = "SUMMARY_INTERVAL_SECS") then "9223372037"
  else if decide (key = "RUN_DURATION_SECS") then "0" else "".

Lemma sample_p0 : ∃ p0, init_payloads (λ _, of_string "0.5") (λ i, [i] : script) = Some p0.
Proof.
  destruct (startup_pools (λ _, of_string "0.5") (λ i, [i] : script) 8 16 sample_float)
    as (p0 & _ & Hp0 & _); [lia|lia|]. by exists p0.
Qed.

Definition sample_ops (extra : string → string) : list WeightedOp :=
  match (ResolveWeights (sample_env extra) oltp_ops).2 with Ok ops => ops | Err _ => [] end.

Lemma sample_started extra p0 :
  init_payloads (λ _, of_string "0.5") (λ i, [i] : script) = Some p0 →
  extra = no_more ∨ extra = long_summary →
  ∃ st, (sample_startup (sample_world extra) p0).2 = Go (sample_config extra, OLTPProfile, sample_ops extra, st)
    ∧ pools_ready st.(os_actors) ∧ payloads_ok st.(os_payloads).
Proof.
  intros Hp0 He. apply (healthy_startup (λ s, s) _ (sample_world extra) p0 _ _ sample_float Hp0).
  3: split.
  all: destruct He as [->| ->]; vm_compute; reflexivity || discriminate.
Qed.

Lemma main_completes_witness :
  ∃ p0 st rep pre post, (sample_main (sample_world no_more) p0).2 = Go rep ∧ rep ≠ None
    ∧ (sample_main (sample_world no_more) p0).1 = pre ++ EReady :: ECancel :: EWaitWorkers :: post
    ∧ ∃ wk, worker_run (sample_config no_more) (sample_ops no_more) st true (sample_worker 1) = Finished wk.
Proof.
  destruct sample_p0 as [p0 Hp0]. exists p0.
  destruct (main_completes (λ s, s) (λ _, of_string "0.5") id (λ _, "0"%string) (λ _, Some "t"%string)
    (λ _, "out"%string) (sample_world no_more) p0 (sample_config no_more) (sample_ops no_more))
    as (st & rep & pre & mid & _ & Hgo & Hnone & Htrace & Hw).
  - exact sample_float.
  - exact Hp0.
  - vm_compute. reflexivity.
  - vm_compute. reflexivity.
  - split; vm_compute; discriminate.
  - vm_compute. discriminate.
  - vm_compute. discriminate.
  - vm_compute. reflexivity.
  - reflexivity.
  - vm_compute. reflexivity.
  - exact sample_worker_ok.
  - vm_compute. reflexivity.
  - left. vm_compute. reflexivity.
  - exists st, rep, pre, (mid ++ [EShutdown ((sample_config no_more).(ShutdownTimeoutSecs) *! Second); EClosePool]).
    split; [exact Hgo|]. split; [rewrite Hnone; vm_compute; discriminate|]. split; [exact Htrace|].
    apply (Hw 1%nat). apply Nat.ltb_lt. vm_compute. reflexivity.
Defined.

(** The sample run writes a result, and its workers have recorded this. *)
Lemma sample_run : ∃ p0 st rep pre post,
  (sample_startup (sample_world no_more) p0).2
    = Go (sample_config no_more, OLTPProfile, sample_ops no_more, st)
  ∧ (sample_main (sample_world no_more) p0).2 = Go (Some rep)
  ∧ (sample_main (sample_world no_more) p0).1 = (pre ++ [EReady]) ++ post.
Proof.
  destruct sample_p0 as [p0 Hp0].
  destruct (sample_started no_more p0 Hp0 (or_introl eq_refl)) as (st & Hs & Ha & Hpl).
  assert (Z.of_nat (all_passes (sample_world no_more) (sample_config no_more)) < int64_max) as Hb
    by (vm_compute; reflexivity).
  destruct (healthy_run (λ s, s) (λ _, of_string "0.5") id (λ _, "0"%string) (λ _, Some "t"%string)
    (λ _, "out"%string) (sample_world no_more) p0 (sample_config no_more) (sample_ops no_more) st Hs)
    as (rep & pre & mid & Hgo & Hnone & Htrace).
  - vm_compute. discriminate.
  - vm_compute. discriminate.
  - eapply healthy_workers; [exact Hs|exact Ha|exact Hpl|exact sample_worker_ok|exact Hb].
  - exact Hb.
  - left. vm_compute. reflexivity.
  - destruct rep as [rep|]; [|by discriminate (proj1 Hnone eq_refl)].
    exists p0, st, rep, pre. eexists. split; [exact Hs|]. split; [exact Hgo|].
    rewrite Htrace, <- app_assoc. reflexivity.
Qed.

Lemma sample_recorded st :
  recorded (sample_world no_more) (sample_config no_more) (sample_ops no_more) st
  = [(OpReadSimple, obs_of (Seconds (3 * Millisecond)) None);
     (OpReadSimple, obs_of (Seconds (2 * Millisecond)) None);
     (OpReadSimple, obs_of (Seconds Millisecond) (Some (ErrNew "deadlock")))].
Proof. vm_compute. reflexivity. Qed.

Lemma main_report_witness :
  ∃ p0 rep, (sample_main (sample_world no_more) p0).2 = Go (Some rep)
    ∧ rep.(rp_result).(rr_Totals).(rt_Ops) = 3 ∧ rep.(rp_result).(rr_Totals).(rt_Errors) = 1
    ∧ rep.(rp_result).(rr_StoppedBy) = StoppedByDuration
    ∧ (GrowthBytes <$> rep.(rp_result).(rr_Dataset)) = Some 9000.
Proof.
  destruct sample_run as (p0 & st & rep & _ & _ & Hs & Hgo & _). exists p0, rep. split; [exact Hgo|].
  destruct (main_report (λ s, s) (λ _, of_string "0.5") id (λ _, "0"%string) (λ _, Some "t"%string)
    (λ _, "out"%string) (sample_world no_more) p0 _ _ _ st rep Hs)
    as (_ & (s & Hs' & Hst) & Hops & Herr & _ & _ & Hds & _).
  - rewrite sample_recorded. vm_compute. discriminate.
  - exact Hgo.
  - rewrite sample_recorded in Hops, Herr.
    split; [rewrite Hops; vm_compute; reflexivity|].
    split; [rewrite Herr; vm_compute; reflexivity|].
    split; [|rewrite Hds; vm_compute; reflexivity].
    rewrite Hst. vm_compute in Hs'. injection Hs' as <-. reflexivity.
Defined.


Definition long_run (secs : string) : string → string := λ key,
  if decide (key = "RUN_DURATION_SECS") then secs else "".

Lemma run_duration_bounds_witness :
  run_deadline (sample_config no_more) 1000 = Some (1000 + 60 * Second)
  ∧ select_stop 2000 (run_deadline (read_config (long_run "9223372037")) 1000) None true = Some ByDuration
  ∧ run_deadline (read_config (long_run "18446744074")) 1000 = Some (1000 + 290448384).
Proof.
  split; [|split].
  - destruct (run_duration_bounds (sample_env no_more) (sample_config no_more) 1000 2000 None true)
      as [Hd _]; [vm_compute; reflexivity|].
    etrans; [apply Hd; vm_compute; discriminate|vm_compute; reflexivity].
  - destruct (run_duration_bounds (long_run "9223372037") (read_config (long_run "9223372037"))
      1000 2000 None true) as (_ & _ & _ & Hd & _); [vm_compute; reflexivity|].
    apply Hd; [vm_compute; reflexivity|vm_compute; discriminate|lia|discriminate].
  - destruct (run_duration_bounds (long_run "18446744074") (read_config (long_run "18446744074"))
      1000 2000 None true) as (_ & _ & _ & _ & Hd); [vm_compute; reflexivity|].
    apply Hd. vm_compute. reflexivity.
Defined.

Lemma summary_interval_panics_witness :
  ∃ p0, (sample_main (sample_world long_summary) p0).2 = Halt GoroutinePanic
    ∧ ∀ e, e ∈ (sample_main (sample_world long_summary) p0).1 → e ≠ ECancel ∧ ∀ path, e ≠ EWriteResult path.
Proof.
  destruct sample_p0 as [p0 Hp0]. exists p0.
  destruct (sample_started long_summary p0 Hp0 (or_intror eq_refl)) as (st & Hs & _).
  destruct (summary_interval_panics (λ s, s) (λ _, of_string "0.5") id (λ _, "0"%string) (λ _, Some "t"%string)
    (λ _, "out"%string) (sample_world long_summary) p0 _ _ _ _ Hs) as [_ Hpanics].
  apply Hpanics; [vm_compute; discriminate|vm_compute; reflexivity|reflexivity].
Defined.
