(* ===== verification/Agreement.v ===== *)
(** * The document and Prometheus agree

    The workers of a run tell Prometheus about their operations and record
    them in the collector; the document is built from the collector.  Whatever
    the interleaving, both accounts are of the same operations. *)

From S2P Require Export MainSpec.

(** ** Counters *)

Definition inc_delta (name : string) (labels : list string) (c : metric_call) : Z :=
  match c with
  | Inc m ls => if bool_decide (m_name m = name ∧ ls = labels) then 1 else 0
  | _ => 0
  end.

(** The value of a counter after some calls. *)
Definition counter_value (name : string) (labels : list string) (calls : list metric_call) : Z :=
  sum_list_Z (inc_delta name labels <$> calls).

Definition sample_delta (name : string) (labels : list string) (c : metric_call) : Z :=
  match c with
  | ObserveHist m ls _ => if bool_decide (m_name m = name ∧ ls = labels) then 1 else 0
  | _ => 0
  end.

(** The number of samples of a histogram after some calls. *)
Definition sample_count (name : string) (labels : list string) (calls : list metric_call) : Z :=
  sum_list_Z (sample_delta name labels <$> calls).

Lemma counter_value_app name labels l k :
  counter_value name labels (l ++ k) = counter_value name labels l + counter_value name labels k.
Proof. unfold counter_value. by rewrite fmap_app, sum_list_Z_app. Qed.

Lemma sample_count_app name labels l k :
  sample_count name labels (l ++ k) = sample_count name labels l + sample_count name labels k.
Proof. unfold sample_count. by rewrite fmap_app, sum_list_Z_app. Qed.

(** The metrics of one operation say what the events behind the calls say. *)
Definition op_metrics_ok (calls : list metric_call) : Prop := ∀ op,
  let l := obs_for op (call_events calls) in
  counter_value "ops_total" [op; "ok"] calls = Z.of_nat (length (successes l))
  ∧ counter_value "ops_total" [op; "error"] calls = Z.of_nat (length (failures l))
  ∧ sample_count "op_duration_seconds" [op] calls = Z.of_nat (length (successes l)).

Lemma op_metrics_app l k : op_metrics_ok l → op_metrics_ok k → op_metrics_ok (l ++ k).
Proof.
  intros Hl Hk op. destruct (Hl op) as (Hl1 & Hl2 & Hl3), (Hk op) as (Hk1 & Hk2 & Hk3).
  cbv zeta. rewrite !counter_value_app, sample_count_app, call_events_app, obs_for_app,
    successes_app, failures_app, !length_app, !Nat2Z.inj_add. lia.
Qed.

Lemma op_metrics_record op d err : op_metrics_ok (RecordOp op d err).
Proof.
  intros op'. rewrite call_events_RecordOp. cbv zeta. rewrite obs_for_cons. cbn [fst snd].
  unfold counter_value, sample_count.
  destruct err as [e|]; cbn [RecordOp fmap list_fmap inc_delta sample_delta sum_list_Z foldr obs_of];
    repeat case_bool_decide; case_decide; destruct_and?; simplify_eq; try done; naive_solver.
Qed.

Lemma op_metrics_skip op : op_metrics_ok (RecordSkip op).
Proof.
  intros op'. rewrite call_events_skip. unfold counter_value, sample_count.
  cbn [RecordSkip fmap list_fmap inc_delta sample_delta].
  rewrite !bool_decide_false by (by intros [[=] _]). done.
Qed.

Lemma op_metrics_gauge : op_metrics_ok [Inc WorkersActive []; Dec WorkersActive].
Proof. intros op'. done. Qed.

(** ** Along a worker *)

Lemma RunWorker_metrics {E R} `{Executor E R} `{Rand R} cfg ops its (exec : E) (rng : R) ws :
  op_metrics_ok (result_worker (RunWorker cfg ops its exec rng ws)).(w_calls).
Proof.
  unfold RunWorker. apply (worker_loop_invariant (λ w, op_metrics_ok w.(w_calls))).
  - intros roll d ctxErr err w1 w2 Hw [->|[->|[-> _]]]%account_cases; [|done|];
      apply op_metrics_app; [done|apply op_metrics_skip|done|apply op_metrics_record].
  - intros w1 Hw. apply op_metrics_app; [done|apply op_metrics_gauge].
  - intros op. done.
Qed.

(** ** Over all workers *)

(** The counters of an operation over all workers, from the events. *)
Lemma obs_for_calls op (calls : list (list metric_call)) :
  Forall op_metrics_ok calls →
  let l := obs_for op (mjoin (call_events <$> calls)) in
  Z.of_nat (length (successes l)) = sum_list_Z (counter_value "ops_total" [op; "ok"]%string <$> calls)
  ∧ Z.of_nat (length (failures l)) = sum_list_Z (counter_value "ops_total" [op; "error"]%string <$> calls)
  ∧ Z.of_nat (length (successes l)) = sum_list_Z (sample_count "op_duration_seconds" [op] <$> calls).
Proof.
  induction 1 as [|k calls Hk _ IH]; [done|]. destruct (Hk op) as (H1 & H2 & H3). cbv zeta in *.
  rewrite !fmap_cons, mjoin_cons, !sum_list_Z_cons, obs_for_app, successes_app, failures_app,
    !length_app, !Nat2Z.inj_add, H1, H2. destruct IH as (-> & -> & IH). lia.
Qed.

Section run.
Context {R : Type} `{Rand R}.

(** The metric calls of each worker of a run. *)
Definition run_calls (w : world R) (cfg : Config) (ops : list WeightedOp) (st : oltp_state)
    : list (list metric_call) :=
  (λ ww, (final_worker cfg ops st ww).(w_calls)) <$> crew w cfg.

(** What the workers tell Prometheus is what they record. *)
Lemma run_calls_recorded (w : world R) cfg ops st :
  ops ≠ [] → mjoin (call_events <$> run_calls w cfg ops st) = recorded w cfg ops st.
Proof.
  intros Hne. unfold run_calls, recorded, all_events. induction (crew w cfg) as [|ww l IH]; [done|].
  rewrite !fmap_cons, !mjoin_cons, fmap_app, IH. f_equal.
  apply (alike_events _ _ (final_worker_alike cfg ops st ww Hne)).
Qed.

Lemma run_calls_ok (w : world R) cfg ops st : Forall op_metrics_ok (run_calls w cfg ops st).
Proof. apply Forall_fmap, Forall_true. intros ww. apply RunWorker_metrics. Qed.
End run.

(** C5: the document and Prometheus agree.  In any run that wrote a result,
    whatever its workers run into and however they interleave with each other
    and with the summaries, for every operation of the document the count is
    the sum over the workers of the [ops_total] counter with either status, the
    errors are the sum of that counter with status [error], and the operations
    that did not fail are the samples of the duration histogram. *)
Theorem document_agrees_with_prometheus {R} `{Rand R}
    (quote_name : string → string) (payload_float : f64 → bytes) (quote : string → string)
    (float_text : f64 → string) (time_text : Time → option string) (Dir : string → string)
    (w : world R) (p0 : payloads) (cfg : Config) profile (ops : list WeightedOp) (st : oltp_state)
    (rep : report) :
  (startup quote_name payload_float w p0).2 = Go (cfg, profile, ops, st) →
  Z.of_nat (length (recorded w cfg ops st)) ≤ int64_max →
  (main quote_name payload_float quote float_text time_text Dir w p0).2 = Go (Some rep) →
  let calls := run_calls w cfg ops st in
  Forall (λ o,
    let total status := sum_list_Z (counter_value "ops_total" [o.(or_Op); status] <$> calls) in
    o.(or_Count) = total "ok"%string + total "error"%string
    ∧ o.(or_Errors) = total "error"%string
    ∧ o.(or_Count) - o.(or_Errors)
        = sum_list_Z (sample_count "op_duration_seconds" [o.(or_Op)] <$> calls))
    rep.(rp_result).(rr_Operations).
Proof.
  intros Hs Hb Hgo.
  destruct (main_figures _ _ _ _ _ _ w p0 _ _ _ _ rep Hs Hb Hgo) as (_ & _ & _ & _ & Hops).
  destruct (started_profile _ _ w p0 _ _ _ _ Hs) as (_ & Hne & _).
  cbv zeta. eapply Forall_impl; [exact Hops|]. intros o [Hc He]. cbv zeta in *.
  rewrite <- (run_calls_recorded w cfg ops st Hne) in Hc, He.
  destruct (obs_for_calls o.(or_Op) _ (run_calls_ok w cfg ops st)) as (Hok & Hf & Hsample). cbv zeta in *.
  rewrite Hc, He, <- Hok, <- Hf, <- Hsample.
  pose proof (length_successes_failures (obs_for o.(or_Op) (mjoin (call_events <$> run_calls w cfg ops st)))).
  lia.
Qed.

Lemma document_agrees_with_prometheus_witness :
  ∃ p0 st rep, (sample_main (sample_world no_more) p0).2 = Go (Some rep)
    ∧ let calls := run_calls (sample_world no_more) (sample_config no_more) (sample_ops no_more) st in
      sum_list_Z (counter_value "ops_total" [OpReadSimple; "ok"%string] <$> calls) = 2
    ∧ Forall (λ o, o.(or_Count)
        = sum_list_Z (counter_value "ops_total" [o.(or_Op); "ok"%string] <$> calls)
          + sum_list_Z (counter_value "ops_total" [o.(or_Op); "error"%string] <$> calls))
        rep.(rp_result).(rr_Operations).
Proof.
  destruct sample_run as (p0 & st & rep & _ & _ & Hs & Hgo & _). exists p0, st, rep.
  split; [exact Hgo|]. split; [vm_compute; reflexivity|].
  eapply Forall_impl; [apply (document_agrees_with_prometheus (λ s, s) (λ _, of_string "0.5") id
    (λ _, "0"%string) (λ _, Some "t"%string) (λ _, "out"%string) (sample_world no_more) p0 _ _ _ st rep Hs)|].
  - rewrite sample_recorded. vm_compute. discriminate.
  - exact Hgo.
  - intros o Ho. apply Ho.
Defined.
